(* ===== verification/_CoqProject ===== *)
-Q . S2P
Prelude.v
PyStr.v
Text.v
Json.v
Uuid.v
Sha256.v
PushJobs.v
Identity.v
Domain.v
Requests.v
Fingerprint.v
Db.v
Store.v
Tx.v
Manager.v
Protocol.v
Safety.v
Steps.v
Atomic.v
Lifecycle.v
Worker.v
Queue.v
Outcomes.v
Returns.v
Restart.v
Fences.v
Policy.v
Transfers.v
Live.v
Scheduler.v
Runtime.v
Api.v
Discipline.v
Serving.v
Dialogue.v
Dispatching.v
Paths.v
Upload.v
Uploads.v
Consoles.v
Fleet.v
Registry.v
Groups.v
Membership.v
Reload.v
Listing.v
Install.v
Jobs.v
Commands.v
Commanding.v
Devices.v
Retiring.v
Deadlines.v
Sockets.v
Reading.v
Decode.v
Discovery.v
Integrity.v
Manifest.v
Apks.v
Storing.v
Bundles.v
Intake.v
Artifacts.v
Boot.v
Sessions.v
Frames.v
Seeding.v
Startup.v
