(* ===== verification/Prelude.v ===== *)
(** * The STYLY-MDM control server, verified

    This library models the Python server of src/mdm-server/styly_mdm and proves what
    its users rely on.  For its Push/Sync jobs: one request creates one job, a device
    runs one execution at a time and in order, a result that was accepted is never lost
    or overwritten, an execution whose fate is unknown blocks its device until there is
    evidence.  For the registry, the commands, the uploads and the transfers of the
    older server: groups and labels stay consistent and survive a restart, progress
    accounts for every target, uploads never damage one another, a connection that ends
    leaves nothing behind.  All of this holds whatever the clients, the connections and
    the file system do.

    ** The program and its model

    A job is created through the HTTP API, its bundle is uploaded and packaged, an
    administrator enables its dispatch, and the scheduler sends it to one device after
    the other over WebSockets; the devices answer with acceptances, progress, results
    and, after a lost connection, reconciliation reports.  The tables in SQLite are the
    truth; what the event loop keeps in memory is rebuilt.

    - Values.  [PyStr] is Python's [str] as a list of code points with the methods the
      server calls, [Json] the values of [json] with their printer and parser, [Uuid] and
      [Sha256] the two standard library functions the identities rest on; [Text] holds
      facts about strings, [Reading] that the parser reads what the printer writes,
      [Decode] UTF-8.

    The Push/Sync jobs (push_*.py, device_policy.py, transfer_registry.py):

    - [PushJobs] is push_jobs.py: the states, the transition tables, aggregates and the
      derived job state, canonical requests and their fingerprint, capabilities.
    - [Db] is the schema of push_job_store.py ([_initialize]): tables as finite maps,
      [constraints] for keys, indexes and checks, transactions with the tables a
      rollback restores, and snapshots ([_snapshot]).
    - [Store] and [Manager] are push_job_store.py and push_job_manager.py: one
      definition per method, a transaction of statements that may raise.  [Worker] is
      the thread that runs them ([_DbWorker]): its queue, its futures, its end.
    - [Artifacts] is push_artifacts.py over a disk that may crash; [Boot] the start of the
      runtime over the tables and the disk it finds ([__init__], [on_startup]).
    - [Policy] is device_policy.py; [Transfers] is transfer_registry.py with the facade
      of push_runtime.py ([_LegacyTransferAdapter], [_release_transfer_slot]); futures
      are a store of their own, since several tasks share them.
    - [Live] is the event loop: the memory the tasks share ([ram]), exceptions, awaits.
      A task runs alone between two awaits.  At the n-th await the class [world] says
      what the rest of the process does to the tables and to the memory, whether the
      task is cancelled, whether a send or a file operation fails, what time it is.
      [publish], [may_send] and [send] are the runtime's publication and its checked
      sends.
    - [Scheduler] is push_scheduler.py, [Runtime] the handlers of push_runtime.py for
      device frames, registration, disconnection and deadlines, [Api] job creation and
      the administrator's frames, [Upload] the upload handler, [Frames] the web sockets
      that hand frames to the runtime or to server.py, the JSON of snapshots, the
      console's first messages, the publication loop and the end of the runtime.
    - [Paths] holds the path and name checks of server.py and the OS metadata predicate
      of integrity.py.

    The older server (server.py, integrity.py), which keeps its state in dictionaries:

    - [Fleet] is that memory ([fleet]), with Python's operations on values whose type a
      peer chooses, broadcasts, and the effects of a handler ([Handler]): as in [Live] the
      class [host] says what happens at each await.
    - [Consoles] is the fan-out of [_broadcast_admin_message] beneath a broadcast of
      [Fleet]: one task per console, locks, time-outs, consoles that come and go, as a
      system of steps; [Sessions] a console's handler ([admin_ws_handler]).
    - [Registry] normalises, loads and saves the registry and builds the consoles'
      lists; [Groups] holds the commands on labels and groups; [Commands] the commands
      that are sent to many devices; [Devices] the device's frames, with self-update,
      retirement and their timers; [Sockets] the whole [device_ws_handler]; [Deadlines]
      runs the server as a sequence of events of all of these.
    - [Install] is [_run_install_job] and [_run_push_job]: dispatchers of many jobs that
      share one pool of slots, as a system of steps; [Intake] the commands that start
      them.
    - [Apks], [Storing] and [Bundles] are the uploads of packages and bundles and the
      directories they fill; [Integrity] and [Manifest] are integrity.py, over lists of
      bytes and trees of files.
    - [Discovery] is the discovery port and the probe before the start, [Startup] the
      command line, [Seeding] the script scripts/seed_dummy_devices.py.

    Device frames reach [Frames] first; the ones the runtime does not consume go to
    [Sockets].  The two halves share the devices' sockets ([register_canonical_owner],
    [teardown]) and the transfer slots ([release_transfer_slot] of [Install] works on
    server.py's own table, [_release_transfer_slot] of [Transfers] on the runtime's
    registry behind its facade).

    Every definition has the name of the function it translates, or names a part of it;
    a method becomes a function of the state it changes, an exception the outcome
    [Raise], a loop that may run for ever a function with fuel.

    ** What is proved

    - Text and requests ([Requests], [Identity], [Fingerprint], [Domain]): destinations
      stay below shared storage, UUIDs are canonical, two requests have one fingerprint
      only when they ask for the same, the order of targets does not matter, the
      derived state moves along the transition table.
    - Transactions ([Tx], [Returns]): a Hoare logic for operations and one for operations
      that return; [Protocol] states the
      well-formedness of the tables and what a change may do, [Safety] that every
      operation preserves it, [Steps] closes the operations into a transition system,
      [Atomic] and [Lifecycle] give its invariants, [Queue], [Outcomes], [Restart] and
      [Fences] the functional contracts of claims, results, creation, recovery, fences.
    - The running server ([Discipline], [Serving]): every task is built of primitives
      that keep the discipline the lifecycle asks of its callers, so that the tables
      stay in the lifecycle, publications only advance, transfer slots are returned and
      unregistered sockets are told nothing but power commands, on every interleaving.
    - Tasks ([Dialogue], [Dispatching], [Uploads]): answers are delivered once, stale
      sockets are ignored, jobs are created for capable devices only, the claiming loop
      ends, failed dispatches are recovered, uploads settle and stay within the limits.

    - The worker ([Worker]): the calls of the tasks are executed one after the other in
      the order of their submission, and every task gets its answer, also when the worker
      is closed or fails.
    - Artifacts ([Artifacts], [Boot]): a published archive survives crashes, downloads are
      what was published, and the server starts on any tables and files: the recovery
      returns, owned archives stay, orphans go, and no job is left that could hand out an
      archive that is not there.
    - Sockets ([Frames], [Sockets]): every frame is either the runtime's or the handler's,
      in order; consoles learn the unfinished jobs; a socket whose handler has ended
      is found in no dictionary.
    - Consoles ([Consoles], [Sessions]): a console hears the broadcasts in their order and
      without a gap, every fan-out ends, and a console that connects is told the version,
      the devices and the groups.
    - The registry ([Membership], [Reload], [Listing]): groups stay well formed and labels
      unique whatever the consoles send, a restart restores what was saved, a device is
      listed once.
    - Commands ([Commanding], [Retiring], [Deadlines]): system packages are not
      uninstalled, counts are those of the frames that left, each retirement has one live
      timer, and what its end decides.
    - Install and push jobs ([Jobs], [Intake]): counters account for the targets, the pool
      is respected and shared, every job ends, and only checked transfers start.
    - Files ([Integrity], [Manifest], [Storing], [Bundles]): digests are those of the
      specification, a tree hash identifies its files, uploads never touch one another,
      a bundle holds what was uploaded.
    - Start ([Discovery], [Startup], [Seeding]): a second server refuses to start, the
      script numbers new dummies and removes nothing else.

    Where the code falls short of what its comments say, a lemma at the end of a file
    computes the case.

    ** Fuel and bounds

    [_run] and [recover_loop] are loops of the server that end when there is nothing
    more to do; their fuel counts turns.  [Dispatching.claims_end] shows that one more
    than the number of queued assignments is enough for the first,
    [Dispatching.recovery_strands_nothing] that one turn is enough for the second when
    the database answers.  [remove_sub_fuel] and the parser of JSON have the length of
    their text ([Reading] shows that this is enough for every printed text); the search
    for a free name has one turn more than there are names ([Apks.unique_path_total]);
    the turns of the worker's thread are counted by its state ([Worker.answers_arrive]),
    those of a handler's stream by its frames.  Install jobs are steps, and
    [Jobs.jobs_end] gives the measure that ends them, as [Consoles.fan_outs_end] does for
    broadcasts.  Integers are Python's; parameters
    of statements are checked against SQLite's 64 bits where the clients choose them
    ([bind_ints]); the integers of archives have their 16 or 32 bits.

    ** Not modelled

    - The bytes on the wire: HTTP parsing, WebSocket framing, TLS, and aiohttp's
      scheduling beyond the interleaving at awaits; routes, static files and the wiring
      of the application ([create_app], [install]).
    - SQLite's storage and its pragmas: a transaction is atomic.
    - Logging; the texts of exceptions raised by libraries, which are parameters.
    - The clock and the random bytes of UUIDs are the environment's; times of files are
      compared as the system reports them, in nanoseconds.
    - The recursion limit of [json.loads], the decimal digits outside ASCII that [int]
      and [str.isdigit] accept, symbolic links below the staging directory of a bundle.
    - [str.lower] is exact on the texts that are compared with ASCII constants only;
      [urljoin] is that of a base without query and a relative path.
    - The launchers of the package, the watcher of the discovery port, the web console
      and the Android client, which are not part of the server's Python. *)

From stdpp Require Export base gmap list sorting option fin_maps.
From stdpp Require Export ssreflect.
From Stdlib Require Export ZArith Lia.

Open Scope Z_scope.

(** ** Record update

    [r <| f := v |>] is the record [r] with field [f] replaced.  A record type
    takes part by an instance of [Settable], its eta expansion. *)

Class Settable (R : Type) := settable : R -> R.
Class Setter {R E : Type} (getter : R -> E) := set : (E -> E) -> R -> R.
Arguments set {R E} getter {_} upd r / : assert.

Ltac solve_setter R getter :=
  let eta := constr:(_ : Settable R) in
  let eta := eval hnf in eta in
  lazymatch eval pattern getter in eta with
  | ?upd _ => let s := eval cbv beta in (fun f => upd (fun r => f (getter r))) in exact s
  end.

#[export] Hint Extern 1 (@Setter ?R _ ?getter) => solve_setter R getter : typeclass_instances.

Notation "r <| f := v |>" := (set f (fun _ => v) r)
  (at level 1, v at level 99, left associativity, format "r <| f  :=  v |>").

(** ** Effects

    A method of the server is a function from the state it runs on to an outcome
    and the state it leaves: [Ret a] when it returns, [Raise e] when a Python
    exception leaves it.  The state a method reached before it raised is kept,
    as in Python. *)

Inductive outcome (E A : Type) : Type :=
  | Ret (a : A)
  | Raise (e : E).
Arguments Ret {E A} a.
Arguments Raise {E A} e.

(** Pure code that may raise: outcomes chain by themselves. *)
#[export] Instance outcome_ret {E} : MRet (outcome E) := fun A a => Ret a.
#[export] Instance outcome_bind {E} : MBind (outcome E) := fun A B f o =>
  match o with Ret a => f a | Raise e => Raise e end.
Definition check {E} (ok : bool) (e : E) : outcome E unit := if ok then Ret tt else Raise e.
Definition outcome_of {E A} (e : E) (o : option A) : outcome E A :=
  match o with Some a => Ret a | None => Raise e end.

Definition M (S E A : Type) : Type := S -> outcome E A * S.

Section Monad.
Context {S E : Type}.

#[export] Instance M_ret : MRet (M S E) := fun A a s => (Ret a, s).
#[export] Instance M_bind : MBind (M S E) := fun A B f m s =>
  match m s with
  | (Ret a, s') => f a s'
  | (Raise e, s') => (Raise e, s')
  end.

Definition raise {A} (e : E) : M S E A := fun s => (Raise e, s).
Definition gets {A} (f : S -> A) : M S E A := fun s => (Ret (f s), s).
Definition modify (f : S -> S) : M S E unit := fun s => (Ret tt, f s).

(** [try: m except BaseException: cleanup; raise]. *)
Definition try_reraise {A} (m : M S E A) (cleanup : M S E unit) : M S E A := fun s =>
  match m s with
  | (Ret a, s') => (Ret a, s')
  | (Raise e, s') =>
      match cleanup s' with
      | (Ret _, s'') => (Raise e, s'')
      | (Raise e', s'') => (Raise e', s'')
      end
  end.

(** [try: m except <the exceptions handler answers>: ...]; an exception the
    handler has no clause for goes on. *)
Definition try_except {A} (m : M S E A) (handler : E -> option (M S E A)) : M S E A := fun s =>
  match m s with
  | (Ret a, s') => (Ret a, s')
  | (Raise e, s') => match handler e with Some h => h s' | None => (Raise e, s') end
  end.

(** A check that raises, and a loop over a list. *)
Definition require (b : bool) (e : E) : M S E unit := if b then mret tt else raise e.

Fixpoint for_each {A} (f : A -> M S E unit) (l : list A) : M S E unit :=
  match l with
  | [] => mret tt
  | x :: l' => f x ;; for_each f l'
  end.
Fixpoint map_each {A B} (f : A -> M S E B) (l : list A) : M S E (list B) :=
  match l with
  | [] => mret []
  | x :: l' => y ← f x; ys ← map_each f l'; mret (y :: ys)
  end.

(** Weakest precondition: every outcome of [m] from [s] satisfies [Q]. *)
Definition wp {A} (m : M S E A) (Q : outcome E A -> S -> Prop) (s : S) : Prop :=
  let '(o, s') := m s in Q o s'.

Lemma wp_ret {A} (a : A) Q s : Q (Ret a) s -> wp (mret a) Q s.
Proof. done. Qed.
Lemma wp_raise {A} (e : E) (Q : outcome E A -> S -> Prop) s :
  Q (Raise e) s -> wp (raise e) Q s.
Proof. done. Qed.
Lemma wp_gets {A} (f : S -> A) Q s : Q (Ret (f s)) s -> wp (gets f) Q s.
Proof. done. Qed.
Lemma wp_modify f Q s : Q (Ret tt) (f s) -> wp (modify f) Q s.
Proof. done. Qed.

Lemma wp_bind {A B} (m : M S E A) (f : A -> M S E B) Q s :
  wp m (fun o s' => match o with Ret a => wp (f a) Q s' | Raise e => Q (Raise e) s' end) s ->
  wp (m ≫= f) Q s.
Proof. rw /wp /mbind /M_bind. by destruct (m s) as [[a|e] s']. Qed.

Lemma wp_mono {A} (m : M S E A) (Q Q' : outcome E A -> S -> Prop) s :
  wp m Q s -> (forall o s', Q o s' -> Q' o s') -> wp m Q' s.
Proof. rw /wp. destruct (m s). auto. Qed.

Lemma wp_require b e Q s :
  (b = true -> Q (Ret tt) s) -> (b = false -> Q (Raise e) s) -> wp (require b e) Q s.
Proof. destruct b; rw /wp /=; auto. Qed.

Lemma wp_try_reraise {A} (m : M S E A) c Q s :
  wp m (fun o s' => match o with
                    | Ret a => Q (Ret a) s'
                    | Raise e => wp c (fun o' s'' => match o' with
                                                     | Ret _ => Q (Raise e) s''
                                                     | Raise e' => Q (Raise e') s''
                                                     end) s'
                    end) s ->
  wp (try_reraise m c) Q s.
Proof.
  rw /wp /try_reraise. destruct (m s) as [[a|e] s']; [done|].
  by destruct (c s') as [[[]|e'] s''].
Qed.

Lemma wp_for_each {A} (f : A -> M S E unit) (l : list A)
    (I : S -> Prop) (Q : outcome E unit -> S -> Prop) s :
  (forall x s, x ∈ l -> I s ->
     wp (f x) (fun o s' => match o with Ret _ => I s' | Raise e => Q (Raise e) s' end) s) ->
  (forall s', I s' -> Q (Ret tt) s') -> I s -> wp (for_each f l) Q s.
Proof.
  induction l as [|x l IH] in s |- *; intros Hf HQ HI; simpl.
  { apply wp_ret; auto. }
  apply wp_bind. eapply wp_mono; [apply Hf; [constructor|done]|].
  intros [[]|e] s' H; [|done].
  apply IH; [|done|done]. intros. apply Hf; [by constructor|done].
Qed.
End Monad.

Arguments wp {S E A} m Q s : simpl never.
#[global] Typeclasses Opaque wp.

(** The outcome a run returns, and the state it leaves. *)
Definition returned {S E A} (r : outcome E A * S) : option A :=
  match r.1 with Ret a => Some a | Raise _ => None end.

(** Case analysis on the next scrutinee of a [match] or [if]. *)
Ltac case_next :=
  match goal with
  | |- context [match ?x with _ => _ end] => destruct x eqn:?
  end.

(** ** Lists *)

Lemma take_take_min {A} (l : list A) n m : take n (take m l) = take (n `min` m) l.
Proof. apply take_take. Qed.

Fixpoint sum_of (l : list Z) : Z := match l with [] => 0 | x :: l' => x + sum_of l' end.
