(* ===== verification/PyStr.v ===== *)
(** * Python strings

    The [str] values of the server: sequences of Unicode code points, with the
    methods of [str] and the functions of [posixpath] that the server calls.
    Slicing, [len] and [sorted] count and compare code points, as Python does. *)

From S2P Require Import Prelude.
From stdpp Require Export strings.
From Stdlib Require Import Ascii.

Definition pystr := list N.

#[export] Instance pystr_eq_dec : EqDecision pystr := _.
#[export] Instance pystr_countable : Countable pystr := _.

(** An ASCII literal of the source. *)
Definition u (s : string) : pystr := N_of_ascii <$> String.list_ascii_of_string s.

Definition streq (s t : pystr) : bool := bool_decide (s = t).

Definition slash : N := 47.
Definition backslash : N := 92.
Definition dot : pystr := u "."%string.
Definition dotdot : pystr := u ".."%string.

(** ** Whitespace and stripping *)

(** [str.isspace] of one code point. *)
Definition whitespace : list N :=
  [9; 10; 11; 12; 13; 28; 29; 30; 31; 32; 133; 160; 5760; 8192; 8193; 8194; 8195; 8196;
   8197; 8198; 8199; 8200; 8201; 8202; 8232; 8233; 8239; 8287; 12288]%N.
Definition isspace (c : N) : bool := bool_decide (c ∈ whitespace).

Fixpoint lstrip_by (p : N -> bool) (s : pystr) : pystr :=
  match s with
  | c :: s' => if p c then lstrip_by p s' else s
  | [] => []
  end.
Definition rstrip_by (p : N -> bool) (s : pystr) : pystr := reverse (lstrip_by p (reverse s)).
Definition strip_by (p : N -> bool) (s : pystr) : pystr := rstrip_by p (lstrip_by p s).

(** [s.strip()] and [s.strip(chars)]. *)
Definition strip (s : pystr) : pystr := strip_by isspace s.
Definition strip_chars (chars : list N) (s : pystr) : pystr :=
  strip_by (fun c => bool_decide (c ∈ chars)) s.
Definition rstrip_chars (chars : list N) (s : pystr) : pystr :=
  rstrip_by (fun c => bool_decide (c ∈ chars)) s.

(** ** Splitting, joining, replacing *)

(** [s.split(sep)] for a one-character separator. *)
Fixpoint split_on (sep : N) (s : pystr) : list pystr :=
  match s with
  | [] => [[]]
  | c :: s' =>
      if (c =? sep)%N then [] :: split_on sep s'
      else match split_on sep s' with
           | p :: ps => (c :: p) :: ps
           | [] => [[c]]
           end
  end.

(** [s.split(sep, 1)]: the part before the first separator, and the part after
    it when there is one. *)
Fixpoint split_once (sep : N) (s : pystr) : pystr * option pystr :=
  match s with
  | [] => ([], None)
  | c :: s' =>
      if (c =? sep)%N then ([], Some s')
      else let '(p, r) := split_once sep s' in (c :: p, r)
  end.

(** [sep.join(parts)] for a one-character separator. *)
Fixpoint join_with (sep : N) (parts : list pystr) : pystr :=
  match parts with
  | [] => []
  | [p] => p
  | p :: ps => p ++ sep :: join_with sep ps
  end.

(** [s.replace(a, b)] for single characters, and the removal of a character. *)
Definition replace_char (a b : N) (s : pystr) : pystr :=
  (fun c => if (c =? a)%N then b else c) <$> s.
Definition remove_char (a : N) (s : pystr) : pystr := filter (fun c => c <> a) s.

Fixpoint startswith (s p : pystr) {struct p} : bool :=
  match p, s with
  | [], _ => true
  | c :: p', d :: s' => (c =? d)%N && startswith s' p'
  | _ :: _, [] => false
  end.
Definition endswith (s p : pystr) : bool := startswith (reverse s) (reverse p).

(** [s.replace(p, "")] for a non-empty [p]: leftmost occurrences, which do not
    overlap.  [fuel] is the length of [s]: every call drops a character. *)
Fixpoint remove_sub_fuel (fuel : nat) (p s : pystr) : pystr :=
  match fuel with
  | O => s
  | S k =>
      match s with
      | [] => []
      | c :: s' =>
          if startswith s p then remove_sub_fuel k p (drop (length p) s)
          else c :: remove_sub_fuel k p s'
      end
  end.
Definition remove_sub (p s : pystr) : pystr := remove_sub_fuel (length s) p s.

(** [s.lower()], as far as the server's comparisons with ASCII constants see it:
    beside A to Z, the two code points whose lower case holds an ASCII letter
    (U+0130 and the Kelvin sign U+212A). *)
Definition lower_cp (c : N) : list N :=
  if ((65 <=? c) && (c <=? 90))%N then [(c + 32)%N]
  else if (c =? 304)%N then [105; 775]%N
  else if (c =? 8490)%N then [107%N]
  else [c].
Definition lower (s : pystr) : pystr := s ≫= lower_cp.

(** ** Ordering *)

Fixpoint str_leb (s t : pystr) : bool :=
  match s, t with
  | [], _ => true
  | _ :: _, [] => false
  | c :: s', d :: t' => (c <? d)%N || ((c =? d)%N && str_leb s' t')
  end.
Definition str_le (s t : pystr) : Prop := str_leb s t = true.
#[export] Instance str_le_dec : RelDecision str_le.
Proof. intros s t. unfold str_le. apply _. Defined.

(** [sorted(strings)]. *)
Definition sorted_strs (l : list pystr) : list pystr := merge_sort str_le l.

(** ** [posixpath.normpath] *)

Definition norm_step (initial_slashes : bool) (acc : list pystr) (comp : pystr) : list pystr :=
  if bool_decide (comp = []) || streq comp dot then acc
  else if negb (streq comp dotdot)
          || (negb initial_slashes && bool_decide (acc = []))
          || match acc with top :: _ => streq top dotdot | [] => false end
  then comp :: acc
  else match acc with _ :: acc' => acc' | [] => [] end.

Definition normpath (path : pystr) : pystr :=
  if bool_decide (path = []) then dot
  else
    let slashes : nat :=
      if startswith path (u "/"%string)
      then if startswith path (u "//"%string) && negb (startswith path (u "///"%string)) then 2 else 1
      else 0 in
    let comps := reverse (foldl (norm_step (negb (Nat.eqb slashes 0))) [] (split_on slash path)) in
    let body := replicate slashes slash ++ join_with slash comps in
    if bool_decide (body = []) then dot else body.

(** ** [pathlib] *)

(** The last separator of a text: the parts before and after it. *)
Fixpoint rsplit_once (sep : N) (s : pystr) : option (pystr * pystr) :=
  match s with
  | [] => None
  | c :: s' =>
      match rsplit_once sep s' with
      | Some (p, r) => Some (c :: p, r)
      | None => if (c =? sep)%N then Some ([], s') else None
      end
  end.

(** [PurePath(name).stem] and [.suffix] of a plain file name: the dot of a suffix
    is neither the first nor the last character. *)
Definition stem_suffix (name : pystr) : pystr * pystr :=
  match rsplit_once 46 name with
  | Some (p, r) => if bool_decide (p = []) || bool_decide (r = []) then (name, [])
                   else (p, 46%N :: r)
  | None => (name, [])
  end.
