(* ===== verification/Text.v ===== *)
(** * Facts about Python strings

    What the string methods of [PyStr] guarantee: stripping, splitting and joining,
    prefixes, and the normalisation of paths. *)

From S2P Require Import Prelude PyStr.
From Stdlib Require Import Ascii.

(** ** Stripping *)

Lemma lstrip_by_id p s : (forall c, head s = Some c -> p c = false) -> lstrip_by p s = s.
Proof. destruct s as [|c s]; [done|]. intros H. simpl. by rw (H c). Qed.

Lemma lstrip_by_spec p s :
  exists b, s = b ++ lstrip_by p s /\ Forall (fun c => p c = true) b /\
            (forall c, head (lstrip_by p s) = Some c -> p c = false).
Proof.
  induction s as [|c s (b & Hs & Hb & Hh)]; [by exists []|]. simpl. destruct (p c) eqn:E.
  - exists (c :: b). split_and!; [by simpl; f_equal|by constructor|done].
  - exists []. split_and!; [done..|]. by intros c' [= <-].
Qed.

Lemma strip_by_spec p s :
  exists b e, s = b ++ strip_by p s ++ e /\ Forall (fun c => p c = true) b /\
    Forall (fun c => p c = true) e /\
    (forall c, head (strip_by p s) = Some c -> p c = false) /\
    (forall c, last (strip_by p s) = Some c -> p c = false).
Proof.
  destruct (lstrip_by_spec p s) as (b & Hs & Hb & Hh).
  destruct (lstrip_by_spec p (reverse (lstrip_by p s))) as (e & Ht & He & Hl).
  exists b, (reverse e). rw /strip_by /rstrip_by.
  assert (lstrip_by p s = reverse (lstrip_by p (reverse (lstrip_by p s))) ++ reverse e) as Heq.
  { by rw -reverse_app -Ht reverse_involutive. }
  split_and!.
  - by rw -Heq.
  - done.
  - by apply Forall_reverse.
  - intros c Hc. apply Hh. rw Heq. by destruct (reverse (lstrip_by p (reverse _))).
  - intros c. rw last_reverse. apply Hl.
Qed.

Lemma strip_by_id p s :
  (forall c, head s = Some c -> p c = false) -> (forall c, last s = Some c -> p c = false) ->
  strip_by p s = s.
Proof.
  intros Hh Hl. rw /strip_by /rstrip_by lstrip_by_id // lstrip_by_id ?reverse_involutive //.
  intros c. by rw -last_reverse reverse_involutive; apply Hl.
Qed.
Lemma strip_by_idem p s : strip_by p (strip_by p s) = strip_by p s.
Proof. destruct (strip_by_spec p s) as (? & ? & _ & _ & _ & ? & ?). by apply strip_by_id. Qed.

Lemma strip_by_subset p s c : c ∈ strip_by p s -> c ∈ s.
Proof. destruct (strip_by_spec p s) as (b & e & Hs & _). rw {2}Hs. set_solver. Qed.

Lemma strip_idem s : strip (strip s) = strip s.
Proof. apply strip_by_idem. Qed.

(** ** Splitting and joining *)

Lemma split_on_nonempty sep s : split_on sep s <> [].
Proof. destruct s as [|c s]; simpl; [done|]. destruct (c =? sep)%N; [done|]. by destruct (split_on sep s). Qed.

Lemma split_on_plain sep s : sep ∉ s -> split_on sep s = [s].
Proof.
  induction s as [|c s IH]; [done|]. intros [Hc Hs]%not_elem_of_cons. simpl.
  rw IH //. by destruct (N.eqb_spec c sep).
Qed.

Lemma split_on_sep sep p s : sep ∉ p -> split_on sep (p ++ sep :: s) = p :: split_on sep s.
Proof.
  induction p as [|c p IH]; simpl.
  - intros _. by rw N.eqb_refl.
  - intros [Hc Hp]%not_elem_of_cons. rw IH //. by destruct (N.eqb_spec c sep).
Qed.

Lemma split_on_pieces sep s : Forall (fun p => sep ∉ p) (split_on sep s).
Proof.
  induction s as [|c s IH]; simpl; [repeat constructor; set_solver|].
  destruct (N.eqb_spec c sep) as [->|Hc]; [constructor; [set_solver|done]|].
  destruct (split_on sep s) as [|p ps]; [repeat constructor; set_solver|].
  inversion_clear IH. constructor; [set_solver|done].
Qed.
Lemma split_on_chars sep s p c : p ∈ split_on sep s -> c ∈ p -> c ∈ s.
Proof.
  induction s as [|a s IH] in p |- *; simpl; [by intros ->%list_elem_of_singleton|].
  destruct (N.eqb_spec a sep) as [->|Hn].
  - intros [->|Hp]%elem_of_cons Hc; [by apply elem_of_nil in Hc|]. right. by apply (IH p).
  - destruct (split_on sep s) as [|q qs] eqn:E; [by apply split_on_nonempty in E|].
    intros [->|Hp]%elem_of_cons Hc; [|right; apply (IH p); [by right|done]].
    apply elem_of_cons in Hc as [->|Hc]; [left|right; apply (IH q); [left|done]].
Qed.

Lemma join_cons sep p q ps : join_with sep (p :: q :: ps) = p ++ sep :: join_with sep (q :: ps).
Proof. done. Qed.

Lemma split_join sep ps :
  ps <> [] -> Forall (fun p => sep ∉ p) ps -> split_on sep (join_with sep ps) = ps.
Proof.
  induction ps as [|p ps IH]; [done|]. intros _ [Hp Hps]%Forall_cons_1.
  destruct ps as [|q ps]; [by apply split_on_plain|].
  by rw join_cons split_on_sep // IH.
Qed.

Lemma join_split sep s : join_with sep (split_on sep s) = s.
Proof.
  induction s as [|c s IH]; [done|]. simpl. pose proof (split_on_nonempty sep s) as Hn.
  destruct (N.eqb_spec c sep) as [->|Hc].
  - destruct (split_on sep s) as [|p ps]; [done|]. rw join_cons app_nil_l. by f_equal.
  - destruct (split_on sep s) as [|p ps]; [done|]. destruct ps as [|q ps]; simpl in *; by f_equal.
Qed.

Lemma join_chars sep ps c : c ∈ join_with sep ps -> c = sep \/ exists p, p ∈ ps /\ c ∈ p.
Proof.
  induction ps as [|p ps IH]; [set_solver|]. destruct ps as [|q ps].
  - simpl. intros. right. exists p. set_solver.
  - rw join_cons. intros [?|[->|[->|(r & ? & ?)]%IH]%elem_of_cons]%elem_of_app; [|by left..|].
    + right. exists p. set_solver.
    + right. exists r. set_solver.
Qed.

Lemma split_once_join sep p ps :
  sep ∉ p -> split_once sep (join_with sep (p :: ps)) = (p, match ps with [] => None | _ => Some (join_with sep ps) end).
Proof.
  intros Hp. destruct ps as [|q ps]; [simpl|rw join_cons]; induction p as [|c p IH]; simpl; try done.
  - apply not_elem_of_cons in Hp as [Hc Hp]. rw IH //. by destruct (N.eqb_spec c sep).
  - by rw N.eqb_refl.
  - apply not_elem_of_cons in Hp as [Hc Hp]. rw IH //. by destruct (N.eqb_spec c sep).
Qed.

Lemma split_join_app sep ps t :
  ps <> [] -> Forall (fun p => sep ∉ p) ps ->
  split_on sep (join_with sep ps ++ sep :: t) = ps ++ split_on sep t.
Proof.
  induction ps as [|p ps IH]; [done|]. intros _ [Hp Hps]%Forall_cons_1.
  destruct ps as [|q ps]; [simpl; by rw split_on_sep|].
  rw join_cons -app_assoc /= split_on_sep //. f_equal. by apply IH.
Qed.

Lemma join_head sep ps c :
  Forall (fun p => p <> [] /\ sep ∉ p) ps -> head (join_with sep ps) = Some c -> c <> sep.
Proof.
  destruct ps as [|p ps]; [done|]. intros [[Hn Hp] _]%Forall_cons_1 Hc ->. apply Hp.
  destruct p as [|a p]; [done|]. destruct ps; simpl in Hc; injection Hc as <-; left.
Qed.
Lemma join_last sep ps c :
  Forall (fun p => p <> [] /\ sep ∉ p) ps -> last (join_with sep ps) = Some c -> c <> sep.
Proof.
  induction ps as [|p ps IH]; [done|]. intros [[Hn Hp] Hps]%Forall_cons_1 Hc.
  destruct ps as [|q ps].
  - simpl in Hc. apply last_Some in Hc as [l ->]. set_solver.
  - rw join_cons last_app last_cons in Hc.
    destruct (last (join_with sep (q :: ps))) as [y|] eqn:E.
    + pose proof E as E'. rw /pystr in E' Hc. rw E' in Hc. apply IH; [done|]. exact Hc.
    + apply last_None in E. apply Forall_cons_1 in Hps as [[Hq _] _].
      destruct q; [by destruct Hq|]. by destruct ps.
Qed.

(** ** Prefixes *)

Lemma startswith_spec s p : startswith s p = true <-> (exists t, s = p ++ t).
Proof.
  induction p as [|c p IH] in s |- *; [by split; [exists s|]|].
  destruct s as [|d s]; [by split; [|intros []]|].
  simpl. rw andb_true_iff N.eqb_eq IH. split.
  - intros [-> [t ->]]. by exists t.
  - intros [t [= -> ->]]. eauto.
Qed.
Lemma streq_spec s t : streq s t = true <-> s = t.
Proof. apply bool_decide_eq_true. Qed.

(** ** Normalised paths *)

Definition kept (c : pystr) : Prop := c <> [] /\ c <> dot.
#[export] Instance kept_dec c : Decision (kept c) := _.

Lemma norm_fold b l acc :
  dotdot ∉ l -> foldl (norm_step b) acc l = reverse (filter kept l) ++ acc.
Proof.
  induction l as [|c l IH] in acc |- *; [done|]. intros [Hc Hl]%not_elem_of_cons. simpl. rw IH //.
  rw /norm_step filter_cons. destruct (decide (kept c)) as [[Hn Hd]|Hk].
  - rw bool_decide_eq_false_2 //. assert (streq c dot = false) as -> by by apply bool_decide_eq_false_2.
    assert (streq c dotdot = false) as -> by by apply bool_decide_eq_false_2. simpl.
    by rw reverse_cons -app_assoc.
  - assert (bool_decide (c = []) || streq c dot = true) as ->; [|done].
    apply orb_true_iff. rw bool_decide_eq_true streq_spec.
    destruct (decide (c = [])); [by left|right]. destruct (decide (c = dot)); [done|]. by destruct Hk.
Qed.

(** An absolute path without [".."]: its components, the empty ones and ["."] left
    out, after one or two slashes. *)
Lemma normpath_absolute t :
  dotdot ∉ split_on slash t -> startswith t [slash] = true ->
  exists k, (k = 1 \/ (k = 2 /\ startswith t (u "//") = true))%nat /\
    normpath t = replicate k slash ++ join_with slash (filter kept (split_on slash t)).
Proof.
  intros Hd Hs. rw /normpath. rw bool_decide_eq_false_2; [|by intros ->].
  change (u "/") with [slash]. rw Hs norm_fold // app_nil_r reverse_involutive.
  destruct (startswith t (u "//")) eqn:E; [destruct (startswith t (u "///"))|]; simpl;
    [exists 1%nat|exists 2%nat|exists 1%nat]; (split; [auto|done]).
Qed.

Lemma replace_id a b s : a ∉ s -> replace_char a b s = s.
Proof.
  induction s as [|c s IH]; [done|]. intros [Hc Hs]%not_elem_of_cons.
  rw /replace_char fmap_cons. f_equal; [|by apply IH]. by destruct (N.eqb_spec c a).
Qed.
Lemma filter_all {A} (P : A -> Prop) `{forall x, Decision (P x)} l : Forall P l -> filter P l = l.
Proof. induction 1; [done|]. rw filter_cons decide_True //. by f_equal. Qed.
