(* ===== verification/Json.v ===== *)
(** * JSON values

    The values [json.loads] returns and [json.dumps] prints: what the handlers
    receive as [dict[str, Any]].  [dumps] and [loads] are the printer and the
    parser of Python's [json] module on the values the server stores or hashes. *)

From S2P Require Import Prelude PyStr.
From Stdlib Require Import QArith.
Open Scope Z_scope.

(** A Python [float]: the exact rational a finite one stands for, an infinity or NaN.
    [json.loads] accepts the literals [NaN], [Infinity] and [-Infinity]. *)
Inductive pyfloat :=
  | PFin (q : Q)
  | PInf (negative : bool)
  | PNan.

Inductive json :=
  | JNull
  | JBool (b : bool)
  | JInt (n : Z)
  | JFloat (f : pyfloat)
  | JStr (s : pystr)
  | JArr (l : list json)
  | JObj (kvs : list (pystr * json)).

(** ** Reading a payload *)

(** [d.get(key)] on a dict whose keys are distinct: [None] for an absent key. *)
Fixpoint assoc_get (key : pystr) (kvs : list (pystr * json)) : option json :=
  match kvs with
  | [] => None
  | (k, v) :: kvs' => if streq key k then Some v else assoc_get key kvs'
  end.
Definition get (key : pystr) (kvs : list (pystr * json)) : json := default JNull (assoc_get key kvs).

Definition as_str (v : json) : option pystr := match v with JStr s => Some s | _ => None end.
Definition as_obj (v : json) : option (list (pystr * json)) := match v with JObj o => Some o | _ => None end.
Definition is_null (v : json) : bool := match v with JNull => true | _ => false end.

(** [isinstance(v, int) and not isinstance(v, bool)]. *)
Definition as_int (v : json) : option Z := match v with JInt n => Some n | _ => None end.

(** [v == n] for an [int] [n]: [True] equals 1 and [1.0] equals 1. *)
Definition eq_int (v : json) (n : Z) : bool :=
  match v with
  | JInt m => m =? n
  | JBool b => (if b then 1 else 0) =? n
  | JFloat (PFin q) => Qeq_bool q (inject_Z n)
  | _ => false
  end.

(** [v == s] for a [str] [s]. *)
Definition eq_str (v : json) (s : pystr) : bool :=
  match v with JStr t => streq t s | _ => false end.

(** ** Printing: [json.dumps] *)

Fixpoint uint_digits (d : Decimal.uint) : pystr :=
  match d with
  | Decimal.Nil => []
  | Decimal.D0 d => 48%N :: uint_digits d
  | Decimal.D1 d => 49%N :: uint_digits d
  | Decimal.D2 d => 50%N :: uint_digits d
  | Decimal.D3 d => 51%N :: uint_digits d
  | Decimal.D4 d => 52%N :: uint_digits d
  | Decimal.D5 d => 53%N :: uint_digits d
  | Decimal.D6 d => 54%N :: uint_digits d
  | Decimal.D7 d => 55%N :: uint_digits d
  | Decimal.D8 d => 56%N :: uint_digits d
  | Decimal.D9 d => 57%N :: uint_digits d
  end.
Definition str_of_N (n : N) : pystr := uint_digits (N.to_uint n).
Definition str_of_int (n : Z) : pystr :=
  if n <? 0 then 45%N :: str_of_N (Z.to_N (- n)) else str_of_N (Z.to_N n).

(** [w] lower-case hexadecimal digits. *)
Definition hex_digit (n : N) : N := if (n <? 10)%N then (48 + n)%N else (87 + n)%N.
Fixpoint hex (w : nat) (n : N) : pystr :=
  match w with
  | O => []
  | S w' => hex w' (n / 16)%N ++ [hex_digit (n mod 16)%N]
  end.
Definition u_escape (n : N) : pystr := 92%N :: 117%N :: hex 4 n.

(** One code point inside a string literal; [ascii] is [ensure_ascii]. *)
Definition escape_cp (ascii : bool) (c : N) : pystr :=
  if (c =? 34)%N then [92; 34]%N
  else if (c =? 92)%N then [92; 92]%N
  else if (c =? 10)%N then [92; 110]%N
  else if (c =? 13)%N then [92; 114]%N
  else if (c =? 9)%N then [92; 116]%N
  else if (c =? 12)%N then [92; 102]%N
  else if (c =? 8)%N then [92; 98]%N
  else if (c <? 32)%N then u_escape c
  else if negb ascii || (c <? 127)%N then [c]
  else if (c <? 65536)%N then u_escape c
  else u_escape (55296 + (c - 65536) / 1024)%N ++ u_escape (56320 + (c - 65536) mod 1024)%N.

Definition dumps_str (ascii : bool) (s : pystr) : pystr :=
  34%N :: (s ≫= escape_cp ascii) ++ [34%N].

Section Dumps.
Context (ascii : bool) (item_sep key_sep : pystr) (float_repr : pyfloat -> pystr).

Fixpoint intercalate (sep : pystr) (parts : list pystr) : pystr :=
  match parts with
  | [] => []
  | [p] => p
  | p :: ps => p ++ sep ++ intercalate sep ps
  end.

Fixpoint dumps_with (v : json) : pystr :=
  match v with
  | JNull => u "null"
  | JBool true => u "true"
  | JBool false => u "false"
  | JInt n => str_of_int n
  | JFloat f => float_repr f
  | JStr s => dumps_str ascii s
  | JArr l => 91%N :: intercalate item_sep (map dumps_with l) ++ [93%N]
  | JObj kvs =>
      123%N :: intercalate item_sep
                (map (fun '(k, x) => dumps_str ascii k ++ key_sep ++ dumps_with x) kvs)
      ++ [125%N]
  end.
End Dumps.

(** [float.__repr__] is not modelled; the server never prints a float it stores
    or hashes, and the printed form of one is not read by any definition here. *)
Definition no_float_repr (f : pyfloat) : pystr := u "NaN".

(** [json.dumps(v, separators=(",", ":"))] and [json.dumps(v)]. *)
Definition dumps (ascii : bool) (v : json) : pystr := dumps_with ascii (u ",") (u ":") no_float_repr v.
Definition dumps_default (v : json) : pystr := dumps_with true (u ", ") (u ": ") no_float_repr v.

(** [sort_keys=True]. *)
Definition key_le (a b : pystr * json) : Prop := str_le a.1 b.1.
#[export] Instance key_le_dec : RelDecision key_le := fun a b => str_le_dec a.1 b.1.
Fixpoint sort_keys (v : json) : json :=
  match v with
  | JArr l => JArr (map sort_keys l)
  | JObj kvs => JObj (merge_sort key_le (map (fun '(k, x) => (k, sort_keys x)) kvs))
  | _ => v
  end.

(** ** Parsing: [json.loads] *)

Definition json_ws (c : N) : bool := (c =? 32)%N || (c =? 9)%N || (c =? 10)%N || (c =? 13)%N.
Definition skip_ws (s : pystr) : pystr := lstrip_by json_ws s.

Definition hex_value (c : N) : option N :=
  if ((48 <=? c) && (c <=? 57))%N then Some (c - 48)%N
  else if ((97 <=? c) && (c <=? 102))%N then Some (c - 87)%N
  else if ((65 <=? c) && (c <=? 70))%N then Some (c - 55)%N
  else None.
Definition hex4 (a b c d : N) : option N :=
  match hex_value a, hex_value b, hex_value c, hex_value d with
  | Some a, Some b, Some c, Some d => Some (((a * 16 + b) * 16 + c) * 16 + d)%N
  | _, _, _, _ => None
  end.

(** What a one-character escape stands for. *)
Definition unescape (e : N) : option N :=
  if (e =? 34)%N then Some 34%N
  else if (e =? 92)%N then Some 92%N
  else if (e =? 47)%N then Some 47%N
  else if (e =? 98)%N then Some 8%N
  else if (e =? 102)%N then Some 12%N
  else if (e =? 110)%N then Some 10%N
  else if (e =? 114)%N then Some 13%N
  else if (e =? 116)%N then Some 9%N
  else None.

Definition high_surrogate (n : N) : bool := ((55296 <=? n) && (n <=? 56319))%N.
Definition low_surrogate (n : N) : bool := ((56320 <=? n) && (n <=? 57343))%N.

(** The characters of a string literal after its opening quote, up to and with
    the closing one. *)
Fixpoint parse_chars (s : pystr) : option (pystr * pystr) :=
  match s with
  | [] => None
  | c :: s1 =>
      if (c =? 34)%N then Some ([], s1)
      else if (c =? 92)%N then
        match s1 with
        | e :: s2 =>
            if (e =? 117)%N then
              match s2 with
              | a :: b :: c' :: d :: s3 =>
                  match hex4 a b c' d with
                  | None => None
                  | Some hi =>
                      let plain := match parse_chars s3 with
                                   | Some (t, r) => Some (hi :: t, r)
                                   | None => None
                                   end in
                      if high_surrogate hi then
                        match s3 with
                        | b1 :: b2 :: e1 :: e2 :: e3 :: e4 :: s4 =>
                            if (b1 =? 92)%N && (b2 =? 117)%N then
                              match hex4 e1 e2 e3 e4 with
                              | Some lo =>
                                  if low_surrogate lo then
                                    match parse_chars s4 with
                                    | Some (t, r) =>
                                        Some ((65536 + (hi - 55296) * 1024 + (lo - 56320))%N :: t, r)
                                    | None => None
                                    end
                                  else plain
                              | None => plain
                              end
                            else plain
                        | _ => plain
                        end
                      else plain
                  end
              | _ => None
              end
            else
              match unescape e, parse_chars s2 with
              | Some x, Some (t, r) => Some (x :: t, r)
              | _, _ => None
              end
        | [] => None
        end
      else if (c <? 32)%N then None
      else match parse_chars s1 with
           | Some (t, r) => Some (c :: t, r)
           | None => None
           end
  end.

Definition is_digit (c : N) : bool := ((48 <=? c) && (c <=? 57))%N.
Fixpoint span_digits (s : pystr) : pystr * pystr :=
  match s with
  | c :: s' => if is_digit c then let '(d, r) := span_digits s' in (c :: d, r) else ([], s)
  | [] => ([], [])
  end.
Definition digits_value (ds : pystr) : N := foldl (fun acc d => (acc * 10 + (d - 48))%N) 0%N ds.

(** The fraction and the exponent of a number, when they are there. *)
Definition parse_frac (s : pystr) : pystr * pystr :=
  match s with
  | c :: s' =>
      if (c =? 46)%N
      then let '(d, r) := span_digits s' in if bool_decide (d = []) then ([], s) else (d, r)
      else ([], s)
  | [] => ([], s)
  end.
Definition parse_exp (s : pystr) : option Z * pystr :=
  match s with
  | c :: s' =>
      if (c =? 101)%N || (c =? 69)%N then
        let '(sign, s2) := match s' with
                           | x :: t => if (x =? 45)%N then (-1, t) else if (x =? 43)%N then (1, t) else (1, s')
                           | [] => (1, s')
                           end in
        let '(d, r) := span_digits s2 in
        if bool_decide (d = []) then (None, s) else (Some (sign * Z.of_N (digits_value d)), r)
      else (None, s)
  | [] => (None, s)
  end.

Definition decimal_Q (neg : bool) (int frac : pystr) (e : Z) : Q :=
  let m := Z.of_N (digits_value (int ++ frac)) in
  let m := if neg then - m else m in
  let e := e - Z.of_nat (length frac) in
  if 0 <=? e then inject_Z (m * 10 ^ e) else Qred (m # Z.to_pos (10 ^ (- e))).

Definition parse_number (s : pystr) : option (json * pystr) :=
  let '(neg, s1) := match s with c :: t => if (c =? 45)%N then (true, t) else (false, s) | [] => (false, s) end in
  let '(int, s2) := match s1 with
                    | c :: t => if (c =? 48)%N then ([48%N], t) else span_digits s1
                    | [] => ([], s1)
                    end in
  if bool_decide (int = []) then None
  else
    let '(frac, s3) := parse_frac s2 in
    let '(e, s4) := parse_exp s3 in
    match frac, e with
    | [], None => let n := Z.of_N (digits_value int) in Some (JInt (if neg then - n else n), s4)
    | _, _ => Some (JFloat (PFin (decimal_Q neg int frac (default 0 e))), s4)
    end.

(** [d[key] = v] on an insertion-ordered dict. *)
Fixpoint dict_set (key : pystr) (v : json) (kvs : list (pystr * json)) : list (pystr * json) :=
  match kvs with
  | [] => [(key, v)]
  | (k, x) :: kvs' => if streq key k then (k, v) :: kvs' else (k, x) :: dict_set key v kvs'
  end.

Definition strip_prefix (p s : pystr) : option pystr :=
  if startswith s p then Some (drop (length p) s) else None.

Definition literals : list (pystr * json) :=
  [(u "null", JNull); (u "true", JBool true); (u "false", JBool false);
   (u "NaN", JFloat PNan); (u "Infinity", JFloat (PInf false)); (u "-Infinity", JFloat (PInf true))].
Fixpoint parse_literal (ls : list (pystr * json)) (s : pystr) : option (json * pystr) :=
  match ls with
  | [] => None
  | (p, v) :: ls' => match strip_prefix p s with Some r => Some (v, r) | None => parse_literal ls' s end
  end.

(** A value, the items of an array after [[], the members of an object after [{].
    Every call is on a shorter text, so [length s] is fuel enough. *)
Fixpoint parse_value (fuel : nat) (s : pystr) {struct fuel} : option (json * pystr) :=
  match fuel with
  | O => None
  | S k =>
      match s with
      | [] => None
      | c :: s' =>
          if (c =? 34)%N then
            match parse_chars s' with Some (t, r) => Some (JStr t, r) | None => None end
          else if (c =? 91)%N then
            match skip_ws s' with
            | [] => None
            | d :: r => if (d =? 93)%N then Some (JArr [], r)
                        else match parse_items k (d :: r) with
                             | Some (l, r) => Some (JArr l, r)
                             | None => None
                             end
            end
          else if (c =? 123)%N then
            match skip_ws s' with
            | [] => None
            | d :: r => if (d =? 125)%N then Some (JObj [], r)
                        else match parse_members k [] (d :: r) with
                             | Some (o, r) => Some (JObj o, r)
                             | None => None
                             end
            end
          else match parse_literal literals s with
               | Some x => Some x
               | None => parse_number s
               end
      end
  end
with parse_items (fuel : nat) (s : pystr) {struct fuel} : option (list json * pystr) :=
  match fuel with
  | O => None
  | S k =>
      match parse_value k (skip_ws s) with
      | None => None
      | Some (v, r) =>
          match skip_ws r with
          | c :: r' =>
              if (c =? 44)%N then
                match parse_items k r' with Some (l, r) => Some (v :: l, r) | None => None end
              else if (c =? 93)%N then Some ([v], r')
              else None
          | [] => None
          end
      end
  end
with parse_members (fuel : nat) (acc : list (pystr * json)) (s : pystr) {struct fuel}
    : option (list (pystr * json) * pystr) :=
  match fuel with
  | O => None
  | S k =>
      match skip_ws s with
      | q :: s' =>
          if (q =? 34)%N then
            match parse_chars s' with
            | None => None
            | Some (key, r) =>
                match skip_ws r with
                | c :: r' =>
                    if (c =? 58)%N then
                      match parse_value k (skip_ws r') with
                      | None => None
                      | Some (v, r) =>
                          match skip_ws r with
                          | c :: r' =>
                              if (c =? 44)%N then parse_members k (dict_set key v acc) r'
                              else if (c =? 125)%N then Some (dict_set key v acc, r')
                              else None
                          | [] => None
                          end
                      end
                    else None
                | [] => None
                end
            end
          else None
      | [] => None
      end
  end.

(** [json.loads(s)]; [None] stands for [json.JSONDecodeError]. *)
Definition loads (s : pystr) : option json :=
  match parse_value (S (length s)) (skip_ws s) with
  | Some (v, r) => if bool_decide (skip_ws r = []) then Some v else None
  | None => None
  end.
