(* ===== verification/Uuid.v ===== *)
(** * UUID strings

    [uuid.UUID(s)], its [version] and [str()]: the identity format of jobs,
    requests, artifacts and client processes, with the three readers the server
    has for it ([require_uuid], [_uuid_v4_or_none], [ArtifactStore._uuid_key]). *)

From S2P Require Import Prelude PyStr Json.
Open Scope N_scope.

(** The zeros of Unicode's decimal digits: [int()] reads a digit of any script. *)
Definition decimal_zeros : list N :=
  [48; 1632; 1776; 1984; 2406; 2534; 2662; 2790; 2918; 3046; 3174; 3302; 3430; 3558; 3664;
   3792; 3872; 4160; 4240; 6112; 6160; 6470; 6608; 6784; 6800; 6992; 7088; 7232; 7248; 42528;
   43216; 43264; 43472; 43504; 43600; 44016; 65296; 66720; 68912; 69734; 69872; 69942; 70096;
   70384; 70736; 70864; 71248; 71360; 71472; 71904; 72016; 72784; 73040; 73120; 92768; 92864;
   93008; 120782; 120792; 120802; 120812; 120822; 123200; 123632; 125264; 130032].

Definition decimal_value (c : N) : option N :=
  (fun z => c - z) <$> List.find (fun z => (z <=? c) && (c <? z + 10)) decimal_zeros.

(** A digit in base 16. *)
Definition digit16 (c : N) : option N :=
  match decimal_value c with Some d => Some d | None => hex_value c end.

(** The digits of an [int(s, 16)] literal: single underscores stand between digits. *)
Fixpoint digits16 (acc : N) (s : pystr) : option N :=
  match s with
  | [] => Some acc
  | c :: s1 =>
      if c =? 95 then
        match s1 with
        | d :: s2 => match digit16 d with Some v => digits16 (acc * 16 + v) s2 | None => None end
        | [] => None
        end
      else match digit16 c with Some v => digits16 (acc * 16 + v) s1 | None => None end
  end.
Definition digits16_start (s : pystr) : option N :=
  match s with
  | c :: s1 => match digit16 c with Some v => digits16 v s1 | None => None end
  | [] => None
  end.

(** [int(s, 16)] for a text without ["-"]: blanks around it, a plus sign, a [0x] prefix. *)
Definition int16 (s : pystr) : option N :=
  let s := strip s in
  let s := match s with c :: t => if c =? 43 then t else s | [] => s end in
  match s with
  | z :: x :: t =>
      if (bool_decide (decimal_value z = Some 0)) && ((x =? 120) || (x =? 88)) then
        digits16_start (match t with c :: t' => if c =? 95 then t' else t | [] => t end)
      else digits16_start s
  | _ => digits16_start s
  end.

(** [uuid.UUID(s)]: its 128-bit value, or [None] for [ValueError]. *)
Definition uuid_text (s : pystr) : pystr :=
  remove_char 45 (strip_chars [123; 125] (remove_sub (u "uuid:") (remove_sub (u "urn:") s))).
Definition uuid_parse (s : pystr) : option N :=
  let hex := uuid_text s in
  if bool_decide (length hex = 32%nat) then
    match int16 hex with
    | Some n => if n <? 2 ^ 128 then Some n else None
    | None => None
    end
  else None.

(** [UUID.version]: only an RFC 4122 variant has one. *)
Definition uuid_version (n : N) : option N :=
  if N.testbit n 63 && negb (N.testbit n 62)
  then Some (N.land (N.shiftr n 76) 15) else None.
Definition is_v4 (n : N) : bool := bool_decide (uuid_version n = Some 4).

(** [str(UUID)]: 32 lower-case hexadecimal digits in groups of 8, 4, 4, 4 and 12. *)
Definition uuid_str (n : N) : pystr :=
  let h := hex 32 n in
  join_with 45 [take 8 h; take 4 (drop 8 h); take 4 (drop 12 h); take 4 (drop 16 h); drop 20 h].

(** The canonical text of a UUIDv4, [None] when [s] is not one.  This is
    [_uuid_v4_or_none] of push_runtime.py on a string. *)
Definition uuid_v4 (s : pystr) : option pystr :=
  match uuid_parse s with
  | Some n => if is_v4 n then Some (uuid_str n) else None
  | None => None
  end.
Definition uuid_v4_or_none (v : json) : option pystr := as_str v ≫= uuid_v4.
