(* ===== verification/Sha256.v ===== *)
(** * SHA-256 and UTF-8

    [hashlib.sha256(data).hexdigest()] and [str.encode("utf-8")], which the request
    fingerprint and the artifact identity are made of.  Bytes and 32-bit words are
    numbers of type [N]; word arithmetic wraps at [2 ^ 32]. *)

From S2P Require Import Prelude PyStr Json.
Open Scope N_scope.

(** ** UTF-8 *)

(** The encoding of one code point; [None] is [UnicodeEncodeError] (a surrogate). *)
Definition utf8_cp (c : N) : option (list N) :=
  if c <? 128 then Some [c]
  else if c <? 2048 then Some [192 + c / 64; 128 + c mod 64]
  else if (55296 <=? c) && (c <=? 57343) then None
  else if c <? 65536 then Some [224 + c / 4096; 128 + (c / 64) mod 64; 128 + c mod 64]
  else Some [240 + c / 262144; 128 + (c / 4096) mod 64; 128 + (c / 64) mod 64; 128 + c mod 64].
Fixpoint utf8_encode (s : pystr) : option (list N) :=
  match s with
  | [] => Some []
  | c :: s' =>
      match utf8_cp c, utf8_encode s' with
      | Some b, Some bs => Some (b ++ bs)
      | _, _ => None
      end
  end.

(** ** SHA-256 *)

Definition word_mask : N := 4294967295.
Definition wrap (n : N) : N := N.land n word_mask.
Definition add32 (a b : N) : N := wrap (a + b).
Definition rotr (k x : N) : N := wrap (N.lor (N.shiftr x k) (N.shiftl x (32 - k))).

Definition round_constants : list N :=
  [1116352408; 1899447441; 3049323471; 3921009573; 961987163; 1508970993; 2453635748;
   2870763221; 3624381080; 310598401; 607225278; 1426881987; 1925078388; 2162078206;
   2614888103; 3248222580; 3835390401; 4022224774; 264347078; 604807628; 770255983; 1249150122;
   1555081692; 1996064986; 2554220882; 2821834349; 2952996808; 3210313671; 3336571891;
   3584528711; 113926993; 338241895; 666307205; 773529912; 1294757372; 1396182291; 1695183700;
   1986661051; 2177026350; 2456956037; 2730485921; 2820302411; 3259730800; 3345764771;
   3516065817; 3600352804; 4094571909; 275423344; 430227734; 506948616; 659060556; 883997877;
   958139571; 1322822218; 1537002063; 1747873779; 1955562222; 2024104815; 2227730452;
   2361852424; 2428436474; 2756734187; 3204031479; 3329325298].
Definition initial_hash : list N :=
  [1779033703; 3144134277; 1013904242; 2773480762; 1359893119; 2600822924; 528734635;
   1541459225].

(** One block of the message schedule: sixteen words, extended to sixty-four.
    [w] holds the words produced so far, the newest first. *)
Definition schedule_step (w : list N) : list N :=
  let w2 := nth 1 w 0 in let w7 := nth 6 w 0 in
  let w15 := nth 14 w 0 in let w16 := nth 15 w 0 in
  let s0 := N.lxor (N.lxor (rotr 7 w15) (rotr 18 w15)) (N.shiftr w15 3) in
  let s1 := N.lxor (N.lxor (rotr 17 w2) (rotr 19 w2)) (N.shiftr w2 10) in
  add32 (add32 w16 s0) (add32 w7 s1) :: w.
Definition schedule (block : list N) : list N :=
  reverse (Nat.iter 48 schedule_step (reverse block)).

Definition compress_step (st : list N) (kw : N * N) : list N :=
  match st with
  | [a; b; c; d; e; f; g; h] =>
      let s1 := N.lxor (N.lxor (rotr 6 e) (rotr 11 e)) (rotr 25 e) in
      let ch := N.lxor (N.land e f) (N.land (N.lxor e word_mask) g) in
      let t1 := add32 (add32 h s1) (add32 ch (add32 kw.1 kw.2)) in
      let s0 := N.lxor (N.lxor (rotr 2 a) (rotr 13 a)) (rotr 22 a) in
      let maj := N.lxor (N.lxor (N.land a b) (N.land a c)) (N.land b c) in
      [add32 t1 (add32 s0 maj); a; b; c; add32 d t1; e; f; g]
  | _ => st
  end.
Definition compress (st block : list N) : list N :=
  zip_with add32 st (foldl compress_step st (zip round_constants (schedule block))).

(** Padding to a multiple of 64 bytes: 0x80, zeros, the length in bits. *)
Fixpoint bytes_be (w : nat) (n : N) : list N :=
  match w with O => [] | S w' => bytes_be w' (n / 256) ++ [n mod 256] end.
Definition pad (msg : list N) : list N :=
  let len := length msg in
  let zeros := Nat.modulo (64 - Nat.modulo (len + 9) 64) 64 in
  msg ++ 128 :: replicate zeros 0 ++ bytes_be 8 (8 * N.of_nat len).

Fixpoint words (bytes : list N) : list N :=
  match bytes with
  | a :: b :: c :: d :: r => (((a * 256 + b) * 256 + c) * 256 + d) :: words r
  | _ => []
  end.
Fixpoint blocks (fuel : nat) (ws : list N) : list (list N) :=
  match fuel with
  | O => []
  | S k => match ws with [] => [] | _ => take 16 ws :: blocks k (drop 16 ws) end
  end.

Definition sha256_hex (msg : list N) : pystr :=
  let ws := words (pad msg) in
  foldl compress initial_hash (blocks (length ws) ws) ≫= hex 8.
