(* ===== verification/PushJobs.v ===== *)
(** * The Push/Sync job domain (push_jobs.py)

    The protocol vocabulary, the two transition tables, the derivation of a job's
    state from its devices, and the canonical form of a create request with its
    fingerprint. *)

From S2P Require Import Prelude PyStr Json Uuid Sha256.
Open Scope Z_scope.

Definition CAP_PUSH_JOB_ID_V1 : pystr := u "push_job_id_v1".

(** ** Enumerations *)

Inductive push_mode := PUSH | SYNC.
Inductive protocol_mode := JOB_V1 | LEGACY.

Inductive job_state :=
  | J_CREATED | J_UPLOADING | J_PACKAGING | J_READY | J_RUNNING | J_RECONCILING
  | J_SUCCEEDED | J_COMPLETED_WITH_ERRORS | J_FAILED | J_INTERRUPTED.

Inductive device_state :=
  | QUEUED | WAITING_TRANSFER | DISPATCHING | DOWNLOADING | VALIDATING | APPLYING
  | RECONCILING | SUCCEEDED | FAILED | INTERRUPTED | UNCONFIRMED.

#[export] Instance push_mode_eq_dec : EqDecision push_mode.
Proof. solve_decision. Defined.
#[export] Instance protocol_mode_eq_dec : EqDecision protocol_mode.
Proof. solve_decision. Defined.
#[export] Instance job_state_eq_dec : EqDecision job_state.
Proof. solve_decision. Defined.
#[export] Instance device_state_eq_dec : EqDecision device_state.
Proof. solve_decision. Defined.

Definition mode_value (m : push_mode) : pystr := match m with PUSH => u "push" | SYNC => u "sync" end.
Definition protocol_value (p : protocol_mode) : pystr :=
  match p with JOB_V1 => u "job_v1" | LEGACY => u "legacy" end.
Definition job_state_value (s : job_state) : pystr :=
  match s with
  | J_CREATED => u "created" | J_UPLOADING => u "uploading" | J_PACKAGING => u "packaging"
  | J_READY => u "ready" | J_RUNNING => u "running" | J_RECONCILING => u "reconciling"
  | J_SUCCEEDED => u "succeeded" | J_COMPLETED_WITH_ERRORS => u "completed_with_errors"
  | J_FAILED => u "failed" | J_INTERRUPTED => u "interrupted"
  end.
Definition device_state_value (s : device_state) : pystr :=
  match s with
  | QUEUED => u "queued" | WAITING_TRANSFER => u "waiting_transfer"
  | DISPATCHING => u "dispatching" | DOWNLOADING => u "downloading"
  | VALIDATING => u "validating" | APPLYING => u "applying"
  | RECONCILING => u "reconciling" | SUCCEEDED => u "succeeded" | FAILED => u "failed"
  | INTERRUPTED => u "interrupted" | UNCONFIRMED => u "unconfirmed"
  end.

(** The enumeration in declaration order: [for state in DeviceState]. *)
Definition all_device_states : list device_state :=
  [QUEUED; WAITING_TRANSFER; DISPATCHING; DOWNLOADING; VALIDATING; APPLYING;
   RECONCILING; SUCCEEDED; FAILED; INTERRUPTED; UNCONFIRMED].

Definition TERMINAL_JOB_STATES : list job_state :=
  [J_SUCCEEDED; J_COMPLETED_WITH_ERRORS; J_FAILED; J_INTERRUPTED].
Definition TERMINAL_DEVICE_STATES : list device_state :=
  [SUCCEEDED; FAILED; INTERRUPTED; UNCONFIRMED].
Definition ACTIVE_DEVICE_STATES : list device_state :=
  [WAITING_TRANSFER; DISPATCHING; DOWNLOADING; VALIDATING; APPLYING; RECONCILING].

Definition is_terminal_job_state (s : job_state) : bool := bool_decide (s ∈ TERMINAL_JOB_STATES).
Definition is_terminal_device_state (s : device_state) : bool :=
  bool_decide (s ∈ TERMINAL_DEVICE_STATES).

(** ** Transition tables *)

Definition JOB_TRANSITIONS (s : job_state) : list job_state :=
  match s with
  | J_CREATED => [J_UPLOADING; J_INTERRUPTED; J_FAILED]
  | J_UPLOADING => [J_PACKAGING; J_INTERRUPTED; J_FAILED]
  | J_PACKAGING => [J_READY; J_INTERRUPTED; J_FAILED]
  | J_READY => [J_RUNNING; J_FAILED]
  | J_RUNNING => [J_RECONCILING; J_SUCCEEDED; J_COMPLETED_WITH_ERRORS; J_FAILED]
  | J_RECONCILING => [J_RUNNING; J_SUCCEEDED; J_COMPLETED_WITH_ERRORS; J_FAILED]
  | _ => []
  end.

Definition DEVICE_TRANSITIONS (s : device_state) : list device_state :=
  match s with
  | QUEUED => [WAITING_TRANSFER; FAILED; INTERRUPTED]
  | WAITING_TRANSFER => [QUEUED; DISPATCHING; FAILED; INTERRUPTED]
  | DISPATCHING => [QUEUED; DOWNLOADING; RECONCILING; FAILED]
  | DOWNLOADING => [VALIDATING; RECONCILING; FAILED]
  | VALIDATING => [APPLYING; RECONCILING; FAILED]
  | APPLYING => [SUCCEEDED; RECONCILING; FAILED]
  | RECONCILING =>
      [DOWNLOADING; VALIDATING; APPLYING; QUEUED; SUCCEEDED; FAILED; INTERRUPTED; UNCONFIRMED]
  | _ => []
  end.

(** The exceptions of this module; [EncodeError] is [UnicodeEncodeError]. *)
Inductive job_error :=
  | PushJobError (msg : pystr)
  | InvalidTransition (msg : pystr)
  | EncodeError.

Definition validate_job_transition (src dst : job_state) : outcome job_error unit :=
  if bool_decide (src = dst) then Ret tt
  else if is_terminal_job_state src || negb (bool_decide (dst ∈ JOB_TRANSITIONS src))
  then Raise (InvalidTransition (u "invalid job transition: " ++ job_state_value src
                                 ++ u " -> " ++ job_state_value dst))
  else Ret tt.

Definition validate_device_transition (src dst : device_state) : outcome job_error unit :=
  if bool_decide (src = dst) then Ret tt
  else if is_terminal_device_state src || negb (bool_decide (dst ∈ DEVICE_TRANSITIONS src))
  then Raise (InvalidTransition (u "invalid device transition: " ++ device_state_value src
                                 ++ u " -> " ++ device_state_value dst))
  else Ret tt.

(** ** Aggregates and the derived job state *)

(** The counts in the order of [all_device_states], and the total. *)
Definition aggregate_device_states (states : list device_state) : list (device_state * Z) * Z :=
  foldl (fun '(counts, total) s =>
           ((fun '(t, n) => (t, if bool_decide (t = s) then n + 1 else n)) <$> counts, total + 1))
        ((fun t => (t, 0)) <$> all_device_states, 0) states.

Definition derive_dispatched_job_state (rows : list device_state) : outcome job_error job_state :=
  if bool_decide (rows = [])
  then Raise (PushJobError (u "cannot derive a dispatched job state without device rows"))
  else if existsb (fun s => bool_decide (s = RECONCILING)) rows then Ret J_RECONCILING
  else if existsb (fun s => bool_decide (s ∈ [QUEUED; WAITING_TRANSFER; DISPATCHING;
                                              DOWNLOADING; VALIDATING; APPLYING])) rows
  then Ret J_RUNNING
  else if forallb (fun s => bool_decide (s = SUCCEEDED)) rows then Ret J_SUCCEEDED
  else if existsb (fun s => bool_decide (s = UNCONFIRMED)) rows then Ret J_COMPLETED_WITH_ERRORS
  else if existsb (fun s => bool_decide (s = SUCCEEDED)) rows then Ret J_COMPLETED_WITH_ERRORS
  else Ret J_FAILED.

(** ** Canonical requests *)

Record canonical_source := CanonicalSource {
  display_name : pystr;
  declared_file_count : Z;
  declared_total_bytes : Z;
}.

Record canonical_create_request := CanonicalCreateRequest {
  client_request_id : pystr;
  target_devices : list pystr;
  req_mode : push_mode;
  req_dest_path : pystr;
  source : canonical_source;
  fingerprint : pystr;
}.

Definition source_as_dict (s : canonical_source) : json :=
  JObj [(u "display_name", JStr (display_name s));
        (u "declared_file_count", JInt (declared_file_count s));
        (u "declared_total_bytes", JInt (declared_total_bytes s))].

Definition require_uuid (value : json) (field : pystr) : outcome job_error pystr :=
  match value with
  | JStr s =>
      match uuid_parse s with
      | None => Raise (PushJobError (field ++ u " must be a valid UUIDv4"))
      | Some n => if is_v4 n then Ret (uuid_str n)
                  else Raise (PushJobError (field ++ u " must be a UUIDv4"))
      end
  | _ => Raise (PushJobError (field ++ u " must be a UUIDv4 string"))
  end.

Definition storage_aliases : list pystr := [u "/sdcard"; u "/storage/emulated/0"].
Definition protected_dirs : list pystr :=
  [u "android"; u "download"; u "downloads"; u "dcim"; u "pictures"; u "movies"; u "music";
   u "documents"; u "alarms"; u "notifications"; u "podcasts"; u "ringtones"].

Definition canonical_destination (value : json) : outcome job_error pystr :=
  match value with
  | JStr raw =>
      if bool_decide (strip raw = []) then Raise (PushJobError (u "dest_path is required"))
      else
        let text := replace_char backslash slash (strip raw) in
        if bool_decide (0%N ∈ text)
        then Raise (PushJobError (u "dest_path contains an invalid character"))
        else if negb (startswith text (u "/"))
        then Raise (PushJobError (u "dest_path must be absolute"))
        else if bool_decide (dotdot ∈ split_on slash text)
        then Raise (PushJobError (u "dest_path must not contain '..'"))
        else
          let normalized := normpath text in
          match List.find (fun prefix => streq normalized prefix
                                         || startswith normalized (prefix ++ u "/")) storage_aliases with
          | None => Raise (PushJobError (u "dest_path must be under shared storage"))
          | Some root =>
              let remainder := strip_chars [slash] (drop (length root) normalized) in
              if bool_decide (remainder = [])
              then Raise (PushJobError (u "dest_path must be a shared-storage subdirectory"))
              else if bool_decide (lower (split_once slash remainder).1 ∈ protected_dirs)
              then Raise (PushJobError (u "dest_path points inside a protected top-level directory"))
              else Ret (u "/sdcard/" ++ remainder)
          end
  | _ => Raise (PushJobError (u "dest_path is required"))
  end.

(** [PushMode(str(value).lower())]: the text of a value that is not a string (a
    number, [None], a list) is never the name of a mode. *)
Definition parse_mode (value : json) : option push_mode :=
  match value with
  | JStr s => if streq (lower s) (u "push") then Some PUSH
              else if streq (lower s) (u "sync") then Some SYNC else None
  | _ => None
  end.

(** A device ID of the request: a string that is not blank, stripped. *)
Definition clean_target (v : json) : option pystr :=
  s ← as_str v; if bool_decide (strip s = []) then None else Some (strip s).

(** What the fingerprint is the digest of. *)
Definition fingerprint_payload (targets : list pystr) (m : push_mode) (dest : pystr)
    (src : canonical_source) : json :=
  JObj [(u "target_devices", JArr (JStr <$> targets));
        (u "mode", JStr (mode_value m));
        (u "dest_path", JStr dest);
        (u "source", source_as_dict src)].

Definition fingerprint_of (payload : json) : outcome job_error pystr :=
  encoded ← outcome_of EncodeError (utf8_encode (dumps false (sort_keys payload)));
  mret (sha256_hex encoded).

Definition canonical_targets (raw : json) : outcome job_error (list pystr) :=
  match raw with
  | JArr ((_ :: _) as items) =>
      match mapM clean_target items with
      | None => Raise (PushJobError (u "target_devices must contain non-empty device IDs"))
      | Some cleaned =>
          if bool_decide (NoDup cleaned) then Ret (sorted_strs cleaned)
          else Raise (PushJobError (u "target_devices must not contain duplicates"))
      end
  | _ => Raise (PushJobError (u "target_devices must be a non-empty array"))
  end.

Definition canonical_source_of (raw : json) : outcome job_error canonical_source :=
  src ← outcome_of (PushJobError (u "source must be an object")) (as_obj raw);
  name ← outcome_of (PushJobError (u "source.display_name is required"))
           (s ← as_str (get (u "display_name") src);
            if bool_decide (strip s = []) then None else Some (take 255 (strip s)));
  count ← outcome_of (PushJobError (u "source.declared_file_count must be a positive integer"))
            (n ← as_int (get (u "declared_file_count") src); if n <? 1 then None else Some n);
  total ← outcome_of (PushJobError (u "source.declared_total_bytes must be a non-negative integer"))
            (n ← as_int (get (u "declared_total_bytes") src); if n <? 0 then None else Some n);
  mret (CanonicalSource name count total).

Definition canonicalize_create_request (data : list (pystr * json))
    : outcome job_error canonical_create_request :=
  request_id ← require_uuid (get (u "client_request_id") data) (u "client_request_id");
  targets ← canonical_targets (get (u "target_devices") data);
  m ← outcome_of (PushJobError (u "mode must be 'push' or 'sync'"))
        (parse_mode (get (u "mode") data));
  dest ← canonical_destination (get (u "dest_path") data);
  src ← canonical_source_of (get (u "source") data);
  digest ← fingerprint_of (fingerprint_payload targets m dest src);
  mret (CanonicalCreateRequest request_id targets m dest src digest).

(** ** Capabilities *)

Definition MAX_CAPABILITIES : nat := 32.

Fixpoint parse_capability_items (items : list json) : option (list pystr) :=
  match items with
  | [] => Some []
  | v :: items' =>
      match v with
      | JStr s =>
          if bool_decide (s = []) || bool_decide (128 < length s)%nat then None
          else cons s <$> parse_capability_items items'
      | _ => None
      end
  end.

Definition parse_capabilities (value : json) : gset pystr :=
  match value with
  | JArr items =>
      if bool_decide (MAX_CAPABILITIES < length items)%nat then ∅
      else match parse_capability_items items with
           | Some parsed => list_to_set parsed
           | None => ∅
           end
  | _ => ∅
  end.
