(* ===== verification/Identity.v ===== *)
(** * Identities

    The canonical text of a UUID: [str(uuid.UUID(s))] is read back as the same UUID, so
    that canonicalising an identity twice changes nothing and equal identities have
    equal texts. *)

From S2P Require Import Prelude PyStr Text Json Uuid PushJobs.
Open Scope N_scope.

(** ** Hexadecimal texts *)

Definition hex_digits : list N := [48;49;50;51;52;53;54;55;56;57;97;98;99;100;101;102].
Definition hex_text (s : pystr) : Prop := Forall (fun c => c ∈ hex_digits) s.

Lemma not_hex c : c ∈ hex_digits -> bool_decide (c ∈ hex_digits) = false -> False.
Proof. by intros Hc ?%bool_decide_eq_false_1. Qed.

Lemma hex_digit_facts d :
  d < 16 -> hex_digit d ∈ hex_digits /\ digit16 (hex_digit d) = Some d.
Proof.
  intros Hd. assert (d ∈ N.of_nat <$> seq 0 16) as Hin.
  { apply list_elem_of_fmap. exists (N.to_nat d). split; [lia|]. apply elem_of_seq. lia. }
  assert (Forall (fun d => hex_digit d ∈ hex_digits /\ digit16 (hex_digit d) = Some d)
            (N.of_nat <$> seq 0 16)) as Hall.
  { apply (bool_decide_eq_true_1 _). vm_compute. reflexivity. }
  rw Forall_forall in Hall. by apply Hall.
Qed.

Lemma hex_text_hex w n : hex_text (hex w n) /\ length (hex w n) = w.
Proof.
  induction w as [|w IH] in n |- *; [by split; [constructor|]|]. simpl.
  destruct (IH (n / 16)) as [Ht Hl]. split.
  - apply Forall_app. split; [done|]. constructor; [|by constructor]. apply hex_digit_facts. by apply N.mod_lt.
  - rw length_app Hl /=. lia.
Qed.

(** A character that is no hexadecimal digit is not in a hexadecimal text. *)
Lemma hex_text_not c s : bool_decide (c ∈ hex_digits) = false -> hex_text s -> c ∉ s.
Proof. intros Hc%bool_decide_eq_false_1 Hs Hin. rw /hex_text Forall_forall in Hs. by apply Hc, Hs. Qed.
Lemma hex_text_end (p : N -> bool) s c :
  forallb (fun c => negb (p c)) hex_digits = true -> hex_text s -> c ∈ s -> p c = false.
Proof.
  intros Hp Hs Hc. rw /hex_text Forall_forall in Hs. apply Hs in Hc. apply negb_true_iff.
  rw forallb_forall in Hp. apply Hp. by apply list_elem_of_In.
Qed.

Lemma digits16_hex w n acc : digits16 acc (hex w n) = Some (acc * 16 ^ N.of_nat w + n mod 16 ^ N.of_nat w).
Proof.
  assert (forall s t acc, hex_text s -> digits16 acc (s ++ t) = digits16 acc s ≫= fun v => digits16 v t) as Happ.
  { induction s as [|c s IH]; intros t a Hs; [done|]. apply Forall_cons_1 in Hs as [Hc Hs]. simpl.
    destruct (N.eqb_spec c 95) as [->|_]; [by apply not_hex in Hc|].
    destruct (digit16 c); [by apply IH|done]. }
  induction w as [|w IH] in n, acc |- *.
  { simpl. f_equal. rw N.mod_1_r. lia. }
  simpl hex. rw Happ; [|apply hex_text_hex]. rw IH /=.
  destruct (hex_digit_facts (n mod 16)) as [Hin Hd]; [by apply N.mod_lt|]. rw Hd.
  destruct (N.eqb_spec (hex_digit (n mod 16)) 95) as [Heq|_].
  { rw Heq in Hin. by apply not_hex in Hin. }
  f_equal. rw Nat2N.inj_succ N.pow_succ_r'. rw N.Div0.mod_mul_r. lia.
Qed.

Lemma int16_hex w n : (2 <= w)%nat -> int16 (hex w n) = Some (n mod 16 ^ N.of_nat w).
Proof.
  intros Hw. pose proof (digits16_hex w n 0) as Hd. destruct (hex_text_hex w n) as [Ht Hl].
  rw /int16. assert (strip (hex w n) = hex w n) as ->.
  { apply strip_by_id; intros c Hc; (eapply hex_text_end; [vm_compute; reflexivity|exact Ht|]).
    - destruct (hex w n); [done|]. injection Hc as <-. left.
    - apply last_Some in Hc as [l ->]. set_solver. }
  destruct (hex w n) as [|z [|x t]]; [simpl in Hl; lia..|].
  apply Forall_cons_1 in Ht as [Hz [Hx Ht]%Forall_cons_1].
  destruct (N.eqb_spec z 43) as [->|_]; [by apply not_hex in Hz|].
  destruct (N.eqb_spec x 120) as [->|_]; [by apply not_hex in Hx|].
  destruct (N.eqb_spec x 88) as [->|_]; [by apply not_hex in Hx|].
  rw andb_false_r. simpl in Hd |- *.
  destruct (N.eqb_spec z 95) as [->|_]; [by apply not_hex in Hz|].
  exact Hd.
Qed.

(** ** Canonical texts *)

Lemma remove_sub_absent c p s : c ∉ s -> remove_sub (c :: p) s = s.
Proof.
  intros Hc. rw /remove_sub. generalize (length s) as k. revert s Hc.
  intros s Hc k. induction k as [|k IH] in s, Hc |- *; [done|]. destruct s as [|d s]; [done|].
  apply not_elem_of_cons in Hc as [Hd Hs]. simpl. destruct (N.eqb_spec c d); [done|]. simpl. by rw IH.
Qed.
Lemma remove_char_app a s t : remove_char a (s ++ t) = remove_char a s ++ remove_char a t.
Proof. apply filter_app. Qed.
Lemma remove_char_absent a s : a ∉ s -> remove_char a s = s.
Proof. intros Ha. apply filter_all, Forall_forall. intros c Hc ->. done. Qed.

Lemma in_take {A} (x : A) n l : x ∈ take n l -> x ∈ l.
Proof. intros. rw -(take_drop n l). set_solver. Qed.
Lemma in_drop {A} (x : A) n l : x ∈ drop n l -> x ∈ l.
Proof. intros. rw -(take_drop n l). set_solver. Qed.

(** The groups of the text, and what is left of it without the dashes. *)
Definition uuid_groups (h : pystr) : list pystr :=
  [take 8 h; take 4 (drop 8 h); take 4 (drop 12 h); take 4 (drop 16 h); drop 20 h].
Lemma uuid_groups_hex h p : hex_text h -> p ∈ uuid_groups h -> hex_text p.
Proof.
  intros Hh Hp. apply Forall_forall. intros c Hc. rw /hex_text Forall_forall in Hh. apply Hh.
  do 4 (apply elem_of_cons in Hp as [->|Hp]; [by repeat first [apply in_take in Hc|apply in_drop in Hc]|]).
  apply list_elem_of_singleton in Hp as ->. by apply in_drop in Hc.
Qed.
Lemma uuid_groups_concat h : concat (uuid_groups h) = h.
Proof.
  assert (forall n, take 4 (drop n h) ++ drop (n + 4)%nat h = drop n h) as Hg
    by (intros m; by rw -drop_drop take_drop).
  pose proof (Hg 8%nat) as H8. pose proof (Hg 12%nat) as H12. pose proof (Hg 16%nat) as H16. simpl in H8, H12, H16.
  rw /uuid_groups /= app_nil_r. by rw H16 H12 H8 take_drop.
Qed.
Lemma remove_join a ps :
  Forall (fun p => a ∉ p) ps -> remove_char a (join_with a ps) = concat ps.
Proof.
  induction ps as [|p ps IH]; [done|]. intros [Hp Hps]%Forall_cons_1.
  destruct ps as [|q ps]; [by rw /= app_nil_r remove_char_absent|].
  rw join_cons remove_char_app remove_char_absent //. rw /remove_char filter_cons_False; [|by intros []].
  change (filter _ _) with (remove_char a (join_with a (q :: ps))). by rw IH.
Qed.
Lemma uuid_text_str n : uuid_text (uuid_str n) = hex 32 n.
Proof.
  destruct (hex_text_hex 32 n) as [Ht _].
  assert (forall c, bool_decide (c ∈ hex_digits) = false -> c <> 45 -> c ∉ uuid_str n) as Habs.
  { intros c Hc Hne [->|(p & Hp & Hcp)]%join_chars; [done|].
    by eapply hex_text_not; [|eapply uuid_groups_hex|]. }
  rw /uuid_text. rw (remove_sub_absent 117 (u "rn:")); [|by apply Habs].
  rw (remove_sub_absent 117 (u "uid:")); [|by apply Habs].
  rw /strip_chars strip_by_id.
  - rw /uuid_str remove_join; [apply uuid_groups_concat|].
    apply Forall_forall. intros p Hp%uuid_groups_hex; [|done]. by eapply hex_text_not.
  - intros c Hc. apply bool_decide_eq_false_2. intros Hin.
    assert (c ∈ uuid_str n) as Hcs by (destruct (uuid_str n); [done|]; injection Hc as ->; left).
    revert Hcs. apply elem_of_cons in Hin as [->| ->%list_elem_of_singleton]; by apply Habs.
  - intros c [l Hc]%last_Some. apply bool_decide_eq_false_2. intros Hin.
    assert (c ∈ uuid_str n) as Hcs by (rw Hc; set_solver).
    revert Hcs. apply elem_of_cons in Hin as [->| ->%list_elem_of_singleton]; by apply Habs.
Qed.

Lemma uuid_str_read n : n < 2 ^ 128 -> uuid_parse (uuid_str n) = Some n.
Proof.
  intros Hn. rw /uuid_parse uuid_text_str. destruct (hex_text_hex 32 n) as [_ Hl].
  rw bool_decide_eq_true_2 // int16_hex; [|lia]. rw N.mod_small //.
  by apply N.ltb_lt in Hn as ->.
Qed.
Lemma uuid_parse_range s n : uuid_parse s = Some n -> n < 2 ^ 128.
Proof.
  rw /uuid_parse. case_bool_decide; [|done]. destruct (int16 _) as [m|]; [|done].
  destruct (N.ltb_spec m (2 ^ 128)); [|done]. by intros [= <-].
Qed.

(** The canonical text of an accepted identity is accepted again, as itself, and two
    accepted texts have the same canonical text exactly when they denote the same UUID. *)
Theorem identity_is_canonical v field s :
  require_uuid v field = Ret s ->
  require_uuid (JStr s) field = Ret s /\
  forall w t, require_uuid w field = Ret t ->
    (s = t <-> exists n, (as_str v ≫= uuid_parse) = Some n /\ (as_str w ≫= uuid_parse) = Some n).
Proof.
  intros Hv. assert (forall v s, require_uuid v field = Ret s ->
    exists n, (as_str v ≫= uuid_parse) = Some n /\ is_v4 n = true /\ s = uuid_str n /\ n < 2 ^ 128) as Hinv.
  { clear. intros v s. rw /require_uuid. destruct v as [| | | |r| |]; try done. simpl.
    destruct (uuid_parse r) as [n|] eqn:E; [|done]. destruct (is_v4 n) eqn:E4; [|done].
    intros [= <-]. exists n. split_and!; [done..|]. by eapply uuid_parse_range. }
  apply Hinv in Hv as (n & Hn & H4 & -> & Hr). split.
  - by rw /require_uuid uuid_str_read // H4.
  - intros w t (m & Hm & _ & -> & Hmr)%Hinv. split.
    + intros Heq. exists n. split; [done|]. rw Hm. apply uuid_str_read in Hmr, Hr. congruence.
    + intros (k & ? & ?). congruence.
Qed.
Lemma identity_is_canonical_witness :
  exists s, require_uuid (JStr (u "{0F8FAD5BD9CB469FA16570867728950E}")) (u "job_id") = Ret s /\
    require_uuid (JStr s) (u "job_id") = Ret s.
Proof.
  exists (u "0f8fad5b-d9cb-469f-a165-70867728950e"). split; [vm_compute; reflexivity|].
  exact (proj1 (identity_is_canonical (JStr (u "{0F8FAD5BD9CB469FA16570867728950E}")) (u "job_id") _
    ltac:(vm_compute; reflexivity))).
Defined.
