(* ===== verification/Domain.v ===== *)
(** * Properties of the job domain

    The two transition tables, the derivation of a job's state from its devices,
    the aggregate the consoles show, and the lemmas the protocol's invariants use. *)

From S2P Require Import Prelude PyStr Json Uuid PushJobs.
Open Scope Z_scope.

(** ** The tables *)

Lemma validate_job_ret src dst :
  validate_job_transition src dst = Ret tt <-> src = dst \/ dst ∈ JOB_TRANSITIONS src.
Proof.
  rw /validate_job_transition /is_terminal_job_state.
  repeat case_bool_decide; simpl; split; try naive_solver.
  destruct src; set_solver.
Qed.

Lemma validate_device_ret src dst :
  validate_device_transition src dst = Ret tt <-> src = dst \/ dst ∈ DEVICE_TRANSITIONS src.
Proof.
  rw /validate_device_transition /is_terminal_device_state.
  repeat case_bool_decide; simpl; split; try naive_solver.
  destruct src; set_solver.
Qed.

(** ** The derived job state *)

(** The states that keep a job running. *)
Definition in_flight : list device_state :=
  [QUEUED; WAITING_TRANSFER; DISPATCHING; DOWNLOADING; VALIDATING; APPLYING].

Lemma in_flight_spec s : (s ∈ in_flight) <-> ((s ∉ TERMINAL_DEVICE_STATES) /\ s <> RECONCILING).
Proof. destruct s; rw /in_flight /TERMINAL_DEVICE_STATES; set_solver. Qed.

Lemma terminal_state s :
  s ∈ TERMINAL_DEVICE_STATES <-> s = SUCCEEDED \/ s = FAILED \/ s = INTERRUPTED \/ s = UNCONFIRMED.
Proof. rw /TERMINAL_DEVICE_STATES. set_solver. Qed.

Lemma existsb_in {A} (p : A -> bool) l : existsb p l = true <-> (exists x, x ∈ l /\ p x = true).
Proof. rw existsb_exists. by split; intros (x & ?%list_elem_of_In & ?); exists x. Qed.
Lemma existsb_notin {A} (p : A -> bool) l : existsb p l = false <-> (forall x, x ∈ l -> p x = false).
Proof.
  pose proof (existsb_in p l) as H. destruct (existsb p l).
  - split; [done|]. destruct H as [(x & ? & ?) _]; naive_solver.
  - split; [|done]. intros _ x Hx. destruct (p x) eqn:?; naive_solver.
Qed.
Lemma forallb_in {A} (p : A -> bool) l : forallb p l = true <-> (forall x, x ∈ l -> p x = true).
Proof. rw forallb_forall. by split; intros H x ?%list_elem_of_In; apply H. Qed.

(** What each derived state means for the devices. *)
Definition derives (rows : list device_state) (s : job_state) : Prop :=
  rows <> [] /\
  match s with
  | J_RECONCILING => RECONCILING ∈ rows
  | J_RUNNING => (RECONCILING ∉ rows) /\ exists t, t ∈ rows /\ t ∈ in_flight
  | J_SUCCEEDED => forall t, t ∈ rows -> t = SUCCEEDED
  | J_COMPLETED_WITH_ERRORS =>
      (forall t, t ∈ rows -> t ∈ TERMINAL_DEVICE_STATES) /\
      (UNCONFIRMED ∈ rows \/ (SUCCEEDED ∈ rows /\ exists t, t ∈ rows /\ t <> SUCCEEDED))
  | J_FAILED => forall t, t ∈ rows -> t = FAILED \/ t = INTERRUPTED
  | _ => False
  end.

(** The tests of the derivation, on the members of the list. *)
Lemma existsb_decide {A} (P : A -> Prop) `{forall x, Decision (P x)} l :
  existsb (fun t => bool_decide (P t)) l = bool_decide (Exists P l).
Proof.
  destruct (existsb _ l) eqn:E; symmetry.
  - apply existsb_in in E as (x & Hx & ?%bool_decide_eq_true_1).
    apply bool_decide_eq_true_2, Exists_exists. eauto.
  - apply bool_decide_eq_false_2. intros (x & Hx & ?)%Exists_exists.
    eapply existsb_notin in E; [|done]. by apply bool_decide_eq_false_1 in E.
Qed.
Lemma forallb_decide {A} (P : A -> Prop) `{forall x, Decision (P x)} l :
  forallb (fun t => bool_decide (P t)) l = bool_decide (Forall P l).
Proof.
  destruct (forallb _ l) eqn:E; symmetry.
  - apply bool_decide_eq_true_2, Forall_forall. intros x Hx.
    eapply forallb_in in E; [|done]. by apply bool_decide_eq_true_1 in E.
  - apply bool_decide_eq_false_2. intros HF. apply not_true_iff_false in E. apply E, forallb_in.
    intros x Hx. apply bool_decide_eq_true_2. by eapply Forall_forall in HF.
Qed.

Lemma derive_eq rows :
  derive_dispatched_job_state rows =
  if bool_decide (rows = [])
  then Raise (PushJobError (u "cannot derive a dispatched job state without device rows"))
  else Ret (if bool_decide (RECONCILING ∈ rows) then J_RECONCILING
            else if bool_decide (Exists (.∈ in_flight) rows) then J_RUNNING
            else if bool_decide (Forall (.= SUCCEEDED) rows) then J_SUCCEEDED
            else if bool_decide (UNCONFIRMED ∈ rows) then J_COMPLETED_WITH_ERRORS
            else if bool_decide (SUCCEEDED ∈ rows) then J_COMPLETED_WITH_ERRORS
            else J_FAILED).
Proof.
  rw /derive_dispatched_job_state !existsb_decide forallb_decide.
  assert (forall s, bool_decide (Exists (.= s) rows) = bool_decide (s ∈ rows)) as Hs.
  { intros s. apply bool_decide_ext. rw Exists_exists. naive_solver. }
  rw !Hs. by repeat case_bool_decide.
Qed.

Lemma all_terminal rows :
  (RECONCILING ∉ rows) -> ~ Exists (.∈ in_flight) rows ->
  forall t, t ∈ rows -> t ∈ TERMINAL_DEVICE_STATES.
Proof.
  intros Hr Hf t Ht. destruct (decide (t ∈ TERMINAL_DEVICE_STATES)) as [|Hn]; [done|].
  destruct Hf. apply Exists_exists. exists t. split; [done|]. apply in_flight_spec.
  split; [done|]. by intros ->.
Qed.

Lemma derive_sound rows s : derive_dispatched_job_state rows = Ret s -> derives rows s.
Proof.
  rw derive_eq. case_bool_decide as Hn; [done|]. intros [= <-]. split; [done|].
  case_bool_decide as Hr; [done|].
  case_bool_decide as Hf; [by apply Exists_exists in Hf|].
  pose proof (all_terminal _ Hr Hf) as Ht.
  case_bool_decide as Hs; [by apply Forall_forall|].
  case_bool_decide as Hu; [by auto|].
  case_bool_decide as Hx.
  - split; [done|]. right. split; [done|]. apply not_Forall_Exists, Exists_exists in Hs; [|apply _].
    naive_solver.
  - intros t H. specialize (Ht t H). apply terminal_state in Ht. naive_solver.
Qed.

Lemma no_test (P : Prop) `{Decision P} {A} (a b : A) : ~ P -> (if bool_decide P then a else b) = b.
Proof. intros. by rw bool_decide_eq_false_2. Qed.
Lemma yes_test (P : Prop) `{Decision P} {A} (a b : A) : P -> (if bool_decide P then a else b) = a.
Proof. intros. by rw bool_decide_eq_true_2. Qed.

Lemma all_are {A} (x : A) l : Forall (.= x) l -> forall y, y ∈ l -> y = x.
Proof. intros H y Hy. by eapply Forall_forall in H. Qed.

Lemma terminal_tests rows :
  (forall t, t ∈ rows -> t ∈ TERMINAL_DEVICE_STATES) ->
  (RECONCILING ∉ rows) /\ ~ Exists (.∈ in_flight) rows.
Proof.
  intros Ht. split.
  - intros Hr%Ht%terminal_state. naive_solver.
  - intros (t & Htr & [? _]%in_flight_spec)%Exists_exists. by eauto.
Qed.

Lemma derives_complete rows s : derives rows s -> derive_dispatched_job_state rows = Ret s.
Proof.
  intros [Hn Hs]. rw derive_eq no_test //.
  assert (exists t, t ∈ rows) as [t0 Ht0] by (destruct rows as [|t l]; [done|exists t; left]).
  destruct s; try done; f_equal.
  - destruct Hs as (? & t & ? & ?). rw no_test // yes_test //. apply Exists_exists. eauto.
  - by rw yes_test.
  - assert (forall t, t ∈ rows -> t ∈ TERMINAL_DEVICE_STATES) as [??]%terminal_tests.
    { intros t ->%Hs. apply terminal_state. auto. }
    rw no_test // no_test // yes_test //. by apply Forall_forall.
  - destruct Hs as [[??]%terminal_tests Hs]. rw no_test // no_test //.
    rw no_test; [|intros HF; pose proof (all_are _ _ HF) as HA; clear HF;
      destruct Hs as [?%HA|(? & t & ?%HA & ?)]; done].
    repeat case_bool_decide; naive_solver.
  - assert (forall t, t ∈ rows -> t ∈ TERMINAL_DEVICE_STATES) as [??]%terminal_tests.
    { intros t [->| ->]%Hs; apply terminal_state; auto. }
    rw no_test // no_test // !no_test //; try naive_solver.
    intros HF; pose proof (all_are _ _ HF). destruct (Hs _ Ht0); naive_solver.
Qed.

Lemma derive_total rows : rows <> [] -> exists s, derive_dispatched_job_state rows = Ret s.
Proof. intros Hn. rw derive_eq bool_decide_eq_false_2; eauto. Qed.

Lemma derive_spec rows s : derive_dispatched_job_state rows = Ret s <-> derives rows s.
Proof. split; [apply derive_sound|apply derives_complete]. Qed.

(** The derivation sees the set of the states only. *)
Lemma derive_members l l' :
  (forall s, s ∈ l <-> s ∈ l') -> derive_dispatched_job_state l = derive_dispatched_job_state l'.
Proof.
  intros Hl. rw !derive_eq.
  assert (l = [] <-> l' = []) as Hnil.
  { split; intros ->; apply elem_of_nil_inv; intros s; specialize (Hl s); set_solver. }
  assert (Exists (.∈ in_flight) l <-> Exists (.∈ in_flight) l') as HE
    by (rw !Exists_exists; naive_solver).
  assert (Forall (.= SUCCEEDED) l <-> Forall (.= SUCCEEDED) l') as HF
    by (rw !Forall_forall; naive_solver).
  by rw (bool_decide_ext _ _ Hnil) !(bool_decide_ext _ _ (Hl _)) (bool_decide_ext _ _ HE)
    (bool_decide_ext _ _ HF).
Qed.

Lemma derived_states rows s :
  derive_dispatched_job_state rows = Ret s ->
  s ∈ [J_RUNNING; J_RECONCILING; J_SUCCEEDED; J_COMPLETED_WITH_ERRORS; J_FAILED].
Proof. intros [_ H]%derive_sound. destruct s; try done; set_solver. Qed.

(** ** The aggregate *)

Definition count (s : device_state) (l : list device_state) : Z :=
  Z.of_nat (length (filter (s =.) l)).

Lemma count_cons s t l : count s (t :: l) = (if bool_decide (s = t) then 1 else 0) + count s l.
Proof. rw /count filter_cons. repeat case_decide; case_bool_decide; simpl; naive_solver lia. Qed.

Lemma aggregate_fold l counts total :
  foldl (fun '(counts, total) s =>
           ((fun '(t, n) => (t, if bool_decide (t = s) then n + 1 else n)) <$> counts, total + 1))
    (counts, total) l
  = ((fun '(t, n) => (t, n + count t l)) <$> (counts : list (device_state * Z)), total + Z.of_nat (length l)).
Proof.
  induction l as [|s l IH] in counts, total |- *; simpl.
  - f_equal; [|lia]. induction counts as [|[t n] cs IHc]; simpl; [done|].
    f_equal; [|exact IHc]. f_equal. rw /count /=. lia.
  - rw IH. f_equal; [|lia]. clear IH. induction counts as [|[t n] cs IHc]; simpl; [done|].
    f_equal; [|exact IHc]. f_equal. rw count_cons. case_bool_decide; lia.
Qed.

Lemma aggregate_eq l :
  aggregate_device_states l = ((fun t => (t, count t l)) <$> all_device_states, Z.of_nat (length l)).
Proof. rw /aggregate_device_states aggregate_fold. f_equal; lia. Qed.

Lemma count_total l : sum_of ((fun t => count t l) <$> all_device_states) = Z.of_nat (length l).
Proof.
  induction l as [|s l IH]; [done|].
  transitivity (1 + sum_of ((fun t => count t l) <$> all_device_states)).
  - rw /all_device_states /= !count_cons. destruct s; simpl; lia.
  - simpl length. lia.
Qed.
