(* ===== verification/Requests.v ===== *)
(** * Create requests

    What the job domain promises of a request: destinations stay below shared storage,
    the canonical form depends on what is asked for and not on how it is written, the
    derived job state describes the devices and moves along the transition table. *)

From S2P Require Import Prelude PyStr Text Json Uuid Sha256 PushJobs Domain.
From stdpp Require Import sorting.

(** ** Destinations *)

(** The components of a destination: none is empty, names a directory already there
    or a parent, or holds a separator of either kind or NUL. *)
Definition plain_component (c : pystr) : Prop :=
  c <> [] /\ c <> dot /\ c <> dotdot /\ (slash ∉ c) /\ (backslash ∉ c) /\ (0%N ∉ c).
#[export] Instance plain_component_dec c : Decision (plain_component c) := _.

Lemma plain_piece c : plain_component c -> c <> [] /\ slash ∉ c.
Proof. by intros (? & ? & ? & ? & ? & ?). Qed.
Lemma plain_pieces cs : Forall plain_component cs -> Forall (fun c => c <> [] /\ slash ∉ c) cs.
Proof. intros. eapply Forall_impl; [done|]. apply plain_piece. Qed.
Lemma plain_slashes cs : Forall plain_component cs -> Forall (fun c => slash ∉ c) cs.
Proof. intros. eapply Forall_impl; [done|]. by intros c [_ ?]%plain_piece. Qed.

(** The shared-storage prefixes, as components. *)
Definition alias_components : list (list pystr) :=
  [[u "sdcard"]; [u "storage"; u "emulated"; u "0"]].
Lemma alias_spec root :
  root ∈ storage_aliases ->
  exists pc, pc ∈ alias_components /\ root = slash :: join_with slash pc.
Proof.
  intros [->|[->|H]%elem_of_cons]%elem_of_cons; [| |by apply elem_of_nil in H];
    [exists [u "sdcard"]|exists [u "storage"; u "emulated"; u "0"]]; split; try reflexivity;
    repeat constructor.
Qed.
Lemma alias_plain pc : pc ∈ alias_components -> pc <> [] /\ Forall plain_component pc.
Proof.
  intros [->|[->|H]%elem_of_cons]%elem_of_cons; [| |by apply elem_of_nil in H];
    (split; [done|apply (bool_decide_eq_true_1 _); vm_compute; reflexivity]).
Qed.

(** Leading slashes and components are read off a path. *)
Lemma one_slash k cs pc t :
  (k = 1 \/ k = 2)%nat -> pc <> [] -> Forall plain_component pc -> Forall plain_component cs ->
  replicate k slash ++ join_with slash cs = slash :: join_with slash pc ++ t ->
  join_with slash cs = join_with slash pc ++ t.
Proof.
  intros [->| ->] Hn Hpc Hcs; simpl; intros [= Heq]; [done|].
  exfalso. destruct pc as [|[|c p] pc]; [done| |].
  - apply Forall_cons_1 in Hpc as [[? _]%plain_piece _]. done.
  - apply Forall_cons_1 in Hpc as [[_ Hp]%plain_piece _]. apply Hp.
    destruct pc; simpl in Heq; injection Heq as -> _; left.
Qed.

Lemma below_alias k cs pc t :
  (k = 1 \/ k = 2)%nat -> pc <> [] -> Forall plain_component pc -> Forall plain_component cs ->
  replicate k slash ++ join_with slash cs = slash :: join_with slash pc ++ slash :: t ->
  exists rest, rest <> [] /\ cs = pc ++ rest /\ t = join_with slash rest.
Proof.
  intros Hk Hn Hpc Hcs Heq. apply one_slash in Heq; [|done..].
  assert (cs <> []) as Hcn by by intros ->; destruct (join_with slash pc).
  apply (f_equal (split_on slash)) in Heq.
  rw split_join // in Heq; [|by apply plain_slashes].
  rw split_join_app // in Heq; [|by apply plain_slashes].
  exists (split_on slash t). split_and!; [apply split_on_nonempty|done|by rw join_split].
Qed.

(** Slashes around the remainder are stripped: there is the one that follows the prefix. *)
Lemma strip_remainder rest :
  Forall plain_component rest ->
  strip_chars [slash] (slash :: join_with slash rest) = join_with slash rest.
Proof.
  intros Hr%plain_pieces.
  assert (strip_chars [slash] (join_with slash rest) = join_with slash rest) as Hs.
  { apply strip_by_id; intros c Hc; apply bool_decide_eq_false_2; intros ->%list_elem_of_singleton;
      [by eapply join_head|by eapply join_last]. }
  rw -{2}Hs. reflexivity.
Qed.

Lemma kept_plain text :
  (0%N ∉ text) -> (backslash ∉ text) -> (dotdot ∉ split_on slash text) ->
  Forall plain_component (filter kept (split_on slash text)).
Proof.
  intros H0 Hb Hd. apply Forall_forall. intros c [[Hn Hc] Hin]%list_elem_of_filter.
  pose proof (split_on_pieces slash text) as Hp. rw Forall_forall in Hp.
  split_and!; [done|done|by intros ->|by apply Hp|..]; intros Hx;
    [apply Hb|apply H0]; by eapply split_on_chars.
Qed.

Lemma replace_gone a b s : a <> b -> a ∉ replace_char a b s.
Proof. intros Hn (c & Hc & _)%list_elem_of_fmap. destruct (N.eqb_spec c a); congruence. Qed.

Definition shared_destination (dest : pystr) : Prop :=
  exists cs, cs <> [] /\ dest = u "/sdcard/" ++ join_with slash cs /\
    Forall plain_component cs /\ (lower (hd [] cs) ∉ protected_dirs).

Lemma join_empty cs : Forall plain_component cs -> join_with slash cs = [] -> cs = [].
Proof. destruct cs as [|c cs]; [done|]. intros [[? _] _]%Forall_cons_1. by destruct c, cs. Qed.

Lemma destination_shared v dest : canonical_destination v = Ret dest -> shared_destination dest.
Proof.
  rw /canonical_destination. destruct v as [| | | |raw| |]; try done.
  case_bool_decide; [done|]. set (text := replace_char _ _ _). cbv zeta.
  case_bool_decide as H0; [done|]. destruct (startswith text (u "/")) eqn:Hs; [|done].
  case_bool_decide as Hd; [done|]. simpl negb.
  destruct (List.find _ storage_aliases) as [root|] eqn:Hf; [|done].
  apply List.find_some in Hf as [Hroot%list_elem_of_In Htest].
  destruct (alias_spec root Hroot) as (pc & Hpc & ->). apply alias_plain in Hpc as [Hpn Hpc].
  destruct (normpath_absolute text Hd Hs) as (k & Hk & Hnorm).
  assert (k = 1 \/ k = 2)%nat as Hk2 by naive_solver. clear Hk.
  assert (backslash ∉ text) as Hb by by apply replace_gone.
  pose proof (kept_plain text H0 Hb Hd) as Hkept.
  apply orb_true_iff in Htest as [Heq%streq_spec|[t Ht]%startswith_spec].
  { rw Heq drop_all /=. done. }
  pose proof Ht as Hrest. rw Hnorm -app_assoc -app_comm_cons in Hrest.
  apply below_alias in Hrest as (rest & Hn & Hcs & ->); [|done..].
  rw Hcs Forall_app in Hkept. destruct Hkept as [_ Hrest].
  rw Ht -app_assoc drop_app_length /= strip_remainder //.
  case_bool_decide as He; [done|]. destruct rest as [|c rest]; [done|].
  pose proof (Forall_inv Hrest) as [_ Hc]%plain_piece. rw split_once_join //.
  case_bool_decide as Hp; [done|]. intros [= <-]. by exists (c :: rest).
Qed.

Lemma shared_fixed dest :
  shared_destination dest -> strip dest = dest -> canonical_destination (JStr dest) = Ret dest.
Proof.
  intros (cs & Hn & Hdest & Hcs & Hp) Hstrip. rw /canonical_destination Hstrip.
  assert (dest = slash :: join_with slash (u "sdcard" :: cs)) as Hd.
  { rw Hdest. by destruct cs. }
  assert (Forall plain_component (u "sdcard" :: cs)) as Hall.
  { constructor; [apply (bool_decide_eq_true_1 _); vm_compute; reflexivity|done]. }
  clear Hdest Hcs.
  assert (forall x, x <> slash -> (forall c, plain_component c -> x ∉ c) -> x ∉ dest) as Hx.
  { intros x Hx Hplain. rw Hd. intros [?|[?|(p & Hin & Hxp)]%join_chars]%elem_of_cons; [done..|].
    rw Forall_forall in Hall. by eapply Hplain, Hxp; apply Hall. }
  assert (backslash ∉ dest) as Hb by (apply Hx; [done|]; by intros c (? & ? & ? & ? & ? & ?)).
  assert (0%N ∉ dest) as H0 by (apply Hx; [done|]; by intros c (? & ? & ? & ? & ? & ?)).
  assert (split_on slash dest = [] :: u "sdcard" :: cs) as Hsplit.
  { rw Hd -(app_nil_l (slash :: _)) split_on_sep; [|by apply not_elem_of_nil].
    f_equal. apply split_join; [done|]. by apply plain_slashes. }
  assert (dotdot ∉ split_on slash dest) as Hdd.
  { rw Hsplit. intros [?|Hin]%elem_of_cons; [done|]. rw Forall_forall in Hall.
    by destruct (Hall _ Hin) as (? & ? & ? & ?). }
  rw (replace_id backslash slash dest Hb) no_test; [|intros He; rw Hd in He; discriminate He].
  destruct (normpath_absolute dest Hdd) as (k & Hk & Hnorm); [by rw Hd|].
  assert (k = 1)%nat as -> by (destruct Hk as [|[_ Hk]]; [done|]; by rw Hd in Hk; destruct cs).
  assert (normpath dest = dest) as ->.
  { rw Hnorm Hsplit filter_cons_False; [|by intros []]. rw filter_all; [by rw Hd|].
    eapply Forall_impl; [done|]. by intros c (? & ? & _). }
  assert (dest = (u "/sdcard" ++ u "/") ++ join_with slash cs) as Hform by by rw Hd; destruct cs.
  assert (startswith dest (u "/") = true) as ->.
  { apply startswith_spec. exists (u "sdcard/" ++ join_with slash cs). by rw Hform. }
  assert (List.find (fun prefix => streq dest prefix || startswith dest (prefix ++ u "/")) storage_aliases
          = Some (u "/sdcard")) as ->.
  { assert (startswith dest (u "/sdcard" ++ u "/") = true) as Hs by (apply startswith_spec; by eexists).
    unfold storage_aliases, List.find. by rw Hs orb_true_r. }
  apply Forall_cons_1 in Hall as [_ Hcs].
  assert (drop (length (u "/sdcard")) dest = slash :: join_with slash cs) as ->.
  { by rw Hform -app_assoc drop_app_length. }
  rw no_test // no_test //= strip_remainder //.
  rw no_test; [|by intros ?%join_empty]. destruct cs as [|c cs]; [done|].
  pose proof (Forall_inv Hcs) as [_ Hc]%plain_piece. rw split_once_join // no_test //. by rw Hform.
Qed.

(** An accepted destination is a directory strictly below /sdcard: its components
    are plain names, none a parent or holding a separator or NUL, and the first is no
    protected directory in any case.  A canonical destination is accepted again as it
    is, unless it ends in a blank. *)
Theorem destination_stays_shared v dest :
  canonical_destination v = Ret dest ->
  shared_destination dest /\ (strip dest = dest -> canonical_destination (JStr dest) = Ret dest).
Proof. intros H%destination_shared. split; [done|]. by apply shared_fixed. Qed.
Lemma destination_stays_shared_witness :
  exists dest, canonical_destination (JStr (u " /storage/emulated/0//Videos/./a\b/ ")) = Ret dest /\
    shared_destination dest /\ canonical_destination (JStr dest) = Ret dest.
Proof.
  exists (u "/sdcard/Videos/a/b"). split; [vm_compute; reflexivity|].
  destruct (destination_stays_shared (JStr (u " /storage/emulated/0//Videos/./a\b/ ")) (u "/sdcard/Videos/a/b"))
    as [Hs Hf]; [vm_compute; reflexivity|].
  split; [exact Hs|]. apply Hf. vm_compute. reflexivity.
Defined.

(** A canonical destination that ends in a blank names another directory when it is
    canonicalised again: the blank is stripped. *)
Lemma destination_trailing_blank :
  exists v d1 d2, canonical_destination v = Ret d1 /\ canonical_destination (JStr d1) = Ret d2 /\ d1 <> d2.
Proof.
  exists (JStr (u "/sdcard/a /")), (u "/sdcard/a "), (u "/sdcard/a").
  split_and!; [vm_compute; reflexivity..|done].
Qed.

(** ** Targets *)

Lemma str_leb_refl s : str_leb s s = true.
Proof. induction s as [|c s IH]; [done|]. simpl. by rw N.eqb_refl IH orb_true_r. Qed.
Lemma str_leb_step c s d t :
  str_leb (c :: s) (d :: t) = true <-> (c < d)%N \/ (c = d /\ str_leb s t = true).
Proof. simpl. by rw orb_true_iff andb_true_iff N.ltb_lt N.eqb_eq. Qed.
#[export] Instance str_le_total : Total str_le.
Proof.
  intros s. unfold str_le. induction s as [|c s IH]; intros [|d t]; [by left..|by right|].
  rw !str_leb_step. destruct (IH t); destruct (N.lt_trichotomy c d) as [|[|]]; naive_solver.
Qed.
#[export] Instance str_le_trans : Transitive str_le.
Proof.
  intros s. unfold str_le. induction s as [|c s IH]; intros [|d t] [|e r]; try done.
  rw !str_leb_step. intros [?|[-> ?]] [?|[-> ?]]; [left; lia|by left|by left|right; naive_solver].
Qed.
#[export] Instance str_le_antisymm : AntiSymm (=) str_le.
Proof.
  intros s. unfold str_le. induction s as [|c s IH]; intros [|d t]; try done.
  rw !str_leb_step. intros [?|[-> ?]] [?|[? ?]]; try lia. f_equal. by apply IH.
Qed.

Lemma sorted_strs_perm l l' : l ≡ₚ l' -> sorted_strs l = sorted_strs l'.
Proof.
  intros Hl. apply (StronglySorted_unique str_le); [by apply StronglySorted_merge_sort; apply _..|].
  by rw /sorted_strs !merge_sort_Permutation.
Qed.

Lemma mapM_omap {A B} (f : A -> option B) l k : mapM f l = Some k -> k = omap f l.
Proof. intros H%mapM_Some. induction H as [|x y l k Hx _ IH]; [done|]. simpl. rw Hx. by f_equal. Qed.
Lemma mapM_perm {A B} (f : A -> option B) l l' :
  l ≡ₚ l' -> match mapM f l, mapM f l' with
             | Some k, Some k' => k ≡ₚ k'
             | None, None => True
             | _, _ => False
             end.
Proof.
  intros Hl. destruct (mapM f l) as [k|] eqn:E, (mapM f l') as [k'|] eqn:E'; try done.
  - apply mapM_omap in E as ->, E' as ->. by rw Hl.
  - apply mapM_None in E'. rw -Hl in E'. apply mapM_None in E'. congruence.
  - apply mapM_None in E. rw Hl in E. apply mapM_None in E. congruence.
Qed.

Lemma canonical_targets_perm l l' :
  l ≡ₚ l' -> canonical_targets (JArr l) = canonical_targets (JArr l').
Proof.
  intros Hl. destruct l as [|x l].
  { by apply Permutation_nil_l in Hl as ->. }
  destruct l' as [|y l']; [by apply Permutation_nil_r in Hl|]. unfold canonical_targets.
  pose proof (mapM_perm clean_target _ _ Hl) as Hm.
  destruct (mapM clean_target (x :: l)) as [k|], (mapM clean_target (y :: l')) as [k'|]; try done.
  assert (NoDup k <-> NoDup k') as Hd by by rw Hm.
  rw (bool_decide_ext _ _ Hd) (sorted_strs_perm _ _ Hm). done.
Qed.

(** What the targets of a canonical request are. *)
Lemma canonical_targets_spec v ts :
  canonical_targets v = Ret ts ->
  NoDup ts /\ Sorted str_le ts /\ ts <> [] /\
  exists items, v = JArr items /\
    forall t, t ∈ ts <-> exists s, JStr s ∈ items /\ t = strip s /\ t <> [].
Proof.
  rw /canonical_targets. destruct v as [| | | | |[|x l]|]; try done.
  destruct (mapM clean_target (x :: l)) as [k|] eqn:E; [|done].
  case_bool_decide as Hd; [|done]. intros [= <-]. split_and!.
  - by rw /sorted_strs merge_sort_Permutation.
  - apply Sorted_merge_sort, _.
  - intros Hnil. assert (k ≡ₚ []) as Hk by by rw -Hnil /sorted_strs merge_sort_Permutation.
    apply Permutation_nil_r in Hk as ->. apply mapM_Some in E. inversion E.
  - exists (x :: l). split; [done|]. intros t. rw /sorted_strs merge_sort_Permutation.
    pose proof (mapM_is_Some_1 _ _ (ex_intro _ _ E)) as Hall. rw Forall_forall in Hall.
    rw (mapM_omap _ _ _ E) list_elem_of_omap. split.
    + intros (v & Hv & Ht). destruct v; try done. rw /clean_target /= in Ht.
      case_bool_decide; [done|]. injection Ht as <-. by eexists.
    + intros (s & Hs & -> & Hn). exists (JStr s). split; [done|]. rw /clean_target /=.
      by rw bool_decide_eq_false_2.
Qed.

(** The canonical request, its fingerprint included, does not depend on the order
    in which the target devices are listed. *)
Theorem request_ignores_target_order data data' l l' :
  (forall key, key <> u "target_devices" -> get key data = get key data') ->
  get (u "target_devices") data = JArr l -> get (u "target_devices") data' = JArr l' -> l ≡ₚ l' ->
  canonicalize_create_request data = canonicalize_create_request data'.
Proof.
  intros Hkeys Hl Hl' Hp. rw /canonicalize_create_request Hl Hl' (canonical_targets_perm _ _ Hp).
  by rw !Hkeys.
Qed.

Definition sample_body (targets : list json) : list (pystr * json) :=
  [(u "client_request_id", JStr (u "{0f8fad5b-d9cb-469f-a165-70867728950e}"));
   (u "target_devices", JArr targets); (u "mode", JStr (u "Sync"));
   (u "dest_path", JStr (u "/sdcard/Videos"));
   (u "source", JObj [(u "display_name", JStr (u " show "));
                      (u "declared_file_count", JInt 2); (u "declared_total_bytes", JInt 10)])].
Lemma sample_body_keys l l' key :
  key <> u "target_devices" -> get key (sample_body l) = get key (sample_body l').
Proof.
  intros Hk. rw /get /sample_body /=. destruct (streq key (u "client_request_id")); [done|].
  destruct (streq key (u "target_devices")) eqn:E; [by apply streq_spec in E|done].
Qed.
Lemma request_ignores_target_order_witness :
  let a := JStr (u "a") in let b := JStr (u " b ") in
  is_Some (match canonicalize_create_request (sample_body [a; b]) with Ret r => Some r | _ => None end) /\
  canonicalize_create_request (sample_body [a; b]) = canonicalize_create_request (sample_body [b; a]).
Proof.
  intros a b. split; [vm_compute; by eexists|].
  apply (request_ignores_target_order _ _ [a; b] [b; a]); [apply sample_body_keys|reflexivity..|].
  apply Permutation_swap.
Defined.

(** ** Transitions *)

Definition job_may (s t : job_state) : Prop := validate_job_transition s t = Ret tt.
Definition device_may (s t : device_state) : Prop := validate_device_transition s t = Ret tt.

Lemma derived_reached s s' :
  s = J_RUNNING \/ s = J_RECONCILING ->
  s' ∈ [J_RUNNING; J_RECONCILING; J_SUCCEEDED; J_COMPLETED_WITH_ERRORS; J_FAILED] ->
  s = s' \/ s' ∈ JOB_TRANSITIONS s.
Proof. intros [->| ->] H; destruct s'; first [by left|by right; repeat constructor|exfalso; set_solver]. Qed.

(** When every device of a job moves along the device table (or stays), the state
    derived for the job moves along the job table (or stays): a stored job state that
    was derived is never refused its next derivation. *)
Theorem derivation_follows_table rows rows' s s' :
  Forall2 device_may rows rows' ->
  derive_dispatched_job_state rows = Ret s -> derive_dispatched_job_state rows' = Ret s' ->
  job_may s s'.
Proof.
  intros Hrows Hs Hs'. apply validate_job_ret.
  assert ((forall t, t ∈ rows -> t ∈ TERMINAL_DEVICE_STATES) -> rows' = rows) as Hfix.
  { intros Ht. clear Hs Hs'. induction Hrows as [|a b l l' Hab _ IH]; [done|].
    f_equal; [|apply IH; set_solver]. specialize (Ht a ltac:(left)).
    apply validate_device_ret in Hab as [->|Hab]; [done|].
    apply terminal_state in Ht as [->|[->|[->| ->]]]; by apply elem_of_nil in Hab. }
  pose proof (derived_states _ _ Hs') as Hto. pose proof Hs as [_ Hd]%derive_sound.
  assert ((forall t, t ∈ rows -> t ∈ TERMINAL_DEVICE_STATES) -> s = s' \/ s' ∈ JOB_TRANSITIONS s) as Hterm.
  { intros ->%Hfix. left. congruence. }
  destruct s; try done.
  - apply derived_reached; [by auto|done].
  - apply derived_reached; [by auto|done].
  - apply Hterm. intros t ->%Hd. apply terminal_state. auto.
  - apply Hterm, Hd.
  - apply Hterm. intros t [->| ->]%Hd; apply terminal_state; auto.
Qed.
Lemma derivation_follows_table_witness :
  Forall2 device_may [SUCCEEDED; RECONCILING] [SUCCEEDED; UNCONFIRMED] /\
  job_may J_RECONCILING J_COMPLETED_WITH_ERRORS.
Proof.
  assert (Forall2 device_may [SUCCEEDED; RECONCILING] [SUCCEEDED; UNCONFIRMED]) as H by by repeat constructor.
  split; [exact H|]. exact (derivation_follows_table _ _ _ _ H eq_refl eq_refl).
Defined.

(** The tables are complete: every state is reached from the initial one, a state
    has no successor exactly when it is terminal, and from every other state a terminal
    one is reached; a move that is not in the table is refused as an invalid transition. *)
Theorem tables_are_complete :
  (forall s, rtc job_may J_CREATED s) /\ (forall s, rtc device_may QUEUED s) /\
  (forall s, is_terminal_job_state s = true <-> forall t, job_may s t -> t = s) /\
  (forall s, is_terminal_device_state s = true <-> forall t, device_may s t -> t = s) /\
  (forall s, exists t, rtc job_may s t /\ is_terminal_job_state t = true) /\
  (forall s, exists t, rtc device_may s t /\ is_terminal_device_state t = true) /\
  (forall s t, job_may s t \/ exists msg, validate_job_transition s t = Raise (InvalidTransition msg)) /\
  (forall s t, device_may s t \/ exists msg, validate_device_transition s t = Raise (InvalidTransition msg)).
Proof.
  assert (rtc job_may J_CREATED J_READY) as Hready.
  { apply (rtc_l _ _ J_UPLOADING); [done|]. apply (rtc_l _ _ J_PACKAGING); [done|]. by apply rtc_once. }
  assert (rtc job_may J_CREATED J_RUNNING) as Hrun by (eapply rtc_r; done).
  assert (rtc device_may QUEUED DISPATCHING) as Hd.
  { apply (rtc_l _ _ WAITING_TRANSFER); [done|]. by apply rtc_once. }
  assert (rtc device_may QUEUED RECONCILING) as Hrec by (eapply rtc_r; done).
  split_and!.
  - intros []; try exact Hready; try exact Hrun; try reflexivity; try (by apply rtc_once);
      try (eapply rtc_r; [exact Hrun|done]). by apply (rtc_l _ _ J_UPLOADING); [|apply rtc_once].
  - intros []; try exact Hd; try exact Hrec; try reflexivity; try (by apply rtc_once);
      try (eapply rtc_r; [exact Hrec|done]).
  - intros []; (split; intros H; [by intros []|]); try done; by specialize (H J_FAILED eq_refl).
  - intros []; (split; intros H; [by intros []|]); try done; by specialize (H FAILED eq_refl).
  - intros []; first [by exists J_FAILED; split; [apply rtc_once|] | by eexists; split; [reflexivity|] ].
  - intros []; first [by exists FAILED; split; [apply rtc_once|] | by eexists; split; [reflexivity|] ].
  - intros s t. rw /job_may /validate_job_transition. repeat case_match; eauto.
  - intros s t. rw /device_may /validate_device_transition. repeat case_match; eauto.
Qed.

(** ** Aggregates *)

(** The counts a snapshot publishes are, for each state, the number of devices in
    it, and they add up to the published total, the number of devices. *)
Lemma aggregate_counts_devices states :
  let '(counts, total) := aggregate_device_states states in
  total = Z.of_nat (length states) /\ counts.*1 = all_device_states /\
  (forall s n, (s, n) ∈ counts -> n = Z.of_nat (length (filter (s =.) states))) /\
  sum_of counts.*2 = total.
Proof.
  rw aggregate_eq. split_and!; [done| | |].
  - by rw -list_fmap_compose list_fmap_id.
  - by intros s n (t & [= -> ->] & _)%list_elem_of_fmap.
  - rw -(count_total states) -list_fmap_compose. done.
Qed.

(** ** Capabilities *)

Lemma Forall2_in_l {A B} (P : A -> B -> Prop) l k x :
  Forall2 P l k -> x ∈ l -> exists y, y ∈ k /\ P x y.
Proof.
  induction 1 as [|a b l k Hab _ IH]; [by intros ?%elem_of_nil|].
  intros [->|(y & ? & ?)%IH]%elem_of_cons; [exists b|exists y]; (split; [|done]); by constructor.
Qed.
Lemma Forall2_in_r {A B} (P : A -> B -> Prop) l k y :
  Forall2 P l k -> y ∈ k -> exists x, x ∈ l /\ P x y.
Proof. intros H%Forall2_flip Hy. by eapply Forall2_in_l in H. Qed.

Lemma parse_items_spec items l :
  parse_capability_items items = Some l <->
  Forall2 (fun v s => v = JStr s /\ s <> [] /\ (length s <= 128)%nat) items l.
Proof.
  induction items as [|v items IH] in l |- *; simpl.
  { split; [by intros [= <-]|]. by inversion 1. }
  split.
  - destruct v as [| | | |s| |]; try done. destruct (_ || _) eqn:E; [done|].
    apply orb_false_iff in E as [Hn%bool_decide_eq_false_1 Hl%bool_decide_eq_false_1].
    intros (l' & H%IH & ->)%fmap_Some. constructor; [|done]. split_and!; [done..|lia].
  - intros (s & l' & (-> & Hn & Hl) & H%IH & ->)%Forall2_cons_inv_l.
    rw H (bool_decide_eq_false_2 (s = [])) // bool_decide_eq_false_2; [done|lia].
Qed.

(** Capabilities are accepted all or none: a capability is present exactly when the
    report is an array of at most 32 items, all of them strings of 1 to 128 code points,
    and the capability is one of them. *)
Theorem capabilities_all_or_none v c :
  c ∈ parse_capabilities v <->
  exists items, v = JArr items /\ (length items <= MAX_CAPABILITIES)%nat /\ JStr c ∈ items /\
    forall w, w ∈ items -> exists s, w = JStr s /\ s <> [] /\ (length s <= 128)%nat.
Proof.
  rw /parse_capabilities. split.
  - destruct v as [| | | | |items|]; try set_solver. case_bool_decide as Hl; [set_solver|].
    destruct (parse_capability_items items) as [l|] eqn:E; [|set_solver].
    intros Hc%elem_of_list_to_set. apply parse_items_spec in E.
    exists items. split_and!; [done|lia| |].
    + eapply Forall2_in_r in E as (w & Hw & -> & _); done.
    + intros w Hw. eapply Forall2_in_l in E as (s & _ & ? & ? & ?); [|done]. eauto.
  - intros (items & -> & Hl & Hc & Hall). case_bool_decide; [lia|].
    assert (exists l, Forall2 (fun v s => v = JStr s /\ s <> [] /\ (length s <= 128)%nat) items l) as [l E].
    { clear Hl Hc H. induction items as [|w items IH]; [by exists []|].
      destruct (Hall w) as (s & ? & ? & ?); [left|]. destruct IH as [l ?]; [intros; apply Hall; by right|].
      exists (s :: l). by constructor. }
    pose proof (proj2 (parse_items_spec _ _) E) as Hp. rw Hp. apply elem_of_list_to_set.
    destruct (Forall2_in_l _ _ _ _ E Hc) as (s & Hs & Heq & _). by injection Heq as ->.
Qed.

