(* ===== verification/Fingerprint.v ===== *)
(** * Fingerprints

    A request's fingerprint is the digest of a canonical text of what it asks for.  The
    text determines the request: two requests with one fingerprint ask for the same, or
    SHA-256 has been broken. *)

From S2P Require Import Prelude PyStr Text Json Uuid Sha256 PushJobs Identity Domain Requests.
From Stdlib Require DecimalN.
Open Scope N_scope.

Ltac Zify.zify_post_hook ::= Z.to_euclidean_division_equations.

(** ** UTF-8 is uniquely decodable *)

(** The first byte of an encoded code point tells how many follow. *)
Definition utf8_width (first : N) : nat :=
  if first <? 128 then 1%nat else if first <? 224 then 2%nat else if first <? 240 then 3%nat else 4%nat.
Definition utf8_value (b : list N) : N :=
  match b with
  | [a] => a
  | [a; b] => (a - 192) * 64 + (b - 128)
  | [a; b; c] => ((a - 224) * 64 + (b - 128)) * 64 + (c - 128)
  | [a; b; c; d] => (((a - 240) * 64 + (b - 128)) * 64 + (c - 128)) * 64 + (d - 128)
  | _ => 0
  end.

Lemma utf8_cp_shape c b :
  utf8_cp c = Some b ->
  exists f t, b = f :: t /\ length b = utf8_width f /\ utf8_value b = c.
Proof.
  rw /utf8_cp /utf8_width. destruct (N.ltb_spec c 128) as [H1|H1].
  { intros [= <-]. exists c, []. split_and!; [done| |done]. by apply N.ltb_lt in H1 as ->. }
  destruct (N.ltb_spec c 2048) as [H2|H2].
  { intros [= <-]. do 2 eexists. split_and!; [done| |simpl; lia].
    destruct (N.ltb_spec (192 + c / 64) 128); [lia|]. by destruct (N.ltb_spec (192 + c / 64) 224); [|lia]. }
  destruct (_ && _); [done|]. destruct (N.ltb_spec c 65536) as [H3|H3]; intros [= <-];
    do 2 eexists; (split_and!; [done| |simpl; lia]).
  - destruct (N.ltb_spec (224 + c / 4096) 128); [lia|]. destruct (N.ltb_spec (224 + c / 4096) 224); [lia|].
    by destruct (N.ltb_spec (224 + c / 4096) 240); [|lia].
  - destruct (N.ltb_spec (240 + c / 262144) 128); [lia|]. destruct (N.ltb_spec (240 + c / 262144) 224); [lia|].
    by destruct (N.ltb_spec (240 + c / 262144) 240); [lia|].
Qed.

Lemma utf8_cp_prefix c c' b b' x x' :
  utf8_cp c = Some b -> utf8_cp c' = Some b' -> b ++ x = b' ++ x' -> c = c' /\ x = x'.
Proof.
  intros (f & t & Hb & Hl & <-)%utf8_cp_shape (f' & t' & Hb' & Hl' & <-)%utf8_cp_shape Heq.
  assert (f = f') as <- by (subst b b'; by injection Heq).
  apply app_inj_1 in Heq as [-> ->]; [done|congruence].
Qed.

Lemma utf8_encode_inj s t b : utf8_encode s = Some b -> utf8_encode t = Some b -> s = t.
Proof.
  assert (forall c s b, utf8_encode (c :: s) = Some b ->
    exists b1 b2, utf8_cp c = Some b1 /\ utf8_encode s = Some b2 /\ b = b1 ++ b2) as Hcons.
  { clear. intros c s b. simpl. destruct (utf8_cp c), (utf8_encode s); try done. intros [= <-]. eauto. }
  assert (forall c s, utf8_encode (c :: s) <> Some []) as Hne.
  { intros c s' (b1 & b2 & (f & r & -> & _)%utf8_cp_shape & _ & Heq)%Hcons. done. }
  induction s as [|c s IH] in t, b |- *; destruct t as [|d t]; try done.
  - intros [= <-] ?. by edestruct Hne.
  - intros H [= <-]. by edestruct Hne.
  - intros (b1 & b2 & H1 & H2 & ->)%Hcons (b1' & b2' & H1' & H2' & Heq)%Hcons.
    destruct (utf8_cp_prefix _ _ _ _ _ _ H1 H1' Heq) as [-> ->]. f_equal. by eapply IH.
Qed.

(** ** String literals are read back *)

Lemma parse_escape c s t r :
  parse_chars s = Some (t, r) -> parse_chars (escape_cp false c ++ s) = Some (c :: t, r).
Proof.
  intros Hs. destruct (N.ltb_spec c 32) as [Hc|Hc].
  - assert (c ∈ N.of_nat <$> seq 0 32) as Hin.
    { apply list_elem_of_fmap. exists (N.to_nat c). split; [lia|]. apply elem_of_seq. lia. }
    simpl in Hin. repeat (apply elem_of_cons in Hin as [->|Hin]; [simpl; by rw Hs|]).
    by apply elem_of_nil in Hin.
  - rw /escape_cp. destruct (N.eqb_spec c 34) as [->|H34]; [simpl; by rw Hs|].
    destruct (N.eqb_spec c 92) as [->|H92]; [simpl; by rw Hs|].
    do 5 (match goal with |- context [c =? ?k] => destruct (N.eqb_spec c k); [lia|] end).
    destruct (N.ltb_spec c 32); [lia|]. simpl. rw Hs.
    apply N.eqb_neq in H34 as ->, H92 as ->. by destruct (N.ltb_spec c 32); [lia|].
Qed.

Lemma parse_dumped s r : parse_chars ((s ≫= escape_cp false) ++ 34 :: r) = Some (s, r).
Proof.
  induction s as [|c s IH]; [done|]. rw bind_cons -app_assoc. by apply parse_escape.
Qed.

Lemma dumps_str_inj s s' r r' :
  dumps_str false s ++ r = dumps_str false s' ++ r' -> s = s' /\ r = r'.
Proof.
  rw /dumps_str -!app_comm_cons -!app_assoc. intros [= Heq].
  apply (f_equal parse_chars) in Heq. rw !parse_dumped in Heq. by injection Heq.
Qed.

(** ** Numbers *)

Definition number_char (c : N) : Prop := c = 45 \/ (48 <= c /\ c <= 57).

Lemma uint_digits_chars d : Forall (fun c => 48 <= c /\ c <= 57) (uint_digits d).
Proof. induction d; constructor; done || lia. Qed.
Lemma uint_digits_inj d d' : uint_digits d = uint_digits d' -> d = d'.
Proof. revert d'. induction d; intros []; simpl; intros [=]; try done; f_equal; auto. Qed.
Lemma str_of_N_inj n m : str_of_N n = str_of_N m -> n = m.
Proof. intros H%uint_digits_inj. by apply DecimalN.Unsigned.to_uint_inj. Qed.
Lemma str_of_int_chars n : Forall number_char (str_of_int n).
Proof.
  assert (forall k, Forall number_char (str_of_N k)) as HN.
  { intros k. eapply Forall_impl; [apply uint_digits_chars|]. by right. }
  rw /str_of_int. destruct (n <? 0)%Z; [|done]. constructor; [by left|done].
Qed.
Lemma str_of_int_inj n m : str_of_int n = str_of_int m -> n = m.
Proof.
  assert (forall k t, str_of_N k <> 45 :: t) as Hneg.
  { intros k t Ht. pose proof (uint_digits_chars (N.to_uint k)) as Hc. rw /str_of_N in Ht. rw Ht in Hc.
    apply Forall_cons_1 in Hc as [? _]. lia. }
  rw /str_of_int. destruct (Z.ltb_spec n 0), (Z.ltb_spec m 0).
  - intros [= H1%str_of_N_inj]. lia.
  - intros Heq. symmetry in Heq. by apply Hneg in Heq.
  - by intros ?%Hneg.
  - intros H1%str_of_N_inj. lia.
Qed.

(** A number ends at the first character that is not part of one. *)
Lemma number_end a b c c' r r' :
  Forall number_char a -> Forall number_char b -> ~ number_char c -> ~ number_char c' ->
  a ++ c :: r = b ++ c' :: r' -> a = b /\ c :: r = c' :: r'.
Proof.
  intros Ha Hb Hc Hc'. induction Ha as [|x a Hx Ha IH] in b, Hb |- *; destruct Hb as [|y b Hy Hb]; simpl.
  - done.
  - by intros [= -> _].
  - by intros [= -> _].
  - intros [= -> Heq]. by destruct (IH b Hb Heq) as [-> ?].
Qed.
Lemma str_of_int_end n m c c' r r' :
  ~ number_char c -> ~ number_char c' ->
  str_of_int n ++ c :: r = str_of_int m ++ c' :: r' -> n = m /\ c :: r = c' :: r'.
Proof.
  intros Hc Hc' Heq. apply number_end in Heq as [Heq%str_of_int_inj ?]; auto using str_of_int_chars.
Qed.

(** ** The text of a request *)

Lemma dump_targets_inj ts ts' r r' :
  intercalate [44] (dumps_str false <$> ts) ++ 93 :: r = intercalate [44] (dumps_str false <$> ts') ++ 93 :: r' ->
  ts = ts'.
Proof.
  assert (forall s ts, intercalate [44] (dumps_str false <$> s :: ts)
            = dumps_str false s ++ match ts with [] => [] | _ => 44 :: intercalate [44] (dumps_str false <$> ts) end)
    as Hcons by (intros s []; [by rw /= app_nil_r|done]).
  induction ts as [|s ts IH] in ts' |- *; destruct ts' as [|s' ts'];
    [done|by rw Hcons|by rw Hcons|].
  rw !Hcons -!app_assoc. intros [-> Heq]%dumps_str_inj. f_equal.
  destruct ts as [|t ts], ts' as [|t' ts']; [done|done|done|]. injection Heq as Heq. by apply IH.
Qed.

(** The canonical text, its keys in order. *)
Definition payload_text (ts : list pystr) (m : push_mode) (dest : pystr) (src : canonical_source) : pystr :=
  let key k := dumps_str false k ++ u ":" in
  u "{" ++ key (u "dest_path") ++ dumps_str false dest ++ u "," ++
  key (u "mode") ++ dumps_str false (mode_value m) ++ u "," ++
  key (u "source") ++ u "{" ++
    key (u "declared_file_count") ++ str_of_int (declared_file_count src) ++ u "," ++
    key (u "declared_total_bytes") ++ str_of_int (declared_total_bytes src) ++ u "," ++
    key (u "display_name") ++ dumps_str false (display_name src) ++ u "}" ++ u "," ++
  key (u "target_devices") ++ u "[" ++ intercalate [44] (dumps_str false <$> ts) ++ u "]" ++ u "}".

Lemma payload_sorted ts m dest src :
  sort_keys (fingerprint_payload ts m dest src) =
  JObj [(u "dest_path", JStr dest); (u "mode", JStr (mode_value m));
        (u "source", JObj [(u "declared_file_count", JInt (declared_file_count src));
                           (u "declared_total_bytes", JInt (declared_total_bytes src));
                           (u "display_name", JStr (display_name src))]);
        (u "target_devices", JArr (JStr <$> ts))].
Proof.
  assert (map sort_keys (JStr <$> ts) = JStr <$> ts) as Hts.
  { induction ts as [|t ts IH]; [done|]. simpl. by f_equal. }
  rw /fingerprint_payload /source_as_dict. simpl sort_keys. rw Hts. reflexivity.
Qed.
Lemma payload_text_eq ts m dest src :
  dumps false (sort_keys (fingerprint_payload ts m dest src)) = payload_text ts m dest src.
Proof.
  rw payload_sorted /dumps /payload_text. 
  assert (map (dumps_with false (u ",") (u ":") no_float_repr) (JStr <$> ts) = dumps_str false <$> ts) as Hts.
  { induction ts as [|t ts IH]; [done|]. simpl. by f_equal. }
  cbn [dumps_with map intercalate]. rw Hts.
  repeat first [rw -!app_assoc | rw -!app_comm_cons]. reflexivity.
Qed.

Lemma mode_value_inj m m' : mode_value m = mode_value m' -> m = m'.
Proof. by destruct m, m'. Qed.

Lemma int_comma n m x y : str_of_int n ++ u "," ++ x = str_of_int m ++ u "," ++ y -> n = m /\ x = y.
Proof.
  intros Heq. change (u "," ++ x) with (44 :: x) in Heq. change (u "," ++ y) with (44 :: y) in Heq.
  apply str_of_int_end in Heq as [-> Heq]; [by injection Heq|unfold number_char; lia..].
Qed.

Lemma payload_text_inj ts ts' m m' dest dest' src src' :
  payload_text ts m dest src = payload_text ts' m' dest' src' ->
  ts = ts' /\ m = m' /\ dest = dest' /\ src = src'.
Proof.
  assert (forall p (x y : pystr), p ++ x = p ++ y -> x = y) as Hcancel by (intros; by simplify_list_eq).
  rw /payload_text -!app_assoc. destruct src as [name n b], src' as [name' n' b']. simpl declared_file_count.
  simpl declared_total_bytes. simpl display_name.
  intros H. do 3 apply Hcancel in H. apply dumps_str_inj in H as [<- H].
  do 3 apply Hcancel in H. apply dumps_str_inj in H as [<-%mode_value_inj H].
  do 6 apply Hcancel in H. apply int_comma in H as [<- H].
  do 2 apply Hcancel in H. apply int_comma in H as [<- H].
  do 2 apply Hcancel in H. apply dumps_str_inj in H as [<- H].
  do 5 apply Hcancel in H. by apply dump_targets_inj in H as <-.
Qed.

(** The bytes whose digest is the fingerprint of a request. *)
Definition encoded_request (r : canonical_create_request) : option (list N) :=
  utf8_encode (payload_text (target_devices r) (req_mode r) (req_dest_path r) (source r)).

(** C40: The fingerprint identifies what a request asks for: two accepted requests with
    the same fingerprint have the same targets, mode, destination and source, unless
    their two different encoded texts have the same SHA-256 digest. *)
Theorem fingerprint_identifies_request data data' r r' :
  canonicalize_create_request data = Ret r -> canonicalize_create_request data' = Ret r' ->
  fingerprint r = fingerprint r' ->
  (target_devices r = target_devices r' /\ req_mode r = req_mode r' /\
   req_dest_path r = req_dest_path r' /\ source r = source r') \/
  (exists b b', encoded_request r = Some b /\ encoded_request r' = Some b' /\
                b <> b' /\ sha256_hex b = sha256_hex b').
Proof.
  assert (forall data r, canonicalize_create_request data = Ret r ->
    exists b, utf8_encode (payload_text (target_devices r) (req_mode r) (req_dest_path r) (source r)) = Some b
              /\ fingerprint r = sha256_hex b) as Hinv.
  { clear. intros data r. rw /canonicalize_create_request.
    destruct (require_uuid _ _) as [id|]; [|done]. simpl.
    destruct (canonical_targets _) as [ts|]; [|done]. simpl.
    destruct (parse_mode _) as [m|]; [|done]. simpl.
    destruct (canonical_destination _) as [dest|]; [|done]. simpl.
    destruct (canonical_source_of _) as [src|]; [|done]. simpl.
    rw /fingerprint_of payload_text_eq.
    destruct (utf8_encode _) as [b|] eqn:E; [|done]. intros [= <-]. by exists b. }
  intros (b & Hb & Hf)%Hinv (b' & Hb' & Hf')%Hinv Heq.
  destruct (decide (b = b')) as [<-|Hn].
  - left. by apply (payload_text_inj _ _ _ _ _ _ _ _ (utf8_encode_inj _ _ _ Hb Hb')).
  - right. exists b, b'. split_and!; [done..|congruence].
Qed.
Lemma fingerprint_identifies_request_witness :
  exists r r', canonicalize_create_request (sample_body [JStr (u "a"); JStr (u "b")]) = Ret r /\
    canonicalize_create_request (sample_body [JStr (u " b"); JStr (u "a")]) = Ret r' /\
    ((target_devices r = target_devices r' /\ req_mode r = req_mode r' /\
      req_dest_path r = req_dest_path r' /\ source r = source r') \/
     (exists b b', encoded_request r = Some b /\ encoded_request r' = Some b' /\
                   b <> b' /\ sha256_hex b = sha256_hex b')).
Proof.
  destruct (canonicalize_create_request (sample_body [JStr (u "a"); JStr (u "b")])) as [r|] eqn:E;
    [|vm_compute in E; discriminate E].
  assert (canonicalize_create_request (sample_body [JStr (u " b"); JStr (u "a")]) = Ret r) as E'
    by (rewrite <- E; vm_compute; reflexivity).
  exists r, r. split; [reflexivity|]. split; [exact E'|].
  exact (fingerprint_identifies_request _ _ r r E E' eq_refl).
Defined.
