(* ===== verification/Db.v ===== *)
(** * The SQLite database of the job store (schema of push_job_store.py)

    The tables as finite maps from primary key to row, the constraints the schema
    declares, and a connection with its transaction: what [conn.execute] does to
    them.  A statement whose result breaks a constraint raises [IntegrityError]
    and changes nothing; [ROLLBACK] restores the tables [BEGIN IMMEDIATE] saw.

    Values are typed: a state column holds a member of its enumeration, a 0/1
    column a boolean, the decimal texts of [server_metadata] the integer they
    print.  The JSON capability lists stay texts. *)

From S2P Require Import Prelude PyStr Json PushJobs.
Open Scope Z_scope.

(** ** Rows *)

Record artifact_row := ArtifactRow {
  a_storage_name : pystr;
  a_display_filename : pystr;
  a_byte_size : Z;
  a_sha256 : pystr;
  a_entry_count : Z;
  a_created_at : Z;
}.

Record job_row := JobRow {
  j_client_request_id : pystr;
  j_request_fingerprint : pystr;
  j_revision : Z;
  j_state : job_state;
  j_mode : push_mode;
  j_dest_path : pystr;
  j_source_label : pystr;
  j_declared_file_count : Z;
  j_declared_total_bytes : Z;
  j_actual_file_count : option Z;
  j_actual_total_bytes : option Z;
  j_artifact_id : option pystr;
  j_dispatch_enabled : bool;
  j_dispatch_paused_reason : option pystr;
  j_created_at : Z;
  j_create_expires_at : Z;
  j_upload_started_at : option Z;
  j_packaging_started_at : option Z;
  j_ready_at : option Z;
  j_dispatch_started_at : option Z;
  j_updated_at : Z;
  j_terminal_at : option Z;
  j_failure_code : option pystr;
  j_failure_detail : option pystr;
}.

Record device_row := DeviceRow {
  d_enqueue_seq : Z;
  d_target_ordinal : Z;
  d_protocol_mode : protocol_mode;
  d_create_capability_snapshot_json : pystr;
  d_dispatch_capability_snapshot_json : option pystr;
  d_state : device_state;
  d_queue_reason : option pystr;
  d_attempt : Z;
  d_accept_replay_count : Z;
  d_validated_offset : Z;
  d_accept_deadline : option Z;
  d_accepted_at : option Z;
  d_transfer_completed_at : option Z;
  d_validation_started_at : option Z;
  d_validation_completed_at : option Z;
  d_apply_started_at : option Z;
  d_updated_at : Z;
  d_terminal_at : option Z;
  d_failure_code : option pystr;
  d_failure_detail : option pystr;
  d_added : option Z;
  d_updated : option Z;
  d_deleted : option Z;
  d_reconciliation_reason : option pystr;
  d_reconciliation_deadline : option Z;
}.

Record fence_row := FenceRow {
  f_blocking_job_id : option pystr;
  f_blocking_opaque_identity : option pystr;
  f_blocking_attempt : option Z;
  f_protocol_mode : protocol_mode;
  f_blocking_process_instance_id : option pystr;
  f_reason : pystr;
  f_created_at : Z;
  f_updated_at : Z;
}.

(** The database: [jobs] by job ID, [assignments] by (job ID, device ID), [fences]
    by device ID. *)
Record db := Db {
  schema_version : option Z;
  next_enqueue_seq : option Z;
  artifacts : gmap pystr artifact_row;
  jobs : gmap pystr job_row;
  assignments : gmap (pystr * pystr) device_row;
  fences : gmap pystr fence_row;
}.

#[export] Instance eta_job_row : Settable job_row := fun r =>
  JobRow (j_client_request_id r) (j_request_fingerprint r) (j_revision r) (j_state r) (j_mode r)
    (j_dest_path r) (j_source_label r) (j_declared_file_count r) (j_declared_total_bytes r)
    (j_actual_file_count r) (j_actual_total_bytes r) (j_artifact_id r) (j_dispatch_enabled r)
    (j_dispatch_paused_reason r) (j_created_at r) (j_create_expires_at r) (j_upload_started_at r)
    (j_packaging_started_at r) (j_ready_at r) (j_dispatch_started_at r) (j_updated_at r)
    (j_terminal_at r) (j_failure_code r) (j_failure_detail r).
#[export] Instance eta_device_row : Settable device_row := fun r =>
  DeviceRow (d_enqueue_seq r) (d_target_ordinal r) (d_protocol_mode r)
    (d_create_capability_snapshot_json r) (d_dispatch_capability_snapshot_json r) (d_state r)
    (d_queue_reason r) (d_attempt r) (d_accept_replay_count r) (d_validated_offset r)
    (d_accept_deadline r) (d_accepted_at r) (d_transfer_completed_at r) (d_validation_started_at r)
    (d_validation_completed_at r) (d_apply_started_at r) (d_updated_at r) (d_terminal_at r)
    (d_failure_code r) (d_failure_detail r) (d_added r) (d_updated r) (d_deleted r)
    (d_reconciliation_reason r) (d_reconciliation_deadline r).
#[export] Instance eta_fence_row : Settable fence_row := fun r =>
  FenceRow (f_blocking_job_id r) (f_blocking_opaque_identity r) (f_blocking_attempt r)
    (f_protocol_mode r) (f_blocking_process_instance_id r) (f_reason r) (f_created_at r)
    (f_updated_at r).
#[export] Instance eta_db : Settable db := fun d =>
  Db (schema_version d) (next_enqueue_seq d) (artifacts d) (jobs d) (assignments d) (fences d).

(** ** Constraints *)

(** The states of the partial unique index [ux_push_job_device_active]. *)
Definition active (r : device_row) : Prop := d_state r ∈ ACTIVE_DEVICE_STATES.
#[export] Instance active_dec r : Decision (active r) := _.

Definition unique_by {K V X} `{Countable K} (key : K -> V -> option X) (m : gmap K V) : Prop :=
  map_Forall (fun k v => map_Forall (fun k' v' => is_Some (key k v) -> key k v = key k' v' -> k = k') m) m.
#[export] Instance unique_by_dec {K V X} `{Countable K} `{EqDecision X} (key : K -> V -> option X) m :
  Decision (unique_by key m) := _.

(** The active assignment of a device, as the index keys it. *)
Definition active_key (k : pystr * pystr) (r : device_row) : option pystr :=
  if bool_decide (active r) then Some k.2 else None.

Definition fence_shape (f : fence_row) : Prop :=
  (is_Some (f_blocking_job_id f) /\ f_blocking_opaque_identity f = None) \/
  (f_blocking_job_id f = None /\ is_Some (f_blocking_opaque_identity f)).

Definition refers {V} (o : option pystr) (m : gmap pystr V) : Prop :=
  match o with Some k => is_Some (m !! k) | None => True end.
#[export] Instance refers_dec {V} o (m : gmap pystr V) : Decision (refers o m).
Proof. destruct o; simpl; apply _. Defined.

Record constraints (d : db) : Prop := Constraints {
  c_active_index : unique_by active_key (assignments d);
  c_enqueue_seq : unique_by (fun _ r => Some (d_enqueue_seq r)) (assignments d);
  c_client_request : unique_by (fun _ r => Some (j_client_request_id r)) (jobs d);
  c_storage_name : unique_by (fun _ r => Some (a_storage_name r)) (artifacts d);
  c_assignment_job : map_Forall (fun k _ => is_Some (jobs d !! k.1)) (assignments d);
  c_job_artifact : map_Forall (fun _ r => refers (j_artifact_id r) (artifacts d)) (jobs d);
  c_fence_job : map_Forall (fun _ f => refers (f_blocking_job_id f) (jobs d)) (fences d);
  c_attempt : map_Forall (fun _ r => d_attempt r = 1) (assignments d);
  c_fence_shape : map_Forall (fun _ f => fence_shape f) (fences d);
}.

#[export] Instance constraints_dec d : Decision (constraints d).
Proof.
  refine (cast_if
    (decide (unique_by active_key (assignments d) /\
             unique_by (fun _ r => Some (d_enqueue_seq r)) (assignments d) /\
             unique_by (fun _ r => Some (j_client_request_id r)) (jobs d) /\
             unique_by (fun _ r => Some (a_storage_name r)) (artifacts d) /\
             map_Forall (fun k _ => is_Some (jobs d !! k.1)) (assignments d) /\
             map_Forall (fun _ r => refers (j_artifact_id r) (artifacts d)) (jobs d) /\
             map_Forall (fun _ f => refers (f_blocking_job_id f) (jobs d)) (fences d) /\
             map_Forall (fun _ r => d_attempt r = 1) (assignments d) /\
             map_Forall (fun _ f => fence_shape f) (fences d)))).
  - by destruct_and!; split.
  - intros []; naive_solver.
Defined.

(** The database [_initialize] leaves in a new file. *)
Definition initial_db : db := Db (Some 1) (Some 1) ∅ ∅ ∅ ∅.

(** ** Snapshots: what a read of a job returns to the clients *)

Record fence_payload := FencePayload {
  fp_blocking_job_id : option pystr;
  fp_blocking_opaque_identity : option pystr;
  fp_blocking_attempt : option Z;
  fp_protocol_mode : protocol_mode;
  fp_reason : pystr;
  fp_created_at : Z;
  fp_updated_at : Z;
}.

Record failure := Failure { failure_code : option pystr; failure_detail : option pystr }.

Record device_snapshot := DeviceSnapshot {
  ds_state : device_state;
  ds_queue_reason : option pystr;
  ds_protocol_mode : protocol_mode;
  ds_attempt : Z;
  ds_enqueue_seq : Z;
  ds_validated_offset : Z;
  ds_accepted_at : option Z;
  ds_failure : option failure;
  ds_result : option (option Z * option Z * option Z);
  ds_reconciliation_reason : option pystr;
  ds_reconciliation_deadline : option Z;
  ds_device_fence : option fence_payload;
}.

(** The artifact columns come from a LEFT JOIN: [as_row] is the joined row. *)
Record artifact_snapshot := ArtifactSnapshot {
  as_artifact_id : pystr;
  as_url : pystr;
  as_row : option artifact_row;
}.

Record snapshot := Snapshot {
  s_job_id : pystr;
  s_client_request_id : pystr;
  s_revision : Z;
  s_state : job_state;
  s_dispatch_enabled : bool;
  s_dispatch_paused_reason : option pystr;
  s_mode : push_mode;
  s_dest_path : pystr;
  s_source_label : pystr;
  s_declared_file_count : Z;
  s_declared_total_bytes : Z;
  s_actual_file_count : option Z;
  s_actual_total_bytes : option Z;
  s_created_at : Z;
  s_create_expires_at : Z;
  s_updated_at : Z;
  s_terminal_at : option Z;
  s_failure : option failure;
  s_artifact : option artifact_snapshot;
  s_aggregate : list (device_state * Z) * Z;
  s_devices : list (pystr * device_snapshot);
}.

(** ** Queries *)

(** [ORDER BY key]. *)
Definition key_order {A} (key : A -> Z) (a b : A) : Prop := key a <= key b.
#[export] Instance key_order_dec {A} (key : A -> Z) : RelDecision (key_order key) :=
  fun a b => Z_le_dec (key a) (key b).
Definition order_by {A} (key : A -> Z) (l : list A) : list A := merge_sort (key_order key) l.

Definition assignment_rows (d : db) : list ((pystr * pystr) * device_row) :=
  map_to_list (assignments d).

(** [SELECT * FROM push_job_devices WHERE job_id=? ORDER BY target_ordinal]. *)
Definition job_assignments (d : db) (job_id : pystr) : list ((pystr * pystr) * device_row) :=
  order_by (fun kr => d_target_ordinal kr.2) (filter (fun kr => kr.1.1 = job_id) (assignment_rows d)).

(** The last row of the device's queue: [ORDER BY enqueue_seq DESC LIMIT 1] over
    the device's rows joined with their jobs. *)
Definition latest_job (d : db) (device_id : pystr) : option pystr :=
  (fun kr => kr.1.1) <$>
  last (order_by (fun kr => d_enqueue_seq kr.2)
          (filter (fun kr => kr.1.2 = device_id /\ is_Some (jobs d !! kr.1.1)) (assignment_rows d))).

(** The fence a job's snapshot shows for a device. *)
Definition visible_fence (d : db) (job_id device_id : pystr) : option fence_row :=
  f ← fences d !! device_id;
  if bool_decide (f_blocking_job_id f = Some job_id)
     || (bool_decide (f_blocking_job_id f = None) && bool_decide (latest_job d device_id = Some job_id))
  then Some f else None.

(** A text that is truthy: not NULL and not empty. *)
Definition truthy (o : option pystr) : bool :=
  match o with Some s => negb (bool_decide (s = [])) | None => false end.

Definition failure_of (code detail : option pystr) : option failure :=
  if truthy code || truthy detail then Some (Failure code detail) else None.

Definition fence_payload_of (f : fence_row) : fence_payload :=
  FencePayload (f_blocking_job_id f) (f_blocking_opaque_identity f) (f_blocking_attempt f)
    (f_protocol_mode f) (f_reason f) (f_created_at f) (f_updated_at f).

Definition device_snapshot_of (d : db) (job_id device_id : pystr) (r : device_row) : device_snapshot :=
  DeviceSnapshot (d_state r) (d_queue_reason r) (d_protocol_mode r) (d_attempt r) (d_enqueue_seq r)
    (d_validated_offset r) (d_accepted_at r) (failure_of (d_failure_code r) (d_failure_detail r))
    (match d_terminal_at r with Some _ => Some (d_added r, d_updated r, d_deleted r) | None => None end)
    (d_reconciliation_reason r) (d_reconciliation_deadline r)
    (fence_payload_of <$> visible_fence d job_id device_id).

Definition artifact_snapshot_of (d : db) (j : job_row) : option artifact_snapshot :=
  match j_artifact_id j with
  | Some a => if bool_decide (a = []) then None
              else Some (ArtifactSnapshot a (u "/artifacts/" ++ a) (artifacts d !! a))
  | None => None
  end.

(** [PushJobStore._snapshot]; [None] is [StoreNotFound]. *)
Definition snapshot_of (d : db) (job_id : pystr) : option snapshot :=
  j ← jobs d !! job_id;
  let rows := job_assignments d job_id in
  Some (Snapshot job_id (j_client_request_id j) (j_revision j) (j_state j) (j_dispatch_enabled j)
          (j_dispatch_paused_reason j) (j_mode j) (j_dest_path j) (j_source_label j)
          (j_declared_file_count j) (j_declared_total_bytes j) (j_actual_file_count j)
          (j_actual_total_bytes j) (j_created_at j) (j_create_expires_at j) (j_updated_at j)
          (j_terminal_at j) (failure_of (j_failure_code j) (j_failure_detail j))
          (artifact_snapshot_of d j)
          (aggregate_device_states ((fun kr => d_state kr.2) <$> rows))
          ((fun kr => (kr.1.2, device_snapshot_of d job_id kr.1.2 kr.2)) <$> rows)).

(** ** Exceptions, connections, statements *)

Inductive exn :=
  | StoreConflict (msg : pystr)
  | StoreNotFound (key : pystr)
  | UploadDeadlineExpired (snap : snapshot)
  | JobError (e : job_error)
  | ValueError (msg : pystr)
  | RuntimeError (msg : pystr)
  | IntegrityError
  | OperationalError
  | OverflowError
  | KeyError (key : pystr).

(** [UploadDeadlineExpired] is a subclass of [StoreConflict]. *)
Definition is_conflict (e : exn) : bool :=
  match e with StoreConflict _ | UploadDeadlineExpired _ => true | _ => false end.

(** A connection in autocommit mode: the tables, and the tables a [ROLLBACK] would
    restore while a transaction is open. *)
Record conn := Conn { data : db; saved : option db }.
#[export] Instance eta_conn : Settable conn := fun c => Conn (data c) (saved c).

(** What runs on the database worker. *)
Abbreviation Op := (M conn exn).

Definition _begin : Op unit := fun c =>
  match saved c with
  | None => (Ret tt, Conn (data c) (Some (data c)))
  | Some _ => (Raise OperationalError, c)
  end.
Definition _commit : Op unit := fun c =>
  match saved c with
  | Some _ => (Ret tt, Conn (data c) None)
  | None => (Raise OperationalError, c)
  end.
Definition _rollback : Op unit := fun c =>
  match saved c with
  | Some d => (Ret tt, Conn d None)
  | None => (Ret tt, c)
  end.

(** [self._begin(conn)], then [try: body except BaseException: self._rollback(conn); raise]. *)
Definition transaction {A} (body : Op A) : Op A := _begin ;; try_reraise body _rollback.

Definition select {A} (q : db -> A) : Op A := gets (fun c => q (data c)).
Definition write (f : db -> db) : Op unit := fun c =>
  if bool_decide (constraints (f (data c))) then (Ret tt, c <| data := f (data c) |>)
  else (Raise IntegrityError, c).

Definition lift {A} (o : outcome job_error A) : Op A :=
  match o with Ret a => mret a | Raise e => raise (JobError e) end.
Definition or_raise {A} (e : exn) (o : option A) : Op A :=
  match o with Some a => mret a | None => raise e end.

(** [UPDATE push_jobs SET ... WHERE job_id=?]. *)
Definition update_job (job_id : pystr) (f : job_row -> job_row) : Op unit :=
  write (fun d => d <| jobs := alter f job_id (jobs d) |>).

(** [UPDATE push_job_devices SET ... WHERE job_id=? AND device_id=?], and the same
    with a further condition, which returns [rowcount]. *)
Definition update_device (key : pystr * pystr) (f : device_row -> device_row) : Op unit :=
  write (fun d => d <| assignments := alter f key (assignments d) |>).
Definition update_device_if (key : pystr * pystr) (p : device_row -> bool)
    (f : device_row -> device_row) : Op Z :=
  r ← select (fun d => assignments d !! key);
  match r with
  | Some r => if p r then update_device key f ;; mret 1 else mret 0
  | None => mret 0
  end.
(** The same for every row of a job that satisfies [p]. *)
Definition update_job_devices (job_id : pystr) (p : device_row -> bool)
    (f : device_row -> device_row) : Op unit :=
  write (fun d => d <| assignments :=
    map_imap (fun k r => Some (if bool_decide (k.1 = job_id) && p r then f r else r)) (assignments d) |>).

Definition insert_job (job_id : pystr) (j : job_row) : Op unit :=
  taken ← select (fun d => bool_decide (is_Some (jobs d !! job_id)));
  require (negb taken) IntegrityError ;;
  write (fun d => d <| jobs := <[job_id := j]> (jobs d) |>).
Definition insert_device (key : pystr * pystr) (r : device_row) : Op unit :=
  taken ← select (fun d => bool_decide (is_Some (assignments d !! key)));
  require (negb taken) IntegrityError ;;
  write (fun d => d <| assignments := <[key := r]> (assignments d) |>).
Definition insert_artifact (artifact_id : pystr) (a : artifact_row) : Op unit :=
  taken ← select (fun d => bool_decide (is_Some (artifacts d !! artifact_id)));
  require (negb taken) IntegrityError ;;
  write (fun d => d <| artifacts := <[artifact_id := a]> (artifacts d) |>).
Definition delete_fence (device_id : pystr) : Op unit :=
  write (fun d => d <| fences := delete device_id (fences d) |>).

(** An [int] parameter of a statement: SQLite's INTEGER has 64 bits. *)
Definition fits_int64 (n : Z) : bool := (- 2 ^ 63 <=? n) && (n <? 2 ^ 63).
Definition bind_ints (ns : list Z) : Op unit := require (forallb fits_int64 ns) OverflowError.
