(* ===== verification/Store.v ===== *)
(** * The durable job store (push_job_store.py)

    One definition per method of [PushJobStore].  An argument [now] is the value
    [now_ms()] returns inside the operation; [create_job] also takes the UUID that
    [uuid.uuid4()] draws.  Everything runs on the database worker, one operation
    after the other, on the connection of Db.v. *)

From S2P Require Import Prelude PyStr Json PushJobs Db.
Open Scope Z_scope.

(** ** Helpers shared by the operations *)

Definition _next_enqueue_seq (count : nat) : Op Z :=
  start ← select (fun d => default 1 (next_enqueue_seq d));
  write (fun d => d <| next_enqueue_seq := Some (start + Z.of_nat count) |>) ;;
  mret start.

Definition bump_job (timestamp : Z) (j : job_row) : job_row :=
  j <| j_revision := j_revision j + 1 |> <| j_updated_at := timestamp |>.
Definition _increment_revision (job_id : pystr) (timestamp : Z) : Op unit :=
  update_job job_id (bump_job timestamp).

Definition NON_TERMINAL_JOB_VALUES : list job_state :=
  [J_CREATED; J_UPLOADING; J_PACKAGING; J_READY; J_RUNNING; J_RECONCILING].

(** Job IDs in the order SQLite compares TEXT, without duplicates. *)
Definition distinct_sorted (l : list pystr) : list pystr := sorted_strs (remove_dups l).

Definition fence_visible_jobs (d : db) (device_id : pystr) : list pystr :=
  distinct_sorted
    ((fun kr => kr.1.1) <$>
     filter (fun kr => kr.1.2 = device_id /\
                       (j_state <$> jobs d !! kr.1.1) ∈ Some <$> NON_TERMINAL_JOB_VALUES)
       (assignment_rows d)).

(** The states of a job's devices, as [_rederive_job] reads them. *)
Definition device_states (d : db) (job_id : pystr) : list device_state :=
  (fun kr => d_state kr.2) <$> filter (fun kr => kr.1.1 = job_id) (assignment_rows d).

Definition _rederive_job (job_id : pystr) (timestamp : Z) : Op unit :=
  job ← select (fun d => jobs d !! job_id);
  job ← or_raise (StoreNotFound job_id) job;
  let current := j_state job in
  if bool_decide (current ∈ [J_CREATED; J_UPLOADING; J_PACKAGING; J_READY; J_INTERRUPTED; J_FAILED])
  then mret tt
  else
    rows ← select (fun d => device_states d job_id);
    derived ← lift (derive_dispatched_job_state rows);
    if bool_decide (derived = current) then mret tt
    else update_job job_id (fun j =>
           j <| j_state := derived |>
             <| j_terminal_at := if is_terminal_job_state derived then Some timestamp else None |>
             <| j_updated_at := timestamp |>).

Definition _snapshot (job_id : pystr) : Op snapshot :=
  s ← select (fun d => snapshot_of d job_id);
  or_raise (StoreNotFound job_id) s.

Definition capabilities_json (capabilities : gset pystr) : json :=
  JArr (JStr <$> sorted_strs (elements capabilities)).

(** ** Creation *)

Definition new_job (request : canonical_create_request) (timestamp expires : Z) : job_row :=
  JobRow (client_request_id request) (fingerprint request) 1 J_CREATED (req_mode request)
    (req_dest_path request) (display_name (source request)) (declared_file_count (source request))
    (declared_total_bytes (source request)) None None None false None timestamp expires
    None None None None timestamp None None None.

Definition new_device (seq ordinal : Z) (protocol : protocol_mode) (capabilities : gset pystr)
    (timestamp : Z) : device_row :=
  DeviceRow seq ordinal protocol (dumps_default (capabilities_json capabilities)) None QUEUED
    (Some (u "awaiting_dispatch")) 1 0 0 None None None None None None timestamp None None None
    None None None None None.

Fixpoint insert_targets (job_id : pystr) (protocols : gmap pystr (protocol_mode * gset pystr))
    (timestamp start : Z) (ordinal : nat) (targets : list pystr) : Op unit :=
  match targets with
  | [] => mret tt
  | device_id :: rest =>
      pc ← or_raise (KeyError device_id) (protocols !! device_id);
      insert_device (job_id, device_id)
        (new_device (start + Z.of_nat ordinal) (Z.of_nat ordinal) pc.1 pc.2 timestamp) ;;
      insert_targets job_id protocols timestamp start (S ordinal) rest
  end.

Definition job_for_request (d : db) (request_id : pystr) : option (pystr * job_row) :=
  head (filter (fun jr => j_client_request_id jr.2 = request_id) (map_to_list (jobs d))).

Definition create_job (request : canonical_create_request)
    (target_protocols : gmap pystr (protocol_mode * gset pystr)) (create_timeout_ms : Z)
    (now : Z) (fresh_id : pystr) : Op (bool * snapshot) :=
  transaction (
    existing ← select (fun d => job_for_request d (client_request_id request));
    match existing with
    | Some (job_id, row) =>
        require (streq (j_request_fingerprint row) (fingerprint request))
          (StoreConflict (u "client_request_id was already used for a different request")) ;;
        snap ← _snapshot job_id;
        _commit ;;
        mret (false, snap)
    | None =>
        bind_ints [declared_file_count (source request); declared_total_bytes (source request)] ;;
        insert_job fresh_id (new_job request now (now + create_timeout_ms)) ;;
        start_seq ← _next_enqueue_seq (length (target_devices request));
        insert_targets fresh_id target_protocols now start_seq 0 (target_devices request) ;;
        snap ← _snapshot fresh_id;
        _commit ;;
        mret (true, snap)
    end).

Definition get_snapshot (job_id : pystr) : Op snapshot := _snapshot job_id.

(** ** The upload *)

Definition upload_not_started (timestamp : Z) (j : job_row) : job_row :=
  j <| j_state := J_INTERRUPTED |> <| j_revision := j_revision j + 1 |>
    <| j_updated_at := timestamp |> <| j_terminal_at := Some timestamp |>
    <| j_failure_code := Some (u "upload_not_started_timeout") |>
    <| j_failure_detail := Some (u "upload did not start before create_expires_at") |>.

Definition start_upload (job_id : pystr) (now : Z) : Op snapshot :=
  transaction (
    row ← select (fun d => jobs d !! job_id);
    row ← or_raise (StoreNotFound job_id) row;
    require (bool_decide (j_state row = J_CREATED))
      (StoreConflict (u "job is " ++ job_state_value (j_state row) ++ u ", not created")) ;;
    if j_create_expires_at row <=? now then
      update_job job_id (upload_not_started now) ;;
      snap ← _snapshot job_id;
      _commit ;;
      raise (UploadDeadlineExpired snap)
    else
      update_job job_id (fun j =>
        j <| j_state := J_UPLOADING |> <| j_revision := j_revision j + 1 |>
          <| j_upload_started_at := Some now |> <| j_updated_at := now |>) ;;
      snap ← _snapshot job_id;
      _commit ;;
      mret snap).

Definition _simple_job_transition (job_id : pystr) (expected target : job_state)
    (extra : job_row -> job_row) (now : Z) : Op snapshot :=
  transaction (
    row ← select (fun d => jobs d !! job_id);
    row ← or_raise (StoreNotFound job_id) row;
    let current := j_state row in
    require (bool_decide (current = expected))
      (StoreConflict (u "job is " ++ job_state_value current ++ u ", expected "
                      ++ job_state_value expected)) ;;
    lift (validate_job_transition current target) ;;
    update_job job_id (fun j =>
      extra (j <| j_state := target |> <| j_revision := j_revision j + 1 |> <| j_updated_at := now |>)) ;;
    snap ← _snapshot job_id;
    _commit ;;
    mret snap).

(** [started] is the [now_ms()] of the call, [now] the one of the transaction. *)
Definition mark_packaging (job_id : pystr) (actual_file_count actual_total_bytes : Z)
    (started now : Z) : Op snapshot :=
  _simple_job_transition job_id J_UPLOADING J_PACKAGING
    (fun j => j <| j_actual_file_count := Some actual_file_count |>
                <| j_actual_total_bytes := Some actual_total_bytes |>
                <| j_packaging_started_at := Some started |>) now.

(** What [ArtifactStore.publish] returns about the file it made immutable. *)
Record artifact := Artifact {
  artifact_id : pystr;
  storage_name : pystr;
  display_filename : pystr;
  byte_size : Z;
  sha256 : pystr;
  entry_count : Z;
}.

Definition publish_artifact (job_id : pystr) (a : artifact) (now : Z) : Op snapshot :=
  transaction (
    row ← select (fun d => jobs d !! job_id);
    row ← or_raise (StoreNotFound job_id) row;
    require (bool_decide (j_state row = J_PACKAGING))
      (StoreConflict (u "job is " ++ job_state_value (j_state row) ++ u ", not packaging")) ;;
    insert_artifact (artifact_id a)
      (ArtifactRow (storage_name a) (display_filename a) (byte_size a) (sha256 a) (entry_count a) now) ;;
    update_job job_id (fun j =>
      j <| j_state := J_READY |> <| j_artifact_id := Some (artifact_id a) |>
        <| j_ready_at := Some now |> <| j_revision := j_revision j + 1 |> <| j_updated_at := now |>) ;;
    snap ← _snapshot job_id;
    _commit ;;
    mret snap).

Definition fail_pre_dispatch (job_id : pystr) (state : job_state) (code detail : pystr)
    (now : Z) : Op snapshot :=
  require (bool_decide (state ∈ [J_FAILED; J_INTERRUPTED]))
    (ValueError (u "pre-dispatch failure must be failed or interrupted")) ;;
  transaction (
    row ← select (fun d => jobs d !! job_id);
    row ← or_raise (StoreNotFound job_id) row;
    lift (validate_job_transition (j_state row) state) ;;
    update_job job_id (fun j =>
      j <| j_state := state |> <| j_revision := j_revision j + 1 |> <| j_updated_at := now |>
        <| j_terminal_at := Some now |> <| j_failure_code := Some code |>
        <| j_failure_detail := Some detail |>) ;;
    snap ← _snapshot job_id;
    _commit ;;
    mret snap).

(** ** Dispatch *)

Definition enable_dispatch (job_id : pystr) (now : Z) : Op (bool * snapshot) :=
  transaction (
    row ← select (fun d => jobs d !! job_id);
    row ← or_raise (StoreNotFound job_id) row;
    let state := j_state row in
    if bool_decide (state ∈ [J_READY; J_RUNNING; J_RECONCILING]) then
      if j_dispatch_enabled row then
        snap ← _snapshot job_id;
        _commit ;;
        mret (false, snap)
      else
        let next_state := if bool_decide (state = J_READY) then J_RUNNING else state in
        update_job job_id (fun j =>
          j <| j_state := next_state |> <| j_dispatch_enabled := true |>
            <| j_dispatch_paused_reason := None |>
            <| j_dispatch_started_at := Some (default now (j_dispatch_started_at j)) |>
            <| j_revision := j_revision j + 1 |> <| j_updated_at := now |>) ;;
        snap ← _snapshot job_id;
        _commit ;;
        mret (true, snap)
    else if is_terminal_job_state state then
      snap ← _snapshot job_id;
      _commit ;;
      mret (false, snap)
    else raise (StoreConflict (u "job cannot be dispatched from state " ++ job_state_value state))).

(** A column and the value an UPDATE gives it. *)
Inductive assignment :=
  | queue_reason (v : option pystr)
  | accept_replay_count (v : Z)
  | validated_offset (v : Z)
  | accept_deadline (v : option Z)
  | accepted_at (v : option Z)
  | transfer_completed_at (v : option Z)
  | validation_started_at (v : option Z)
  | validation_completed_at (v : option Z)
  | apply_started_at (v : option Z)
  | terminal_at (v : option Z)
  | failure_code_col (v : option pystr)
  | failure_detail_col (v : option pystr)
  | added (v : option Z)
  | updated (v : option Z)
  | deleted (v : option Z)
  | reconciliation_reason (v : option pystr)
  | reconciliation_deadline (v : option Z)
  | dispatch_capability_snapshot_json (v : option pystr)
  | protocol_mode_col (v : protocol_mode)
  | attempt_col (v : Z).

(** The columns [transition_device] lets a caller set. *)
Definition allowed_column (a : assignment) : bool :=
  match a with protocol_mode_col _ | attempt_col _ => false | _ => true end.

Definition assign (r : device_row) (a : assignment) : device_row :=
  match a with
  | queue_reason v => r <| d_queue_reason := v |>
  | accept_replay_count v => r <| d_accept_replay_count := v |>
  | validated_offset v => r <| d_validated_offset := v |>
  | accept_deadline v => r <| d_accept_deadline := v |>
  | accepted_at v => r <| d_accepted_at := v |>
  | transfer_completed_at v => r <| d_transfer_completed_at := v |>
  | validation_started_at v => r <| d_validation_started_at := v |>
  | validation_completed_at v => r <| d_validation_completed_at := v |>
  | apply_started_at v => r <| d_apply_started_at := v |>
  | terminal_at v => r <| d_terminal_at := v |>
  | failure_code_col v => r <| d_failure_code := v |>
  | failure_detail_col v => r <| d_failure_detail := v |>
  | added v => r <| d_added := v |>
  | updated v => r <| d_updated := v |>
  | deleted v => r <| d_deleted := v |>
  | reconciliation_reason v => r <| d_reconciliation_reason := v |>
  | reconciliation_deadline v => r <| d_reconciliation_deadline := v |>
  | dispatch_capability_snapshot_json v => r <| d_dispatch_capability_snapshot_json := v |>
  | protocol_mode_col v => r <| d_protocol_mode := v |>
  | attempt_col v => r <| d_attempt := v |>
  end.
Definition is_terminal_at (a : assignment) : bool :=
  match a with terminal_at _ => true | _ => false end.

Definition state_list_text (l : list device_state) : pystr :=
  u "[" ++ intercalate (u ", ") ((fun s => u "'" ++ device_state_value s ++ u "'") <$> l) ++ u "]".

Definition assignment_not_found (job_id device_id : pystr) : exn :=
  StoreNotFound (job_id ++ u "/" ++ device_id).

(** The end every change of a device row shares: one revision, the derived job
    state, the snapshot, the commit. *)
Definition finish_job (job_id : pystr) (timestamp : Z) : Op snapshot :=
  _increment_revision job_id timestamp ;;
  _rederive_job job_id timestamp ;;
  snap ← _snapshot job_id;
  _commit ;;
  mret snap.

Definition transition_device (job_id device_id : pystr) (expected : option (list device_state))
    (target : device_state) (fields : list assignment) (allow_terminal_idempotent : bool)
    (now : Z) : Op snapshot :=
  require (forallb allowed_column fields) (ValueError (u "unsupported device fields")) ;;
  transaction (
    row ← select (fun d => assignments d !! (job_id, device_id));
    row ← or_raise (assignment_not_found job_id device_id) row;
    let current := d_state row in
    if bool_decide (current = target) && allow_terminal_idempotent then
      snap ← _snapshot job_id;
      _commit ;;
      mret snap
    else
      match expected with
      | Some l =>
          require (bool_decide (current ∈ l))
            (StoreConflict (u "device assignment is " ++ device_state_value current
                            ++ u ", expected one of " ++ state_list_text l))
      | None => mret tt
      end ;;
      lift (validate_device_transition current target) ;;
      let fields := if is_terminal_device_state target && negb (existsb is_terminal_at fields)
                    then fields ++ [terminal_at (Some now)] else fields in
      update_device (job_id, device_id) (fun r =>
        foldl assign (r <| d_state := target |> <| d_updated_at := now |>) fields) ;;
      finish_job job_id now).

Definition mark_dispatching (job_id device_id : pystr) (capabilities : gset pystr)
    (deadline : Z) (now : Z) : Op snapshot :=
  transition_device job_id device_id (Some [WAITING_TRANSFER]) DISPATCHING
    [dispatch_capability_snapshot_json (Some (dumps_default (capabilities_json capabilities)));
     accept_deadline (Some deadline); reconciliation_reason None; reconciliation_deadline None]
    false now.

Definition mark_reconciling (job_id device_id : pystr) (expected : list device_state)
    (reason : pystr) (deadline : Z) (now : Z) : Op snapshot :=
  transition_device job_id device_id (Some expected) RECONCILING
    [reconciliation_reason (Some reason); reconciliation_deadline (Some deadline);
     accept_deadline None]
    false now.

(** ** Results *)

(** A terminal result as the client reports it. *)
Record result := Result {
  r_added : Z;
  r_updated : Z;
  r_deleted : Z;
  r_failure_code : option pystr;
  r_failure_detail : option pystr;
}.

Definition same_result (row : device_row) (res : result) : bool :=
  bool_decide (d_failure_code row = r_failure_code res) &&
  bool_decide (d_failure_detail row = r_failure_detail res) &&
  bool_decide (d_added row = Some (r_added res)) &&
  bool_decide (d_updated row = Some (r_updated res)) &&
  bool_decide (d_deleted row = Some (r_deleted res)).

Definition apply_result (target : device_state) (res : result) (now : Z) (r : device_row) : device_row :=
  r <| d_state := target |> <| d_queue_reason := None |> <| d_updated_at := now |>
    <| d_terminal_at := Some now |> <| d_failure_code := r_failure_code res |>
    <| d_failure_detail := r_failure_detail res |> <| d_added := Some (r_added res) |>
    <| d_updated := Some (r_updated res) |> <| d_deleted := Some (r_deleted res) |>
    <| d_accept_deadline := None |> <| d_reconciliation_reason := None |>
    <| d_reconciliation_deadline := None |>.

(** [DELETE FROM push_device_fences WHERE device_id=? AND blocking_job_id=? AND blocking_attempt=?]. *)
Definition delete_exact_fence (device_id job_id : pystr) (attempt : Z) : Op unit :=
  f ← select (fun d => fences d !! device_id);
  match f with
  | Some f => if bool_decide (f_blocking_job_id f = Some job_id)
                 && bool_decide (f_blocking_attempt f = Some attempt)
              then delete_fence device_id else mret tt
  | None => mret tt
  end.

Definition settle_result (job_id device_id : pystr) (attempt : Z) (status : pystr) (res : result)
    (now : Z) : Op (bool * option pystr * snapshot) :=
  require (attempt =? 1) (StoreConflict (u "stale_attempt")) ;;
  require (streq status (u "success") || streq status (u "fail"))
    (ValueError (u "status must be success or fail")) ;;
  let target := if streq status (u "success") then SUCCEEDED else FAILED in
  transaction (
    row ← select (fun d => assignments d !! (job_id, device_id));
    row ← or_raise (assignment_not_found job_id device_id) row;
    if negb (d_attempt row =? attempt) then
      snap ← _snapshot job_id;
      _commit ;;
      mret (false, Some (u "stale_attempt"), snap)
    else
      let current := d_state row in
      if is_terminal_device_state current then
        let same := bool_decide (current = target) && same_result row res in
        snap ← _snapshot job_id;
        _commit ;;
        mret (same, if same then None else Some (u "conflicting_terminal_result"), snap)
      else if negb (bool_decide (current ∈ [DISPATCHING; DOWNLOADING; VALIDATING; APPLYING; RECONCILING]))
      then
        snap ← _snapshot job_id;
        _commit ;;
        mret (false, Some (u "unexpected_result_state"), snap)
      else
        bind_ints [r_added res; r_updated res; r_deleted res] ;;
        update_device (job_id, device_id) (apply_result target res now) ;;
        delete_exact_fence device_id job_id attempt ;;
        snap ← finish_job job_id now;
        mret (true, None, snap)).

(** ** Reads and expiry *)

(** The device's active assignment; the index makes it unique. *)
Definition active_assignment_for_device (device_id : pystr)
    : Op (option ((pystr * pystr) * device_row)) :=
  select (fun d => head (filter (fun kr => kr.1.2 = device_id /\ active kr.2
                                           /\ is_Some (jobs d !! kr.1.1)) (assignment_rows d))).

Definition expired_created (timestamp : Z) : Op (list pystr) :=
  select (fun d => fst <$> filter (fun jr => j_state jr.2 = J_CREATED /\
                                             j_create_expires_at jr.2 <= timestamp)
                             (map_to_list (jobs d))).

Definition expire_created (job_id : pystr) (expected_deadline : option Z) (now : Z)
    : Op (option snapshot) :=
  transaction (
    row ← select (fun d => jobs d !! job_id);
    match row with
    | None => _commit ;; mret None
    | Some row =>
        if negb (bool_decide (j_state row = J_CREATED)) then _commit ;; mret None
        else if match expected_deadline with
                | Some dl => negb (j_create_expires_at row =? dl) | None => false end
        then _commit ;; mret None
        else if now <? j_create_expires_at row then _commit ;; mret None
        else
          update_job job_id (upload_not_started now) ;;
          snap ← _snapshot job_id;
          _commit ;;
          mret (Some snap)
    end).

Definition artifact_record (artifact_id : pystr) : Op (option artifact_row) :=
  select (fun d => artifacts d !! artifact_id).

(** ** Startup recovery *)

(** One job row: [Some true] when the job is touched and its files are to be
    cleaned up, [Some false] when it is touched only. *)
Definition recover_job (timestamp : Z) (jr : pystr * job_row) : Op (option bool) :=
  let '(job_id, row) := jr in
  let state := j_state row in
  if bool_decide (state = J_CREATED) && (j_create_expires_at row <=? timestamp) then
    update_job job_id (upload_not_started timestamp) ;; mret (Some true)
  else if bool_decide (state ∈ [J_UPLOADING; J_PACKAGING]) then
    update_job job_id (fun j =>
      j <| j_state := J_INTERRUPTED |> <| j_revision := j_revision j + 1 |>
        <| j_updated_at := timestamp |> <| j_terminal_at := Some timestamp |>
        <| j_failure_code := Some (u "server_restart") |>
        <| j_failure_detail :=
             Some (u "server restarted during non-resumable upload or packaging") |>) ;;
    mret (Some true)
  else if bool_decide (state ∈ [J_RUNNING; J_RECONCILING]) then
    update_job job_id (fun j =>
      j <| j_dispatch_enabled := false |> <| j_dispatch_paused_reason := Some (u "server_restart") |>
        <| j_revision := j_revision j + 1 |> <| j_updated_at := timestamp |>) ;;
    mret (Some false)
  else mret None.

Definition recover_row (accept_timeout_ms reconciliation_timeout_ms timestamp : Z)
    (r : device_row) : option device_row :=
  let reconcile reason timeout :=
    r <| d_reconciliation_reason := Some reason |>
      <| d_reconciliation_deadline := Some (timestamp + timeout) |>
      <| d_accept_deadline := None |> <| d_updated_at := timestamp |> in
  match d_state r with
  | WAITING_TRANSFER =>
      Some (r <| d_state := QUEUED |> <| d_queue_reason := Some (u "dispatch_paused") |>
              <| d_updated_at := timestamp |>)
  | DISPATCHING =>
      Some ((reconcile (u "server_restart_before_accept") accept_timeout_ms)
              <| d_state := RECONCILING |>)
  | DOWNLOADING | VALIDATING | APPLYING =>
      Some ((reconcile (u "server_restart_after_accept") reconciliation_timeout_ms)
              <| d_state := RECONCILING |>)
  | RECONCILING =>
      match d_accepted_at r with
      | None => Some (reconcile (u "server_restart_before_accept") accept_timeout_ms)
      | Some _ => Some (reconcile (u "server_restart_after_accept") reconciliation_timeout_ms)
      end
  | _ => None
  end.

(** One device row; whether its job is touched. *)
Definition recover_device (accept_timeout_ms reconciliation_timeout_ms timestamp : Z)
    (kr : (pystr * pystr) * device_row) : Op bool :=
  match recover_row accept_timeout_ms reconciliation_timeout_ms timestamp kr.2 with
  | Some r' => update_device kr.1 (fun _ => r') ;; mret true
  | None => mret false
  end.

Definition recover_startup_sync (accept_timeout_ms reconciliation_timeout_ms now : Z)
    : Op (list snapshot * list pystr) :=
  transaction (
    rows ← select (fun d => map_to_list (jobs d));
    touched_jobs ← map_each (recover_job now) rows;
    device_rows ← select assignment_rows;
    touched_devices ← map_each (recover_device accept_timeout_ms reconciliation_timeout_ms now)
                        device_rows;
    let cleanup := fst <$> filter (fun jt => jt.2 = Some true) (zip (fst <$> rows) touched_jobs) in
    let touched := distinct_sorted
      ((fst <$> filter (fun jt => is_Some jt.2) (zip (fst <$> rows) touched_jobs)) ++
       (fst <$> filter (fun kt => kt.2 = true)
                  (zip ((fun kr => kr.1.1) <$> device_rows) touched_devices))) in
    for_each (fun job_id => _rederive_job job_id now) touched ;;
    snaps ← map_each _snapshot touched;
    _commit ;;
    mret (snaps, cleanup)).
