(* ===== verification/Tx.v ===== *)
(** * Transactions

    A Hoare logic for the operations of the store.  [runs m K d] is about a run
    inside an open transaction: it leaves the transaction open, keeps the schema's
    constraints, and returns a value and tables that satisfy [K].  [commits m C d]
    is about the body of a transaction: it commits when it returns (or when it
    raises the expiry of an upload deadline, after committing it).  [operation] is
    the contract of a method called in autocommit mode: no transaction is left
    open, and a method that raises has changed nothing, the expiry apart. *)

From S2P Require Import Prelude PyStr Json PushJobs Db Store.
Open Scope Z_scope.

Definition deadline_expired (e : exn) : bool :=
  match e with UploadDeadlineExpired _ => true | _ => false end.

Definition runs {A} (m : Op A) (K : A -> db -> Prop) (d : db) : Prop :=
  forall d0, constraints d ->
  wp m (fun o c' => saved c' = Some d0 /\
        match o with Ret a => constraints (data c') /\ K a (data c') | Raise _ => True end)
    (Conn d (Some d0)).

Definition commits {A} (m : Op A) (C : outcome exn A -> db -> Prop) (d : db) : Prop :=
  forall d0, constraints d ->
  wp m (fun o c' =>
        match o with
        | Ret _ => saved c' = None /\ constraints (data c') /\ C o (data c')
        | Raise e => saved c' = Some d0 \/
            (deadline_expired e = true /\ saved c' = None /\ constraints (data c') /\ C o (data c'))
        end) (Conn d (Some d0)).

Definition operation {A} (m : Op A) (C : outcome exn A -> db -> Prop) (d : db) : Prop :=
  constraints d ->
  wp m (fun o c' => saved c' = None /\ constraints (data c') /\
        match o with
        | Ret _ => C o (data c')
        | Raise e => data c' = d \/ (deadline_expired e = true /\ C o (data c'))
        end) (Conn d None).

Section Rules.
Context {A B : Type}.
Implicit Types (K : A -> db -> Prop) (C : outcome exn A -> db -> Prop).

Lemma runs_ret (a : A) K d : K a d -> runs (mret a) K d.
Proof. intros ? d0 ?. apply wp_ret. auto. Qed.
Lemma runs_raise e K d : runs (raise e) K d.
Proof. intros d0 ?. by apply wp_raise. Qed.
Lemma runs_select (q : db -> A) K d : K (q d) d -> runs (select q) K d.
Proof. intros ? d0 ?. apply wp_gets. auto. Qed.
Lemma runs_or_raise e (o : option A) K d : (forall a, o = Some a -> K a d) -> runs (or_raise e o) K d.
Proof. intros H. destruct o; [by apply runs_ret, H|apply runs_raise]. Qed.
Lemma runs_lift (o : outcome job_error A) K d : (forall a, o = Ret a -> K a d) -> runs (lift o) K d.
Proof. intros H. destruct o; [by apply runs_ret, H|apply runs_raise]. Qed.
Lemma runs_require b e (K : unit -> db -> Prop) d : (b = true -> K tt d) -> runs (require b e) K d.
Proof. intros H d0 ?. apply wp_require; naive_solver. Qed.
Lemma runs_write f (K : unit -> db -> Prop) d : (constraints (f d) -> K tt (f d)) -> runs (write f) K d.
Proof. intros H d0 ?. rw /wp /write. case_bool_decide; simpl; auto. Qed.

Lemma runs_bind (m : Op B) (k : B -> Op A) K d :
  runs m (fun b => runs (k b) K) d -> runs (m ≫= k) K d.
Proof.
  intros Hm d0 Hd. apply wp_bind. eapply wp_mono; [by apply Hm|].
  intros [b|e] [d' s]; simpl; [|by intros [-> _]]. intros (-> & ? & Hk). by apply Hk.
Qed.
Lemma runs_mono (m : Op A) K K' d : runs m K d -> (forall a d', K a d' -> K' a d') -> runs m K' d.
Proof.
  intros Hm HK d0 Hd. eapply wp_mono; [by apply Hm|].
  intros [a|e] c; simpl; [|done]. intros (? & ? & ?). auto.
Qed.

Lemma commits_bind (m : Op B) (k : B -> Op A) C d :
  runs m (fun b => commits (k b) C) d -> commits (m ≫= k) C d.
Proof.
  intros Hm d0 Hd. apply wp_bind. eapply wp_mono; [by apply Hm|].
  intros [b|e] [d' s]; simpl; [|by intros [-> _]; left]. intros (-> & ? & Hk). by apply Hk.
Qed.
Lemma commits_then (m : Op B) (f : B -> A) C d :
  commits m (fun o => match o with Ret b => C (Ret (f b)) | Raise e => C (Raise e) end) d ->
  commits (b ← m; mret (f b)) C d.
Proof.
  intros Hm d0 Hd. apply wp_bind. eapply wp_mono; [by apply Hm|].
  intros [b|e] c; simpl; [|done]. intros. by apply wp_ret.
Qed.
Lemma commits_commit (a : A) C d : C (Ret a) d -> commits (_commit ;; mret a) C d.
Proof. intros ? d0 ?. done. Qed.
Lemma commits_raise e C d : commits (raise e) C d.
Proof. intros d0 ?. apply wp_raise. by left. Qed.
Lemma commits_expired s C d :
  C (Raise (UploadDeadlineExpired s)) d -> commits (_commit ;; raise (UploadDeadlineExpired s)) C d.
Proof. intros ? d0 ?. by right. Qed.
Lemma commits_commit_or_raise e (o : option B) (f : B -> A) C d :
  is_Some o -> (forall b, o = Some b -> C (Ret (f b)) d) ->
  commits (_commit ;; b ← or_raise e o; mret (f b)) C d.
Proof. intros [b ->] H d0 ?. rw /wp /=. auto. Qed.

Lemma operation_transaction (m : Op A) C d : commits m C d -> operation (transaction m) C d.
Proof.
  intros Hm Hd. rw /transaction. apply wp_bind. rw /wp /=.
  change (wp (try_reraise m _rollback) (fun o c' => saved c' = None /\ constraints (data c') /\
    match o with Ret _ => C o (data c')
               | Raise e => data c' = d \/ (deadline_expired e = true /\ C o (data c')) end)
    (Conn d (Some d))).
  apply wp_try_reraise. eapply wp_mono; [by apply (Hm d)|].
  intros [a|e] [d' s'] H; simpl in *; [naive_solver|].
  rw /wp /_rollback /=. destruct H as [->|(? & -> & ? & ?)]; simpl; naive_solver.
Qed.
Lemma operation_require b e (m : Op A) C d :
  (b = true -> operation m C d) -> operation (require b e ;; m) C d.
Proof.
  intros Hm Hd. apply wp_bind, wp_require; intros Hb; simpl; [by apply Hm|naive_solver].
Qed.
Lemma operation_ret (a : A) C d : C (Ret a) d -> operation (mret a) C d.
Proof. intros ? ?. by apply wp_ret. Qed.
Lemma operation_select (q : db -> B) (k : B -> Op A) C d :
  operation (k (q d)) C d -> operation (select q ≫= k) C d.
Proof. intros Hm Hd. apply wp_bind, wp_gets. by apply Hm. Qed.
Lemma operation_mono (m : Op A) C C' d :
  operation m C d -> (forall o d', C o d' -> C' o d') -> operation m C' d.
Proof.
  intros Hm HC Hd. eapply wp_mono; [by apply Hm|]. intros [a|e] c; simpl; naive_solver.
Qed.
End Rules.

(** ** Loops *)

(** A loop with an invariant over the elements already visited. *)
Lemma runs_for_each {A} (f : A -> Op unit) (I : list A -> db -> Prop) (l : list A)
    (K : unit -> db -> Prop) d :
  (forall done x rest d, l = done ++ x :: rest -> I done d -> runs (f x) (fun _ => I (done ++ [x])) d) ->
  I [] d -> (forall d', I l d' -> K tt d') -> runs (for_each f l) K d.
Proof.
  intros Hf HI HK.
  assert (forall rest done d, l = done ++ rest -> I done d -> runs (for_each f rest) K d) as H.
  { induction rest as [|x rest IH]; intros done d' Hl Hd; simpl.
    - apply runs_ret, HK. by rw Hl app_nil_r.
    - apply runs_bind. eapply runs_mono; [by eapply Hf|]. intros [] d'' Hd''.
      eapply IH; [|done]. by rw -app_assoc. }
  by eapply (H l []).
Qed.

Lemma runs_map_each_same {A B} (f : A -> Op B) (P : A -> B -> db -> Prop) (l : list A)
    (K : list B -> db -> Prop) d :
  (forall x, x ∈ l -> runs (f x) (fun b d' => d' = d /\ P x b d) d) ->
  (forall bs, Forall2 (fun x b => P x b d) l bs -> K bs d) -> runs (map_each f l) K d.
Proof.
  induction l as [|x l IH] in K |- *; intros Hf HK; simpl; [by apply runs_ret, HK|].
  apply runs_bind. eapply runs_mono; [apply Hf; left|]. intros b d' [-> Hb].
  apply runs_bind. apply IH; [intros; apply Hf; by right|]. intros bs Hbs.
  apply runs_ret, HK. by constructor.
Qed.

(** The same for a loop that collects results. *)
Lemma runs_map_each {A B} (f : A -> Op B) (P : A -> B -> Prop) (I : list A -> db -> Prop) (l : list A)
    (K : list B -> db -> Prop) d :
  (forall done x rest d, l = done ++ x :: rest -> I done d ->
     runs (f x) (fun b d' => P x b /\ I (done ++ [x]) d') d) ->
  I [] d -> (forall bs d', Forall2 P l bs -> I l d' -> K bs d') -> runs (map_each f l) K d.
Proof.
  intros Hf HI HK.
  assert (forall rest done d (K' : list B -> db -> Prop), l = done ++ rest -> I done d ->
    (forall bs d', Forall2 P rest bs -> I l d' -> K' bs d') -> runs (map_each f rest) K' d) as H.
  { induction rest as [|x rest IH]; intros done d' K' Hl Hd HK'; simpl.
    - apply runs_ret, HK'; [done|]. by rw Hl app_nil_r.
    - apply runs_bind. eapply runs_mono; [by eapply Hf|]. intros b d'' [Hb Hd''].
      apply runs_bind. eapply (IH (done ++ [x])); [by rw -app_assoc|done|].
      intros bs d3 Hbs Hd3. apply runs_ret, HK'; [by constructor|done]. }
  by eapply (H l []).
Qed.

(** ** Statements of the store *)

Lemma runs_snapshot id (K : snapshot -> db -> Prop) d :
  (forall s, snapshot_of d id = Some s -> K s d) -> runs (_snapshot id) K d.
Proof. intros H. by apply runs_bind, runs_select, runs_or_raise. Qed.

Lemma runs_snapshots ids (K : list snapshot -> db -> Prop) d :
  (forall snaps, Forall2 (fun id s => snapshot_of d id = Some s) ids snaps -> K snaps d) ->
  runs (map_each _snapshot ids) K d.
Proof.
  apply (runs_map_each_same _ (fun id s d => snapshot_of d id = Some s)).
  intros id _. by apply runs_snapshot.
Qed.

(** What the statements make of the tables. *)
Definition set_job (id : pystr) (f : job_row -> job_row) (d : db) : db :=
  d <| jobs := alter f id (jobs d) |>.
Definition set_device (key : pystr * pystr) (f : device_row -> device_row) (d : db) : db :=
  d <| assignments := alter f key (assignments d) |>.
Definition set_fences (F : gmap pystr fence_row) (d : db) : db := d <| fences := F |>.

Definition rederived (s : job_state) (now : Z) (j : job_row) : job_row :=
  j <| j_state := s |> <| j_terminal_at := if is_terminal_job_state s then Some now else None |>
    <| j_updated_at := now |>.

(** The states [_rederive_job] leaves alone. *)
Definition quiet (s : job_state) : Prop :=
  s ∈ [J_CREATED; J_UPLOADING; J_PACKAGING; J_READY; J_INTERRUPTED; J_FAILED].

Definition rederive_db (id : pystr) (now : Z) (d : db) : db :=
  match jobs d !! id, derive_dispatched_job_state (device_states d id) with
  | Some j, Ret s =>
      if decide (quiet (j_state j) \/ s = j_state j) then d else set_job id (rederived s now) d
  | _, _ => d
  end.

Lemma runs_update_job id f (K : unit -> db -> Prop) d :
  K tt (set_job id f d) -> runs (update_job id f) K d.
Proof. intros. by apply runs_write. Qed.
Lemma runs_increment id now (K : unit -> db -> Prop) d :
  K tt (set_job id (bump_job now) d) -> runs (_increment_revision id now) K d.
Proof. apply runs_update_job. Qed.
Lemma runs_update_device key f (K : unit -> db -> Prop) d :
  K tt (set_device key f d) -> runs (update_device key f) K d.
Proof. intros. by apply runs_write. Qed.
Lemma runs_update_device_if key p f (K : Z -> db -> Prop) d :
  (forall r, assignments d !! key = Some r -> p r = true -> K 1 (set_device key f d)) ->
  ((forall r, assignments d !! key = Some r -> p r = false) -> K 0 d) ->
  runs (update_device_if key p f) K d.
Proof.
  intros Hy Hn. apply runs_bind, runs_select.
  destruct (assignments d !! key) as [r|] eqn:E; [|apply runs_ret; naive_solver].
  destruct (p r) eqn:Hp; [|apply runs_ret; naive_solver].
  by apply runs_bind, runs_update_device, runs_ret, (Hy r).
Qed.

Definition without_exact_fence (device_id job_id : pystr) (attempt : Z) (d : db) : gmap pystr fence_row :=
  match fences d !! device_id with
  | Some f => if bool_decide (f_blocking_job_id f = Some job_id)
                 && bool_decide (f_blocking_attempt f = Some attempt)
              then delete device_id (fences d) else fences d
  | None => fences d
  end.

Lemma runs_delete_fence device_id (K : unit -> db -> Prop) d :
  K tt (set_fences (delete device_id (fences d)) d) -> runs (delete_fence device_id) K d.
Proof. intros. by apply runs_write. Qed.
Lemma runs_delete_exact_fence device_id job_id attempt (K : unit -> db -> Prop) d :
  K tt (set_fences (without_exact_fence device_id job_id attempt d) d) ->
  runs (delete_exact_fence device_id job_id attempt) K d.
Proof.
  intros H. apply runs_bind, runs_select. rw /without_exact_fence in H.
  assert (set_fences (fences d) d = d) as Hid by by destruct d.
  destruct (fences d !! device_id) as [f|]; [|apply runs_ret; by rw Hid in H].
  destruct (_ && _); [by apply runs_delete_fence|apply runs_ret; by rw Hid in H].
Qed.

Lemma runs_rederive id now (K : unit -> db -> Prop) d :
  (forall j, jobs d !! id = Some j ->
     quiet (j_state j) \/ (exists s, derive_dispatched_job_state (device_states d id) = Ret s) ->
     K tt (rederive_db id now d)) ->
  runs (_rederive_job id now) K d.
Proof.
  intros HK. apply runs_bind, runs_select, runs_bind, runs_or_raise. intros j Hj.
  specialize (HK j Hj). rw /rederive_db Hj in HK. cbv zeta. case_bool_decide as Hq.
  - apply runs_ret. destruct (derive_dispatched_job_state _) as [s|]; [|by auto].
    destruct (decide _) as [|Hn]; [by auto|by destruct Hn; left].
  - apply runs_bind, runs_select, runs_bind, runs_lift. intros s Hs. rw Hs in HK.
    case_bool_decide; [apply runs_ret|apply runs_update_job];
      (destruct (decide _) as [[|]|Hn]; [done|by eauto..|by eauto || by destruct Hn; right]).
Qed.

Lemma runs_insert_artifact a row (K : unit -> db -> Prop) d :
  (artifacts d !! a = None -> K tt (d <| artifacts := <[a := row]> (artifacts d) |>)) ->
  runs (insert_artifact a row) K d.
Proof.
  intros H. apply runs_bind, runs_select, runs_bind, runs_require. intros Hn. apply runs_write. intros _.
  apply H. apply negb_true_iff, bool_decide_eq_false_1 in Hn. by apply eq_None_not_Some.
Qed.
Lemma runs_insert_job id j (K : unit -> db -> Prop) d :
  (jobs d !! id = None -> K tt (d <| jobs := <[id := j]> (jobs d) |>)) -> runs (insert_job id j) K d.
Proof.
  intros H. apply runs_bind, runs_select, runs_bind, runs_require. intros Hn. apply runs_write. intros _.
  apply H. apply negb_true_iff, bool_decide_eq_false_1 in Hn. by apply eq_None_not_Some.
Qed.
Lemma runs_insert_device k r (K : unit -> db -> Prop) d :
  (assignments d !! k = None -> K tt (d <| assignments := <[k := r]> (assignments d) |>)) ->
  runs (insert_device k r) K d.
Proof.
  intros H. apply runs_bind, runs_select, runs_bind, runs_require. intros Hn. apply runs_write. intros _.
  apply H. apply negb_true_iff, bool_decide_eq_false_1 in Hn. by apply eq_None_not_Some.
Qed.

(** [claim_next]: the transaction whose integrity violations are an answer. *)
Lemma operation_claim {A} (m : Op (option A)) C d :
  commits m C d -> C (Ret None) d ->
  operation (_begin ;; try_except m
    (fun e => Some (_rollback ;; match e with IntegrityError => mret None | _ => raise e end))) C d.
Proof.
  intros Hm HC Hd. apply wp_bind. rw /wp /=. rw /try_except.
  specialize (Hm d Hd). rw /wp in Hm. destruct (m (Conn d (Some d))) as [[a|e] [d' s']]; simpl in *; [done|].
  destruct Hm as [->|(He & -> & ? & ?)].
  - by destruct e; simpl; auto.
  - destruct e; try done. simpl. auto.
Qed.

(** ** Automation *)

Ltac tx_step :=
  match goal with
  | |- operation (transaction _) _ _ => apply operation_transaction
  | |- operation (require _ _ ;; _) _ _ => apply operation_require; intros ?
  | |- operation (mret _) _ _ => apply operation_ret
  | |- commits (_commit ;; mret _) _ _ => apply commits_commit
  | |- commits (_commit ;; raise _) _ _ => apply commits_expired
  | |- commits (_commit ;; (or_raise _ _ ≫= _)) _ _ => apply commits_commit_or_raise; [|intros ? ?]
  | |- commits (raise _) _ _ => apply commits_raise
  | |- commits (finish_job _ _ ≫= _) _ _ => apply commits_then
  | |- commits (finish_job _ _) _ _ => rw /finish_job
  | |- commits (_ ≫= _) _ _ => apply commits_bind
  | |- runs (mret _) _ _ => apply runs_ret
  | |- runs (raise _) _ _ => apply runs_raise
  | |- runs (select _) _ _ => apply runs_select
  | |- runs (or_raise _ _) _ _ => apply runs_or_raise; intros ? ?
  | |- runs (require _ _) _ _ => apply runs_require; intros ?
  | |- runs (bind_ints _) _ _ => apply runs_require; intros ?
  | |- runs (lift _) _ _ => apply runs_lift; intros ? ?
  | |- runs (_snapshot _) _ _ => apply runs_snapshot; intros ? ?
  | |- runs (map_each _snapshot _) _ _ => apply runs_snapshots; intros ? ?
  | |- runs (update_job _ _) _ _ => apply runs_update_job
  | |- runs (_increment_revision _ _) _ _ => apply runs_increment
  | |- runs (update_device _ _) _ _ => apply runs_update_device
  | |- runs (delete_fence _) _ _ => apply runs_delete_fence
  | |- runs (delete_exact_fence _ _ _) _ _ => apply runs_delete_exact_fence
  | |- runs (_rederive_job _ _) _ _ => apply runs_rederive; intros ? ? _
  | |- runs (insert_artifact _ _) _ _ => apply runs_insert_artifact; intros ?
  | |- runs (insert_job _ _) _ _ => apply runs_insert_job; intros ?
  | |- runs (_ ≫= _) _ _ => apply runs_bind
  | |- runs (match ?x with _ => _ end) _ _ => destruct x eqn:?
  | |- commits (match ?x with _ => _ end) _ _ => destruct x eqn:?
  | |- operation (match ?x with _ => _ end) _ _ => destruct x eqn:?
  end; cbv beta zeta.
Ltac tx := repeat tx_step.
