(* ===== verification/Manager.v ===== *)
(** * The policy layer over the store (push_job_manager.py)

    One definition per method of [PushJobManager]: queue ordering, device fences,
    idempotent HTTP replay and the reconciliation of executions the server lost
    sight of.  Each runs as one operation on the database worker. *)

From S2P Require Import Prelude PyStr Json Uuid PushJobs Db Store.
Open Scope Z_scope.

(** ** Opaque identities of executions unknown to this server *)

(** [isinstance(attempt, bool) or attempt != 1] refuses. *)
Definition plain_one (v : json) : bool :=
  match v with JBool _ => false | _ => eq_int v 1 end.

Definition identity_payload (job_id : pystr) (artifact : option pystr) : json :=
  JObj (match artifact with Some a => [(u "artifact_id", JStr a)] | None => [] end ++
        [(u "attempt", JInt 1); (u "job_id", JStr job_id)]).

(** The parsed artifact of a report: [Some None] when it names none, [None] when it
    is not a UUIDv4. *)
Definition canonical_artifact (v : json) : option (option pystr) :=
  match v with JNull => Some None | _ => Some <$> uuid_v4_or_none v end.

(** The payload's keys are listed in sorted order: [sort_keys=True]. *)
Definition canonical_opaque_job_identity (active : list (pystr * json)) : option pystr :=
  job_id ← as_str (get (u "job_id") active);
  if negb (plain_one (get (u "attempt") active)) then None
  else
    job ← uuid_v4 job_id;
    artifact ← canonical_artifact (get (u "artifact_id") active);
    Some (dumps true (identity_payload job artifact)).

(** The text of the fallback token, [token: unknown-active-job] as a JSON object. *)
Definition unknown_token : pystr := dumps true (JObj [(u "token", JStr (u "unknown-active-job"))]).

Definition opaque_identity_for_active (active : list (pystr * json)) : pystr :=
  default unknown_token (canonical_opaque_job_identity active).

Definition parse_opaque_job_identity (value : option pystr) : option (list (pystr * json)) :=
  s ← value;
  if bool_decide (s = []) || bool_decide (2048 < length s)%nat then None
  else
    decoded ← loads s;
    fields ← as_obj decoded;
    canonical ← canonical_opaque_job_identity fields;
    v ← loads canonical;
    as_obj v.

(** ** Schema and idempotent creation *)

Definition verify_schema_sync : Op unit :=
  v ← select schema_version;
  require (bool_decide (v = Some 1)) (RuntimeError (u "unsupported push job schema version")).

Definition find_idempotent_job (request_id request_fingerprint : pystr) : Op (option snapshot) :=
  row ← select (fun d => job_for_request d request_id);
  match row with
  | None => mret None
  | Some (job_id, j) =>
      require (streq (j_request_fingerprint j) request_fingerprint)
        (StoreConflict (u "client_request_id is already associated with a different request")) ;;
      snap ← _snapshot job_id;
      mret (Some snap)
  end.

(** ** The console's list *)

Definition non_terminal (s : job_state) : bool := bool_decide (s ∈ NON_TERMINAL_JOB_VALUES).

(** [ORDER BY updated_at DESC] over the jobs that satisfy [p]. *)
Definition jobs_by_update (d : db) (p : job_row -> bool) : list pystr :=
  fst <$> order_by (fun jr => - j_updated_at jr.2) (filter (fun jr => p jr.2 = true) (map_to_list (jobs d))).

(** The jobs whose snapshots show a fence: the one an exact fence blocks on, the
    latest of the device of an opaque one. *)
Definition exact_fence_jobs (d : db) : list pystr :=
  remove_dups (omap (fun df => f_blocking_job_id df.2) (map_to_list (fences d))).
Definition opaque_fence_jobs (d : db) : list pystr :=
  omap (fun df => match f_blocking_job_id df.2 with
                  | None => latest_job d df.1
                  | Some _ => None
                  end) (map_to_list (fences d)).

(** First occurrences, in order. *)
Fixpoint keep_first (seen : list pystr) (l : list pystr) : list pystr :=
  match l with
  | [] => []
  | x :: l' => if bool_decide (x ∈ seen) then keep_first seen l' else x :: keep_first (x :: seen) l'
  end.

Definition list_ids (d : db) (recent_limit terminal_cutoff_ms : Z) : list pystr :=
  keep_first []
    (jobs_by_update d (fun j => non_terminal (j_state j)) ++
     take (Z.to_nat (Z.max 0 recent_limit))
       (jobs_by_update d (fun j => negb (non_terminal (j_state j)) && (terminal_cutoff_ms <=? j_updated_at j))) ++
     exact_fence_jobs d ++
     opaque_fence_jobs d).

Definition list_snapshots (recent_limit terminal_cutoff_ms : Z) : Op (list snapshot) :=
  ids ← select (fun d => list_ids d recent_limit terminal_cutoff_ms);
  snaps ← map_each _snapshot ids;
  mret (order_by (fun s => - s_updated_at s) snaps).

(** ** Deadlines *)

Definition due (deadline : option Z) (timestamp : Z) : Prop :=
  match deadline with Some t => t <= timestamp | None => False end.
#[export] Instance due_dec deadline timestamp : Decision (due deadline timestamp).
Proof. destruct deadline; simpl; apply _. Defined.

(** [ORDER BY deadline, enqueue_seq]. *)
Definition by_deadline (deadline : device_row -> option Z)
    (l : list ((pystr * pystr) * device_row)) : list ((pystr * pystr) * device_row) :=
  order_by (fun kr => default 0 (deadline kr.2)) (order_by (fun kr => d_enqueue_seq kr.2) l).

Definition expired_reconciliations (timestamp : Z) : Op (list ((pystr * pystr) * device_row)) :=
  select (fun d => by_deadline d_reconciliation_deadline
    (filter (fun kr => d_state kr.2 = RECONCILING /\ due (d_reconciliation_deadline kr.2) timestamp)
       (assignment_rows d))).

Definition expired_acceptances (timestamp : Z) : Op (list ((pystr * pystr) * device_row)) :=
  select (fun d => by_deadline d_accept_deadline
    (filter (fun kr => d_state kr.2 = DISPATCHING /\ d_accepted_at kr.2 = None /\
                       due (d_accept_deadline kr.2) timestamp)
       (assignment_rows d))).

(** [ORDER BY job_id]. *)
Definition id_le {V} (a b : pystr * V) : Prop := str_le a.1 b.1.
#[export] Instance id_le_dec {V} : RelDecision (@id_le V) := fun a b => str_le_dec a.1 b.1.

Definition next_created_deadline : Op (option (pystr * Z)) :=
  select (fun d =>
    (fun jr => (jr.1, j_create_expires_at jr.2)) <$>
    head (order_by (fun jr => j_create_expires_at jr.2)
            (merge_sort id_le
               (filter (fun jr => j_state jr.2 = J_CREATED) (map_to_list (jobs d)))))).

Definition mark_acceptance_reconciling (job_id device_id : pystr)
    (expected_accept_deadline new_deadline : Z) (now : Z) : Op (bool * snapshot) :=
  transaction (
    row ← select (fun d => assignments d !! (job_id, device_id));
    row ← or_raise (assignment_not_found job_id device_id) row;
    let current := d_state row in
    let exact_deadline := bool_decide (d_accept_deadline row = Some expected_accept_deadline) in
    let unaccepted := bool_decide (d_accepted_at row = None) in
    if bool_decide (current = RECONCILING) && unaccepted && exact_deadline
       && bool_decide (d_reconciliation_reason row = Some (u "command_accept_timeout"))
    then
      snap ← _snapshot job_id;
      _commit ;;
      mret (false, snap)
    else
      require (bool_decide (current = DISPATCHING) && unaccepted && exact_deadline)
        (StoreConflict (u "accept deadline no longer owns dispatch")) ;;
      lift (validate_device_transition current RECONCILING) ;;
      update_device (job_id, device_id) (fun r =>
        r <| d_state := RECONCILING |>
          <| d_reconciliation_reason := Some (u "command_accept_timeout") |>
          <| d_reconciliation_deadline := Some new_deadline |> <| d_updated_at := now |>) ;;
      snap ← finish_job job_id now;
      mret (true, snap)).

(** ** The queue *)

Definition job_in (d : db) (job_id : pystr) (states : list job_state) : bool :=
  match jobs d !! job_id with Some j => bool_decide (j_state j ∈ states) | None => false end.

(** [SELECT MIN(enqueue_seq)] over the device's queued rows of non-terminal jobs. *)
Definition min_queued_seq (d : db) (device_id : pystr) : option Z :=
  head (order_by id
    ((fun kr => d_enqueue_seq kr.2) <$>
     filter (fun kr => kr.1.2 = device_id /\ d_state kr.2 = QUEUED /\
                       job_in d kr.1.1 NON_TERMINAL_JOB_VALUES = true) (assignment_rows d))).

Definition has_active (d : db) (device_id : pystr) : bool :=
  existsb (fun kr => bool_decide (kr.1.2 = device_id) && bool_decide (active kr.2)) (assignment_rows d).

(** The WHERE clause of the claim. *)
Definition eligible (d : db) (online : gset pystr) (kr : (pystr * pystr) * device_row) : bool :=
  let '((job_id, device_id), r) := kr in
  bool_decide (d_state r = QUEUED) &&
  bool_decide (device_id ∈ online) &&
  match jobs d !! job_id with
  | Some j => j_dispatch_enabled j && bool_decide (j_state j ∈ [J_RUNNING; J_RECONCILING])
  | None => false
  end &&
  bool_decide (fences d !! device_id = None) &&
  negb (has_active d device_id) &&
  bool_decide (min_queued_seq d device_id = Some (d_enqueue_seq r)).

Definition next_claim (d : db) (online : gset pystr) : option ((pystr * pystr) * device_row) :=
  head (order_by (fun kr => d_enqueue_seq kr.2)
          (filter (fun kr => eligible d online kr = true) (assignment_rows d))).

Definition claim_row (now : Z) (r : device_row) : device_row :=
  r <| d_state := WAITING_TRANSFER |> <| d_queue_reason := None |> <| d_updated_at := now |>.

Definition claim_body (online : gset pystr) (now : Z)
    : Op (option ((pystr * pystr) * device_row * snapshot)) :=
  row ← select (fun d => next_claim d online);
  match row with
  | None => _commit ;; mret None
  | Some (key, row) =>
      rowcount ← update_device_if key (fun r => bool_decide (d_state r = QUEUED)) (claim_row now);
      if negb (Z.eqb rowcount 1) then _rollback ;; mret None
      else
        _increment_revision key.1 now ;;
        _rederive_job key.1 now ;;
        snap ← _snapshot key.1;
        claimed ← select (fun d => assignments d !! key);
        _commit ;;
        claimed ← or_raise (RuntimeError (u "assert assignment is not None")) claimed;
        mret (Some (key, claimed, snap))
  end.

(** [except sqlite3.IntegrityError] rolls back and returns [None]; any other
    exception rolls back and goes on. *)
Definition claim_next (online_device_ids : gset pystr) (now : Z)
    : Op (option ((pystr * pystr) * device_row * snapshot)) :=
  if bool_decide (online_device_ids = ∅) then mret None
  else
    _begin ;;
    try_except (claim_body online_device_ids now)
      (fun e => Some (_rollback ;; match e with IntegrityError => mret None | _ => raise e end)).

Definition prepare_dispatch (job_id device_id : pystr) (protocol : protocol_mode)
    (live_capabilities : gset pystr) (deadline : option Z) (now : Z) : Op snapshot :=
  transaction (
    row ← select (fun d => assignments d !! (job_id, device_id));
    row ← or_raise (assignment_not_found job_id device_id) row;
    require (d_attempt row =? 1) (StoreConflict (u "stale_attempt")) ;;
    lift (validate_device_transition (d_state row) DISPATCHING) ;;
    rowcount ← update_device_if (job_id, device_id)
      (fun r => bool_decide (d_state r = WAITING_TRANSFER))
      (fun r => r <| d_state := DISPATCHING |> <| d_protocol_mode := protocol |>
                  <| d_dispatch_capability_snapshot_json :=
                       Some (dumps true (capabilities_json live_capabilities)) |>
                  <| d_accept_deadline := deadline |> <| d_updated_at := now |>);
    require (Z.eqb rowcount 1) (StoreConflict (u "assignment changed before dispatch")) ;;
    finish_job job_id now).

(** ** Reads of one assignment *)

(** An assignment joined with its job. *)
Definition assignment_of (job_id device_id : pystr) : Op (option (device_row * job_row)) :=
  select (fun d => r ← assignments d !! (job_id, device_id); j ← jobs d !! job_id; Some (r, j)).

(** A fence with the state of the assignment it blocks on and that job's artifact. *)
Definition fenced_assignment_for_device (device_id : pystr)
    : Op (option (fence_row * option device_state * option pystr)) :=
  select (fun d =>
    f ← fences d !! device_id;
    let blocked := b ← f_blocking_job_id f; assignments d !! (b, device_id) in
    let artifact := b ← f_blocking_job_id f; j ← jobs d !! b; j_artifact_id j in
    Some (f, d_state <$> blocked, artifact)).

Definition opaque_reconcile_target (device_id : pystr) : Op (option (list (pystr * json))) :=
  select (fun d =>
    f ← fences d !! device_id;
    if bool_decide (f_blocking_job_id f = None) && bool_decide (f_protocol_mode f = JOB_V1)
    then parse_opaque_job_identity (f_blocking_opaque_identity f) else None).

(** ** Fences *)

Definition append_new (x : pystr) (l : list pystr) : list pystr :=
  if bool_decide (x ∈ l) then l else l ++ [x].

Definition visible_job_ids (d : db) (device_id : pystr) (blocking_job_id : option pystr)
    : list pystr :=
  let ids := fence_visible_jobs d device_id in
  let ids := match blocking_job_id with
             | Some b => if negb (bool_decide (b = [])) && bool_decide (is_Some (jobs d !! b))
                         then append_new b ids else ids
             | None => ids
             end in
  match fences d !! device_id with
  | Some f =>
      match f_blocking_job_id f, latest_job d device_id with
      | None, Some latest => append_new latest ids
      | _, _ => ids
      end
  | None => ids
  end.
Definition _visible_job_ids (device_id : pystr) (blocking_job_id : option pystr) : Op (list pystr) :=
  select (fun d => visible_job_ids d device_id blocking_job_id).

(** [INSERT ... ON CONFLICT(device_id) DO UPDATE]: every column but [created_at]. *)
Definition upsert_fence (device_id : pystr) (f : fence_row) : Op unit :=
  write (fun d => d <| fences :=
    <[device_id := match fences d !! device_id with
                   | Some old => f <| f_created_at := f_created_at old |>
                   | None => f
                   end]> (fences d) |>).

(** A revision for every affected job, then their snapshots and the commit. *)
Definition publish_affected (ids : list pystr) (timestamp : Z) : Op (list snapshot) :=
  for_each (fun job_id => _increment_revision job_id timestamp) ids ;;
  snaps ← map_each _snapshot ids;
  _commit ;;
  mret snaps.

Definition MAX_DETAIL : nat := 2000.

(** [clock] is [now_ms()]; [observed_now] replaces it when the caller has read the
    clock already. *)
Definition mark_unconfirmed (job_id device_id : pystr) (process_instance_id : option pystr)
    (detail : pystr) (expected_deadline observed_now : option Z) (clock : Z) : Op (list snapshot) :=
  transaction (
    row ← select (fun d => assignments d !! (job_id, device_id));
    row ← or_raise (assignment_not_found job_id device_id) row;
    require (d_attempt row =? 1) (StoreConflict (u "stale_attempt")) ;;
    require (bool_decide (d_state row = RECONCILING))
      (StoreConflict (u "assignment is not reconciling")) ;;
    let timestamp := default clock observed_now in
    require (match expected_deadline with
             | Some dl => bool_decide (d_reconciliation_deadline row = Some dl) && (dl <=? timestamp)
             | None => true
             end) (StoreConflict (u "stale reconciliation deadline")) ;;
    update_device (job_id, device_id) (fun r =>
      r <| d_state := UNCONFIRMED |> <| d_terminal_at := Some timestamp |>
        <| d_updated_at := timestamp |> <| d_failure_code := Some (u "reconciliation_timeout") |>
        <| d_failure_detail := Some (take MAX_DETAIL detail) |> <| d_reconciliation_reason := None |>
        <| d_reconciliation_deadline := None |> <| d_accept_deadline := None |>) ;;
    upsert_fence device_id
      (FenceRow (Some job_id) None (Some 1) (d_protocol_mode row) process_instance_id
         (take MAX_DETAIL detail) timestamp timestamp) ;;
    ids ← _visible_job_ids device_id (Some job_id);
    for_each (fun affected => _increment_revision affected timestamp ;; _rederive_job affected timestamp)
      ids ;;
    snaps ← map_each _snapshot ids;
    _commit ;;
    mret snaps).

Definition same_opaque_fence (f : fence_row) (identity : pystr) (protocol : protocol_mode)
    (process_instance_id : option pystr) (reason : pystr) : bool :=
  bool_decide (f_blocking_job_id f = None) &&
  bool_decide (f_blocking_opaque_identity f = Some identity) &&
  bool_decide (f_blocking_attempt f = None) &&
  bool_decide (f_protocol_mode f = protocol) &&
  bool_decide (f_blocking_process_instance_id f = process_instance_id) &&
  bool_decide (f_reason f = reason).

Definition add_opaque_fence (device_id opaque_identity : pystr) (protocol : protocol_mode)
    (process_instance_id : option pystr) (reason : pystr) (now : Z) : Op (list snapshot) :=
  require (negb (bool_decide (opaque_identity = [])) && bool_decide (length opaque_identity <= 2048)%nat)
    (StoreConflict (u "opaque fence identity is invalid")) ;;
  transaction (
    existing ← select (fun d => fences d !! device_id);
    if match existing with
       | Some f => same_opaque_fence f opaque_identity protocol process_instance_id
                     (take MAX_DETAIL reason)
       | None => false
       end
    then _commit ;; mret []
    else
      upsert_fence device_id
        (FenceRow None (Some opaque_identity) None protocol process_instance_id
           (take MAX_DETAIL reason) now now) ;;
      ids ← _visible_job_ids device_id None;
      publish_affected ids now).

Definition clear_fence_on_process_replacement (device_id : pystr)
    (process_instance_id : option pystr) (has_job_v1 : bool) (now : Z) : Op (list snapshot) :=
  transaction (
    fence ← select (fun d => fences d !! device_id);
    match fence with
    | None => _commit ;; mret []
    | Some fence =>
        if negb has_job_v1 || negb (truthy process_instance_id) then _commit ;; mret []
        else
          let old_process := f_blocking_process_instance_id fence in
          let replaced := (negb (bool_decide (old_process = None)) &&
                           negb (bool_decide (old_process = process_instance_id)))
                          || bool_decide (old_process = None) in
          if negb replaced then _commit ;; mret []
          else
            ids ← _visible_job_ids device_id (f_blocking_job_id fence);
            delete_fence device_id ;;
            publish_affected ids now
    end).

(** The fence of a device, when it blocks on exactly this job and attempt. *)
Definition exact_fence (f : option fence_row) (job_id : pystr) (attempt : Z) : bool :=
  match f with
  | Some f => bool_decide (f_blocking_job_id f = Some job_id)
              && bool_decide (f_blocking_attempt f = Some attempt)
  | None => false
  end.

Definition clear_matching_fence (job_id device_id : pystr) (attempt : Z) (now : Z)
    : Op (list snapshot) :=
  if negb (attempt =? 1) then mret []
  else transaction (
    fence ← select (fun d => fences d !! device_id);
    if negb (exact_fence fence job_id attempt) then _commit ;; mret []
    else
      delete_fence device_id ;;
      ids ← _visible_job_ids device_id (Some job_id);
      publish_affected ids now).

Definition clear_matching_opaque_fence (device_id job_id : pystr) (attempt : Z) (now : Z)
    : Op (bool * list snapshot) :=
  match canonical_opaque_job_identity [(u "job_id", JStr job_id); (u "attempt", JInt attempt)] with
  | None => mret (false, [])
  | Some expected =>
      let expected_identity := default [] (v ← loads expected; as_obj v) in
      transaction (
        fence ← select (fun d => fences d !! device_id);
        match fence with
        | None => _commit ;; mret (false, [])
        | Some fence =>
            if negb (bool_decide (f_blocking_job_id fence = None))
               || negb (bool_decide (f_protocol_mode fence = JOB_V1))
            then _commit ;; mret (false, [])
            else
              match parse_opaque_job_identity (f_blocking_opaque_identity fence) with
              | None => _commit ;; mret (false, [])
              | Some stored =>
                  if negb (eq_str (get (u "job_id") stored)
                             (default [] (as_str (get (u "job_id") expected_identity))))
                     || negb (eq_int (get (u "attempt") stored)
                                (default 0 (as_int (get (u "attempt") expected_identity))))
                  then _commit ;; mret (false, [])
                  else
                    ids ← _visible_job_ids device_id None;
                    delete_fence device_id ;;
                    snaps ← publish_affected ids now;
                    mret (true, snaps)
              end
        end)
  end.

Definition settle_late_fenced_result (job_id device_id : pystr) (attempt : Z) (now : Z)
    : Op (bool * list snapshot) :=
  if negb (attempt =? 1) then mret (false, [])
  else transaction (
    row ← select (fun d => assignments d !! (job_id, device_id));
    fence ← select (fun d => fences d !! device_id);
    match row with
    | Some row =>
        if negb (d_attempt row =? 1) || negb (bool_decide (d_state row = UNCONFIRMED))
        then _commit ;; mret (false, [])
        else
          match fence with
          | None =>
              snap ← _snapshot job_id;
              _commit ;;
              mret (true, [snap])
          | Some _ =>
              if negb (exact_fence fence job_id 1) then _commit ;; mret (false, [])
              else
                delete_fence device_id ;;
                ids ← _visible_job_ids device_id (Some job_id);
                snaps ← publish_affected ids now;
                mret (true, snaps)
          end
    | None => _commit ;; mret (false, [])
    end).

(** ** Reconciliation *)

Definition phase_map (phase : option pystr) : option device_state :=
  match phase with
  | Some p => if streq p (u "downloading") then Some DOWNLOADING
              else if streq p (u "validating") then Some VALIDATING
              else if streq p (u "applying") then Some APPLYING else None
  | None => None
  end.

(** The one pre-accept replay a lost command may have. *)
Definition replayable (status : pystr) (row : device_row) (dispatch_enabled : bool) : bool :=
  streq status (u "absent") &&
  bool_decide (d_accepted_at row = None) &&
  bool_decide (d_reconciliation_reason row ∈
                 [Some (u "command_accept_timeout"); Some (u "disconnect_before_accept")]) &&
  (d_accept_replay_count row <? 1) &&
  dispatch_enabled.

(** [detail or f"client reported {status}"], at most 2000 characters. *)
Definition reported_detail (detail : option pystr) (status : pystr) : pystr :=
  take MAX_DETAIL (if truthy detail then default [] detail else u "client reported " ++ status).

Definition reconcile_active (target : device_state) (now : Z) (r : device_row) : device_row :=
  r <| d_state := target |> <| d_accepted_at := Some (default now (d_accepted_at r)) |>
    <| d_accept_deadline := None |> <| d_reconciliation_reason := None |>
    <| d_reconciliation_deadline := None |> <| d_updated_at := now |>.
Definition reconcile_requeue (now : Z) (r : device_row) : device_row :=
  r <| d_state := QUEUED |> <| d_queue_reason := Some (u "command_accept_replay") |>
    <| d_accept_replay_count := d_accept_replay_count r + 1 |> <| d_accept_deadline := None |>
    <| d_reconciliation_reason := None |> <| d_reconciliation_deadline := None |>
    <| d_failure_code := None |> <| d_failure_detail := None |> <| d_updated_at := now |>.
Definition reconcile_interrupt (status detail : pystr) (now : Z) (r : device_row) : device_row :=
  r <| d_state := INTERRUPTED |> <| d_terminal_at := Some now |>
    <| d_failure_code := Some (if streq status (u "interrupted") then u "client_restarted"
                               else u "client_state_absent") |>
    <| d_failure_detail := Some detail |> <| d_accept_deadline := None |>
    <| d_reconciliation_reason := None |> <| d_reconciliation_deadline := None |>
    <| d_updated_at := now |>.

(** What a report does to a reconciling row: the outcome and the new row. *)
Definition reconcile_row (status : pystr) (phase detail : option pystr) (row : device_row)
    (dispatch_enabled : bool) (now : Z) : Op (pystr * (device_row -> device_row)) :=
  if streq status (u "active") then
    target ← or_raise (StoreConflict (u "invalid active phase")) (phase_map phase);
    lift (validate_device_transition (d_state row) target) ;;
    mret (u "active", reconcile_active target now)
  else if streq status (u "absent") || streq status (u "interrupted") then
    if replayable status row dispatch_enabled then
      lift (validate_device_transition (d_state row) QUEUED) ;;
      mret (u "requeued", reconcile_requeue now)
    else
      lift (validate_device_transition (d_state row) INTERRUPTED) ;;
      mret (u "interrupted", reconcile_interrupt status (reported_detail detail status) now)
  else raise (StoreConflict (u "invalid reconciliation status")).

Definition reconcile_report (job_id device_id : pystr) (attempt : Z) (status : pystr)
    (phase detail : option pystr) (now : Z) : Op (pystr * list snapshot) :=
  require (attempt =? 1) (StoreConflict (u "stale_attempt")) ;;
  transaction (
    row ← select (fun d => r ← assignments d !! (job_id, device_id); j ← jobs d !! job_id;
                           Some (r, j_dispatch_enabled j));
    row ← or_raise (assignment_not_found job_id device_id) row;
    let '(row, dispatch_enabled) := row in
    require (d_attempt row =? 1) (StoreConflict (u "stale_attempt")) ;;
    let current := d_state row in
    if bool_decide (current = UNCONFIRMED)
       && (streq status (u "absent") || streq status (u "interrupted")) then
      fence ← select (fun d => fences d !! device_id);
      require (exact_fence fence job_id attempt)
        (StoreConflict (u "exact reconciliation fence is absent")) ;;
      delete_fence device_id ;;
      ids ← _visible_job_ids device_id (Some job_id);
      snaps ← publish_affected ids now;
      mret (u "fence_cleared", snaps)
    else
      require (bool_decide (current = RECONCILING))
        (StoreConflict (u "assignment is not reconciling")) ;;
      change ← reconcile_row status phase detail row dispatch_enabled now;
      update_device (job_id, device_id) change.2 ;;
      snap ← finish_job job_id now;
      mret (change.1, [snap])).

(** ** Artifacts and the file system *)

(** [listing] is the artifact directory: the entries' names and whether each is a
    regular file.  Only names this lifecycle produces are orphans. *)
Definition orphan_artifacts (d : db) (listing : list (pystr * bool)) : list pystr :=
  let referenced := (fun ar => a_storage_name ar.2) <$> map_to_list (artifacts d) in
  sorted_strs (fst <$> filter (fun nf =>
    nf.2 = true /\ lower (stem_suffix nf.1).2 = u ".zip" /\
    is_Some (uuid_v4 (stem_suffix nf.1).1) /\ nf.1 ∉ referenced) listing).
Definition orphan_artifacts_sync (listing : list (pystr * bool)) : Op (list pystr) :=
  select (fun d => orphan_artifacts d listing).

(** The jobs to serve whose artifact file is gone: job ID, state, storage name. *)
Definition missing_artifacts (d : db) (is_file : pystr -> bool)
    : list (pystr * job_state * pystr) :=
  omap (fun jr =>
    a ← j_artifact_id jr.2;
    row ← artifacts d !! a;
    if bool_decide (j_state jr.2 ∈ [J_READY; J_RUNNING; J_RECONCILING])
       && negb (is_file (a_storage_name row))
    then Some (jr.1, j_state jr.2, a_storage_name row) else None) (map_to_list (jobs d)).

Definition fail_missing (now : Z) (m : pystr * job_state * pystr) : Op unit :=
  let '(job_id, state, storage) := m in
  let detail := u "referenced immutable artifact " ++ storage ++ u " is missing" in
  if bool_decide (state = J_READY) then
    update_job job_id (fun j =>
      j <| j_state := J_FAILED |> <| j_dispatch_enabled := false |>
        <| j_failure_code := Some (u "artifact_missing") |> <| j_failure_detail := Some detail |>
        <| j_terminal_at := Some now |> <| j_revision := j_revision j + 1 |> <| j_updated_at := now |>)
  else
    update_job_devices job_id
      (fun r => bool_decide (d_state r ∈ [QUEUED; WAITING_TRANSFER; DISPATCHING; DOWNLOADING]))
      (fun r => r <| d_state := FAILED |> <| d_terminal_at := Some now |>
                  <| d_failure_code := Some (u "artifact_missing") |>
                  <| d_failure_detail := Some detail |> <| d_updated_at := now |>) ;;
    _increment_revision job_id now ;;
    _rederive_job job_id now.

Definition reconcile_missing_artifacts_sync (is_file : pystr -> bool) (now : Z)
    : Op (list snapshot) :=
  missing ← select (fun d => missing_artifacts d is_file);
  if bool_decide (length missing = 0%nat) then mret []
  else transaction (
    for_each (fail_missing now) missing ;;
    snaps ← map_each (fun m => _snapshot m.1.1) missing;
    _commit ;;
    mret snaps).
