(* ===== verification/Protocol.v ===== *)
(** * The job/device protocol

    What every operation of the store and the manager promises about the tables,
    whatever it does in detail.  [history d d'] is the promise to the past: no job,
    assignment or artifact is lost, states move along the tables, revisions grow
    with every visible change, finished rows are frozen.  [wf d] is the promise to
    the present: a job's state agrees with its devices, terminal rows and only they
    carry a terminal time, a job that can be dispatched has its artifact, a fence
    blocks on an execution that was given up.  Both are indexed by the jobs an
    operation has touched but not settled yet; the lemmas follow an operation
    through its statements, and at the end the index is empty. *)

From S2P Require Import Prelude PyStr Json PushJobs Domain Db Store Tx.
From stdpp Require Import relations.
Open Scope Z_scope.

(** ** Steps of single rows *)

Definition job_edge (s t : job_state) : Prop := t ∈ JOB_TRANSITIONS s.

(** The table, and the result of a dispatched device, which no table entry guards. *)
Definition device_edge (s t : device_state) : Prop :=
  t ∈ DEVICE_TRANSITIONS s \/
  (s ∈ [DISPATCHING; DOWNLOADING; VALIDATING; APPLYING; RECONCILING] /\ t ∈ [SUCCEEDED; FAILED]).

Definition terminal_row (r : device_row) : Prop := d_state r ∈ TERMINAL_DEVICE_STATES.

Record job_fixed (j j' : job_row) : Prop := JobFixed {
  jf_request : j_client_request_id j' = j_client_request_id j;
  jf_fingerprint : j_request_fingerprint j' = j_request_fingerprint j;
  jf_mode : j_mode j' = j_mode j;
  jf_dest : j_dest_path j' = j_dest_path j;
  jf_label : j_source_label j' = j_source_label j;
  jf_count : j_declared_file_count j' = j_declared_file_count j;
  jf_bytes : j_declared_total_bytes j' = j_declared_total_bytes j;
  jf_created : j_created_at j' = j_created_at j;
  jf_expires : j_create_expires_at j' = j_create_expires_at j;
}.

Record device_fixed (r r' : device_row) : Prop := DeviceFixed {
  df_seq : d_enqueue_seq r' = d_enqueue_seq r;
  df_ordinal : d_target_ordinal r' = d_target_ordinal r;
  df_attempt : d_attempt r' = d_attempt r;
  df_capabilities : d_create_capability_snapshot_json r' = d_create_capability_snapshot_json r;
}.

(** An artifact, once recorded, stays the job's artifact. *)
Definition sticky (a b : option pystr) : Prop := a = None \/ b = a.

Record job_evolves (j j' : job_row) : Prop := JobEvolves {
  je_fixed : job_fixed j j';
  je_state : rtc job_edge (j_state j) (j_state j');
  je_revision : j' = j \/ j_revision j < j_revision j';
  je_artifact : sticky (j_artifact_id j) (j_artifact_id j');
}.

Record device_evolves (r r' : device_row) : Prop := DeviceEvolves {
  de_fixed : device_fixed r r';
  de_state : rtc device_edge (d_state r) (d_state r');
  de_frozen : terminal_row r -> r' = r;
}.

#[export] Instance job_fixed_preorder : PreOrder job_fixed.
Proof. split; [by intros []|]. intros ??? [] []. split; congruence. Qed.
#[export] Instance device_fixed_preorder : PreOrder device_fixed.
Proof. split; [by intros []|]. intros ??? [] []. split; congruence. Qed.
#[export] Instance sticky_preorder : PreOrder sticky.
Proof. split; [by right|]. intros ??? [->| ->] [|]; subst; rw /sticky; auto. Qed.
#[export] Instance job_evolves_preorder : PreOrder job_evolves.
Proof.
  split; [by intros j; split; auto|]. intros j1 j2 j3 [] []. split; try by etrans.
  destruct je_revision0 as [->|], je_revision1 as [->|]; auto. right. lia.
Qed.

(** The end of a path through the device table. *)
Lemma terminal_no_edge s t : s ∈ TERMINAL_DEVICE_STATES -> ~ device_edge s t.
Proof. intros [->|[->|[->| ->]]]%terminal_state [H|[H _]]; by set_solver. Qed.
Lemma terminal_job_no_edge s t : s ∈ TERMINAL_JOB_STATES -> ~ job_edge s t.
Proof. rw /TERMINAL_JOB_STATES /job_edge. intros H. destruct s; set_solver. Qed.

#[export] Instance device_evolves_preorder : PreOrder device_evolves.
Proof.
  split; [by intros r; split|]. intros r1 r2 r3 [] []. split; [by etrans..|].
  intros Ht. rw -(de_frozen0 Ht). apply de_frozen1. by rw (de_frozen0 Ht).
Qed.

Lemma terminal_job_final j j' :
  j_state j ∈ TERMINAL_JOB_STATES -> job_evolves j j' -> j_state j' = j_state j.
Proof.
  intros Ht []. inversion je_state0 as [|? y ? Hy]; [done|]. by apply terminal_job_no_edge in Hy.
Qed.

(** ** History *)

Definition next_seq (d : db) : Z := default 1 (next_enqueue_seq d).

Definition bumped (d d' : db) (id : pystr) : Prop :=
  exists j j', jobs d !! id = Some j /\ jobs d' !! id = Some j' /\ j_revision j < j_revision j'.

Record history (B : gset pystr) (d d' : db) : Prop := History {
  h_job : forall id j, jobs d !! id = Some j ->
    exists j', jobs d' !! id = Some j' /\ job_evolves j j';
  h_row : forall k r, assignments d !! k = Some r ->
    exists r', assignments d' !! k = Some r' /\ device_evolves r r' /\
               (r' = r \/ k.1 ∈ B \/ bumped d d' k.1);
  h_artifact : forall a r, artifacts d !! a = Some r -> artifacts d' !! a = Some r;
  h_seq : next_seq d <= next_seq d';
  h_new : forall k r, assignments d !! k = None -> assignments d' !! k = Some r ->
    next_seq d <= d_enqueue_seq r;
}.

Lemma bumped_trans d1 d2 d3 id : history ∅ d1 d2 -> bumped d2 d3 id -> is_Some (jobs d1 !! id) ->
  bumped d1 d3 id.
Proof.
  intros HH (j2 & j3 & Hj2 & Hj3 & ?) [j1 Hj1]. exists j1, j3. split_and!; [done..|].
  destruct (h_job _ _ _ HH _ _ Hj1) as (? & ? & []). simplify_eq.
  destruct je_revision0 as [->|]; lia.
Qed.
Lemma bumped_later d1 d2 d3 id : bumped d1 d2 id -> history ∅ d2 d3 -> bumped d1 d3 id.
Proof.
  intros (j1 & j2 & ? & Hj2 & ?) HH.
  destruct (h_job _ _ _ HH _ _ Hj2) as (j3 & ? & []). exists j1, j3. split_and!; [done..|].
  destruct je_revision0 as [->|]; lia.
Qed.

Lemma history_refl B d : history B d d.
Proof.
  split; [intros ? j ?; exists j; split; [done|reflexivity]|
          intros ? r ?; exists r; split_and!; [done|reflexivity|by left]|done|done|naive_solver].
Qed.

Lemma history_trans d1 d2 d3 : constraints d1 -> history ∅ d1 d2 -> history ∅ d2 d3 -> history ∅ d1 d3.
Proof.
  intros Hc H12 H23. split.
  - intros id j Hj. destruct (h_job _ _ _ H12 _ _ Hj) as (j2 & Hj2 & ?).
    destruct (h_job _ _ _ H23 _ _ Hj2) as (j3 & ? & ?). exists j3. split; [done|by etrans].
  - intros k r Hr. destruct (h_row _ _ _ H12 _ _ Hr) as (r2 & Hr2 & He & Hb).
    destruct (h_row _ _ _ H23 _ _ Hr2) as (r3 & Hr3 & He' & Hb').
    exists r3. split_and!; [done|by etrans|].
    pose proof (c_assignment_job _ Hc _ _ Hr) as Hj.
    destruct Hb as [->|[?|?]]; [|set_solver|right; right; by eapply bumped_later].
    destruct Hb' as [->|[?|?]]; [by left|set_solver|right; right; by eapply bumped_trans].
  - intros a r Hr. by eapply h_artifact, h_artifact.
  - etrans; by eapply h_seq.
  - intros k r Hn Hr. destruct (assignments d2 !! k) as [r2|] eqn:Hr2.
    + destruct (h_row _ _ _ H23 _ _ Hr2) as (r3 & ? & [[]] & _). simplify_eq.
      rw df_seq0. by eapply h_new.
    + etrans; [by eapply h_seq|by eapply h_new].
Qed.

(** ** What a job's devices look like *)

Definition has_state (d : db) (id : pystr) (s : device_state) : Prop :=
  exists v r, assignments d !! (id, v) = Some r /\ d_state r = s.

Lemma device_states_spec d id s : s ∈ device_states d id <-> has_state d id s.
Proof.
  rw /device_states /assignment_rows list_elem_of_fmap. split.
  - intros ([[i v] r] & -> & [Hi Hr]%list_elem_of_filter). simpl in *. subst.
    exists v, r. by apply elem_of_map_to_list in Hr.
  - intros (v & r & Hr & <-). exists ((id, v), r). split; [done|].
    apply list_elem_of_filter. split; [done|]. by apply elem_of_map_to_list.
Qed.

(** Agreement of a job's state with its devices.  [settled_state] is what survives a
    change of the devices; [in_step] is what re-deriving restores. *)
Record settled_state (d : db) (id : pystr) (s : job_state) : Prop := SettledState {
  ss_devices : exists t, has_state d id t;
  ss_quiet : quiet s -> forall t, has_state d id t -> t ∉ ACTIVE_DEVICE_STATES;
  ss_finished : s ∈ [J_SUCCEEDED; J_COMPLETED_WITH_ERRORS] -> derives (device_states d id) s;
}.
Definition in_step (d : db) (id : pystr) (s : job_state) : Prop :=
  (s = J_RECONCILING -> has_state d id RECONCILING) /\
  (s = J_RUNNING -> ~ has_state d id RECONCILING).

(** ** Well-formed tables *)

(** The states before and after the upload. *)
Definition unpublished (s : job_state) : Prop := s ∈ [J_CREATED; J_UPLOADING; J_PACKAGING].
Definition published (s : job_state) : Prop :=
  s ∈ [J_READY; J_RUNNING; J_RECONCILING; J_SUCCEEDED; J_COMPLETED_WITH_ERRORS].

Record job_wf (j : job_row) : Prop := JobWf {
  jw_revision : 1 <= j_revision j;
  jw_terminal : is_Some (j_terminal_at j) <-> j_state j ∈ TERMINAL_JOB_STATES;
  jw_unpublished : unpublished (j_state j) -> j_artifact_id j = None;
  jw_published : published (j_state j) -> is_Some (j_artifact_id j);
}.

Record device_wf (next : Z) (r : device_row) : Prop := DeviceWf {
  dw_terminal : is_Some (d_terminal_at r) <-> terminal_row r;
  dw_seq : d_enqueue_seq r < next;
}.

(** An exact fence blocks on an execution the server gave up. *)
Definition fence_wf (d : db) (v : pystr) (f : fence_row) : Prop :=
  match f_blocking_job_id f with
  | Some b => exists r, assignments d !! (b, v) = Some r /\ d_state r = UNCONFIRMED
  | None => True
  end.

Record wf (X : gset pystr) (d : db) : Prop := Wf {
  w_job : forall id j, jobs d !! id = Some j -> job_wf j;
  w_settled : forall id j, jobs d !! id = Some j -> settled_state d id (j_state j);
  w_step : forall id j, id ∉ X -> jobs d !! id = Some j -> in_step d id (j_state j);
  w_device : forall k r, assignments d !! k = Some r -> device_wf (next_seq d) r;
  w_fence : forall v f, fences d !! v = Some f -> fence_wf d v f;
}.

(** ** Statements on jobs *)

Lemma lookup_set_job id f d id' :
  jobs (set_job id f d) !! id' =
  if decide (id = id') then f <$> jobs d !! id' else jobs d !! id'.
Proof. rw /set_job /= lookup_alter. by case_decide; subst. Qed.

Lemma has_state_set_job id f d id' s : has_state (set_job id f d) id' s <-> has_state d id' s.
Proof. done. Qed.

(** What a statement on a job row owes the history: a revision, or nothing new. *)
Lemma history_set_job B d d1 id f :
  history B d d1 ->
  (forall j, jobs d1 !! id = Some j -> job_fixed j (f j) /\ rtc job_edge (j_state j) (j_state (f j)) /\
     sticky (j_artifact_id j) (j_artifact_id (f j)) /\
     (j_revision j < j_revision (f j) \/ (bumped d d1 id /\ j_revision j <= j_revision (f j)))) ->
  history B d (set_job id f d1).
Proof.
  intros HH Hf. split.
  - intros id' j Hj. destruct (h_job _ _ _ HH _ _ Hj) as (j1 & Hj1 & He).
    rw lookup_set_job. case_decide as Heq; [subst|by eauto].
    rw Hj1 /=. exists (f j1). split; [done|].
    destruct (Hf _ Hj1) as (? & ? & ? & Hr). destruct He as [? ? He ?].
    split; [by etrans..| |by etrans]. right.
    destruct Hr as [?|[(? & ? & ? & ? & ?) ?]]; [destruct He as [->|]; lia|]. simplify_eq. lia.
  - intros k r Hr. destruct (h_row _ _ _ HH _ _ Hr) as (r1 & ? & ? & Hb).
    exists r1. split_and!; [done..|]. destruct Hb as [|[|Hb]]; [by auto..|]. right. right.
    destruct Hb as (j & j1 & Hj & Hj1 & ?). rw /bumped lookup_set_job.
    case_decide as Heq; [subst|by eauto 10].
    exists j, (f j1). rw Hj1. split_and!; [done..|]. destruct (Hf _ Hj1) as (_ & _ & _ & [|[_ ?]]); lia.
  - apply HH.
  - apply HH.
  - apply HH.
Qed.

Lemma bumped_set_job d d1 id id' f :
  bumped d d1 id' -> (forall j, jobs d1 !! id = Some j -> j_revision j <= j_revision (f j)) ->
  bumped d (set_job id f d1) id'.
Proof.
  intros (j & j1 & ? & Hj1 & ?) Hf. rw /bumped lookup_set_job. case_decide; [subst|by eauto 10].
  exists j, (f j1). rw Hj1. split_and!; [done..|]. specialize (Hf _ Hj1). lia.
Qed.

Lemma history_bump B d d1 id now :
  is_Some (jobs d !! id) -> history B d d1 ->
  history (B ∖ {[id]}) d (set_job id (bump_job now) d1) /\
  bumped d (set_job id (bump_job now) d1) id.
Proof.
  intros [j Hj] HH.
  assert (bumped d (set_job id (bump_job now) d1) id) as Hb.
  { destruct (h_job _ _ _ HH _ _ Hj) as (j1 & Hj1 & []).
    exists j, (bump_job now j1). rw lookup_set_job decide_True // Hj1. split_and!; [done..|].
    simpl. destruct je_revision0 as [->|]; lia. }
  split; [|done].
  assert (history B d (set_job id (bump_job now) d1)) as [].
  { apply history_set_job; [done|]. intros j1 Hj1. split_and!; [done|done|by right|]. left. simpl. lia. }
  split; [done| |done..].
  intros k r Hr. destruct (h_row0 _ _ Hr) as (r' & ? & ? & Hcase). exists r'. split_and!; [done..|].
  destruct Hcase as [|[|]]; [by auto| |by auto].
  destruct (decide (k.1 = id)) as [->|]; [by auto|set_solver].
Qed.

(** ** Statements on device rows *)

Definition set_rows (A : gmap (pystr * pystr) device_row) (d : db) : db := d <| assignments := A |>.

(** A row an operation may change, and how; [s] is the state of its job. *)
Record row_step (r r' : device_row) (s : option job_state) : Prop := RowStep {
  rs_fixed : device_fixed r r';
  rs_live : ~ terminal_row r;
  rs_edge : d_state r' = d_state r \/ device_edge (d_state r) (d_state r');
  rs_start : d_state r = QUEUED -> d_state r' = WAITING_TRANSFER -> from_option (fun s => ~ quiet s) True s;
  rs_terminal : is_Some (d_terminal_at r') <-> terminal_row r';
}.

Definition rows_step (id : pystr) (d : db) (A : gmap (pystr * pystr) device_row) : Prop :=
  forall k, match assignments d !! k, A !! k with
            | Some r, Some r' => r' = r \/ (k.1 = id /\ row_step r r' (j_state <$> jobs d !! id))
            | None, None => True
            | _, _ => False
            end.

Lemma rows_step_fwd id d A k r :
  rows_step id d A -> assignments d !! k = Some r ->
  exists r', A !! k = Some r' /\ (r' = r \/ (k.1 = id /\ row_step r r' (j_state <$> jobs d !! id))).
Proof. intros HA Hr. specialize (HA k). rw Hr in HA. destruct (A !! k); naive_solver. Qed.
Lemma rows_step_bwd id d A k r' :
  rows_step id d A -> A !! k = Some r' ->
  exists r, assignments d !! k = Some r /\ (r' = r \/ (k.1 = id /\ row_step r r' (j_state <$> jobs d !! id))).
Proof. intros HA Hr. specialize (HA k). rw Hr in HA. destruct (assignments d !! k); naive_solver. Qed.

Lemma row_step_evolves r r' s : row_step r r' s -> device_evolves r r'.
Proof.
  intros []. split; [done| |done]. destruct rs_edge0 as [->|]; [done|by apply rtc_once].
Qed.

Lemma history_rows B B' d d1 id A :
  history B d d1 -> rows_step id d1 A -> B ⊆ B' -> (id ∈ B' \/ bumped d d1 id) ->
  history B' d (set_rows A d1).
Proof.
  intros HH HA HB Hid. split.
  - apply HH.
  - intros k r Hr. destruct (h_row _ _ _ HH _ _ Hr) as (r1 & Hr1 & He & Hb).
    destruct (rows_step_fwd _ _ _ _ _ HA Hr1) as (r2 & Hr2 & Hs). exists r2. split; [done|].
    destruct Hs as [->|[<- Hs]].
    + split; [done|]. set_solver.
    + split; [etrans; [done|by eapply row_step_evolves]|]. destruct Hid; auto.
  - apply HH.
  - apply HH.
  - intros k r Hn Hr. destruct (rows_step_bwd _ _ _ _ _ HA Hr) as (r1 & Hr1 & Hs).
    pose proof (h_new _ _ _ HH _ _ Hn Hr1). destruct Hs as [->|[_ [[]]]]; [done|]. lia.
Qed.

Lemma has_state_other id d A id' s :
  rows_step id d A -> id' <> id -> has_state (set_rows A d) id' s <-> has_state d id' s.
Proof.
  intros HA Hne. split; intros (v & r & Hr & Hs).
  - destruct (rows_step_bwd _ _ _ _ _ HA Hr) as (r1 & Hr1 & [->|[? _]]); [|done]. by exists v, r1.
  - destruct (rows_step_fwd _ _ _ _ _ HA Hr) as (r1 & Hr1 & [->|[? _]]); [|done]. by exists v, r.
Qed.

(** Agreement sees the states only. *)
Lemma derives_ext l l' s : (forall t, t ∈ l <-> t ∈ l') -> derives l s -> derives l' s.
Proof. intros Hl Hs. apply derive_spec. rw -(derive_members _ _ Hl). by apply derive_spec. Qed.
Lemma settled_ext d d' id s :
  (forall t, has_state d id t <-> has_state d' id t) -> settled_state d id s -> settled_state d' id s.
Proof.
  intros Hs []. split.
  - destruct ss_devices0 as [t ?]. exists t. by apply Hs.
  - intros Hq t ?%Hs. by apply ss_quiet0.
  - intros Hf. eapply derives_ext; [|by apply ss_finished0].
    intros t. rw !device_states_spec. apply Hs.
Qed.
Lemma in_step_ext d d' id s :
  (forall t, has_state d id t <-> has_state d' id t) -> in_step d id s -> in_step d' id s.
Proof. intros Hs. rw /in_step !Hs. done. Qed.

Lemma derives_terminal rows s t :
  derives rows s -> s ∈ [J_SUCCEEDED; J_COMPLETED_WITH_ERRORS; J_FAILED] -> t ∈ rows ->
  t ∈ TERMINAL_DEVICE_STATES.
Proof.
  intros [_ Hd] Hs Ht. apply terminal_state.
  repeat (apply elem_of_cons in Hs as [->|Hs]); [naive_solver| |naive_solver|by apply elem_of_nil in Hs].
  by apply terminal_state, Hd.
Qed.

(** A live row that is not active is queued: it becomes active by a claim only. *)
Lemma queued_edge s t :
  s ∉ ACTIVE_DEVICE_STATES -> s ∉ TERMINAL_DEVICE_STATES -> device_edge s t ->
  (s = QUEUED -> t <> WAITING_TRANSFER) -> t ∉ ACTIVE_DEVICE_STATES.
Proof.
  rw /device_edge. intros Ha Ht He Hc. assert (s = QUEUED) as ->.
  { destruct s; try done; exfalso; (apply Ha + apply Ht); rw /ACTIVE_DEVICE_STATES /TERMINAL_DEVICE_STATES;
      set_solver. }
  specialize (Hc eq_refl). destruct He as [He|[He _]].
  - simpl in He. apply elem_of_cons in He as [->|He]; [done|].
    apply elem_of_cons in He as [->|He]; [by apply (bool_decide_unpack _)|].
    apply list_elem_of_singleton in He as ->. by apply (bool_decide_unpack _).
  - set_solver.
Qed.

Lemma quiet_step d id s A t :
  rows_step id d A -> quiet s -> j_state <$> jobs d !! id = Some s ->
  (forall t, has_state d id t -> t ∉ ACTIVE_DEVICE_STATES) ->
  has_state (set_rows A d) id t -> t ∉ ACTIVE_DEVICE_STATES.
Proof.
  intros HA Hq Hj Hn (v & r' & Hr' & <-).
  destruct (rows_step_bwd _ _ _ _ _ HA Hr') as (r & Hr & Hs).
  assert (d_state r ∉ ACTIVE_DEVICE_STATES) as Hna by (apply Hn; by exists v, r).
  destruct Hs as [->|[_ []]]; [done|]. rw Hj /= in rs_start0.
  unfold terminal_row in rs_live0.
  destruct rs_edge0 as [->|He]; [done|].
  apply (queued_edge (d_state r)); try done. intros E1 E2. by apply (rs_start0 E1 E2).
Qed.

Lemma wf_rows X X' d id A :
  wf X d -> rows_step id d A -> X ⊆ X' -> id ∈ X' -> wf X' (set_rows A d).
Proof.
  intros [Hj Hs Hst Hd Hf] HA HX Hid. split.
  - done.
  - intros id' j Hj'. simpl in Hj'. specialize (Hs _ _ Hj').
    destruct (decide (id' = id)) as [->|Hne].
    2:{ eapply settled_ext; [|done]. intros. symmetry. by eapply has_state_other. }
    split.
    + destruct (ss_devices _ _ _ Hs) as (_ & v & r & Hr & _).
      destruct (rows_step_fwd _ _ _ _ _ HA Hr) as (r' & ? & _). eexists. by exists v, r'.
    + intros Hq t. apply (quiet_step d id (j_state j)); [done|done|by rw Hj'|by eapply ss_quiet].
    + intros Hfin. pose proof (ss_finished _ _ _ Hs Hfin) as Hder.
      eapply derives_ext; [|done]. intros t. rw !device_states_spec.
      assert (forall v r, assignments d !! (id, v) = Some r -> terminal_row r) as Hterm.
      { intros v r Hr. eapply derives_terminal; [done|set_solver|]. apply device_states_spec. by exists v, r. }
      split; intros (v & r & Hr & Ht).
      * destruct (rows_step_fwd _ _ _ _ _ HA Hr) as (r' & ? & [->|[_ []]]); [by exists v, r|].
        by destruct rs_live0; eapply Hterm.
      * destruct (rows_step_bwd _ _ _ _ _ HA Hr) as (r' & ? & [->|[_ []]]); [by exists v, r'|].
        by destruct rs_live0; eapply Hterm.
  - intros id' j Hn Hj'. eapply in_step_ext; [|apply Hst; [set_solver|done]].
    intros. symmetry. eapply has_state_other; [done|]. intros ->. set_solver.
  - intros k r' Hr'. destruct (rows_step_bwd _ _ _ _ _ HA Hr') as (r & Hr & Hcase).
    specialize (Hd _ _ Hr). destruct Hcase as [->|[_ []]]; [done|]. destruct Hd, rs_fixed0.
    split; [done|]. change (next_seq (set_rows A d)) with (next_seq d). lia.
  - intros v f Hv. specialize (Hf _ _ Hv). rw /fence_wf in Hf |- *. destruct (f_blocking_job_id f); [|done].
    destruct Hf as (r & Hr & Hu). destruct (rows_step_fwd _ _ _ _ _ HA Hr) as (r' & ? & [->|[_ []]]);
      [by exists r|]. destruct rs_live0. rw /terminal_row Hu. apply terminal_state. auto.
Qed.

(** ** Statements on jobs and fences *)

(** A new state of a job that its devices do not decide. *)
Definition job_moves (s t : job_state) : Prop :=
  t = s \/ (job_edge s t /\ quiet s /\ (quiet t \/ t = J_RUNNING)).

Lemma settled_moves d id s t : settled_state d id s -> job_moves s t -> settled_state d id t.
Proof.
  intros Hs [->|(_ & Hq & Ht)]; [done|]. split; [apply Hs|intros _; by eapply ss_quiet|].
  intros Hf. exfalso. destruct Ht as [Ht| ->]; [|by set_solver]. destruct t; set_solver.
Qed.
Lemma in_step_moves d id s t :
  settled_state d id s -> in_step d id s -> job_moves s t -> in_step d id t.
Proof.
  intros Hs Hi [->|(_ & Hq & Ht)]; [done|]. split.
  - intros ->. destruct Ht as [Ht|]; [set_solver|done].
  - intros _ Hr. pose proof (ss_quiet _ _ _ Hs Hq _ Hr). set_solver.
Qed.

Lemma wf_set_job X d id f :
  wf X d ->
  (forall j, jobs d !! id = Some j -> job_wf (f j) /\ job_moves (j_state j) (j_state (f j))) ->
  wf X (set_job id f d).
Proof.
  intros [Hj Hs Hst Hd Hf] HfJ.
  assert (forall id' j', jobs (set_job id f d) !! id' = Some j' ->
    exists j, jobs d !! id' = Some j /\ (j' = j \/ (id' = id /\ j' = f j))) as Hinv.
  { intros id' j'. rw lookup_set_job. case_decide; [|by eauto].
    intros (j & -> & ?)%fmap_Some. naive_solver. }
  split.
  - intros id' j' (j & Hjd & [->|[-> ->]])%Hinv; [by eapply Hj|]. by apply HfJ.
  - intros id' j' (j & Hjd & Hcase)%Hinv. apply (settled_ext d); [done|].
    destruct Hcase as [->|[-> ->]]; [by apply Hs|].
    eapply settled_moves; [by apply (Hs _ _ Hjd)|by apply HfJ].
  - intros id' j' Hn (j & Hjd & Hcase)%Hinv. apply (in_step_ext d); [done|].
    destruct Hcase as [->|[-> ->]]; [by apply Hst|]. eapply in_step_moves; [by apply (Hs _ _ Hjd)|by apply Hst|by apply HfJ].
  - done.
  - done.
Qed.

Lemma job_wf_bump now j : job_wf j -> job_wf (bump_job now j).
Proof. intros []. by split; simpl; try lia. Qed.
Lemma wf_bump X d id now : wf X d -> wf X (set_job id (bump_job now) d).
Proof.
  intros Hw. apply wf_set_job; [done|]. intros j Hj. split; [|by left].
  by eapply job_wf_bump, w_job.
Qed.

Lemma wf_fences X d F :
  wf X d -> (forall v f, F !! v = Some f -> fence_wf d v f) -> wf X (set_fences F d).
Proof.
  intros [] HF. split; try done.
  intros id j Hj. apply (settled_ext d); [done|]. by apply w_settled0.
Qed.
Lemma history_fences B d d1 F : history B d d1 -> history B d (set_fences F d1).
Proof. by intros []. Qed.

Lemma wf_subset X d F :
  wf X d -> F ⊆ fences d -> wf X (set_fences F d).
Proof.
  intros Hw HF. apply wf_fences; [done|]. intros v f Hv. eapply w_fence; [done|].
  by eapply lookup_weaken.
Qed.
Lemma wf_weaken X X' d : wf X d -> X ⊆ X' -> wf X' d.
Proof. intros [] HX. split; try done. intros ????. apply w_step0; [set_solver|done]. Qed.
Lemma without_exact_fence_subset v id n d : without_exact_fence v id n d ⊆ fences d.
Proof. rw /without_exact_fence. repeat case_match; [apply delete_subseteq|done..]. Qed.

(** ** Re-deriving a job's state *)

Lemma quiet_or_finished s :
  quiet s \/ s = J_RUNNING \/ s = J_RECONCILING \/ s ∈ [J_SUCCEEDED; J_COMPLETED_WITH_ERRORS].
Proof. destruct s; rw /quiet; set_solver. Qed.

Lemma derived_is_edge s t rows :
  s = J_RUNNING \/ s = J_RECONCILING -> derive_dispatched_job_state rows = Ret t -> t = s \/ job_edge s t.
Proof.
  intros Hs Ht%derived_states. rw /job_edge. destruct Hs as [->| ->], t; simpl; set_solver.
Qed.

Lemma rederive_cases d id now j :
  settled_state d id (j_state j) -> jobs d !! id = Some j ->
  (rederive_db id now d = d /\
   (quiet (j_state j) \/ derive_dispatched_job_state (device_states d id) = Ret (j_state j))) \/
  exists t, derive_dispatched_job_state (device_states d id) = Ret t /\
            (j_state j = J_RUNNING \/ j_state j = J_RECONCILING) /\ t <> j_state j /\
            rederive_db id now d = set_job id (rederived t now) d.
Proof.
  intros Hs Hj. rw /rederive_db Hj.
  destruct (derive_total (device_states d id)) as [t Ht].
  { destruct (ss_devices _ _ _ Hs) as [s Hin]. apply device_states_spec in Hin. by intros Hn; rw Hn in Hin; inversion Hin. }
  rw Ht. destruct (decide _) as [[Hq|He]|Hn]; [by auto|subst; by auto|].
  right. exists t. split; [done|]. split; [|split; [|done]; intros E; apply Hn; by right].
  destruct (quiet_or_finished (j_state j)) as [?|[?|[?|Hf]]]; [by destruct Hn; left|by auto..|].
  exfalso. apply Hn. right. apply (ss_finished _ _ _ Hs), derive_spec in Hf. congruence.
Qed.

Lemma rederived_state_wf t now j :
  job_wf j -> j_state j = J_RUNNING \/ j_state j = J_RECONCILING ->
  t ∈ [J_RUNNING; J_RECONCILING; J_SUCCEEDED; J_COMPLETED_WITH_ERRORS; J_FAILED] ->
  job_wf (rederived t now j).
Proof.
  intros [Hr _ _ Hp] Hs Ht. assert (is_Some (j_artifact_id j)).
  { apply Hp. rw /published. destruct Hs as [->| ->]; set_solver. }
  split; simpl; [done| | |done].
  - rw /is_terminal_job_state. case_bool_decide; naive_solver.
  - rw /unpublished. intros Hu. destruct t; set_solver.
Qed.

Lemma history_rederive B d d1 id now X :
  history B d d1 -> wf X d1 -> bumped d d1 id -> history B d (rederive_db id now d1).
Proof.
  intros HH Hw Hb. destruct Hb as (j0 & j & Hj0 & Hj & Hlt).
  destruct (rederive_cases d1 id now j) as [[-> _]|(t & Ht & Hs & _ & ->)];
    [by eapply w_settled|done|done|].
  apply history_set_job; [done|]. intros j' Hj'. simplify_eq. split_and!; [done| |by right|].
  - simpl. destruct (derived_is_edge _ _ _ Hs Ht) as [->|]; [done|by apply rtc_once].
  - right. split; [by exists j0, j|simpl; lia].
Qed.

Lemma wf_rederive X d id now : is_Some (jobs d !! id) -> wf X d -> wf (X ∖ {[id]}) (rederive_db id now d).
Proof.
  intros [j Hj] Hw. pose proof (w_settled _ _ Hw _ _ Hj) as Hset.
  destruct (rederive_cases d id now j) as [[-> Hcase]|(t & Ht & Hs & _ & ->)]; [done|done| |].
  - split; try by apply Hw. intros id' j' Hn Hj'.
    destruct (decide (id' = id)) as [->|]; [|apply Hw; [set_solver|done]]. simplify_eq.
    split; intros He; rw He in Hcase;
      (destruct Hcase as [Hq|Hder%derive_sound]; [rw /quiet in Hq; set_solver|]); destruct Hder as [_ Hd].
    + by apply device_states_spec.
    + intros Hr%device_states_spec. naive_solver.
  - pose proof (derive_sound _ _ Ht) as Hder. pose proof (derived_states _ _ Ht) as Hts.
    assert (settled_state d id t) as Hset'.
    { split; [apply Hset| |done]. intros Hq u0 Hu Ha.
      assert (t = J_FAILED) as ->.
      { repeat (apply elem_of_cons in Hts as [->|Hts]); rw /quiet in Hq; try done; set_solver. }
      apply device_states_spec, (derives_terminal _ _ _ Hder) in Hu; [|set_solver].
      apply terminal_state in Hu. naive_solver set_solver. }
    split.
    + intros id' j'. rw lookup_set_job. case_decide as Heq; [subst|by apply Hw].
      rw Hj. intros [= <-]. apply rederived_state_wf; [by eapply w_job|done..].
    + intros id' j'. rw lookup_set_job. case_decide as Heq; [subst|]; intros Hj'.
      * rw Hj in Hj'. injection Hj' as [= <-]. by apply (settled_ext d).
      * apply (settled_ext d); [done|]. by apply Hw.
    + intros id' j' Hn. rw lookup_set_job. case_decide as Heq; [subst|]; intros Hj'.
      * rw Hj in Hj'. injection Hj' as [= <-]. apply (in_step_ext d); [done|]. simpl.
        destruct Hder as [_ Hd].
        split; intros ->; [by apply device_states_spec|]. intros Hr%device_states_spec. naive_solver.
      * apply (in_step_ext d); [done|]. apply Hw; [set_solver|done].
    + apply Hw.
    + apply Hw.
Qed.

(** ** The contract of an operation *)

(** [good B X d d']: from [d], an operation has reached [d'], still owes a revision
    to the jobs of [B] and a re-derivation to those of [X]. *)
Definition good (B X : gset pystr) (d d' : db) : Prop := history B d d' /\ wf X d'.

Lemma good_refl d : wf ∅ d -> good ∅ ∅ d d.
Proof. split; [apply history_refl|done]. Qed.

Lemma good_rows B X d d1 id A :
  good B X d d1 -> rows_step id d1 A -> good ({[id]} ∪ B) ({[id]} ∪ X) d (set_rows A d1).
Proof.
  intros [HH Hw] HA. split; [eapply history_rows|eapply wf_rows]; try done; set_solver.
Qed.
Lemma good_fences B X d d1 F :
  good B X d d1 -> (forall v f, F !! v = Some f -> fence_wf d1 v f) -> good B X d (set_fences F d1).
Proof. intros [HH Hw] HF. split; [by apply history_fences|by apply wf_fences]. Qed.
Lemma good_fences_subset B X d d1 F : good B X d d1 -> F ⊆ fences d1 -> good B X d (set_fences F d1).
Proof. intros [HH Hw] HF. split; [by apply history_fences|by apply wf_subset]. Qed.
Lemma good_bump B X d d1 id now :
  is_Some (jobs d !! id) -> good B X d d1 -> good (B ∖ {[id]}) X d (set_job id (bump_job now) d1).
Proof. intros Hj [HH Hw]. split; [by apply history_bump|by apply wf_bump]. Qed.
Lemma good_rederive B X d d1 id now :
  good B X d d1 -> bumped d d1 id -> good B (X ∖ {[id]}) d (rederive_db id now d1).
Proof.
  intros [HH Hw] Hb. split; [by eapply history_rederive|]. apply wf_rederive; [|done].
  destruct Hb as (? & ? & ? & ? & _). by eexists.
Qed.
Lemma good_settle B X d d1 id now :
  is_Some (jobs d !! id) -> good B X d d1 ->
  good (B ∖ {[id]}) (X ∖ {[id]}) d (rederive_db id now (set_job id (bump_job now) d1)).
Proof.
  intros Hj Hg. apply good_rederive; [by apply good_bump|]. destruct Hg as [HH _].
  by eapply history_bump.
Qed.

Record job_step (j j' : job_row) : Prop := JobStep {
  js_fixed : job_fixed j j';
  js_moves : job_moves (j_state j) (j_state j');
  js_revision : j_revision j' = j_revision j + 1;
  js_artifact : sticky (j_artifact_id j) (j_artifact_id j');
  js_wf : job_wf j';
}.
Lemma good_job B X d d1 id j f :
  good B X d d1 -> jobs d1 !! id = Some j -> job_step j (f j) -> good B X d (set_job id f d1).
Proof.
  intros [HH Hw] Hj []. split.
  - apply history_set_job; [done|]. intros j' Hj'. simplify_eq. split_and!; [done| |done|left; lia].
    destruct js_moves0 as [->|[? _]]; [done|by apply rtc_once].
  - apply wf_set_job; [done|]. intros j' Hj'. by simplify_eq.
Qed.

(** ** The shape of most operations: some rows of a job, its revision, its state *)

Lemma rows_step_refl id d : rows_step id d (assignments d).
Proof. intros k. destruct (assignments d !! k); auto. Qed.

Lemma rows_step_alter d id v f r :
  assignments d !! (id, v) = Some r ->
  f r = r \/ row_step r (f r) (j_state <$> jobs d !! id) ->
  rows_step id d (alter f (id, v) (assignments d)).
Proof.
  intros Hr Hf k. rw lookup_alter. case_decide as Hk.
  - subst. rw Hr /=. naive_solver.
  - destruct (assignments d !! k); auto.
Qed.

Lemma good_finish d id now A F :
  wf ∅ d -> is_Some (jobs d !! id) -> rows_step id d A -> F ⊆ fences d ->
  good ∅ ∅ d (rederive_db id now (set_job id (bump_job now) (set_fences F (set_rows A d)))).
Proof.
  intros Hw Hj HA HF.
  pose proof (good_rows _ _ _ _ _ _ (good_refl _ Hw) HA) as Hg.
  apply (good_fences_subset _ _ _ _ F) in Hg; [|done].
  apply (good_settle _ _ _ _ id now) in Hg; [|done].
  by replace ((({[id]} : gset pystr) ∪ ∅) ∖ {[id]}) with (∅ : gset pystr) in Hg by set_solver.
Qed.

Lemma good_finish_device d id v now f r F :
  wf ∅ d -> constraints d -> assignments d !! (id, v) = Some r ->
  f r = r \/ row_step r (f r) (j_state <$> jobs d !! id) -> F ⊆ fences d ->
  good ∅ ∅ d (rederive_db id now (set_job id (bump_job now) (set_fences F (set_device (id, v) f d)))).
Proof.
  intros Hw Hc Hr Hf HF. apply (good_finish d id now (alter f (id, v) (assignments d)) F); [done| |by eapply rows_step_alter|done].
  by apply (c_assignment_job _ Hc _ _ Hr).
Qed.

Lemma good_finish_row d id v now f r :
  wf ∅ d -> constraints d -> assignments d !! (id, v) = Some r ->
  f r = r \/ row_step r (f r) (j_state <$> jobs d !! id) ->
  good ∅ ∅ d (rederive_db id now (set_job id (bump_job now) (set_device (id, v) f d))).
Proof.
  intros Hw Hc Hr Hf. pose proof (good_finish_device d id v now f r (fences d) Hw Hc Hr Hf) as H.
  destruct d. by apply H.
Qed.

(** A live row carries no terminal time. *)
Lemma live_row_no_terminal X d k r :
  wf X d -> assignments d !! k = Some r -> ~ terminal_row r -> d_terminal_at r = None.
Proof.
  intros Hw Hr Hn. destruct (w_device _ _ Hw _ _ Hr) as [Ht _].
  destruct (d_terminal_at r); [|done]. destruct Hn. apply Ht. by eexists.
Qed.
Lemma live_job_no_terminal X d id j :
  wf X d -> jobs d !! id = Some j -> (j_state j ∉ TERMINAL_JOB_STATES) -> j_terminal_at j = None.
Proof.
  intros Hw Hj Hn. destruct (w_job _ _ Hw _ _ Hj) as [_ Ht _ _].
  destruct (j_terminal_at j); [|done]. destruct Hn. apply Ht. by eexists.
Qed.
