(* ===== verification/Safety.v ===== *)
(** * Every operation keeps the protocol

    One lemma per operation of the store and the manager that changes the tables:
    from well-formed tables it is an [operation] whose effect is [good]. *)

From S2P Require Import Prelude PyStr Json PushJobs Domain Db Store Tx Manager Protocol.
Open Scope Z_scope.

(** What an operation owes when it starts from [d]. *)
Definition safe {A} (m : Op A) (d : db) : Prop :=
  wf ∅ d -> constraints d -> operation m (fun _ d' => good ∅ ∅ d d') d.

(** ** Device transitions *)

Lemma assign_fields r l :
  forallb allowed_column l = true ->
  device_fixed r (foldl assign r l) /\ d_state (foldl assign r l) = d_state r /\
  d_protocol_mode (foldl assign r l) = d_protocol_mode r.
Proof.
  induction l as [|a l IH] in r |- *; simpl; [done|].
  intros [Ha Hl]%andb_true_iff. destruct (IH (assign r a) Hl) as (Hf & -> & ->).
  split_and!; [etrans; [|done]|..]; by destruct a.
Qed.
Lemma assign_no_terminal r l :
  existsb is_terminal_at l = false -> d_terminal_at (foldl assign r l) = d_terminal_at r.
Proof.
  induction l as [|a l IH] in r |- *; simpl; [done|].
  intros [Ha Hl]%orb_false_iff. rw IH //. by destruct a.
Qed.

(** The callers' discipline: they name live states, never claim through this
    method, and leave the terminal time to it. *)
Record transition_allowed (expected : option (list device_state)) (target : device_state)
    (fields : list assignment) : Prop := TransitionAllowed {
  ta_expected : exists l, expected = Some l /\ forall s, s ∈ l -> s ∉ TERMINAL_DEVICE_STATES;
  ta_target : target <> WAITING_TRANSFER;
  ta_fields : existsb is_terminal_at fields = false;
}.

(** The row [transition_device] writes. *)
Definition transitioned (target : device_state) (fields : list assignment) (now : Z)
    (r : device_row) : device_row :=
  foldl assign (r <| d_state := target |> <| d_updated_at := now |>)
    (if is_terminal_device_state target && negb (existsb is_terminal_at fields)
     then fields ++ [terminal_at (Some now)] else fields).

Lemma transitioned_fields target fields now r :
  forallb allowed_column fields = true -> existsb is_terminal_at fields = false ->
  device_fixed r (transitioned target fields now r) /\
  d_state (transitioned target fields now r) = target /\
  d_terminal_at (transitioned target fields now r) =
    if is_terminal_device_state target then Some now else d_terminal_at r.
Proof.
  intros Ha Hf. rw /transitioned Hf andb_true_r.
  set (r1 := r <| d_state := target |> <| d_updated_at := now |>).
  destruct (assign_fields r1 fields Ha) as (Hfix & Hst & _).
  pose proof (assign_no_terminal r1 _ Hf) as Hat.
  assert (device_fixed r (foldl assign r1 fields)) by (etrans; [|done]; done).
  case_match; rw ?foldl_app /=; split_and!; rw ?Hst ?Hat //; by etrans.
Qed.

Lemma transition_row_step d k r target fields now s :
  wf ∅ d -> assignments d !! k = Some r -> ~ terminal_row r ->
  validate_device_transition (d_state r) target = Ret tt -> target <> WAITING_TRANSFER ->
  forallb allowed_column fields = true -> existsb is_terminal_at fields = false ->
  row_step r (transitioned target fields now r) s.
Proof.
  intros Hw Hr Hn Hv Ht Ha Hf. pose proof (live_row_no_terminal _ _ _ _ Hw Hr Hn) as Hnone.
  apply validate_device_ret in Hv.
  destruct (transitioned_fields target fields now r Ha Hf) as (Hfix & Hst & Hat).
  split; [done|done| |congruence|].
  - rw Hst. rw /device_edge. naive_solver.
  - rw Hat Hnone /terminal_row Hst /is_terminal_device_state. case_bool_decide; naive_solver.
Qed.

Lemma transition_device_safe id v expected target fields idem now d :
  transition_allowed expected target fields ->
  safe (transition_device id v expected target fields idem now) d.
Proof.
  intros [(l & -> & Hl) Ht Hf] Hw Hc. rw /transition_device. tx; try by apply good_refl.
  apply bool_decide_eq_true_1 in H1. destruct a0.
  eapply good_finish_row; [done..|]. right. apply (transition_row_step d (id, v)); try done. by apply Hl.
Qed.

(** ** The upload: changes of one job row *)

(** A job row an upload step may change, with the state it moves to. *)
Lemma good_job_from d id j f :
  wf ∅ d -> jobs d !! id = Some j -> job_step j (f j) -> good ∅ ∅ d (set_job id f d).
Proof. intros Hw Hj Hs. by eapply good_job; [apply good_refl| |]. Qed.

#[local] Instance job_moves_dec s t : Decision (job_moves s t).
Proof. unfold job_moves, job_edge, quiet. apply _. Defined.
#[local] Instance published_dec s : Decision (published s).
Proof. unfold published. apply _. Defined.
#[local] Instance unpublished_dec s : Decision (unpublished s).
Proof. unfold unpublished. apply _. Defined.

(** Facts of concrete states hold by evaluation. *)
Ltac decided := apply (bool_decide_unpack _); vm_compute; exact I.

Lemma job_step_keep j j' :
  job_wf j -> job_fixed j j' -> j_revision j' = j_revision j + 1 ->
  job_moves (j_state j) (j_state j') -> j_artifact_id j' = j_artifact_id j ->
  (published (j_state j') -> published (j_state j)) ->
  (unpublished (j_state j') -> unpublished (j_state j)) ->
  (is_Some (j_terminal_at j') <-> j_state j' ∈ TERMINAL_JOB_STATES) -> job_step j j'.
Proof.
  intros [] ? ? ? Ha Hp Hu ?. split; [done..| |split; try rw Ha; try done; [lia|auto..]].
  right. done.
Qed.

(** The terminal time of a row that enters, or stays out of, a terminal state. *)
Lemma stamped (t : Z) s : s ∈ TERMINAL_JOB_STATES -> is_Some (Some t) <-> s ∈ TERMINAL_JOB_STATES.
Proof. split; [done|by eexists]. Qed.
Lemma unstamped o s : o = None -> (s ∉ TERMINAL_JOB_STATES) -> @is_Some Z o <-> s ∈ TERMINAL_JOB_STATES.
Proof. intros -> ?. split; [by intros []|done]. Qed.

(** Closes [job_step j j'] when the state of [j] is known. *)
Ltac solve_job_step :=
  match goal with
  | Hw : wf ∅ ?d, Hj : jobs ?d !! ?id = Some ?j, Hs : j_state ?j = _ |- job_step ?j _ =>
      apply job_step_keep;
      [ by eapply w_job | done | done | simpl; rw Hs; decided | done
      | simpl; rw Hs; decided | simpl; rw Hs; decided
      | simpl; first [ apply stamped; decided
                     | apply unstamped; [eapply live_job_no_terminal; [done..|rw Hs; decided] | decided] ] ]
  end.

Lemma start_upload_safe id now d : safe (start_upload id now) d.
Proof.
  intros Hw Hc. rw /start_upload. tx.
  all: apply bool_decide_eq_true_1 in H0; eapply good_job_from; [done..|]; solve_job_step.
Qed.

Lemma mark_packaging_safe id count bytes started now d : safe (mark_packaging id count bytes started now) d.
Proof.
  intros Hw Hc. rw /mark_packaging /_simple_job_transition. tx.
  apply bool_decide_eq_true_1 in H0. eapply good_job_from; [done..|]. solve_job_step.
Qed.

Lemma expire_created_safe id deadline now d : safe (expire_created id deadline now) d.
Proof.
  intros Hw Hc. rw /expire_created. tx; try by apply good_refl.
  eapply good_job_from; [done..|].
  assert (j_state j = J_CREATED) by (by apply negb_false_iff, bool_decide_eq_true_1 in Heqb).
  solve_job_step.
Qed.

Lemma good_artifacts B X d d1 a row :
  good B X d d1 -> artifacts d1 !! a = None ->
  good B X d (d1 <| artifacts := <[a := row]> (artifacts d1) |>).
Proof.
  intros [[] []] Ha. split; split; try done.
  - intros b r Hb%h_artifact. simpl. rw lookup_insert_ne; [done|]. intros ->. congruence.
  - intros id j Hj. apply (settled_ext d1); [done|]. by apply w_settled.
Qed.

Lemma publish_artifact_safe id a now d : safe (publish_artifact id a now) d.
Proof.
  intros Hw Hc. rw /publish_artifact. tx. apply bool_decide_eq_true_1 in H0.
  eapply good_job; [by apply good_artifacts; [apply good_refl|]|done|].
  pose proof (w_job _ _ Hw _ _ H) as []. rw /unpublished H0 in jw_unpublished.
  assert (j_artifact_id a0 = None) as Hn by (apply jw_unpublished; set_solver).
  split; [done|simpl; rw H0; decided|done|by left|]. split; simpl; [lia| |by intros Hu; exfalso; revert Hu; decided|by eexists].
  apply unstamped; [|decided]. eapply live_job_no_terminal; [done..|]. rw H0. decided.
Qed.

(** Before dispatch, a job fails only from a state that no device depends on; that it is
    interrupted only from such a state is the transition table's doing. *)
Definition pre_dispatch (d : db) (id : pystr) (s : job_state) : Prop :=
  s = J_FAILED -> match jobs d !! id with Some j => quiet (j_state j) | None => True end.

Lemma interrupted_from_quiet s :
  s = J_INTERRUPTED \/ J_INTERRUPTED ∈ JOB_TRANSITIONS s -> quiet s.
Proof. intros [->|H]; [decided|]. destruct s; first [decided|exfalso; revert H; apply (bool_decide_eq_false_1 _); vm_compute; reflexivity]. Qed.

Lemma fail_pre_dispatch_safe id s code detail now d :
  pre_dispatch d id s -> safe (fail_pre_dispatch id s code detail now) d.
Proof.
  intros Hp Hw Hc. rw /fail_pre_dispatch. tx.
  destruct a0. apply validate_job_ret in H1. apply bool_decide_eq_true_1 in H.
  assert (quiet (j_state a)) as Hq.
  { rw /pre_dispatch H0 in Hp. apply elem_of_cons in H as [->|H]; [by apply Hp|].
    apply list_elem_of_singleton in H as ->. by apply interrupted_from_quiet. }
  clear Hp.
  assert (quiet s /\ ~ published s /\ ~ unpublished s /\ s ∈ TERMINAL_JOB_STATES) as (? & ? & ? & ?).
  { repeat (apply elem_of_cons in H as [->|H]); [split_and!; decided..|by apply elem_of_nil in H]. }
  eapply good_job_from; [done..|]. apply job_step_keep; simpl; try done; [by eapply w_job|].
  destruct H1 as [<-|]; [by left|right; auto].
Qed.

Lemma enable_dispatch_safe id now d : safe (enable_dispatch id now) d.
Proof.
  intros Hw Hc. rw /enable_dispatch. tx; try by apply good_refl.
  apply bool_decide_eq_true_1 in Heqb. eapply good_job_from; [done..|].
  repeat (apply elem_of_cons in Heqb as [Heqb|Heqb]); [| | |by apply elem_of_nil in Heqb].
  all: rw Heqb; case_bool_decide; try done; solve_job_step.
Qed.

(** ** Device rows: results, dispatch, reports *)

(** A live row that moves, with the terminal time its new state asks for. *)
Lemma row_step_intro r r' s :
  device_fixed r r' -> ~ terminal_row r ->
  d_state r' = d_state r \/ device_edge (d_state r) (d_state r') ->
  (d_state r = QUEUED -> d_state r' = WAITING_TRANSFER -> from_option (fun s => ~ quiet s) True s) ->
  (if is_terminal_device_state (d_state r') then is_Some (d_terminal_at r') else d_terminal_at r' = None) ->
  row_step r r' s.
Proof.
  intros ???? Ht. split; try done. rw /is_terminal_device_state in Ht. rw /terminal_row.
  case_bool_decide; [done|]. rw Ht. split; [by intros []|done].
Qed.

#[local] Instance terminal_row_dec r : Decision (terminal_row r).
Proof. unfold terminal_row. apply _. Defined.
#[local] Instance device_edge_dec s t : Decision (device_edge s t).
Proof. unfold device_edge. apply _. Defined.

Lemma settle_result_safe id v n status res now d : safe (settle_result id v n status res now) d.
Proof.
  intros Hw Hc. rw /settle_result. tx; try by apply good_refl.
  all: eapply good_finish_device; [done..| |exact (without_exact_fence_subset v id n d)].
  all: apply negb_false_iff, bool_decide_eq_true_1 in Heqb1;
    rw /is_terminal_device_state in Heqb0; apply bool_decide_eq_false_1 in Heqb0.
  right; destruct (streq status (u "success")); (apply row_step_intro; simpl;
    [done|done|by right; right; split; [|decided]|done|vm_compute; by eexists]).
Qed.

Lemma mark_acceptance_reconciling_safe id v expected deadline now d :
  safe (mark_acceptance_reconciling id v expected deadline now) d.
Proof.
  intros Hw Hc. rw /mark_acceptance_reconciling. tx; try by apply good_refl.
  apply andb_true_iff in H0 as [[H0 _]%andb_true_iff _]. apply bool_decide_eq_true_1 in H0.
  eapply good_finish_row; [done..|].
  assert (~ terminal_row a) as Hn by (rw /terminal_row H0; decided).
  right; apply row_step_intro; simpl; [done|done| |by rw H0|by eapply live_row_no_terminal].
  rw H0. right. decided.
Qed.

Lemma prepare_dispatch_safe id v protocol caps deadline now d :
  safe (prepare_dispatch id v protocol caps deadline now) d.
Proof.
  intros Hw Hc. rw /prepare_dispatch. tx. apply runs_update_device_if.
  2: intros _; tx; done.
  intros r Hr Hs. tx. simplify_eq. apply bool_decide_eq_true_1 in Hs.
  eapply good_finish_row; [done..|].
  assert (~ terminal_row a) as Hn by (rw /terminal_row Hs; decided).
  right; apply row_step_intro; simpl; [done|done| |by rw Hs|by eapply live_row_no_terminal].
  rw Hs. right. decided.
Qed.

Lemma mark_dispatching_safe id v caps deadline now d : safe (mark_dispatching id v caps deadline now) d.
Proof.
  apply transition_device_safe. split; [|done|done].
  eexists; split; [done|]. intros s ->%list_elem_of_singleton. decided.
Qed.
Lemma mark_reconciling_safe id v expected reason deadline now d :
  (forall s, s ∈ expected -> s ∉ TERMINAL_DEVICE_STATES) ->
  safe (mark_reconciling id v expected reason deadline now) d.
Proof. intros He. apply transition_device_safe. split; [by eexists|done|done]. Qed.

(** ** The claim *)

Lemma next_claim_eligible d online k r :
  next_claim d online = Some (k, r) -> assignments d !! k = Some r /\ eligible d online (k, r) = true.
Proof.
  rw /next_claim. intros Hh. apply head_Some_elem_of in Hh.
  rw /order_by merge_sort_Permutation in Hh. apply list_elem_of_filter in Hh as [He Hr].
  split; [|done]. by apply elem_of_map_to_list in Hr.
Qed.

(** What makes a row eligible, as propositions. *)
Lemma eligible_spec d online id v r :
  eligible d online ((id, v), r) = true <->
  d_state r = QUEUED /\ v ∈ online /\
  (exists j, jobs d !! id = Some j /\ j_dispatch_enabled j = true /\
             j_state j ∈ [J_RUNNING; J_RECONCILING]) /\
  fences d !! v = None /\ has_active d v = false /\ min_queued_seq d v = Some (d_enqueue_seq r).
Proof.
  rw /eligible !andb_true_iff negb_true_iff. split.
  - intros (((((?%bool_decide_eq_true_1 & ?%bool_decide_eq_true_1) & Hj) & ?%bool_decide_eq_true_1)
      & ?) & ?%bool_decide_eq_true_1).
    split_and!; try done. destruct (jobs d !! id) as [j|]; [|done]. exists j.
    by apply andb_true_iff in Hj as [? ?%bool_decide_eq_true_1].
  - intros (? & ? & (j & -> & -> & ?) & ? & ? & ?).
    by rw !bool_decide_eq_true_2.
Qed.

Lemma claim_row_step d id v r now j :
  wf ∅ d -> assignments d !! (id, v) = Some r -> d_state r = QUEUED -> jobs d !! id = Some j ->
  j_state j ∈ [J_RUNNING; J_RECONCILING] ->
  row_step r (claim_row now r) (j_state <$> jobs d !! id).
Proof.
  intros Hw Hr Hs Hj Hjs. assert (~ terminal_row r) as Hn by (rw /terminal_row Hs; decided).
  apply row_step_intro; simpl; [done|done|rw Hs; right; decided| |by eapply live_row_no_terminal].
  intros _ _. rw Hj /=. repeat (apply elem_of_cons in Hjs as [->|Hjs]); try by decided.
  by apply elem_of_nil in Hjs.
Qed.

Lemma claim_next_safe online now d : safe (claim_next online now) d.
Proof.
  intros Hw Hc. rw /claim_next. case_match; [apply operation_ret; by apply good_refl|].
  apply operation_claim; [|by apply good_refl]. rw /claim_body. tx; [|by apply good_refl].
  destruct p0 as [id v]. apply next_claim_eligible in Heqo as [Hr He].
  apply eligible_spec in He as (Hs & _ & (j & Hj & _ & Hjs) & _).
  apply runs_update_device_if; [|intros Hn; specialize (Hn _ Hr); by rw Hs in Hn].
  intros _ _ _. tx; try done.
  - rw /rederive_db. repeat case_match; simpl; by rw lookup_alter_eq Hr.
  - eapply good_finish_row; [done..|]. right. by eapply claim_row_step.
Qed.

(** ** Fences *)

Lemma good_bumps ids now d d1 (K : unit -> db -> Prop) :
  good ∅ ∅ d d1 -> (forall d', good ∅ ∅ d d' -> K tt d') ->
  runs (for_each (fun id => _increment_revision id now) ids) K d1.
Proof.
  intros Hg HK. apply (runs_for_each _ (fun _ => good ∅ ∅ d)); [|done|done].
  intros _ id _ d' _ Hd'. tx. destruct Hd' as [HH Hw']. split; [|by apply wf_bump].
  apply history_set_job; [done|]. intros j _. split_and!; [done|done|by right|]. left. simpl. lia.
Qed.

Lemma publish_affected_safe ids now d d1 (C : outcome exn (list snapshot) -> db -> Prop) :
  good ∅ ∅ d d1 -> (forall o d', good ∅ ∅ d d' -> C o d') -> commits (publish_affected ids now) C d1.
Proof.
  intros Hg HC. rw /publish_affected. apply commits_bind. eapply good_bumps; [done|].
  intros d' Hd'. tx. by apply HC.
Qed.

Lemma fence_deleted d v : wf ∅ d -> good ∅ ∅ d (set_fences (delete v (fences d)) d).
Proof. intros Hw. apply good_fences_subset; [by apply good_refl|apply delete_subseteq]. Qed.

Lemma runs_visible v b (K : list pystr -> db -> Prop) d :
  K (visible_job_ids d v b) d -> runs (_visible_job_ids v b) K d.
Proof. apply (runs_select (fun d => visible_job_ids d v b)). Qed.

Lemma publish_affected_after ids now d d1 :
  good ∅ ∅ d d1 -> commits (publish_affected ids now) (fun _ => good ∅ ∅ d) d1.
Proof. intros. by eapply publish_affected_safe. Qed.

(** Runs an operation up to the publication of the jobs a fence shows in. *)
Ltac fence_op := repeat first
  [ match goal with |- commits (publish_affected _ _ ≫= _) _ _ => apply commits_then end
  | match goal with |- runs (_visible_job_ids _ _) _ _ => apply runs_visible end
  | tx_step ];
  try (by apply good_refl);
  try (eapply publish_affected_safe; [by apply fence_deleted|by intros [?|?] ? ?]).

Lemma clear_matching_fence_safe id v n now d : safe (clear_matching_fence id v n now) d.
Proof. intros Hw Hc. rw /clear_matching_fence. fence_op. Qed.
Lemma clear_fence_on_process_replacement_safe v p has now d :
  safe (clear_fence_on_process_replacement v p has now) d.
Proof. intros Hw Hc. rw /clear_fence_on_process_replacement. fence_op. Qed.
Lemma clear_matching_opaque_fence_safe v id n now d : safe (clear_matching_opaque_fence v id n now) d.
Proof. intros Hw Hc. rw /clear_matching_opaque_fence. fence_op. Qed.
Lemma settle_late_fenced_result_safe id v n now d : safe (settle_late_fenced_result id v n now) d.
Proof. intros Hw Hc. rw /settle_late_fenced_result. fence_op. Qed.

Lemma runs_upsert_fence v f (K : unit -> db -> Prop) d :
  (forall f', f_blocking_job_id f' = f_blocking_job_id f ->
     f_blocking_opaque_identity f' = f_blocking_opaque_identity f ->
     f_blocking_process_instance_id f' = f_blocking_process_instance_id f ->
     f_blocking_attempt f' = f_blocking_attempt f ->
     K tt (set_fences (<[v := f']> (fences d)) d)) ->
  runs (upsert_fence v f) K d.
Proof. intros H. apply runs_write. intros _. apply H; by case_match. Qed.

Lemma fence_set X d v f : wf X d -> fence_wf d v f ->
  forall v' f', <[v := f]> (fences d) !! v' = Some f' -> fence_wf d v' f'.
Proof.
  intros Hw Hf v' f'. rw lookup_insert. case_decide; [subst; by intros [= <-]|by apply (w_fence _ _ Hw)].
Qed.

Lemma add_opaque_fence_safe v identity p process reason now d :
  safe (add_opaque_fence v identity p process reason now) d.
Proof.
  intros Hw Hc. rw /add_opaque_fence. fence_op.
  all: apply runs_upsert_fence; intros f Hf _ _ _; fence_op; apply publish_affected_after, good_fences;
    [by apply good_refl|]; eapply fence_set; [done|]; by rw /fence_wf Hf.
Qed.

(** ** Giving an execution up *)

Lemma set_job_dom id f d id' : is_Some (jobs (set_job id f d) !! id') <-> is_Some (jobs d !! id').
Proof. apply lookup_alter_is_Some. Qed.

Lemma good_settle_each ids now B d d1 (K : unit -> db -> Prop) :
  good B B d d1 -> B ⊆ list_to_set ids ->
  (forall id, is_Some (jobs d1 !! id) -> is_Some (jobs d !! id)) ->
  (forall d', good ∅ ∅ d d' -> K tt d') ->
  runs (for_each (fun id => _increment_revision id now ;; _rederive_job id now) ids) K d1.
Proof.
  intros Hg HB Hdom HK.
  apply (runs_for_each _ (fun done d' => good (B ∖ list_to_set done) (B ∖ list_to_set done) d d' /\
    (forall id, is_Some (jobs d' !! id) -> is_Some (jobs d !! id)))).
  - intros done id rest d' _ [Hg' Hdom']. tx. split.
    + replace (B ∖ list_to_set (done ++ [id])) with (B ∖ list_to_set done ∖ {[id]}) by set_solver.
      apply good_settle; [|done]. apply Hdom'.
      apply (set_job_dom id (bump_job now)). by eexists.
    + intros id' Hid'. apply Hdom'. rw /rederive_db in Hid'.
      repeat case_match; rw ?set_job_dom in Hid'; done.
  - split; [|done]. by replace (B ∖ list_to_set []) with B by set_solver.
  - intros d' [Hg' _]. apply HK. by replace (∅ : gset pystr) with (B ∖ list_to_set ids) by set_solver.
Qed.

Lemma distinct_sorted_spec x l : x ∈ distinct_sorted l <-> x ∈ l.
Proof. by rw /distinct_sorted /sorted_strs merge_sort_Permutation elem_of_remove_dups. Qed.

Lemma fence_visible_spec d v id :
  id ∈ fence_visible_jobs d v <->
  is_Some (assignments d !! (id, v)) /\
  exists j, jobs d !! id = Some j /\ j_state j ∈ NON_TERMINAL_JOB_VALUES.
Proof.
  rw /fence_visible_jobs distinct_sorted_spec list_elem_of_fmap. split.
  - intros ([[i w] r] & -> & [[Hv Hj] Hr]%list_elem_of_filter). cbn [fst snd] in *. subst.
    split; [eexists; by apply elem_of_map_to_list in Hr|].
    apply list_elem_of_fmap in Hj as (s & Hs & ?). apply fmap_Some in Hs as (j & ? & ->). eauto.
  - intros [[r Hr] (j & Hj & Hs)]. exists ((id, v), r). split; [done|].
    apply list_elem_of_filter. cbn [fst snd]. rw Hj. change (j_state <$> Some j) with (Some (j_state j)). split_and!; [done|by apply (list_elem_of_fmap_2 Some)|].
    by apply elem_of_map_to_list.
Qed.

Lemma elem_of_append_new x y l : x ∈ l -> x ∈ append_new y l.
Proof. rw /append_new. case_match; set_solver. Qed.
Lemma visible_covers d v b id : id ∈ fence_visible_jobs d v -> id ∈ visible_job_ids d v b.
Proof.
  intros H. rw /visible_job_ids. repeat case_match; by repeat apply elem_of_append_new.
Qed.

(** An active device belongs to a running or reconciling job. *)
Lemma active_job X d id v r j :
  wf X d -> assignments d !! (id, v) = Some r -> active r -> jobs d !! id = Some j ->
  j_state j = J_RUNNING \/ j_state j = J_RECONCILING.
Proof.
  intros Hw Hr Ha Hj. pose proof (w_settled _ _ Hw _ _ Hj) as [].
  assert (has_state d id (d_state r)) as Hs by (by exists v, r).
  destruct (quiet_or_finished (j_state j)) as [Hq|[?|[?|Hf]]]; [|by auto..|].
  - by destruct (ss_quiet Hq _ Hs).
  - specialize (ss_finished Hf). apply device_states_spec in Hs.
    apply (derives_terminal _ _ _ ss_finished) in Hs; [|set_solver].
    rw /active in Ha. apply terminal_state in Hs.
    destruct Hs as [E|[E|[E|E]]]; rw E in Ha; exfalso; revert Ha; decided.
Qed.

Lemma mark_unconfirmed_safe id v process detail deadline observed clock d :
  safe (mark_unconfirmed id v process detail deadline observed clock) d.
Proof.
  intros Hw Hc. rw /mark_unconfirmed. tx. apply bool_decide_eq_true_1 in H1.
  apply runs_upsert_fence. intros f Hf _ _ _.
  destruct (c_assignment_job _ Hc _ _ H) as [j Hj]. simpl in Hj.
  assert (j_state j = J_RUNNING \/ j_state j = J_RECONCILING) as Hjs
    by (eapply active_job; [done..|rw /active H1; decided|done]).
  assert (~ terminal_row a) as Hn by (rw /terminal_row H1; decided).
  apply commits_bind, runs_visible, commits_bind, (good_settle_each _ _ {[id]} d).
  - eapply good_fences.
    + pose proof (fun g => good_rows ∅ ∅ d d id (alter g (id, v) (assignments d)) (good_refl _ Hw)) as HR.
      rw !union_empty_r_L in HR. apply HR.
      eapply rows_step_alter; [done|]. right. apply row_step_intro; simpl; [done|done| |by rw H1|by eexists].
      rw H1. right. decided.
    + intros v' f'. rw lookup_insert. case_decide; [subst; intros [= <-]|].
      * rw /fence_wf Hf /= lookup_alter_eq H /=. by eexists.
      * intros Hf'. pose proof (w_fence _ _ Hw _ _ Hf') as HF. rw /fence_wf in HF |- *.
        destruct (f_blocking_job_id f') as [b|]; [|done]. destruct HF as (r & Hr & Hu). simpl.
        rw lookup_alter_ne; [|congruence]. by exists r.
  - apply singleton_subseteq_l, elem_of_list_to_set, visible_covers, fence_visible_spec. simpl.
    rw lookup_alter_eq H Hj. split; [by eexists|]. exists j. split; [done|].
    destruct Hjs as [->| ->]; decided.
  - done.
  - intros d' Hd'. tx. done.
Qed.

Lemma reconcile_report_safe id v n status phase detail now d :
  safe (reconcile_report id v n status phase detail now) d.
Proof.
  intros Hw Hc. rw /reconcile_report. fence_op.
  destruct (assignments d !! (id, v)) as [r|] eqn:Hr; [|done].
  destruct (jobs d !! id) as [j|] eqn:Hj; [|done]. simpl in H0. simplify_eq.
  apply bool_decide_eq_true_1 in H2.
  assert (~ terminal_row d0) as Hn by (rw /terminal_row H2; decided).
  pose proof (live_row_no_terminal _ _ _ _ Hw Hr Hn) as Hnone.
  rw /reconcile_row. tx.
  all: eapply good_finish_row; [done..|]; right; apply row_step_intro; simpl; try done; rw ?H2.
  all: try (right; decided).
  all: assert (a = DOWNLOADING \/ a = VALIDATING \/ a = APPLYING) as Ha
    by (destruct phase as [p|]; simpl in H0; repeat case_match; simplify_eq; auto).
  all: destruct Ha as [->|[->| ->]]; try done; right; decided.
Qed.

(** ** Batches: missing artifacts and startup recovery *)

Lemma rows_step_imap id d p f :
  (forall v r, assignments d !! (id, v) = Some r -> p r = true ->
     row_step r (f r) (j_state <$> jobs d !! id)) ->
  rows_step id d (map_imap (fun k r => Some (if bool_decide (k.1 = id) && p r then f r else r))
                    (assignments d)).
Proof.
  intros Hf [i v]. rw map_lookup_imap. destruct (assignments d !! (i, v)) as [r|] eqn:Hr; simpl; [|done].
  case_bool_decide as Hi; simpl; [|by left]. destruct (p r) eqn:Hp; [|by left]. subst. right. eauto.
Qed.

Lemma rederive_other id now d id' : id' <> id -> jobs (rederive_db id now d) !! id' = jobs d !! id'.
Proof.
  intros Hn. rw /rederive_db. repeat case_match; try done. rw lookup_set_job. by rw decide_False; [|congruence].
Qed.
Lemma set_job_other id f d id' : id' <> id -> jobs (set_job id f d) !! id' = jobs d !! id'.
Proof. intros Hn. rw lookup_set_job. by case_decide. Qed.

Definition ready_or_failed (d d' : db) : Prop :=
  forall id j, jobs d !! id = Some j -> j_state j = J_READY ->
    exists j', jobs d' !! id = Some j' /\ (j_state j' = J_READY \/ j_state j' = J_FAILED).

Lemma missing_spec d is_file id s name :
  (id, s, name) ∈ missing_artifacts d is_file ->
  exists j, jobs d !! id = Some j /\ j_state j = s /\ s ∈ [J_READY; J_RUNNING; J_RECONCILING].
Proof.
  rw /missing_artifacts list_elem_of_omap. intros ([i j] & Hj%elem_of_map_to_list & Hm).
  apply bind_Some in Hm as (a & _ & (row & _ & Hm)%bind_Some). simpl in Hm.
  case_bool_decide; simpl in Hm; [|done]. case_match; simplify_eq. eauto.
Qed.

Lemma fail_missing_safe now is_file id s name d d1 :
  good ∅ ∅ d d1 -> ready_or_failed d d1 -> (id, s, name) ∈ missing_artifacts d is_file ->
  runs (fail_missing now (id, s, name)) (fun _ d' => good ∅ ∅ d d' /\ ready_or_failed d d') d1.
Proof.
  intros Hg Hr (j & Hj & Hjs & Hs)%missing_spec. rw /fail_missing. tx.
  - apply bool_decide_eq_true_1 in Heqb. subst s. destruct (Hr _ _ Hj Heqb) as (j' & Hj' & Hjs).
    split.
    + eapply good_job; [done..|]. destruct Hg as [_ Hw].
      apply job_step_keep; simpl; try done; [by eapply w_job|destruct Hjs as [->| ->]; decided|..|apply stamped; decided];
        (intros Hp; exfalso; revert Hp; decided).
    + intros id' j0 Hj0 Hs0. destruct (Hr _ _ Hj0 Hs0) as (j1 & Hj1 & ?).
      destruct (decide (id' = id)) as [->|Hne]; [|by rw set_job_other //; eauto].
      rw lookup_set_job decide_True // Hj1. eexists. split; [done|by right].
  - apply runs_write. intros _. tx. apply bool_decide_eq_false_1 in Heqb. destruct Hg as [HH Hw]. split.
    + pose proof (good_rows ∅ ∅ d d1 id (map_imap (fun k r => Some
        (if bool_decide (k.1 = id) && bool_decide (d_state r ∈ [QUEUED; WAITING_TRANSFER; DISPATCHING; DOWNLOADING])
         then r <| d_state := FAILED |> <| d_terminal_at := Some now |>
                <| d_failure_code := Some (u "artifact_missing") |>
                <| d_failure_detail := Some (u "referenced immutable artifact " ++ name ++ u " is missing") |>
                <| d_updated_at := now |> else r)) (assignments d1)) (conj HH Hw)) as HR.
      rw !union_empty_r_L in HR. eapply (good_settle _ _ _ _ id now) in HR; [rw difference_diag_L in HR; exact HR|by eexists|].
      * apply rows_step_imap. intros v r _ Hp%bool_decide_eq_true_1.
        assert (~ terminal_row r /\ (device_edge (d_state r) FAILED)) as [? ?].
        { rw /terminal_row. repeat (apply elem_of_cons in Hp as [->|Hp]); [split; decided..|by apply elem_of_nil in Hp]. }
        apply row_step_intro; simpl; [done|done|by right|done|by eexists].
    + intros id' ja Hja Hsa. destruct (Hr _ _ Hja Hsa) as (jb & Hjb & ?).
      assert (id' <> id) by congruence. exists jb. split; [|done].
      by rw rederive_other // set_job_other.
Qed.

Lemma reconcile_missing_artifacts_safe is_file now d : safe (reconcile_missing_artifacts_sync is_file now) d.
Proof.
  intros Hw Hc. rw /reconcile_missing_artifacts_sync. apply operation_select. tx; [by apply good_refl|].
  apply (runs_for_each _ (fun _ d' => good ∅ ∅ d d' /\ ready_or_failed d d')).
  - intros done [[id s] name] rest d' Hl [Hg Hr]. apply (fail_missing_safe now is_file); [done..|]. rw Hl. set_solver.
  - split; [by apply good_refl|]. intros id j ??. eauto.
  - intros d' [Hg _]. apply commits_bind.
    apply (runs_map_each_same _ (fun _ _ _ => True)); [intros; by apply runs_snapshot|]. intros. tx. done.
Qed.

(** What startup recovery answers for a job row, and when it touches a device row. *)
Definition recovery_kind (now : Z) (j : job_row) : option bool :=
  if bool_decide (j_state j = J_CREATED) && (j_create_expires_at j <=? now) then Some true
  else if bool_decide (j_state j ∈ [J_UPLOADING; J_PACKAGING]) then Some true
  else if bool_decide (j_state j ∈ [J_RUNNING; J_RECONCILING]) then Some false
  else None.

(** The first phase: [done] are the rows visited so far. *)
Definition recovering_jobs (now : Z) (d : db) (done : list (pystr * job_row)) (d' : db) : Prop :=
  good ∅ ∅ d d' /\ assignments d' = assignments d /\
  (forall id j, jobs d !! id = Some j ->
     exists j', jobs d' !! id = Some j' /\ job_wf j' /\
       (j_state j' = j_state j \/ (unpublished (j_state j) /\ j_state j' = J_INTERRUPTED))) /\
  (forall id j, (id, j) ∈ done -> is_Some (recovery_kind now j) -> bumped d d' id).

(** A recovery update of one job keeps the phase's invariant. *)
Lemma recovering_update now d done d1 id j f :
  recovering_jobs now d done d1 -> jobs d !! id = Some j ->
  (forall j', job_fixed j' (f j') /\ j_revision (f j') = j_revision j' + 1 /\
              j_artifact_id (f j') = j_artifact_id j') ->
  (unpublished (j_state j) /\
     (forall j', j_state (f j') = J_INTERRUPTED /\ is_Some (j_terminal_at (f j'))) \/
   (~ unpublished (j_state j) /\
     forall j', j_state (f j') = j_state j' /\ j_terminal_at (f j') = j_terminal_at j')) ->
  recovering_jobs now d (done ++ [(id, j)]) (set_job id f d1).
Proof.
  intros (Hg & HA & HJ & HB) Hj Hf Hst.
  destruct (HJ _ _ Hj) as (j1 & Hj1 & Hwf & Hs). destruct (Hf j1) as (Hfix & Hrev & Hart).
  assert (job_step j1 (f j1)) as Hstep.
  { destruct Hst as [[Hu Hi]|[Hn Hi]]; destruct (Hi j1) as [Hi1 Hi2].
    - apply job_step_keep; rw ?Hi1; try done; try (intros Hx; exfalso; revert Hx; decided); [|].
      + destruct Hs as [->|[_ ->]]; [|by left].
        repeat (apply elem_of_cons in Hu as [->|Hu]); try decided. by apply elem_of_nil in Hu.
      + split; [intros _; decided|done].
    - apply job_step_keep; rw ?Hi1 ?Hi2 //; [by left|]. by apply Hwf. }
  assert (forall id', bumped d d1 id' -> bumped d (set_job id f d1) id') as Hkeep.
  { intros id' Hb. apply bumped_set_job; [done|]. intros j' _. destruct (Hf j') as (_ & ? & _). lia. }
  split_and!.
  - by eapply good_job.
  - done.
  - intros id' ja Hja. destruct (HJ _ _ Hja) as (jb & Hjb & ? & Hsb).
    destruct (decide (id' = id)) as [->|]; [|rw set_job_other //; eauto].
    assert (ja = j) as -> by congruence. assert (jb = j1) as -> by congruence.
    rw lookup_set_job decide_True // Hj1 /=. exists (f j1).
    split_and!; [done|apply Hstep|]. destruct Hst as [[Hu Hi]|[Hn Hi]]; destruct (Hi j1) as [Hi1 _]; rw Hi1; auto.
  - intros id' ja [Hin|[= -> ->]%list_elem_of_singleton]%elem_of_app Hk; [by eapply Hkeep, HB|].
    destruct Hg as [HH _]. destruct (h_job _ _ _ HH _ _ Hj) as (j2 & Hj2 & []). assert (j2 = j1) as -> by congruence.
    exists j, (f j1). rw lookup_set_job decide_True // Hj1. split_and!; [done..|].
    destruct je_revision as [->|]; lia.
Qed.

Lemma recover_job_phase now d done rest d1 id j :
  map_to_list (jobs d) = done ++ (id, j) :: rest -> recovering_jobs now d done d1 ->
  runs (recover_job now (id, j))
    (fun b d' => b = recovery_kind now j /\ recovering_jobs now d (done ++ [(id, j)]) d') d1.
Proof.
  intros Hl HI. assert (jobs d !! id = Some j) as Hj.
  { apply elem_of_map_to_list. rw Hl. set_solver. }
  rw /recover_job /recovery_kind. tx; (split; [done|]).
  - apply andb_true_iff in Heqb as [Hs%bool_decide_eq_true_1 _].
    eapply recovering_update; [done..|]. left. rw Hs. split; [decided|split; [done|by eexists]].
  - apply bool_decide_eq_true_1 in Heqb0.
    eapply recovering_update; [done..|]. left. split; [|split; [done|by eexists]].
    repeat (apply elem_of_cons in Heqb0 as [->|Heqb0]); try decided. by apply elem_of_nil in Heqb0.
  - apply bool_decide_eq_true_1 in Heqb1.
    eapply recovering_update; [done..|]. right. split; [|done].
    repeat (apply elem_of_cons in Heqb1 as [->|Heqb1]); try decided. by apply elem_of_nil in Heqb1.
  - destruct HI as (Hg & HA & HJ & HB). split_and!; try done.
    intros id' ja [Hin|[= -> ->]%list_elem_of_singleton]%elem_of_app Hk; [by eapply HB|].
    rw /recovery_kind Heqb Heqb0 Heqb1 in Hk. by destruct Hk.
Qed.

(** The second phase: the device rows.  [busy] are the jobs whose state is re-derived. *)
Definition busy (d : db) : gset pystr :=
  dom (filter (fun '(_, j) => j_state j = J_RUNNING \/ j_state j = J_RECONCILING) (jobs d)).

Lemma elem_of_busy d id :
  id ∈ busy d <-> exists j, jobs d !! id = Some j /\ (j_state j = J_RUNNING \/ j_state j = J_RECONCILING).
Proof.
  rw /busy elem_of_dom. split.
  - intros [j Hj%map_lookup_filter_Some]. naive_solver.
  - intros (j & ? & ?). exists j. by apply map_lookup_filter_Some.
Qed.

Definition recovering_rows (t1 t2 now : Z) (d d1 d' : db) : Prop :=
  good ∅ (busy d) d d' /\ jobs d' = jobs d1 /\
  (forall k r, assignments d !! k = Some r ->
     exists r', assignments d' !! k = Some r' /\ (r' = r \/ recover_row t1 t2 now r = Some r')).

Lemma recover_row_step t1 t2 now r r' s :
  recover_row t1 t2 now r = Some r' -> d_terminal_at r = None -> row_step r r' s /\ active r.
Proof.
  rw /recover_row /active. intros H Ht.
  destruct (d_state r) eqn:E; try done; repeat case_match; simplify_eq;
    (split; [apply row_step_intro; simpl; rw ?E; try done;
             first [ rw /terminal_row E; decided | right; decided | by left ]
            | decided]).
Qed.

Lemma recover_row_live X d t1 t2 now k r r' :
  wf X d -> assignments d !! k = Some r -> recover_row t1 t2 now r = Some r' -> d_terminal_at r = None.
Proof.
  intros Hw Hr Hrec. eapply live_row_no_terminal; [done..|]. intros Ht%terminal_state.
  rw /recover_row in Hrec. destruct Ht as [Ht|[Ht|[Ht|Ht]]]; by rw Ht in Hrec.
Qed.

Lemma recover_device_phase t1 t2 now d d0 d1 k r :
  wf ∅ d -> constraints d -> assignments d !! k = Some r ->
  (forall id, id ∈ busy d -> bumped d d0 id) -> recovering_rows t1 t2 now d d0 d1 ->
  runs (recover_device t1 t2 now (k, r))
    (fun b d' => b = bool_decide (is_Some (recover_row t1 t2 now r)) /\
                 recovering_rows t1 t2 now d d0 d') d1.
Proof.
  intros Hw Hc Hr HB HI. rw /recover_device. cbn [fst snd].
  destruct (recover_row t1 t2 now r) as [r'|] eqn:Hrec; tx; [|by split].
  split; [by rw bool_decide_eq_true_2|].
  destruct HI as (Hg & HJ & HR). destruct (HR _ _ Hr) as (r1 & Hr1 & Hcase).
  destruct k as [id v].
  pose proof (recover_row_live _ _ _ _ _ _ _ _ Hw Hr Hrec) as Hnone.
  destruct (recover_row_step _ _ _ _ _ (j_state <$> jobs d1 !! id) Hrec Hnone) as [Hstep Hact].
  destruct (c_assignment_job _ Hc _ _ Hr) as [j Hj]. simpl in Hj.
  assert (id ∈ busy d) as Hid.
  { apply elem_of_busy. exists j. split; [done|]. by eapply active_job. }
  assert (rows_step id d1 (alter (fun _ => r') (id, v) (assignments d1))) as HA.
  { eapply rows_step_alter; [done|]. destruct Hcase as [->|]; [by right|left; congruence]. }
  split_and!.
  - destruct Hg as [HH Hw']. split; [|by eapply wf_rows].
    eapply history_rows; [done..|]. right. destruct (HB _ Hid) as (ja & jb & ? & ? & ?).
    exists ja, jb. by rw HJ.
  - done.
  - intros k ra Hra. destruct (HR _ _ Hra) as (rb & Hrb & ?). simpl. rw lookup_alter.
    case_decide; [subst|by eauto]. rw Hrb /=. exists r'. split; [done|]. right. congruence.
Qed.

Lemma Forall2_function {A B} (f : A -> B) l bs : Forall2 (fun x b => b = f x) l bs -> bs = f <$> l.
Proof. induction 1 as [|x b l bs -> _ IH]; [done|]. by rw fmap_cons -IH. Qed.
(** The keys whose result satisfies a test. *)
Lemma elem_of_filter_zip {A B K} (key : A -> K) (f : A -> B) (P : B -> Prop)
    `{forall kb : K * B, Decision (P kb.2)} (l : list A) k :
  k ∈ fst <$> filter (fun kb => P kb.2) (zip (key <$> l) (f <$> l)) <->
  exists x, x ∈ l /\ key x = k /\ P (f x).
Proof.
  rw list_elem_of_fmap. split.
  - intros ([k' b] & -> & [HP Hz]%list_elem_of_filter).
    revert Hz. induction l as [|x l IH]; simpl; [by intros ?%elem_of_nil|].
    intros [[= -> ->]|Hz]%elem_of_cons; [exists x; split; [left|done]|].
    destruct (IH Hz) as (y & ? & ?). exists y. split; [by right|done].
  - intros (x & Hx & <- & HP). exists (key x, f x). split; [done|].
    apply list_elem_of_filter. split; [done|].
    induction l as [|y l IH]; [by apply elem_of_nil in Hx|]. simpl.
    apply elem_of_cons in Hx as [->|Hx]; [left|right; auto].
Qed.

Lemma recover_startup_safe t1 t2 now d : safe (recover_startup_sync t1 t2 now) d.
Proof.
  intros Hw Hc. rw /recover_startup_sync. apply operation_transaction, commits_bind, runs_select, commits_bind.
  apply (runs_map_each _ (fun jr b => b = recovery_kind now jr.2) (recovering_jobs now d)).
  { intros done [id j] rest d1 Hl HI. by eapply recover_job_phase. }
  { split_and!; [by apply good_refl|done| |by intros ?? ?%elem_of_nil].
    intros id j Hj. exists j. split_and!; [done|by eapply w_job|by left]. }
  intros kinds d1 ->%Forall2_function (Hg & HA & _ & HB). apply commits_bind, runs_select, commits_bind.
  rw /assignment_rows HA.
  assert (forall id, id ∈ busy d -> exists j, jobs d !! id = Some j /\ recovery_kind now j = Some false) as Hbusy.
  { intros id (j & Hj & Hs)%elem_of_busy. exists j. split; [done|].
    rw /recovery_kind. by destruct Hs as [->| ->]. }
  apply (runs_map_each _ (fun kr b => b = bool_decide (is_Some (recover_row t1 t2 now kr.2)))
           (fun _ => recovering_rows t1 t2 now d d1)).
  { intros done [k r] rest d2 Hl HI. apply recover_device_phase; [done..| | |done].
    - apply elem_of_map_to_list. rw Hl. set_solver.
    - intros id (j & Hj & Hk)%Hbusy. eapply HB; [by apply elem_of_map_to_list|by rw Hk]. }
  { split_and!; [|done|intros k r Hr; exists r; rw HA; auto].
    destruct Hg as [HH Hw']. split; [done|]. eapply wf_weaken; [done|set_solver]. }
  intros flags d2 ->%Forall2_function (Hg2 & HJ2 & _). apply commits_bind.
  assert (forall id j, jobs d !! id = Some j -> is_Some (recovery_kind now j) -> bumped d d2 id) as HB2.
  { intros id j Hj%elem_of_map_to_list Hk. destruct (HB _ _ Hj Hk) as (ja & jb & ? & ? & ?).
    exists ja, jb. by rw HJ2. }
  set (touched := distinct_sorted _).
  assert (forall id, id ∈ busy d -> id ∈ touched) as Hcover.
  { intros id (j & Hj & Hk)%Hbusy. apply distinct_sorted_spec, elem_of_app. left.
    apply (elem_of_filter_zip fst (fun jr => recovery_kind now jr.2) is_Some). exists (id, j).
    split_and!; [by apply elem_of_map_to_list|done|by rw Hk]. }
  assert (forall id, id ∈ touched -> bumped d d2 id) as Htouched.
  { intros id [Hin|Hin]%distinct_sorted_spec%elem_of_app.
    - apply (elem_of_filter_zip fst (fun jr => recovery_kind now jr.2) is_Some) in Hin
        as ([i j] & Hj%elem_of_map_to_list & <- & Hk). by eapply HB2.
    - apply (elem_of_filter_zip (fun kr : pystr * pystr * device_row => kr.1.1)
               (fun kr => bool_decide (is_Some (recover_row t1 t2 now kr.2))) (fun b => b = true)) in Hin
        as ([[i v] r] & Hr%elem_of_map_to_list & <- & [r' Hr']%bool_decide_eq_true_1). cbn [fst snd] in *.
      destruct (c_assignment_job _ Hc _ _ Hr) as [j Hj].
      destruct (Hbusy i) as (j' & Hj' & Hk); [|by apply (HB2 _ _ Hj'); rw Hk].
      apply elem_of_busy. exists j. split; [done|]. eapply active_job; [done..| |done].
      by eapply (recover_row_step _ _ _ _ _ None), recover_row_live. }
  apply (runs_for_each _ (fun done d' => good ∅ (busy d ∖ list_to_set done) d d' /\
           forall id, id ∈ touched -> bumped d d' id)).
  - intros done id rest d3 Hl [Hg3 Hb3]. tx.
    assert (id ∈ touched) as Hid by (rw Hl; set_solver). split.
    + replace (busy d ∖ list_to_set (done ++ [id])) with (busy d ∖ list_to_set done ∖ {[id]}) by set_solver.
      apply good_rederive; auto.
    + intros id' Hid'. rw /rederive_db. repeat case_match; auto. by apply bumped_set_job; [auto|].
  - split; [|done]. by replace (busy d ∖ list_to_set []) with (busy d) by set_solver.
  - intros d3 [Hg3 _]. tx.
    assert (busy d ∖ list_to_set touched = ∅) as E; [|by rw E in Hg3].
    apply set_eq. intros id. rw elem_of_difference elem_of_list_to_set.
    split; [intros [? Hn]; destruct Hn; auto|by intros ?%elem_of_empty].
Qed.

(** ** Creation *)

(** The rows [insert_targets] adds. *)
Definition target_row (id : pystr) (protocols : gmap pystr (protocol_mode * gset pystr))
    (now start : Z) (ordinal : nat) (targets : list pystr) (k : pystr * pystr) (r : device_row) : Prop :=
  exists i v pc, targets !! i = Some v /\ k = (id, v) /\ protocols !! v = Some pc /\
    r = new_device (start + Z.of_nat (ordinal + i)) (Z.of_nat (ordinal + i)) pc.1 pc.2 now.

Lemma runs_insert_targets id protocols now start ordinal targets (K : unit -> db -> Prop) d :
  (forall A, (forall k r, A !! k = Some r <->
                assignments d !! k = Some r \/ target_row id protocols now start ordinal targets k r) ->
     (forall v, v ∈ targets -> is_Some (protocols !! v)) -> K tt (set_rows A d)) ->
  runs (insert_targets id protocols now start ordinal targets) K d.
Proof.
  induction targets as [|v rest IH] in ordinal, d |- *; intros HK; simpl.
  - apply runs_ret. replace d with (set_rows (assignments d) d) by by destruct d.
    apply HK; [|by intros v ?%elem_of_nil]. intros k r. split; [by left|]. intros [|(? & ? & ? & Hi & _)]; [done|by rw lookup_nil in Hi].
  - apply runs_bind, runs_or_raise. intros pc Hpc. apply runs_bind, runs_insert_device. intros Hnone.
    apply IH. intros A HA Hall. apply (HK A).
    2: { intros w [->|Hw]%elem_of_cons; [by eexists|by apply Hall]. }
    intros k r. rw HA. simpl. rw lookup_insert. split.
    + intros [Hk|(i & w & pc' & Hi & Hw & Hp & Hr)].
      * case_decide as Hkey; [|by left]. right. exists 0%nat, v, pc. rw Nat.add_0_r. naive_solver.
      * right. exists (S i), w, pc'. by replace (ordinal + S i)%nat with (S ordinal + i)%nat by lia.
    + intros [Hk|([|i] & w & pc' & Hi & Hw & Hp & Hr)].
      * left. case_decide as Hkey; [congruence|done].
      * simpl in Hi. simplify_eq. left. rw Nat.add_0_r. by case_decide.
      * right. exists i, w, pc'. by replace (S ordinal + i)%nat with (ordinal + S i)%nat by lia.
Qed.

(** A new job, with its rows and the sequence numbers they consume. *)
Lemma good_create d id j targets protocols now A :
  wf ∅ d -> constraints d -> jobs d !! id = None ->
  j_state j = J_CREATED -> job_wf j -> targets <> [] ->
  (forall k r, A !! k = Some r <->
     assignments d !! k = Some r \/ target_row id protocols now (next_seq d) 0 targets k r) ->
  (exists k r, target_row id protocols now (next_seq d) 0 targets k r) ->
  good ∅ ∅ d (set_rows A (d <| jobs := <[id := j]> (jobs d) |>
    <| next_enqueue_seq := Some (next_seq d + Z.of_nat (length targets)) |>)).
Proof.
  intros Hw Hc Hnone Hjs Hjw Hne HA Hrow. set (d' := set_rows _ _).
  assert (forall id' t, id' <> id -> has_state d' id' t <-> has_state d id' t) as Hsame.
  { intros id' t Hne'. split; intros (v & r & Hr & Ht); exists v, r; (split; [|done]).
    - apply HA in Hr as [|(? & ? & ? & _ & ? & _)]; [done|congruence].
    - apply HA. by left. }
  assert (forall v r, assignments d !! (id, v) = Some r -> False) as Hfree.
  { intros v r Hr. destruct (c_assignment_job _ Hc _ _ Hr) as [? Hj]. simpl in Hj. congruence. }
  split; split.
  - intros id' j' Hj'. exists j'. simpl. rw lookup_insert_ne; [split; [done|reflexivity]|congruence].
  - intros k r Hr. exists r. split_and!; [apply HA; by left|reflexivity|by left].
  - done.
  - rw /next_seq /=. fold (next_seq d). lia.
  - intros k r Hn [Hr|(i & v & pc & _ & _ & _ & ->)]%HA; [congruence|]. simpl. lia.
  - intros id' j'. simpl. rw lookup_insert. case_decide; [by intros [= <-]|by apply Hw].
  - intros id' j'. simpl. rw lookup_insert. case_decide as Hid; [intros [= <-]; subst|].
    + assert (forall t, has_state d' id' t -> t = QUEUED) as Hq.
      { intros t (v & r & Hr & <-). apply HA in Hr as [Hr|(? & ? & ? & _ & _ & _ & ->)]; [|done].
        by apply Hfree in Hr. }
      rw Hjs. split.
      * destruct Hrow as (k & r & Hr). pose proof Hr as (i & v & pc & _ & -> & _ & _).
        exists (d_state r), v, r. split; [|done]. apply HA. by right.
      * intros _ t ->%Hq. decided.
      * intros Hx. exfalso. revert Hx. decided.
    + intros Hj'. apply (settled_ext d); [intros t; symmetry; apply Hsame; congruence|]. by apply Hw.
  - intros id' j' Hn. simpl. rw lookup_insert. case_decide as Hid; [intros [= <-]; subst|].
    + rw Hjs. by split.
    + intros Hj'. apply (in_step_ext d); [intros t; symmetry; apply Hsame; congruence|]. by apply Hw.
  - intros k r [Hr|(i & v & pc & Hi & _ & _ & ->)]%HA.
    + destruct (w_device _ _ Hw _ _ Hr). split; [done|]. rw /next_seq /=. fold (next_seq d). lia.
    + split; [rw /terminal_row /=; split; [by intros []|intros Hx; exfalso; revert Hx; decided]|].
      apply lookup_lt_Some in Hi. simpl. rw /next_seq /=. fold (next_seq d). lia.
  - intros v f Hf. pose proof (w_fence _ _ Hw _ _ Hf) as HF. rw /fence_wf in HF |- *.
    destruct (f_blocking_job_id f); [|done]. destruct HF as (r & ? & ?). exists r. split; [|done].
    apply HA. by left.
Qed.

(** A request names a device, as [canonicalize_create_request] makes sure. *)
Lemma create_job_safe request protocols timeout now fresh d :
  target_devices request <> [] -> safe (create_job request protocols timeout now fresh) d.
Proof.
  intros Hne Hw Hc. rw /create_job. tx; try by apply good_refl.
  rw /_next_enqueue_seq. tx. apply runs_write. intros _. tx. apply runs_insert_targets. intros A HA Hall. tx.
  apply (good_create d fresh (new_job request now (now + timeout)) (target_devices request) protocols now A);
    try done.
  - split; simpl; [lia| |done|]; [split; [by intros []|]|]; intros Hx; exfalso; revert Hx; decided.
  - destruct (target_devices request) as [|v rest] eqn:Ht; [done|].
    destruct (Hall v) as [pc Hpc]; [left|].
    eexists (fresh, v), _. by exists 0%nat, v, pc.
Qed.
