(* ===== verification/Steps.v ===== *)
(** * The lifecycle as a transition system

    [call] has one constructor per operation that changes the tables, [exec] runs
    it on a connection, [step] is a call the program makes from given tables, and
    [reachable] closes the new database under steps.  The database worker runs one
    operation after the other, so every interleaving of the server's tasks is a
    sequence of steps. *)

From S2P Require Import Prelude PyStr Json PushJobs Domain Db Store Tx Manager Protocol Safety.
From stdpp Require Import relations.
Open Scope Z_scope.

Inductive call :=
  | CreateJob (request : canonical_create_request)
      (protocols : gmap pystr (protocol_mode * gset pystr)) (timeout now : Z) (fresh : pystr)
  | StartUpload (id : pystr) (now : Z)
  | MarkPackaging (id : pystr) (count bytes started now : Z)
  | PublishArtifact (id : pystr) (a : artifact) (now : Z)
  | FailPreDispatch (id : pystr) (s : job_state) (code detail : pystr) (now : Z)
  | EnableDispatch (id : pystr) (now : Z)
  | ExpireCreated (id : pystr) (deadline : option Z) (now : Z)
  | ClaimNext (online : gset pystr) (now : Z)
  | PrepareDispatch (id v : pystr) (p : protocol_mode) (caps : gset pystr) (deadline : option Z) (now : Z)
  | TransitionDevice (id v : pystr) (expected : option (list device_state)) (target : device_state)
      (fields : list assignment) (idempotent : bool) (now : Z)
  | MarkDispatching (id v : pystr) (caps : gset pystr) (deadline now : Z)
  | MarkReconciling (id v : pystr) (expected : list device_state) (reason : pystr) (deadline now : Z)
  | MarkAcceptanceReconciling (id v : pystr) (expected deadline now : Z)
  | SettleResult (id v : pystr) (n : Z) (status : pystr) (res : result) (now : Z)
  | SettleLateFencedResult (id v : pystr) (n now : Z)
  | ReconcileReport (id v : pystr) (n : Z) (status : pystr) (phase detail : option pystr) (now : Z)
  | MarkUnconfirmed (id v : pystr) (process : option pystr) (detail : pystr)
      (deadline observed : option Z) (clock : Z)
  | AddOpaqueFence (v identity : pystr) (p : protocol_mode) (process : option pystr) (reason : pystr) (now : Z)
  | ClearFenceOnProcessReplacement (v : pystr) (process : option pystr) (has_job_v1 : bool) (now : Z)
  | ClearMatchingFence (id v : pystr) (n now : Z)
  | ClearMatchingOpaqueFence (v id : pystr) (n now : Z)
  | ReconcileMissingArtifacts (is_file : pystr -> bool) (now : Z)
  | RecoverStartup (accept_timeout reconciliation_timeout now : Z).

(** The effect of a call: its answer goes to the caller. *)
Definition run {A} (m : Op A) : Op unit := m ;; mret tt.

Definition exec (c : call) : Op unit :=
  match c with
  | CreateJob request protocols timeout now fresh => run (create_job request protocols timeout now fresh)
  | StartUpload id now => run (start_upload id now)
  | MarkPackaging id count bytes started now => run (mark_packaging id count bytes started now)
  | PublishArtifact id a now => run (publish_artifact id a now)
  | FailPreDispatch id s code detail now => run (fail_pre_dispatch id s code detail now)
  | EnableDispatch id now => run (enable_dispatch id now)
  | ExpireCreated id deadline now => run (expire_created id deadline now)
  | ClaimNext online now => run (claim_next online now)
  | PrepareDispatch id v p caps deadline now => run (prepare_dispatch id v p caps deadline now)
  | TransitionDevice id v expected target fields idem now =>
      run (transition_device id v expected target fields idem now)
  | MarkDispatching id v caps deadline now => run (mark_dispatching id v caps deadline now)
  | MarkReconciling id v expected reason deadline now =>
      run (mark_reconciling id v expected reason deadline now)
  | MarkAcceptanceReconciling id v expected deadline now =>
      run (mark_acceptance_reconciling id v expected deadline now)
  | SettleResult id v n status res now => run (settle_result id v n status res now)
  | SettleLateFencedResult id v n now => run (settle_late_fenced_result id v n now)
  | ReconcileReport id v n status phase detail now => run (reconcile_report id v n status phase detail now)
  | MarkUnconfirmed id v process detail deadline observed clock =>
      run (mark_unconfirmed id v process detail deadline observed clock)
  | AddOpaqueFence v identity p process reason now => run (add_opaque_fence v identity p process reason now)
  | ClearFenceOnProcessReplacement v process has now =>
      run (clear_fence_on_process_replacement v process has now)
  | ClearMatchingFence id v n now => run (clear_matching_fence id v n now)
  | ClearMatchingOpaqueFence v id n now => run (clear_matching_opaque_fence v id n now)
  | ReconcileMissingArtifacts is_file now => run (reconcile_missing_artifacts_sync is_file now)
  | RecoverStartup t1 t2 now => run (recover_startup_sync t1 t2 now)
  end.

(** The discipline of the callers: requests are canonical, a job fails before its
    dispatch only, device transitions start from named live states. *)
Definition allowed (d : db) (c : call) : Prop :=
  match c with
  | CreateJob request _ _ _ _ => target_devices request <> []
  | FailPreDispatch id s _ _ _ => pre_dispatch d id s
  | TransitionDevice _ _ expected target fields _ _ => transition_allowed expected target fields
  | MarkReconciling _ _ expected _ _ _ => forall s, s ∈ expected -> s ∉ TERMINAL_DEVICE_STATES
  | _ => True
  end.

Definition step (d d' : db) : Prop := exists c o, allowed d c /\ exec c (Conn d None) = (o, Conn d' None).
Definition reachable (d : db) : Prop := rtc step initial_db d.

Lemma operation_run {A} (m : Op A) (P : db -> Prop) d :
  operation m (fun _ => P) d -> operation (run m) (fun _ => P) d.
Proof.
  intros Hm Hd. apply wp_bind. eapply wp_mono; [by apply Hm|].
  intros [a|e] c'; simpl; [intros; by apply wp_ret|done].
Qed.

Lemma exec_safe c d : allowed d c -> safe (exec c) d.
Proof.
  intros Ha Hw Hc. destruct c; simpl in Ha; apply operation_run.
  - by apply create_job_safe.
  - by apply start_upload_safe.
  - by apply mark_packaging_safe.
  - by apply publish_artifact_safe.
  - by apply fail_pre_dispatch_safe.
  - by apply enable_dispatch_safe.
  - by apply expire_created_safe.
  - by apply claim_next_safe.
  - by apply prepare_dispatch_safe.
  - by apply transition_device_safe.
  - by apply mark_dispatching_safe.
  - by apply mark_reconciling_safe.
  - by apply mark_acceptance_reconciling_safe.
  - by apply settle_result_safe.
  - by apply settle_late_fenced_result_safe.
  - by apply reconcile_report_safe.
  - by apply mark_unconfirmed_safe.
  - by apply add_opaque_fence_safe.
  - by apply clear_fence_on_process_replacement_safe.
  - by apply clear_matching_fence_safe.
  - by apply clear_matching_opaque_fence_safe.
  - by apply reconcile_missing_artifacts_safe.
  - by apply recover_startup_safe.
Qed.

Definition invariant (d : db) : Prop := constraints d /\ wf ∅ d.

Lemma initial_invariant : invariant initial_db.
Proof. split; [by apply (bool_decide_unpack _)|]. by split. Qed.

Lemma step_good d d' : invariant d -> step d d' -> invariant d' /\ history ∅ d d'.
Proof.
  intros [Hc Hw] (c & o & Ha & He). pose proof (exec_safe c d Ha Hw Hc Hc) as Hs.
  rw /wp He in Hs. destruct Hs as (_ & Hc' & Hg). simpl in *.
  destruct o as [[]|e]; [by destruct Hg|].
  destruct Hg as [->|[_ [? ?]]]; [|done]. split; [done|apply history_refl].
Qed.

Lemma steps_good d d' : invariant d -> rtc step d d' -> invariant d' /\ history ∅ d d'.
Proof.
  intros Hi Hs. induction Hs as [d|d d2 d3 Hstep _ IH]; [split; [done|apply history_refl]|].
  destruct (step_good _ _ Hi Hstep) as [Hi2 Hh]. destruct (IH Hi2) as [Hi3 Hh'].
  split; [done|]. eapply history_trans; [apply Hi|done..].
Qed.

Lemma reachable_invariant d : reachable d -> invariant d.
Proof. intros Hr. by eapply steps_good; [apply initial_invariant|]. Qed.
