(* ===== verification/Atomic.v ===== *)
(** * Atomicity of every call

    Whatever tables a call starts from, and whatever its caller does: no transaction
    is left open, the schema's constraints hold, and a call that raises has changed
    nothing, the expiry of an upload deadline apart. *)

From S2P Require Import Prelude PyStr Json PushJobs Domain Db Store Tx Manager Protocol Safety Steps.
Open Scope Z_scope.

Definition atomic {A} (m : Op A) : Prop := forall d, operation m (fun _ _ => True) d.

Lemma runs_any {A} (m : Op A) (K : A -> db -> Prop) d :
  runs m (fun _ _ => True) d -> (forall a d', K a d') -> runs m K d.
Proof. intros Hm HK. eapply runs_mono; [done|]. auto. Qed.

Lemma loop_any {A} (f : A -> Op unit) l (K : unit -> db -> Prop) d :
  (forall x d', runs (f x) (fun _ _ => True) d') -> (forall d', K tt d') -> runs (for_each f l) K d.
Proof. intros Hf HK. apply (runs_for_each _ (fun _ _ => True)); auto. Qed.
Lemma map_any {A B} (f : A -> Op B) l (K : list B -> db -> Prop) d :
  (forall x d', runs (f x) (fun _ _ => True) d') -> (forall bs d', K bs d') -> runs (map_each f l) K d.
Proof.
  intros Hf HK. apply (runs_map_each _ (fun _ _ => True) (fun _ _ => True)); auto.
  intros. eapply runs_mono; [apply Hf|done].
Qed.
Lemma insert_targets_any id p now start n targets d (K : unit -> db -> Prop) :
  (forall d', K tt d') -> runs (insert_targets id p now start n targets) K d.
Proof. intros. apply runs_insert_targets. auto. Qed.

(** A claim's update finds the row its query returned. *)
Lemma runs_claim d online k r now (K : Z -> db -> Prop) :
  next_claim d online = Some (k, r) -> K 1 (set_device k (claim_row now) d) ->
  runs (update_device_if k (fun r => bool_decide (d_state r = QUEUED)) (claim_row now)) K d.
Proof.
  intros Hn HK. destruct k as [id v]. apply next_claim_eligible in Hn as [Hr He].
  apply eligible_spec in He as (Hs & _). apply runs_update_device_if; [done|].
  intros Hx. specialize (Hx _ Hr). by rw Hs in Hx.
Qed.
Lemma claimed_row_exists d k f now1 now2 r :
  assignments d !! k = Some r ->
  is_Some (assignments (rederive_db k.1 now1 (set_job k.1 (bump_job now2) (set_device k f d))) !! k).
Proof. intros Hr. rw /rederive_db. repeat case_match; simpl; by rw lookup_alter_eq Hr. Qed.

(** Takes any operation apart, keeping nothing about its effect. *)
Ltac atomic_step :=
  match goal with
  | |- commits (publish_affected _ _ ≫= _) _ _ => apply commits_then
  | |- commits (publish_affected _ _) _ _ => unfold publish_affected
  | |- runs (_visible_job_ids _ _) _ _ => apply runs_visible
  | |- runs (for_each _ _) _ _ => apply loop_any
  | |- runs (insert_targets _ _ _ _ _ _) _ _ => apply insert_targets_any
  | |- runs (update_device_if _ _ (claim_row _)) _ _ => eapply runs_claim; [eassumption|]
  | |- runs (update_device_if _ _ _) _ _ => apply runs_update_device_if
  | |- runs (_next_enqueue_seq _) _ _ => unfold _next_enqueue_seq
  | |- runs (write _) _ _ => apply runs_write
  | |- runs (upsert_fence _ _) _ _ => apply runs_upsert_fence
  | |- runs (recover_job _ _) _ _ => unfold recover_job
  | |- runs (recover_device _ _ _ _) _ _ => unfold recover_device
  | |- runs (reconcile_row _ _ _ _ _ _) _ _ => unfold reconcile_row
  | |- runs (fail_missing _ _) _ _ => unfold fail_missing
  | |- runs (update_job_devices _ _ _) _ _ => apply runs_write
  | |- operation (select _ ≫= _) _ _ => apply operation_select
  | |- is_Some (assignments (rederive_db _ _ _) !! _) =>
      eapply claimed_row_exists; eapply next_claim_eligible; eassumption
  end.
Ltac solve_atomic :=
  repeat first [ done | progress intros | atomic_step | tx_step
               | match goal with |- runs (map_each _ _) _ _ => apply map_any end ].
Lemma claim_next_atomic online now : atomic (claim_next online now).
Proof.
  intros d. rw /claim_next. case_match; [by apply operation_ret|].
  apply operation_claim; [|done]. rw /claim_body. solve_atomic.
Qed.

Lemma exec_atomic c : atomic (exec c).
Proof.
  destruct c; intros d; apply operation_run;
    unfold create_job, start_upload, mark_packaging, _simple_job_transition, publish_artifact,
      fail_pre_dispatch, enable_dispatch, expire_created, prepare_dispatch,
      mark_dispatching, mark_reconciling, transition_device, mark_acceptance_reconciling,
      settle_result, settle_late_fenced_result, reconcile_report, mark_unconfirmed, add_opaque_fence,
      clear_fence_on_process_replacement, clear_matching_fence, clear_matching_opaque_fence,
      reconcile_missing_artifacts_sync, recover_startup_sync.
  8: apply claim_next_atomic.
  all: solve_atomic.
Qed.
