(* ===== verification/Lifecycle.v ===== *)
(** * What holds of every lifecycle

    The theorems about reachable tables and about the steps between them, with the
    sample lifecycle their witnesses use: one job for two devices, uploaded,
    dispatched, claimed for both devices, one result in, the other device lost. *)

From S2P Require Import Prelude PyStr Json PushJobs Domain Db Store Tx Manager Protocol Safety Steps Atomic.
From stdpp Require Import relations.
Open Scope Z_scope.

(** ** Running a list of calls *)

Definition after (c : call) (d : db) : db := data (exec c (Conn d None)).2.
Definition run_all (cs : list call) (d : db) : db := foldl (fun d c => after c d) d cs.

Fixpoint all_allowed (d : db) (cs : list call) : Prop :=
  match cs with
  | [] => True
  | c :: cs' => allowed d c /\ all_allowed (after c d) cs'
  end.

Lemma after_step c d : constraints d -> allowed d c -> step d (after c d).
Proof.
  intros Hc Ha. pose proof (exec_atomic c d Hc) as H. rw /wp /after in H |- *.
  destruct (exec c (Conn d None)) as [o [d' s]] eqn:E. destruct H as (Hs & _). simpl in *. subst s.
  by exists c, o.
Qed.

Lemma run_all_steps cs d : invariant d -> all_allowed d cs -> rtc step d (run_all cs d).
Proof.
  induction cs as [|c cs IH] in d |- *; intros Hi Ha; [done|]. destruct Ha as [Ha Hcs].
  assert (step d (after c d)) as Hs by (apply after_step; [apply Hi|done]).
  eapply rtc_l; [done|]. apply IH; [by eapply step_good|done].
Qed.

(** ** A sample lifecycle *)

Definition sample_request : canonical_create_request :=
  CanonicalCreateRequest (u "request-1") [u "headset-1"; u "headset-2"] PUSH (u "/sdcard/show")
    (CanonicalSource (u "show") 1 10) (u "fingerprint-1").
Definition sample_protocols : gmap pystr (protocol_mode * gset pystr) :=
  <[u "headset-1" := (JOB_V1, {[CAP_PUSH_JOB_ID_V1]})]> {[u "headset-2" := (JOB_V1, {[CAP_PUSH_JOB_ID_V1]})]}.
Definition sample_artifact : artifact :=
  Artifact (u "artifact-1") (u "artifact-1.zip") (u "show.zip") 10 (u "digest") 1.
Definition sample_online : gset pystr := {[u "headset-1"; u "headset-2"]}.

(** Up to the dispatch. *)
Definition upload_calls : list call :=
  [CreateJob sample_request sample_protocols 600 100 (u "job-1");
   StartUpload (u "job-1") 101;
   MarkPackaging (u "job-1") 1 10 102 102;
   PublishArtifact (u "job-1") sample_artifact 103;
   EnableDispatch (u "job-1") 104].
(** The first device finishes, the second is given up. *)
Definition dispatch_calls : list call :=
  [ClaimNext sample_online 105;
   PrepareDispatch (u "job-1") (u "headset-1") JOB_V1 {[CAP_PUSH_JOB_ID_V1]} (Some 200) 106;
   ClaimNext sample_online 107;
   PrepareDispatch (u "job-1") (u "headset-2") JOB_V1 {[CAP_PUSH_JOB_ID_V1]} (Some 200) 108;
   SettleResult (u "job-1") (u "headset-1") 1 (u "success") (Result 1 0 0 None None) 109;
   MarkReconciling (u "job-1") (u "headset-2") [DISPATCHING] (u "device_disconnect") 300 110;
   MarkUnconfirmed (u "job-1") (u "headset-2") None (u "lost") (Some 300) None 301].

Definition dispatched_db : db := run_all upload_calls initial_db.
Definition claimed_db : db := run_all (take 4 dispatch_calls) dispatched_db.
Definition finished_db : db := run_all dispatch_calls dispatched_db.

Lemma dispatched_steps : rtc step initial_db dispatched_db.
Proof. apply run_all_steps; [apply initial_invariant|]. by repeat split. Qed.
Lemma dispatched_invariant : invariant dispatched_db.
Proof. by eapply steps_good; [apply initial_invariant|apply dispatched_steps]. Qed.
Lemma claimed_steps : rtc step dispatched_db claimed_db.
Proof. apply run_all_steps; [apply dispatched_invariant|]. by repeat split. Qed.
Lemma claimed_finished_steps : rtc step claimed_db finished_db.
Proof.
  assert (finished_db = run_all (drop 4 dispatch_calls) claimed_db) as ->.
  { rw /finished_db /claimed_db /run_all -foldl_app. by rw take_drop. }
  apply run_all_steps; [by eapply steps_good; [apply dispatched_invariant|apply claimed_steps]|].
  split; [done|]. split; [|by split]. intros s ->%list_elem_of_singleton. decided.
Qed.
Lemma reachable_dispatched : reachable dispatched_db.
Proof. apply dispatched_steps. Qed.
Lemma reachable_claimed : reachable claimed_db.
Proof. unfold reachable. etrans; [apply dispatched_steps|apply claimed_steps]. Qed.
Lemma reachable_finished : reachable finished_db.
Proof. unfold reachable. etrans; [apply reachable_claimed|apply claimed_finished_steps]. Qed.

(** A row of evaluated tables that passes a test. *)
Lemma find_row {K V} `{Countable K} (m : gmap K V) (k : K) (p : V -> bool) :
  from_option p false (m !! k) = true -> exists r, m !! k = Some r /\ p r = true.
Proof. destruct (m !! k) as [r|]; simpl; [by exists r|done]. Qed.
Ltac evaluated := vm_compute; reflexivity.

(** ** Reachable tables *)

(** C6: Whatever tables a call starts from and whatever its arguments: it leaves no
    transaction open and no constraint broken, and when it raises it has changed
    nothing, unless it raises the expiry of an upload deadline, which is committed. *)
Theorem call_is_atomic c d o d' s :
  constraints d -> exec c (Conn d None) = (o, Conn d' s) ->
  s = None /\ constraints d' /\
  forall e, o = Raise e -> deadline_expired e = false -> d' = d.
Proof.
  intros Hc He. pose proof (exec_atomic c d Hc) as H. rw /wp He in H.
  destruct H as (Hs & Hd & Ho). simpl in *. split_and!; [done..|].
  intros e -> Hx. destruct Ho as [|[Hy _]]; [done|congruence].
Qed.
Lemma call_is_atomic_witness :
  exists o d', exec (FailPreDispatch (u "job-2") J_FAILED [] [] 1) (Conn dispatched_db None)
               = (Raise o, Conn d' None) /\ d' = dispatched_db.
Proof.
  pose proof (fun o d' s => call_is_atomic (FailPreDispatch (u "job-2") J_FAILED [] [] 1) dispatched_db
    (Raise o) d' s (proj1 dispatched_invariant)) as H.
  exists (StoreNotFound (u "job-2")), dispatched_db. split; [|done].
  assert (exec (FailPreDispatch (u "job-2") J_FAILED [] [] 1) (Conn dispatched_db None)
          = (Raise (StoreNotFound (u "job-2")), Conn dispatched_db None)) as E by (vm_compute; reflexivity).
  by destruct (H _ _ _ E) as (_ & _ & _).
Defined.

(** C1: In reachable tables a job's state agrees with its devices: a reconciling job
    has a reconciling device and a running one has none, a succeeded job has only
    succeeded devices, one that completed with errors only finished ones, and a
    device is at work only for a running or reconciling job. *)
Theorem job_state_agrees d id j :
  reachable d -> jobs d !! id = Some j ->
  (j_state j = J_RECONCILING -> has_state d id RECONCILING) /\
  (j_state j = J_RUNNING -> ~ has_state d id RECONCILING) /\
  (j_state j = J_SUCCEEDED -> forall t, has_state d id t -> t = SUCCEEDED) /\
  (j_state j = J_COMPLETED_WITH_ERRORS -> forall t, has_state d id t -> t ∈ TERMINAL_DEVICE_STATES) /\
  (forall t, has_state d id t -> t ∈ ACTIVE_DEVICE_STATES ->
     j_state j = J_RUNNING \/ j_state j = J_RECONCILING).
Proof.
  intros [_ Hw]%reachable_invariant Hj. pose proof (w_settled _ _ Hw _ _ Hj) as Hs.
  destruct (w_step _ _ Hw _ _ (not_elem_of_empty id) Hj) as [H1 H2]. split_and!; [done|done| | |].
  - intros Hst t Ht%device_states_spec. pose proof (ss_finished _ _ _ Hs) as Hf. rw Hst in Hf.
    destruct Hf as [_ Hall]; [set_solver|]. by apply Hall.
  - intros Hst t Ht%device_states_spec. pose proof (ss_finished _ _ _ Hs) as Hf. rw Hst in Hf.
    eapply derives_terminal; [by apply Hf; set_solver|set_solver|done].
  - intros t (v & r & Hr & <-) Ha. by eapply active_job.
Qed.
Lemma job_state_agrees_witness :
  exists j, jobs claimed_db !! u "job-1" = Some j /\
    (j_state j = J_RUNNING -> ~ has_state claimed_db (u "job-1") RECONCILING).
Proof.
  destruct (find_row (jobs claimed_db) (u "job-1") (fun _ => true)) as (j & Hj & _); [evaluated|].
  exists j. split; [assumption|].
  exact (proj1 (proj2 (job_state_agrees claimed_db (u "job-1") j reachable_claimed Hj))).
Defined.


(** A job that is ready, dispatched or finished has an artifact, recorded in the
    artifact table; one that is still uploading has none; and a job or an assignment
    carries a terminal time exactly when it is in a terminal state. *)
Theorem records_complete d id j :
  reachable d -> jobs d !! id = Some j ->
  (published (j_state j) -> exists a row, j_artifact_id j = Some a /\ artifacts d !! a = Some row) /\
  (unpublished (j_state j) -> j_artifact_id j = None) /\
  (is_Some (j_terminal_at j) <-> j_state j ∈ TERMINAL_JOB_STATES) /\
  (forall v r, assignments d !! (id, v) = Some r ->
     is_Some (d_terminal_at r) <-> d_state r ∈ TERMINAL_DEVICE_STATES).
Proof.
  intros [Hc Hw]%reachable_invariant Hj. destruct (w_job _ _ Hw _ _ Hj). split_and!; try done.
  - intros [a Ha]%jw_published. exists a. pose proof (c_job_artifact _ Hc _ _ Hj) as Href.
    rw /refers Ha in Href. destruct Href as [row ?]. by exists row.
  - intros v r Hr. by apply (w_device _ _ Hw _ _ Hr).
Qed.
Lemma records_complete_witness :
  exists j a row, jobs claimed_db !! u "job-1" = Some j /\ j_artifact_id j = Some a /\
    artifacts claimed_db !! a = Some row.
Proof.
  destruct (find_row (jobs claimed_db) (u "job-1") (fun j => bool_decide (published (j_state j))))
    as (j & Hj & Hp%bool_decide_eq_true_1); [evaluated|].
  destruct (proj1 (records_complete claimed_db (u "job-1") j reachable_claimed Hj) Hp) as (a & row & ? & ?).
  exists j, a, row. split_and!; assumption.
Defined.

(** C14: A device is fenced off by a job of this server only when its execution of that
    job was given up as unconfirmed. *)
Theorem fence_blocks_given_up d v f b :
  reachable d -> fences d !! v = Some f -> f_blocking_job_id f = Some b ->
  exists r, assignments d !! (b, v) = Some r /\ d_state r = UNCONFIRMED.
Proof.
  intros [_ Hw]%reachable_invariant Hf Hb. pose proof (w_fence _ _ Hw _ _ Hf) as H.
  by rw /fence_wf Hb in H.
Qed.
Lemma fence_blocks_given_up_witness :
  exists f, fences finished_db !! u "headset-2" = Some f /\
  exists r, assignments finished_db !! (u "job-1", u "headset-2") = Some r /\ d_state r = UNCONFIRMED.
Proof.
  destruct (find_row (fences finished_db) (u "headset-2")
    (fun f => bool_decide (f_blocking_job_id f = Some (u "job-1")))) as (f & Hf & Hb%bool_decide_eq_true_1); [evaluated|].
  exists f. split; [assumption|].
  exact (fence_blocks_given_up finished_db (u "headset-2") f (u "job-1") reachable_finished Hf Hb).
Defined.

(** ** Between two moments of a lifecycle *)

Lemma reachable_history d d' : reachable d -> rtc step d d' -> invariant d /\ history ∅ d d'.
Proof. intros Hr%reachable_invariant Hs. split; [done|]. by eapply steps_good. Qed.

(** C2: The outcome of an assignment is final: once it has succeeded, failed, been
    interrupted or been given up, its row never changes again. *)
Theorem outcome_is_final d d' k r :
  reachable d -> rtc step d d' -> assignments d !! k = Some r -> terminal_row r ->
  assignments d' !! k = Some r.
Proof.
  intros Hr Hs Hk Ht. destruct (reachable_history _ _ Hr Hs) as [_ HH].
  destruct (h_row _ _ _ HH _ _ Hk) as (r' & Hk' & [] & _). by rw -(de_frozen Ht).
Qed.
Lemma outcome_is_final_witness :
  exists r, terminal_row r /\ assignments finished_db !! (u "job-1", u "headset-2") = Some r.
Proof.
  destruct (find_row (assignments finished_db) (u "job-1", u "headset-2")
    (fun r => bool_decide (terminal_row r))) as (r & Hr & Ht%bool_decide_eq_true_1); [evaluated|].
  exists r. split; [assumption|].
  exact (outcome_is_final finished_db finished_db _ r reachable_finished (rtc_refl _ _) Hr Ht).
Defined.

(** C23: Nothing is lost and nothing is rewritten: a job keeps its identity, its
    request and its declared size, an assignment its place in the queue, and an
    artifact stays what it was; a job follows the transition table and keeps the
    first artifact it gets. *)
Theorem records_are_durable d d' :
  reachable d -> rtc step d d' ->
  (forall id j, jobs d !! id = Some j -> exists j', jobs d' !! id = Some j' /\
     job_fixed j j' /\ rtc job_edge (j_state j) (j_state j') /\ sticky (j_artifact_id j) (j_artifact_id j')) /\
  (forall k r, assignments d !! k = Some r -> exists r', assignments d' !! k = Some r' /\
     device_fixed r r' /\ rtc device_edge (d_state r) (d_state r')) /\
  artifacts d ⊆ artifacts d'.
Proof.
  intros Hr Hs. destruct (reachable_history _ _ Hr Hs) as [_ HH]. split_and!.
  - intros id j Hj. destruct (h_job _ _ _ HH _ _ Hj) as (j' & ? & []). by exists j'.
  - intros k r Hk. destruct (h_row _ _ _ HH _ _ Hk) as (r' & ? & [] & _). by exists r'.
  - apply map_subseteq_spec. apply HH.
Qed.
Lemma records_are_durable_witness : artifacts claimed_db ⊆ artifacts finished_db.
Proof.
  exact (proj2 (proj2 (records_are_durable claimed_db finished_db reachable_claimed claimed_finished_steps))).
Defined.

(** C9: Every change of a job or of one of its assignments is visible as a greater
    revision of the job, so a client that keeps the greatest revision misses none. *)
Theorem changes_raise_revision d d' id j :
  reachable d -> rtc step d d' -> jobs d !! id = Some j ->
  exists j', jobs d' !! id = Some j' /\
    (j_revision j < j_revision j' \/
     (j' = j /\ forall v r, assignments d !! (id, v) = Some r -> assignments d' !! (id, v) = Some r)).
Proof.
  intros Hr Hs Hj. destruct (reachable_history _ _ Hr Hs) as [_ HH].
  destruct (h_job _ _ _ HH _ _ Hj) as (j' & Hj' & []). exists j'. split; [done|].
  destruct je_revision as [->|]; [|by left]. right. split; [done|]. intros v r Hk.
  destruct (h_row _ _ _ HH _ _ Hk) as (r' & Hk' & _ & [->|[?|(ja & jb & Ha & Hb & ?)]]); [done|set_solver|].
  simpl in *. simplify_eq. lia.
Qed.
Lemma changes_raise_revision_witness :
  exists j j', jobs claimed_db !! u "job-1" = Some j /\ jobs finished_db !! u "job-1" = Some j' /\
    (j_revision j < j_revision j' \/ j' = j).
Proof.
  destruct (find_row (jobs claimed_db) (u "job-1") (fun _ => true)) as (j & Hj & _); [evaluated|].
  destruct (changes_raise_revision claimed_db finished_db (u "job-1") j reachable_claimed
    claimed_finished_steps Hj) as (j' & Hj' & Hcase).
  exists j, j'. split; [assumption|]. split; [assumption|]. destruct Hcase as [|[? _]]; auto.
Defined.

(** The queue is in creation order: an assignment made later has a greater place
    than every assignment that existed before, and keeps it. *)
Theorem queue_in_creation_order d d' k r k' r' :
  reachable d -> rtc step d d' -> assignments d !! k = Some r ->
  assignments d !! k' = None -> assignments d' !! k' = Some r' ->
  exists r1, assignments d' !! k = Some r1 /\ d_enqueue_seq r1 < d_enqueue_seq r'.
Proof.
  intros Hr Hs Hk Hn Hk'. destruct (reachable_history _ _ Hr Hs) as [[_ Hw] HH].
  destruct (h_row _ _ _ HH _ _ Hk) as (r1 & ? & [[]] & _). exists r1. split; [done|].
  pose proof (h_new _ _ _ HH _ _ Hn Hk'). destruct (w_device _ _ Hw _ _ Hk). lia.
Qed.

(** A second job for the same two devices, and its place behind the first. *)
Definition second_request : canonical_create_request :=
  CanonicalCreateRequest (u "request-2") [u "headset-1"; u "headset-2"] SYNC (u "/sdcard/show")
    (CanonicalSource (u "show") 2 20) (u "fingerprint-2").
Definition queued_db : db :=
  after (CreateJob second_request sample_protocols 600 120 (u "job-2")) claimed_db.
Lemma queued_step : step claimed_db queued_db.
Proof. apply after_step; [apply reachable_invariant, reachable_claimed|done]. Qed.
Lemma queue_in_creation_order_witness :
  exists r1 r', assignments queued_db !! (u "job-1", u "headset-1") = Some r1 /\
    assignments queued_db !! (u "job-2", u "headset-1") = Some r' /\ d_enqueue_seq r1 < d_enqueue_seq r'.
Proof.
  destruct (find_row (assignments claimed_db) (u "job-1", u "headset-1") (fun _ => true)) as (r & Hr & _); [evaluated|].
  destruct (find_row (assignments queued_db) (u "job-2", u "headset-1") (fun _ => true)) as (r' & Hr' & _); [evaluated|].
  assert (assignments claimed_db !! (u "job-2", u "headset-1") = None) as Hn by evaluated.
  destruct (queue_in_creation_order claimed_db queued_db _ r _ r' reachable_claimed (rtc_once _ _ queued_step)
    Hr Hn Hr') as (r1 & Hr1 & Hlt).
  exists r1, r'. split_and!; assumption.
Defined.
