(* ===== verification/Queue.v ===== *)
(** * The dispatch queue

    What [claim_next] takes from the queue, and that it never fails to: on reachable
    tables it returns the eligible assignment with the least place, or nothing when
    none is eligible. *)

From S2P Require Import Prelude PyStr Json PushJobs Domain Db Store Tx Manager Protocol Safety Steps Lifecycle.
From stdpp Require Import relations.
Open Scope Z_scope.

(** ** Writes that keep the constraints *)

Lemma constraints_set_job id f d :
  (forall j, j_client_request_id (f j) = j_client_request_id j /\ j_artifact_id (f j) = j_artifact_id j) ->
  constraints d -> constraints (set_job id f d).
Proof.
  intros Hf Hc. assert (forall id' j', jobs (set_job id f d) !! id' = Some j' ->
    exists j, jobs d !! id' = Some j /\ j_client_request_id j' = j_client_request_id j /\
              j_artifact_id j' = j_artifact_id j) as Hinv.
  { intros id' j'. rw lookup_set_job. case_decide; [|by eauto].
    intros (j & Hj & ->)%fmap_Some. exists j. by destruct (Hf j). }
  destruct Hc. split; try done.
  - intros id1 j1 (ja & Ha & Hra & _)%Hinv id2 j2 (jb & Hb & Hrb & _)%Hinv _. rw Hra Hrb.
    intros He. apply (c_client_request _ _ Ha _ _ Hb); [by eexists|done].
  - intros k r Hr. apply set_job_dom. by apply (c_assignment_job _ _ Hr).
  - intros id' j' (j & Hj & _ & Ha)%Hinv. rw Ha. by apply (c_job_artifact _ _ Hj).
  - intros v fe Hfe. specialize (c_fence_job _ _ Hfe). rw /refers in c_fence_job |- *.
    destruct (f_blocking_job_id fe); [|done]. by apply set_job_dom.
Qed.

Lemma constraints_set_device id v f d :
  (forall r, assignments d !! (id, v) = Some r -> d_enqueue_seq (f r) = d_enqueue_seq r /\ d_attempt (f r) = d_attempt r) ->
  (forall r id' r', assignments d !! (id, v) = Some r -> active (f r) ->
     assignments d !! (id', v) = Some r' -> active r' -> id' = id) ->
  constraints d -> constraints (set_device (id, v) f d).
Proof.
  intros Hf Ha [].
  assert (forall k r', assignments (set_device (id, v) f d) !! k = Some r' ->
    exists r, assignments d !! k = Some r /\ (r' = r \/ (k = (id, v) /\ r' = f r))) as Hinv.
  { intros k r'. rw /set_device /= lookup_alter. case_decide; [|by eauto]. subst.
    intros (r & ? & ?)%fmap_Some. eauto. }
  split; try done.
  - intros k1 r1 (ra & Hra & Hca)%Hinv k2 r2 (rb & Hrb & Hcb)%Hinv. rw /active_key.
    case_bool_decide as Ha1; [|by intros [? [=]]]. case_bool_decide as Ha2; [|done]. intros _ [= Hv].
    destruct k1 as [i1 v1], k2 as [i2 v2]. simpl in Hv. subst v2.
    destruct Hca as [->|[[= -> ->] ->]], Hcb as [->|[[= ->] ->]]; try done.
    + pose proof (c_active_index _ _ Hra _ _ Hrb) as HU. rw /active_key !bool_decide_eq_true_2 // in HU.
      by apply HU; [eexists|].
    + subst. f_equal. by apply (Ha rb i1 ra).
    + subst. f_equal. symmetry. by apply (Ha ra i2 rb).
  - intros k1 r1 (ra & Hra & Hca)%Hinv k2 r2 (rb & Hrb & Hcb)%Hinv _ [= He].
    apply (c_enqueue_seq _ _ Hra _ _ Hrb); [by eexists|]. f_equal.
    destruct Hca as [->|[-> ->]], Hcb as [->|[-> ->]]; try done;
      repeat match goal with H : assignments d !! (id, v) = Some _ |- _ => apply Hf in H as [? _] end; congruence.
  - intros k r' (r & Hr & _)%Hinv. by apply (c_assignment_job _ _ Hr).
  - intros k r' (r & Hr & [->|[-> ->]])%Hinv; [by apply (c_attempt _ _ Hr)|].
    destruct (Hf _ Hr) as [_ ->]. by apply (c_attempt _ _ Hr).
Qed.

Lemma constraints_rederive id now d : constraints d -> constraints (rederive_db id now d).
Proof. intros Hc. rw /rederive_db. repeat case_match; try done. by apply constraints_set_job. Qed.

(** ** Evaluating statements *)

Lemma write_eval f d s : constraints (f d) -> write f (Conn d s) = (Ret tt, Conn (f d) s).
Proof. intros H. rw /write /=. by case_bool_decide. Qed.

Lemma eval_bind {A B} (m : Op A) (k : A -> Op B) c a c' :
  m c = (Ret a, c') -> (m ≫= k) c = k a c'.
Proof. intros E. by rw /mbind /M_bind E. Qed.

Create HintDb evals.
Lemma select_eval {A} (q : db -> A) d s : select q (Conn d s) = (Ret (q d), Conn d s).
Proof. done. Qed.
(** Runs the [select] in front. *)
Ltac evals_select := erewrite (eval_bind (select _)); [|apply select_eval]; cbv beta.

Ltac evals := repeat first
  [ erewrite eval_bind; [|reflexivity]
  | erewrite eval_bind; [|solve [eauto with evals]] ]; cbv beta.
#[export] Hint Resolve write_eval : evals.

Lemma rederive_eval id now d s j X :
  constraints d -> wf X d -> jobs d !! id = Some j ->
  _rederive_job id now (Conn d s) = (Ret tt, Conn (rederive_db id now d) s).
Proof.
  intros Hc Hw Hj. rw /_rederive_job. evals.
  erewrite eval_bind; [|rw /= Hj; reflexivity]. cbv zeta.
  pose proof (w_settled _ _ Hw _ _ Hj) as Hs.
  destruct (derive_total (device_states d id)) as [t Ht].
  { destruct (ss_devices _ _ _ Hs) as [q Hin]. apply device_states_spec in Hin.
    intros Hn; rw Hn in Hin; inversion Hin. }
  rw /rederive_db Hj Ht. case_bool_decide as Hq.
  - by rw decide_True; [|left].
  - evals. erewrite eval_bind; [|rw /= Ht; reflexivity]. cbv beta. case_bool_decide as He.
    + by rw decide_True; [|right].
    + rw decide_False; [|by intros [|]]. apply write_eval. by apply constraints_set_job.
Qed.

(** ** The order of the queue *)

Lemma order_by_min {A} (key : A -> Z) (l : list A) x :
  head (order_by key l) = Some x -> x ∈ l /\ forall y, y ∈ l -> key x <= key y.
Proof.
  intros Hh. assert (x ∈ order_by key l) as Hx by by apply head_Some_elem_of.
  assert (order_by key l ≡ₚ l) as Hp by apply merge_sort_Permutation.
  split; [by rw -Hp|]. intros y Hy. rw -Hp in Hy.
  assert (StronglySorted (key_order key) (order_by key l)) as Hs.
  { apply StronglySorted_merge_sort; intros ?**; unfold key_order in *; lia. }
  destruct (order_by key l) as [|z l']; [done|]. simplify_eq/=.
  apply StronglySorted_inv in Hs as [_ Hall].
  apply elem_of_cons in Hy as [->|Hy]; [lia|]. by eapply Forall_forall in Hall.
Qed.
Lemma order_by_nil {A} (key : A -> Z) (l : list A) : head (order_by key l) = None -> l = [].
Proof.
  intros Hh. assert (order_by key l ≡ₚ l) as Hp by apply merge_sort_Permutation.
  destruct (order_by key l); [by apply Permutation_nil in Hp|done].
Qed.

Lemma next_claim_some d online k r :
  next_claim d online = Some (k, r) ->
  assignments d !! k = Some r /\ eligible d online (k, r) = true /\
  forall k' r', assignments d !! k' = Some r' -> eligible d online (k', r') = true ->
    d_enqueue_seq r <= d_enqueue_seq r'.
Proof.
  intros [Hin Hmin]%order_by_min. apply list_elem_of_filter in Hin as [He Hr].
  split_and!; [by apply elem_of_map_to_list in Hr|done|]. intros k' r' Hr' He'.
  apply (Hmin (k', r')). apply list_elem_of_filter. split; [done|]. by apply elem_of_map_to_list.
Qed.
Lemma next_claim_none d online :
  next_claim d online = None ->
  forall k r, assignments d !! k = Some r -> eligible d online (k, r) = false.
Proof.
  intros Hn%order_by_nil k r Hr. destruct (eligible d online (k, r)) eqn:He; [|done].
  assert ((k, r) ∈ filter (fun kr => eligible d online kr = true) (assignment_rows d)) as Hin.
  { apply list_elem_of_filter. split; [done|]. by apply elem_of_map_to_list. }
  rw Hn in Hin. by apply elem_of_nil in Hin.
Qed.

(** ** The claim *)

Definition after_claim (k : pystr * pystr) (now : Z) (d : db) : db :=
  rederive_db k.1 now (set_job k.1 (bump_job now) (set_device k (claim_row now) d)).

Lemma no_active_other d v k r : has_active d v = false -> assignments d !! k = Some r -> k.2 = v -> ~ active r.
Proof.
  intros Hn Hr Hk Ha. rw /has_active in Hn. eapply existsb_notin in Hn.
  2: by apply elem_of_map_to_list. cbn [fst snd] in Hn. rw !bool_decide_eq_true_2 // in Hn.
Qed.

Lemma claim_constraints d online k r now :
  constraints d -> assignments d !! k = Some r -> eligible d online (k, r) = true ->
  constraints (set_device k (claim_row now) d).
Proof.
  intros Hc Hr He. destruct k as [id v]. apply eligible_spec in He as (_ & _ & _ & _ & Hn & _).
  apply constraints_set_device; [done| |done].
  intros r0 id' r' _ _ Hr' Ha. by destruct (no_active_other _ _ _ _ Hn Hr').
Qed.

Lemma claim_eval d online k r now snap :
  invariant d -> online <> ∅ -> next_claim d online = Some (k, r) ->
  snapshot_of (after_claim k now d) k.1 = Some snap ->
  claim_next online now (Conn d None) =
    (Ret (Some (k, claim_row now r, snap)), Conn (after_claim k now d) None).
Proof.
  intros [Hc Hw] Ho Hn Hsnap. pose proof (next_claim_some _ _ _ _ Hn) as (Hr & He & _).
  assert (constraints (set_device k (claim_row now) d)) as Hc1 by by eapply claim_constraints.
  assert (constraints (set_job k.1 (bump_job now) (set_device k (claim_row now) d))) as Hc2
    by by apply constraints_set_job.
  destruct k as [id v]. pose proof He as (Hq & _ & (j & Hj & _ & Hjs) & _)%eligible_spec.
  assert (wf {[id]} (set_job id (bump_job now) (set_device (id, v) (claim_row now) d))) as Hw2.
  { apply wf_bump. eapply (wf_rows ∅ {[id]} d id (alter (claim_row now) (id, v) (assignments d))); [done| |set_solver..].
    eapply rows_step_alter; [done|]. right. by eapply claim_row_step. }
  assert (exists j2, jobs (set_job id (bump_job now) (set_device (id, v) (claim_row now) d)) !! id = Some j2) as [j2 Hj2].
  { rw lookup_set_job decide_True // /= Hj. by eexists. }
  rw /claim_next. case_bool_decide; [done|]. erewrite eval_bind; [|reflexivity].
  rw /try_except /claim_body. evals_select. rw Hn. cbv beta iota.
  erewrite eval_bind.
  2:{ rw /update_device_if. evals_select. rw Hr. cbv beta iota.
      rw Hq bool_decide_eq_true_2 //. erewrite eval_bind; [|apply write_eval, Hc1]. reflexivity. }
  change (negb (Z.eqb 1 1)) with false. cbv iota. cbn [fst].
  erewrite eval_bind; [|apply write_eval, Hc2].
  erewrite eval_bind; [|by eapply rederive_eval].
  change (rederive_db id now (set_job id (bump_job now) (set_device (id, v) (claim_row now) d)))
    with (after_claim (id, v) now d).
  erewrite eval_bind; [|rw /_snapshot; evals_select; rw Hsnap; reflexivity].
  evals_select. erewrite eval_bind; [|reflexivity]. cbn [data].
  match goal with |- context [assignments ?x !! (id, v)] => change x with (after_claim (id, v) now d) end.
  assert (assignments (after_claim (id, v) now d) !! (id, v) = Some (claim_row now r)) as ->.
  { rw /after_claim /rederive_db. repeat case_match; simpl; by rw lookup_alter_eq Hr. }
  reflexivity.
Qed.

Lemma after_claim_snapshot d k r now :
  assignments d !! k = Some r -> constraints d -> exists snap, snapshot_of (after_claim k now d) k.1 = Some snap.
Proof.
  intros Hr Hc. assert (is_Some (jobs (after_claim k now d) !! k.1)) as [j Hj].
  { rw /after_claim /rederive_db. repeat case_match; rw ?set_job_dom;
      by apply (c_assignment_job _ Hc _ _ Hr). }
  rw /snapshot_of Hj /=. by eexists.
Qed.

Lemma after_claim_assignments d k r now :
  assignments d !! k = Some r ->
  assignments (after_claim k now d) = <[k := claim_row now r]> (assignments d).
Proof.
  intros Hr. assert (assignments (after_claim k now d) = alter (claim_row now) k (assignments d)) as ->.
  { rw /after_claim /rederive_db. by repeat case_match. }
  apply map_eq. intros k'. rw lookup_alter lookup_insert. case_decide; [subst; by rw Hr|done].
Qed.

(** [claim_next] never fails and never misses work: on reachable tables it either
    takes the eligible assignment with the least place in the queue, moves it and
    nothing else to [waiting_transfer], and returns the job's new snapshot, or no
    assignment is eligible and nothing changes. *)
Theorem claim_takes_first d online now :
  reachable d -> online <> ∅ ->
  (exists k r d' snap,
     claim_next online now (Conn d None) = (Ret (Some (k, claim_row now r, snap)), Conn d' None) /\
     assignments d !! k = Some r /\ eligible d online (k, r) = true /\
     (forall k' r', assignments d !! k' = Some r' -> eligible d online (k', r') = true ->
        d_enqueue_seq r <= d_enqueue_seq r') /\
     assignments d' = <[k := claim_row now r]> (assignments d) /\ snapshot_of d' k.1 = Some snap) \/
  ((forall k r, assignments d !! k = Some r -> eligible d online (k, r) = false) /\
   claim_next online now (Conn d None) = (Ret None, Conn d None)).
Proof.
  intros Hi%reachable_invariant Ho. destruct (next_claim d online) as [[k r]|] eqn:Hn.
  - left. destruct (next_claim_some _ _ _ _ Hn) as (Hr & He & Hmin).
    destruct (after_claim_snapshot d k r now Hr) as [snap Hsnap]; [apply Hi|].
    exists k, r, (after_claim k now d), snap.
    split_and!; [by apply claim_eval|done..|by apply after_claim_assignments|done].
  - right. split; [by apply next_claim_none|].
    rw /claim_next. case_bool_decide; [done|]. erewrite eval_bind; [|reflexivity].
    rw /try_except /claim_body. evals_select. by rw Hn.
Qed.
Lemma claim_takes_first_witness :
  exists k r d' snap, claim_next sample_online 105 (Conn dispatched_db None)
    = (Ret (Some (k, claim_row 105 r, snap)), Conn d' None) /\ eligible dispatched_db sample_online (k, r) = true.
Proof.
  destruct (claim_takes_first dispatched_db sample_online 105 reachable_dispatched) as
    [(k & r & d' & snap & Hc & _ & He & _)|[_ Hc]].
  - intros E. assert (bool_decide (sample_online = ∅) = false) as Hb by (vm_compute; reflexivity).
    by apply bool_decide_eq_false_1 in Hb.
  - exists k, r, d', snap. split; assumption.
  - exfalso. apply (f_equal (fun x => match x.1 with Ret (Some _) => true | _ => false end)) in Hc.
    vm_compute in Hc. discriminate Hc.
Defined.

Lemma claimed_is_eligible d online now k r snap d' :
  invariant d -> claim_next online now (Conn d None) = (Ret (Some (k, r, snap)), Conn d' None) ->
  exists r0, assignments d !! k = Some r0 /\ eligible d online (k, r0) = true /\ online <> ∅.
Proof.
  intros Hi He. rw /claim_next in He. case_bool_decide as Ho; [done|].
  destruct (next_claim d online) as [[k' r']|] eqn:Hn.
  - destruct (next_claim_some _ _ _ _ Hn) as (Hr & Hel & _).
    destruct (after_claim_snapshot d k' r' now Hr) as [s Hs]; [apply Hi|].
    pose proof (claim_eval d online k' r' now s Hi Ho Hn Hs) as E. rw /claim_next in E.
    rw bool_decide_eq_false_2 // in E. rw E in He. simplify_eq. eauto.
  - exfalso. erewrite eval_bind in He; [|reflexivity]. rw /try_except /claim_body in He.
    erewrite (eval_bind (select _)) in He; [|apply select_eval]. by rw Hn in He.
Qed.

(** The queue's minimum of a device. *)
Lemma min_queued_least d v s k r :
  min_queued_seq d v = Some s -> assignments d !! k = Some r -> k.2 = v -> d_state r = QUEUED ->
  job_in d k.1 NON_TERMINAL_JOB_VALUES = true -> s <= d_enqueue_seq r.
Proof.
  intros [_ Hmin]%order_by_min Hr Hv Hs Hj. apply Hmin.
  apply list_elem_of_fmap. exists (k, r). split; [done|]. apply list_elem_of_filter.
  split; [done|]. by apply elem_of_map_to_list.
Qed.

(** C28: A device receives its jobs in the order they were created, one at a time, and
    none while it is fenced off: the claimed assignment comes before every queued
    assignment of the same device whose job is not finished, even a paused one; the
    device has no execution under way and no fence, it is online, and the job is
    running with its dispatch enabled. *)
Theorem claim_respects_order_and_fences d online now id v r snap d' :
  reachable d -> claim_next online now (Conn d None) = (Ret (Some ((id, v), r, snap)), Conn d' None) ->
  v ∈ online /\ fences d !! v = None /\
  (forall id' r', assignments d !! (id', v) = Some r' -> ~ active r') /\
  (exists j, jobs d !! id = Some j /\ j_dispatch_enabled j = true /\
     (j_state j = J_RUNNING \/ j_state j = J_RECONCILING)) /\
  exists r0, assignments d !! (id, v) = Some r0 /\ d_state r0 = QUEUED /\
    forall id' r', assignments d !! (id', v) = Some r' -> d_state r' = QUEUED ->
      job_in d id' NON_TERMINAL_JOB_VALUES = true -> id' <> id -> d_enqueue_seq r0 < d_enqueue_seq r'.
Proof.
  intros Hi%reachable_invariant He. destruct (claimed_is_eligible _ _ _ _ _ _ _ Hi He) as (r0 & Hr & Hel & _).
  apply eligible_spec in Hel as (Hq & Hon & (j & Hj & Hen & Hjs) & Hf & Hn & Hmin).
  split_and!; [done|done| | |].
  - intros id' r' Hr'. by apply (no_active_other _ _ _ _ Hn Hr').
  - exists j. split_and!; [done..|]. set_solver.
  - exists r0. split_and!; [done..|]. intros id' r' Hr' Hq' Hjob Hne.
    pose proof (min_queued_least _ _ _ _ _ Hmin Hr' eq_refl Hq' Hjob).
    destruct Hi as [Hc _]. pose proof (c_enqueue_seq _ Hc _ _ Hr _ _ Hr' ltac:(by eexists)) as HU.
    destruct (decide (d_enqueue_seq r0 = d_enqueue_seq r')) as [E|]; [|lia].
    rw E in HU. by assert ((id, v) = (id', v)) as [= ->] by by apply HU.
Qed.
Lemma claim_respects_order_and_fences_witness :
  exists k r snap d', claim_next sample_online 105 (Conn dispatched_db None)
    = (Ret (Some (k, r, snap)), Conn d' None) /\ k.2 ∈ sample_online /\ fences dispatched_db !! k.2 = None.
Proof.
  destruct (claim_next sample_online 105 (Conn dispatched_db None)) as [[[[[[id v] r] snap]|]|e] [d' s]] eqn:E.
  - assert (s = None) as ->.
    { apply (f_equal (fun x => bool_decide (saved x.2 = None))) in E. vm_compute in E.
      by destruct s. }
    destruct (claim_respects_order_and_fences dispatched_db sample_online 105 id v r snap d'
      reachable_dispatched E) as (Hon & Hf & _).
    exists (id, v), r, snap, d'. split; [reflexivity|]. split; assumption.
  - exfalso. apply (f_equal (fun x => match x.1 with Ret (Some _) => true | _ => false end)) in E.
    vm_compute in E. discriminate E.
  - exfalso. apply (f_equal (fun x => match x.1 with Ret (Some _) => true | _ => false end)) in E.
    vm_compute in E. discriminate E.
Defined.
