(* ===== verification/Outcomes.v ===== *)
(** * What the operations answer

    The functional contracts a client of the store relies on: the first result of an
    execution wins and its repetition is acknowledged, creating a job twice with one
    request ID gives one job, an upload starts before its deadline or not at all,
    and a restart leaves nothing under way. *)

From S2P Require Import Prelude PyStr Json PushJobs Domain Db Store Tx Manager Protocol Safety Steps.
From S2P Require Import Lifecycle Queue.
From stdpp Require Import relations.
Open Scope Z_scope.

#[export] Instance result_eq_dec : EqDecision result.
Proof. solve_decision. Defined.

(** An operation's contract, on a run of it. *)
Lemma operation_run_ret {A} (m : Op A) C d a d' s :
  operation m C d -> constraints d -> m (Conn d None) = (Ret a, Conn d' s) ->
  s = None /\ C (Ret a) d'.
Proof. intros Hm Hc E. specialize (Hm Hc). rw /wp E in Hm. naive_solver. Qed.

(** ** Results *)

(** The states of a result's status. *)
Definition status_state (status : pystr) : device_state :=
  if streq status (u "success") then SUCCEEDED else FAILED.
Definition valid_status (status : pystr) : Prop := status = u "success" \/ status = u "fail".

(** The row an accepted result leaves. *)
Record has_result (row : device_row) (status : pystr) (res : result) : Prop := HasResult {
  hr_state : d_state row = status_state status;
  hr_same : same_result row res = true;
}.

Lemma same_result_refl target res now r : same_result (apply_result target res now r) res = true.
Proof. rw /same_result /=. by rw !bool_decide_eq_true_2. Qed.
Lemma same_result_unique row res res' : same_result row res = true ->
  same_result row res' = bool_decide (res' = res).
Proof.
  rw /same_result !andb_true_iff !bool_decide_eq_true. destruct res, res'; simpl.
  intros ((((-> & ->) & ->) & ->) & ->).
  apply eq_true_iff_eq. rw !andb_true_iff !bool_decide_eq_true. naive_solver.
Qed.

Lemma assignments_rederive id now d : assignments (rederive_db id now d) = assignments d.
Proof. rw /rederive_db. by repeat case_match. Qed.

Lemma accepted_result id v n status res now d :
  operation (settle_result id v n status res now) (fun o d' =>
    match o with
    | Ret (true, _, snap) => exists row, assignments d' !! (id, v) = Some row /\ has_result row status res /\
        d_attempt row = n /\ n = 1 /\ snapshot_of d' id = Some snap
    | _ => True
    end) d.
Proof.
  rw /settle_result. tx; try done; apply Z.eqb_eq in H; apply negb_false_iff, Z.eqb_eq in Heqb.
  - case_match eqn:Hsame; [|done]. apply andb_true_iff in Hsame as [Hs%bool_decide_eq_true_1 ?].
    exists a. by split_and!.
  - exists (apply_result (status_state status) res now a). split_and!; [|split|..]; try done.
    + by rw assignments_rederive /= lookup_alter_eq H1.
    + apply same_result_refl.
Qed.

(** A run of [settle_result] on a row that already has a result. *)
Lemma settled_again id v n status res now d row s :
  n = 1 -> valid_status status -> assignments d !! (id, v) = Some row -> d_attempt row = n ->
  is_terminal_device_state (d_state row) = true -> snapshot_of d id = Some s ->
  settle_result id v n status res now (Conn d None) =
    (let same := bool_decide (d_state row = status_state status) && same_result row res in
     Ret (same, if same then None else Some (u "conflicting_terminal_result"), s), Conn d None).
Proof.
  intros -> Hv Hr Ha Ht Hs. rw /settle_result. erewrite eval_bind; [|reflexivity].
  assert (streq status (u "success") || streq status (u "fail") = true) as ->
    by (by destruct Hv as [->| ->]).
  erewrite eval_bind; [|reflexivity]. cbv zeta. rw /transaction. erewrite eval_bind; [|reflexivity].
  rw /try_reraise. evals_select. erewrite eval_bind; [|rw Hr; reflexivity]. cbv beta.
  assert (negb (d_attempt row =? 1) = false) as -> by by rw Ha.
  rw Ht. erewrite eval_bind; [|rw /_snapshot; evals_select; rw Hs; reflexivity].
  reflexivity.
Qed.

(** C31: The first result of an execution wins.  Once a result is accepted, sending it
    again is accepted again with the same snapshot, and any other result is refused
    as conflicting; neither changes anything. *)
Theorem first_result_wins id v n status res now d r s d' :
  reachable d ->
  settle_result id v n status res now (Conn d None) = (Ret (true, r, s), Conn d' None) ->
  forall status' res' now', valid_status status' ->
    settle_result id v n status' res' now' (Conn d' None) =
      (let same := bool_decide (status_state status' = status_state status /\ res' = res) in
       Ret (same, if same then None else Some (u "conflicting_terminal_result"), s), Conn d' None).
Proof.
  intros [Hc _]%reachable_invariant E status' res' now' Hv.
  pose proof (operation_run_ret _ _ _ _ _ _ (accepted_result id v n status res now d) Hc E)
    as (_ & row & Hr & [Hst Hsame] & Ha & Hn & Hs).
  erewrite settled_again; [|done..| |done].
  2: { rw Hst /is_terminal_device_state /status_state. by case_match. }
  rw (same_result_unique _ _ res' Hsame) Hst.
  assert (bool_decide (status_state status = status_state status') && bool_decide (res' = res)
    = bool_decide (status_state status' = status_state status /\ res' = res)) as ->; [|done].
  apply eq_true_iff_eq. rw andb_true_iff !bool_decide_eq_true. naive_solver.
Qed.
Definition sample_result : result := Result 1 0 0 None None.
Lemma first_result_wins_witness :
  exists s d', settle_result (u "job-1") (u "headset-1") 1 (u "success") sample_result 109 (Conn claimed_db None)
      = (Ret (true, None, s), Conn d' None) /\
    settle_result (u "job-1") (u "headset-1") 1 (u "fail") sample_result 110 (Conn d' None)
      = (Ret (false, Some (u "conflicting_terminal_result"), s), Conn d' None).
Proof.
  destruct (settle_result (u "job-1") (u "headset-1") 1 (u "success") sample_result 109 (Conn claimed_db None))
    as [[[[b r] s]|e] [d' sv]] eqn:E.
  - assert (b = true /\ r = None /\ sv = None) as (-> & -> & ->).
    { apply (f_equal (fun x => match x.1 with
        | Ret (b, r, _) => (b, r, bool_decide (saved x.2 = None)) | Raise _ => (false, None, false) end)) in E.
      vm_compute in E. destruct sv; by simplify_eq. }
    exists s, d'. split; [reflexivity|].
    rw (first_result_wins _ _ _ _ _ _ _ _ _ _ reachable_claimed E (u "fail") sample_result 110 (or_intror eq_refl)).
    reflexivity.
  - exfalso. apply (f_equal (fun x => match x.1 with Ret _ => true | Raise _ => false end)) in E.
    vm_compute in E. discriminate E.
Defined.

(** ** Creation *)

Lemma job_for_request_spec d id j :
  constraints d -> jobs d !! id = Some j -> job_for_request d (j_client_request_id j) = Some (id, j).
Proof.
  intros Hc Hj. rw /job_for_request.
  destruct (head (filter _ (map_to_list (jobs d)))) as [[id' j']|] eqn:E.
  - apply head_Some_elem_of, list_elem_of_filter in E as [Hreq Hj'%elem_of_map_to_list]. simpl in Hreq.
    assert (id' = id) as -> by (apply (c_client_request _ Hc _ _ Hj' _ _ Hj); [by eexists|congruence]).
    congruence.
  - apply head_None in E. assert ((id, j) ∈ filter (fun jr => j_client_request_id jr.2 = j_client_request_id j)
      (map_to_list (jobs d))) as Hin.
    { apply list_elem_of_filter. split; [done|]. by apply elem_of_map_to_list. }
    rw E in Hin. by apply elem_of_nil in Hin.
Qed.

(** What a creation that returns leaves: the job of the request. *)
Lemma created_job request protocols timeout now fresh d :
  operation (create_job request protocols timeout now fresh) (fun o d' =>
    match o with
    | Ret (_, s) => exists id j, jobs d' !! id = Some j /\
        j_client_request_id j = client_request_id request /\
        j_request_fingerprint j = fingerprint request /\ snapshot_of d' id = Some s
    | Raise _ => True
    end) d.
Proof.
  rw /create_job. tx.
  - apply head_Some_elem_of, list_elem_of_filter in Heqo as [Hreq Hj'%elem_of_map_to_list].
    apply bool_decide_eq_true_1 in H. by exists p0, j.
  - rw /_next_enqueue_seq. tx. apply runs_write. intros _. tx. apply runs_insert_targets. intros A HA _. tx.
    exists fresh, (new_job request now (now + timeout)). split_and!; try done. simpl. by rw lookup_insert_eq.
Qed.

(** C32: Creation is idempotent on the client's request ID.  After a creation, another
    one with the same request ID and the same canonical request returns that job and
    creates nothing, and one with a different request is a conflict; whatever the
    clock, the fresh ID and the devices online are by then. *)
Theorem creation_is_idempotent request protocols timeout now fresh d b s d' :
  reachable d ->
  create_job request protocols timeout now fresh (Conn d None) = (Ret (b, s), Conn d' None) ->
  forall request' protocols' timeout' now' fresh',
    client_request_id request' = client_request_id request ->
    create_job request' protocols' timeout' now' fresh' (Conn d' None) =
      (if bool_decide (fingerprint request' = fingerprint request) then Ret (false, s)
       else Raise (StoreConflict (u "client_request_id was already used for a different request")),
       Conn d' None).
Proof.
  intros [Hc _]%reachable_invariant E request' protocols' timeout' now' fresh' Hreq.
  pose proof (created_job request protocols timeout now fresh d Hc) as Hop. rw /wp E in Hop.
  destruct Hop as (_ & Hc' & id & j & Hj & Hjr & Hjf & Hs). simpl in Hc', Hj, Hs.
  rw /create_job /transaction. erewrite eval_bind; [|reflexivity]. rw /try_reraise.
  evals_select. rw Hreq -Hjr (job_for_request_spec _ _ _ Hc' Hj). cbv beta iota.
  rw Hjf /streq (bool_decide_ext _ _ (conj (@eq_sym _ (fingerprint request) (fingerprint request')) (@eq_sym _ _ _))).
  case_bool_decide.
  - erewrite eval_bind; [|reflexivity]. erewrite eval_bind; [|rw /_snapshot; evals_select; rw Hs; reflexivity].
    reflexivity.
  - reflexivity.
Qed.
Lemma creation_is_idempotent_witness :
  exists s d', create_job sample_request sample_protocols 600 100 (u "job-1") (Conn initial_db None)
      = (Ret (true, s), Conn d' None) /\
    create_job sample_request ∅ 0 5000 (u "job-9") (Conn d' None) = (Ret (false, s), Conn d' None).
Proof.
  destruct (create_job sample_request sample_protocols 600 100 (u "job-1") (Conn initial_db None))
    as [[[b s]|e] [d' sv]] eqn:E.
  - assert (b = true /\ sv = None) as (-> & ->).
    { apply (f_equal (fun x => match x.1 with
        | Ret (b, _) => (b, bool_decide (saved x.2 = None)) | Raise _ => (false, false) end)) in E.
      vm_compute in E. destruct sv; by simplify_eq. }
    exists s, d'. split; [reflexivity|].
    rw (creation_is_idempotent _ _ _ _ _ _ _ _ _ (rtc_refl _ _) E sample_request ∅ 0 5000 (u "job-9") eq_refl).
    reflexivity.
  - exfalso. apply (f_equal (fun x => match x.1 with Ret _ => true | Raise _ => false end)) in E.
    vm_compute in E. discriminate E.
Defined.

(** ** The upload deadline *)

Definition upload_started (now : Z) (j : job_row) : job_row :=
  j <| j_state := J_UPLOADING |> <| j_revision := j_revision j + 1 |>
    <| j_upload_started_at := Some now |> <| j_updated_at := now |>.

Lemma snapshot_after_set_job d id j f :
  jobs d !! id = Some j -> exists s, snapshot_of (set_job id f d) id = Some s.
Proof. intros Hj. rw /snapshot_of lookup_set_job decide_True // Hj /=. by eexists. Qed.

(** An upload starts strictly before the job's creation deadline or not at all: in
    time the job is uploading, from the deadline on it is interrupted, which is
    committed and reported with its snapshot; a job that is not waiting for its upload
    is a conflict, an unknown one is not found, and neither changes anything. *)
Theorem upload_starts_in_time d id now :
  reachable d ->
  match jobs d !! id with
  | None => start_upload id now (Conn d None) = (Raise (StoreNotFound id), Conn d None)
  | Some j =>
      if decide (j_state j <> J_CREATED) then
        exists msg, start_upload id now (Conn d None) = (Raise (StoreConflict msg), Conn d None)
      else if now <? j_create_expires_at j then
        exists s, snapshot_of (set_job id (upload_started now) d) id = Some s /\
          start_upload id now (Conn d None) = (Ret s, Conn (set_job id (upload_started now) d) None)
      else
        exists s, snapshot_of (set_job id (upload_not_started now) d) id = Some s /\
          start_upload id now (Conn d None)
            = (Raise (UploadDeadlineExpired s), Conn (set_job id (upload_not_started now) d) None)
  end.
Proof.
  intros [Hc _]%reachable_invariant. rw /start_upload /transaction.
  erewrite eval_bind; [|reflexivity]. rw /try_reraise.
  rw (eval_bind _ _ _ _ _ (select_eval _ _ _)).
  destruct (jobs d !! id) as [j|] eqn:Hj; [|by rw Hj].
  erewrite eval_bind; [|rw Hj; reflexivity].
  case_bool_decide as Hs; (case_decide as Hd; [|]); try (by destruct Hd); try done.
  2: by eexists.
  erewrite eval_bind; [|reflexivity].
  rw Z.ltb_antisym. destruct (j_create_expires_at j <=? now); simpl negb; cbv iota.
  - destruct (snapshot_after_set_job d id j (upload_not_started now) Hj) as [s Hsnap]. exists s. split; [done|].
    erewrite eval_bind; [|apply write_eval; by apply (constraints_set_job id (upload_not_started now))].
    erewrite eval_bind; [|rw /_snapshot; evals_select; unfold set_job in Hsnap; rw Hsnap; reflexivity].
    reflexivity.
  - destruct (snapshot_after_set_job d id j (upload_started now) Hj) as [s Hsnap]. exists s. split; [done|].
    erewrite eval_bind; [|apply write_eval; by apply (constraints_set_job id (upload_started now))].
    erewrite eval_bind; [|rw /_snapshot; evals_select; unfold set_job in Hsnap; rw Hsnap; reflexivity].
    reflexivity.
Qed.
Definition created_db : db :=
  after (CreateJob sample_request sample_protocols 600 100 (u "job-1")) initial_db.
Lemma reachable_created : reachable created_db.
Proof. apply rtc_once, after_step; [apply initial_invariant|done]. Qed.
Lemma upload_starts_in_time_witness :
  exists s d', start_upload (u "job-1") 700 (Conn created_db None) = (Raise (UploadDeadlineExpired s), Conn d' None).
Proof.
  pose proof (upload_starts_in_time created_db (u "job-1") 700 reachable_created) as H.
  destruct (find_row (jobs created_db) (u "job-1")
    (fun j => bool_decide (j_state j = J_CREATED) && (j_create_expires_at j <=? 700))) as (j & Hj & Ht); [evaluated|].
  rw Hj in H. apply andb_true_iff in Ht as [Hs%bool_decide_eq_true_1 Hle%Z.leb_le].
  destruct (decide (j_state j <> J_CREATED)) as [Hn|]; [destruct (Hn Hs)|].
  destruct (Z.ltb_spec 700 (j_create_expires_at j)); [lia|].
  destruct H as (s & _ & H). exists s, (set_job (u "job-1") (upload_not_started 700) created_db). exact H.
Defined.
