(* ===== verification/Returns.v ===== *)
(** * Operations that return

    The logic of [Tx] says what holds when an operation returns; [succeeds] says that it
    does.  [recover_startup_returns] is the case the server depends on: the recovery of a
    restart never fails on tables that are well formed. *)

From S2P Require Import Prelude PyStr Json PushJobs Domain Db Store Tx Manager Protocol Safety Queue.
Open Scope Z_scope.

(** ** Operations that return *)

Definition succeeds {A} (m : Op A) (K : A -> db -> Prop) (d : db) : Prop :=
  constraints d -> forall s, exists a d', m (Conn d s) = (Ret a, Conn d' s) /\ constraints d' /\ K a d'.
(** The same for the body of a transaction, which commits. *)
Definition closes {A} (m : Op A) (K : A -> db -> Prop) (d : db) : Prop :=
  constraints d -> forall d0, exists a d', m (Conn d (Some d0)) = (Ret a, Conn d' None) /\ constraints d' /\ K a d'.

Section Succeeds.
Context {A B : Type}.
Implicit Types (K : A -> db -> Prop).

Lemma succeeds_given (m : Op A) K d : (constraints d -> succeeds m K d) -> succeeds m K d.
Proof. intros Hm Hc. by apply Hm. Qed.
Lemma succeeds_ret (a : A) K d : K a d -> succeeds (mret a) K d.
Proof. intros HK Hc s. by exists a, d. Qed.
Lemma succeeds_select (q : db -> A) K d : K (q d) d -> succeeds (select q) K d.
Proof. intros HK Hc s. by exists (q d), d. Qed.
Lemma succeeds_or_raise e (o : option A) K d : is_Some o -> (forall a, o = Some a -> K a d) -> succeeds (or_raise e o) K d.
Proof. intros [a ->] HK. apply succeeds_ret. by apply HK. Qed.
Lemma succeeds_write f (K : unit -> db -> Prop) d : (constraints d -> constraints (f d)) -> K tt (f d) -> succeeds (write f) K d.
Proof. intros Hf HK Hc s. exists tt, (f d). split; [by apply write_eval, Hf|]. split; [by apply Hf|done]. Qed.
Lemma succeeds_bind (m : Op B) (k : B -> Op A) K d : succeeds m (fun b => succeeds (k b) K) d -> succeeds (m ≫= k) K d.
Proof.
  intros Hm Hc s. destruct (Hm Hc s) as (b & d1 & E & Hc1 & Hk). destruct (Hk Hc1 s) as (a & d2 & E2 & H2).
  exists a, d2. by rw (eval_bind m k _ _ _ E).
Qed.
Lemma succeeds_mono (m : Op A) K K' d : succeeds m K d -> (forall a d', constraints d' -> K a d' -> K' a d') -> succeeds m K' d.
Proof. intros Hm HK Hc s. destruct (Hm Hc s) as (a & d' & E & Hc' & Ha). exists a, d'. auto. Qed.
Lemma closes_bind (m : Op B) (k : B -> Op A) K d : succeeds m (fun b => closes (k b) K) d -> closes (m ≫= k) K d.
Proof.
  intros Hm Hc d0. destruct (Hm Hc (Some d0)) as (b & d1 & E & Hc1 & Hk). destruct (Hk Hc1 d0) as (a & d2 & E2 & H2).
  exists a, d2. by rw (eval_bind m k _ _ _ E).
Qed.
Lemma closes_commit (a : A) K d : K a d -> closes (_commit ;; mret a) K d.
Proof. intros HK Hc d0. by exists a, d. Qed.
Lemma transaction_returns (m : Op A) K d : closes m K d -> constraints d ->
  exists a d', transaction m (Conn d None) = (Ret a, Conn d' None) /\ constraints d' /\ K a d'.
Proof.
  intros Hm Hc. destruct (Hm Hc d) as (a & d' & E & H). exists a, d'. split; [|done].
  rw /transaction. erewrite eval_bind; [|reflexivity]. by rw /try_reraise E.
Qed.
End Succeeds.

Lemma succeeds_for_each {A} (f : A -> Op unit) (I : list A -> db -> Prop) (l : list A) (K : unit -> db -> Prop) d :
  (forall done x rest d, l = done ++ x :: rest -> constraints d -> I done d -> succeeds (f x) (fun _ => I (done ++ [x])) d) ->
  I [] d -> (forall d', constraints d' -> I l d' -> K tt d') -> succeeds (for_each f l) K d.
Proof.
  intros Hf HI HK.
  assert (forall rest done d, l = done ++ rest -> I done d -> succeeds (for_each f rest) K d) as Hloop.
  { induction rest as [|x rest IH]; intros done d' Hl Hd; simpl.
    - apply succeeds_given. intros Hc. apply succeeds_ret, HK; [done|]. by rw Hl app_nil_r.
    - apply succeeds_bind, succeeds_given. intros Hc. eapply succeeds_mono; [by eapply Hf|].
      intros [] d'' _ Hd''. eapply IH; [|done]. by rw -app_assoc. }
  by eapply (Hloop l []).
Qed.
Lemma succeeds_map_each {A B} (f : A -> Op B) (P : A -> B -> Prop) (I : list A -> db -> Prop) (l : list A) (K : list B -> db -> Prop) d :
  (forall done x rest d, l = done ++ x :: rest -> constraints d -> I done d -> succeeds (f x) (fun b d' => P x b /\ I (done ++ [x]) d') d) ->
  I [] d -> (forall bs d', constraints d' -> Forall2 P l bs -> I l d' -> K bs d') -> succeeds (map_each f l) K d.
Proof.
  intros Hf HI HK.
  assert (forall rest done d (K' : list B -> db -> Prop), l = done ++ rest -> I done d ->
    (forall bs d', constraints d' -> Forall2 P rest bs -> I l d' -> K' bs d') -> succeeds (map_each f rest) K' d) as Hloop.
  { induction rest as [|x rest IH]; intros done d' K' Hl Hd HK'; simpl.
    - apply succeeds_given. intros Hc. apply succeeds_ret, HK'; [done|constructor|]. by rw Hl app_nil_r.
    - apply succeeds_bind, succeeds_given. intros Hc. eapply succeeds_mono; [by eapply Hf|].
      intros b d'' _ [Hb Hd'']. apply succeeds_bind. eapply (IH (done ++ [x])); [by rw -app_assoc|done|].
      intros bs d3 Hc3 Hbs Hd3. apply succeeds_ret, HK'; [done|by constructor|done]. }
  by eapply (Hloop l []).
Qed.

(** ** What the updates of a restart keep *)

(** Rows that move out of the index of active executions, or stay what they are for it. *)
Lemma constraints_rows A d :
  (forall k r', A !! k = Some r' -> exists r, assignments d !! k = Some r /\
     d_enqueue_seq r' = d_enqueue_seq r /\ d_attempt r' = d_attempt r /\ (active r' -> active r)) ->
  constraints d -> constraints (d <| assignments := A |>).
Proof.
  intros Hinv []. split; try done; simpl.
  - intros k1 r1 (ra & Hra & _ & _ & Ha)%Hinv k2 r2 (rb & Hrb & _ & _ & Hb)%Hinv. rw /active_key.
    case_bool_decide as Ha1; [|by intros [? [=]]]. case_bool_decide as Ha2; [|done]. intros _ [= Hv].
    apply (c_active_index _ _ Hra _ _ Hrb); rw /active_key !bool_decide_eq_true_2; try by auto. by rw Hv.
  - intros k1 r1 (ra & Hra & Hs1 & _)%Hinv k2 r2 (rb & Hrb & Hs2 & _)%Hinv _ He.
    apply (c_enqueue_seq _ _ Hra _ _ Hrb); [by eexists|]. congruence.
  - intros k r' (r & Hr & _)%Hinv. by apply (c_assignment_job _ _ Hr).
  - intros k r' (r & Hr & _ & Hn & _)%Hinv. rw Hn. by apply (c_attempt _ _ Hr).
Qed.

(** The jobs are the same, every one of them with a device. *)
Record manned (d0 d : db) : Prop := {
  m_jobs : forall id, is_Some (jobs d !! id) <-> is_Some (jobs d0 !! id);
  m_device : forall id, is_Some (jobs d !! id) -> exists t, has_state d id t;
}.
Lemma manned_refl d : wf ∅ d -> manned d d.
Proof. intros Hw. split; [done|]. intros id [j Hj]. by apply (ss_devices _ _ _ (w_settled _ _ Hw _ _ Hj)). Qed.
Lemma manned_set_job d0 id f d : manned d0 d -> manned d0 (set_job id f d).
Proof. intros [Hj Hd]. split; intros id'; rw set_job_dom; [apply Hj|apply Hd]. Qed.
Lemma manned_rederive d0 id now d : manned d0 d -> manned d0 (rederive_db id now d).
Proof. intros Hm. rw /rederive_db. repeat case_match; try done. by apply manned_set_job. Qed.

Lemma succeeds_rederive d0 id now (K : unit -> db -> Prop) d : manned d0 d -> is_Some (jobs d !! id) ->
  K tt (rederive_db id now d) -> succeeds (_rederive_job id now) K d.
Proof.
  intros Hm [j Hj] HK Hc s. exists tt, (rederive_db id now d). split; [|split; [by apply constraints_rederive|done]].
  rw /_rederive_job. evals. erewrite eval_bind; [|rw /= Hj; reflexivity]. cbv zeta.
  destruct (derive_total (device_states d id)) as [t Ht].
  { destruct (m_device _ _ Hm id) as [q Hin%device_states_spec]; [by eexists|]. intros Hn. rw Hn in Hin. inversion Hin. }
  rw /rederive_db Hj Ht. case_bool_decide as Hq; [by rw decide_True; [|left]|].
  evals. erewrite eval_bind; [|rw /= Ht; reflexivity]. cbv beta. case_bool_decide as He; [by rw decide_True; [|right]|].
  rw decide_False; [|by intros [|]]. apply write_eval. by apply constraints_set_job.
Qed.
Lemma succeeds_snapshot id (K : snapshot -> db -> Prop) d : is_Some (jobs d !! id) -> (forall s, K s d) -> succeeds (_snapshot id) K d.
Proof. intros [j Hj] HK. apply succeeds_bind, succeeds_select, succeeds_or_raise; [rw /snapshot_of Hj; by eexists|done]. Qed.
Lemma succeeds_update_job id f (K : unit -> db -> Prop) d :
  (forall j, j_client_request_id (f j) = j_client_request_id j /\ j_artifact_id (f j) = j_artifact_id j) ->
  K tt (set_job id f d) -> succeeds (update_job id f) K d.
Proof. intros Hf HK. apply succeeds_write; [|done]. intros Hc. by apply constraints_set_job. Qed.

(** ** Recovery returns *)

Lemma zip_keys {K B} (P : K * B -> Prop) `{forall kb, Decision (P kb)} (ks : list K) (bs : list B) k :
  k ∈ fst <$> filter P (zip ks bs) -> k ∈ ks.
Proof. intros ([k' b] & -> & [_ Hin]%list_elem_of_filter)%list_elem_of_fmap. by apply elem_of_zip_l in Hin. Qed.

Definition same_rows (d0 d : db) : Prop := assignments d = assignments d0.
Lemma recover_job_returns now d0 jr d : manned d0 d ->
  succeeds (recover_job now jr) (fun _ d' => True /\ manned d0 d' /\ same_rows d d') d.
Proof.
  intros Hm. destruct jr as [id row]. rw /recover_job.
  repeat case_match; apply succeeds_given; intros Hc.
  4: by apply succeeds_ret.
  all: apply succeeds_bind, succeeds_update_job, succeeds_ret; [done|]; split_and!; [done|by apply manned_set_job|done].
Qed.

(** A row that recovery changes is active, unless it only waited for a slot. *)
Lemma recover_row_active t1 t2 now r r' : recover_row t1 t2 now r = Some r' ->
  d_enqueue_seq r' = d_enqueue_seq r /\ d_attempt r' = d_attempt r /\ (active r' -> active r).
Proof.
  rw /recover_row. destruct (d_state r) eqn:E; try done; [| | | | |destruct (d_accepted_at r)]; intros [= <-]; split_and!; try done;
    rw /active ?E; intros _; by apply (bool_decide_unpack _).
Qed.
(** The rows from [rest] on are those of [d0]. *)
Definition recovering (d0 : db) (rest : list ((pystr * pystr) * device_row)) (d : db) : Prop :=
  manned d0 d /\ forall k r, (k, r) ∈ rest -> assignments d !! k = Some r.
Lemma recover_device_returns t1 t2 now d0 k r rest d : NoDup ((k, r) :: rest).*1 -> recovering d0 ((k, r) :: rest) d ->
  succeeds (recover_device t1 t2 now (k, r)) (fun _ d' => True /\ recovering d0 rest d') d.
Proof.
  intros [Hk Hn]%NoDup_cons [Hm Hr]. rw /recover_device. cbn [fst snd].
  destruct (recover_row t1 t2 now r) as [r'|] eqn:E; [|apply succeeds_ret; split; [done|]; split; [done|]; intros k' x Hin; apply Hr; by right].
  pose proof (Hr k r (list_elem_of_here _ _)) as Hkr. destruct (recover_row_active _ _ _ _ _ E) as (Hs & Ha & Hact).
  assert (forall k' x', alter (fun _ => r') k (assignments d) !! k' = Some x' ->
            exists x, assignments d !! k' = Some x /\ (x' = x \/ (k' = k /\ x = r /\ x' = r'))) as Hinv.
  { intros k' x'. rw lookup_alter. case_decide as Hd; [|by eauto]. subst k'. rw Hkr. intros [= <-]. exists r. auto. }
  apply succeeds_bind, succeeds_write.
  - apply constraints_rows. intros k' x' (x & Hx & Hx')%Hinv. exists x. split; [done|].
    destruct Hx' as [->|(_ & -> & ->)]; done.
  - apply succeeds_ret. split; [done|]. split.
    + destruct Hm as [Hj Hd]. split; [done|]. intros id Hid%Hd. destruct Hid as (t & v & x & Hx & _).
      destruct (decide ((id, v) = k)) as [<-|Hne].
      * exists (d_state r'), v, r'. split; [|done]. by rw /= lookup_alter_eq Hx.
      * exists (d_state x), v, x. split; [|done]. by rw /= lookup_alter_ne.
    + intros k' x Hin. rw /= lookup_alter_ne; [by apply Hr; right|].
      intros <-. apply Hk, list_elem_of_fmap. by exists (k, x).
Qed.

Lemma recover_startup_returns t1 t2 now d : wf ∅ d -> constraints d ->
  exists o d', recover_startup_sync t1 t2 now (Conn d None) = (Ret o, Conn d' None) /\ constraints d' /\ manned d d'.
Proof.
  intros Hw Hc. apply transaction_returns; [|done]. apply closes_bind, succeeds_select, closes_bind.
  apply (succeeds_map_each _ (fun _ _ => True) (fun _ d1 => manned d d1 /\ same_rows d d1)).
  { intros done x rest d1 _ _ [Hm Hs]. eapply succeeds_mono; [by apply recover_job_returns|].
    intros b d2 _ (_ & Hm2 & Hs2). split_and!; [done|done|]. by rw /same_rows Hs2. }
  { split; [by apply manned_refl|done]. }
  intros kinds d1 Hc1 _ [Hm1 Hs1]. apply closes_bind, succeeds_select, closes_bind.
  rw /assignment_rows Hs1. set (rows := map_to_list (assignments d)).
  assert (NoDup rows.*1) as Hnd by apply NoDup_fst_map_to_list.
  apply (succeeds_map_each _ (fun _ _ => True) (fun done d2 => exists rest, rows = done ++ rest /\ recovering d rest d2)).
  { intros done [k r] rest d2 Hl _ (rest' & Hl' & Hr). assert (rest' = (k, r) :: rest) as -> by (rw Hl in Hl'; by apply app_inv_head in Hl').
    eapply succeeds_mono; [eapply recover_device_returns; [|done]|].
    - rw Hl fmap_app in Hnd. by apply NoDup_app in Hnd as (_ & _ & ?).
    - intros b d3 _ [_ Hr3]. split; [done|]. exists rest. by rw Hl -app_assoc. }
  { exists rows. split; [done|]. split; [done|]. intros k r Hin. rw Hs1. by apply elem_of_map_to_list. }
  intros flags d2 Hc2 _ (rest & _ & Hm2 & _). apply closes_bind. set (touched := distinct_sorted _).
  assert (forall id, id ∈ touched -> is_Some (jobs d !! id)) as Ht.
  { intros id [Hin%zip_keys|Hin%zip_keys]%distinct_sorted_spec%elem_of_app.
    - apply list_elem_of_fmap in Hin as ([i j] & -> & Hj%elem_of_map_to_list). by eexists.
    - apply list_elem_of_fmap in Hin as ([[i v] r] & -> & Hr%elem_of_map_to_list). by apply (c_assignment_job _ Hc _ _ Hr). }
  apply (succeeds_for_each _ (fun _ => manned d) touched); [|done|].
  - intros done id rest' d3 Hl _ Hm. eapply succeeds_rederive; [done| |by apply manned_rederive].
    apply (m_jobs _ _ Hm), Ht. rw Hl. set_solver.
  - intros d3 Hc3 Hm3. apply closes_bind.
    apply (succeeds_map_each _ (fun _ _ => True) (fun _ => manned d)); [|done|].
    + intros done id rest' d4 Hl _ Hm. apply succeeds_snapshot; [|done].
      apply (m_jobs _ _ Hm), Ht. rw Hl. set_solver.
    + intros snaps d4 _ _ Hm. by apply closes_commit.
Qed.
