(* ===== verification/Restart.v ===== *)
(** * What a restart leaves

    The state [recover_startup_sync] hands to the server: nothing is under way that
    the server does not know how to settle, and nothing is dispatched before an
    operator enables it again. *)

From S2P Require Import Prelude PyStr Json PushJobs Domain Db Store Tx Manager Protocol Safety Steps.
From S2P Require Import Lifecycle Queue Outcomes Returns.
From stdpp Require Import relations.
Open Scope Z_scope.

(** What recovery makes of a job row, by the kind of its recovery. *)
Definition job_recovered (now : Z) (j j' : job_row) : Prop :=
  match recovery_kind now j with
  | Some true => j_state j' = J_INTERRUPTED
  | Some false => j_dispatch_enabled j' = false /\
      j_state j' ∈ [J_RUNNING; J_RECONCILING; J_SUCCEEDED; J_COMPLETED_WITH_ERRORS; J_FAILED]
  | None => j' = j
  end.

(** Jobs and rows after the [done] part of the batch. *)
Definition jobs_done (now : Z) (d : db) (done : list (pystr * job_row)) (d' : db) : Prop :=
  assignments d' = assignments d /\
  (forall id, is_Some (jobs d' !! id) -> is_Some (jobs d !! id)) /\
  forall id j, jobs d !! id = Some j -> exists j', jobs d' !! id = Some j' /\
    ((id, j) ∈ done -> job_recovered now j j') /\ ((id, j) ∉ done -> j' = j).
Definition rows_done (t1 t2 now : Z) (d0 : db) (done : list ((pystr * pystr) * device_row)) (d' : db) : Prop :=
  jobs d' = jobs d0 /\
  (forall k, is_Some (assignments d' !! k) -> is_Some (assignments d0 !! k)) /\
  forall k r, assignments d0 !! k = Some r -> exists r', assignments d' !! k = Some r' /\
    ((k, r) ∈ done -> r' = default r (recover_row t1 t2 now r)) /\ ((k, r) ∉ done -> r' = r).

Lemma not_done {K V} `{Countable K} (m : gmap K V) done k x rest :
  map_to_list m = done ++ (k, x) :: rest -> (k, x) ∉ done.
Proof.
  intros Hl Hin. pose proof (NoDup_map_to_list m) as Hn. rw Hl in Hn.
  apply NoDup_app in Hn as (_ & Hn & _). eapply Hn; [done|]. left.
Qed.

Lemma jobs_done_step now d done d1 id j f rest :
  map_to_list (jobs d) = done ++ (id, j) :: rest -> jobs_done now d done d1 ->
  job_recovered now j (f j) -> jobs_done now d (done ++ [(id, j)]) (set_job id f d1).
Proof.
  intros Hl (HA & HD & HJ) Hf. split; [done|]. split; [intros ? ?%set_job_dom; auto|]. intros id' ja Hja. destruct (HJ _ _ Hja) as (jb & Hjb & Hd & Hn).
  assert (jobs d !! id = Some j) as Hj by (apply elem_of_map_to_list; rw Hl; set_solver).
  destruct (decide (id' = id)) as [->|Hne].
  - assert (ja = j) as -> by congruence. rw lookup_set_job decide_True // Hjb /=. exists (f jb).
    rw (Hn (not_done _ _ _ _ _ Hl)). split_and!; [done|done|]. intros Hx. destruct Hx. set_solver.
  - rw set_job_other //. exists jb. split_and!; [done|..].
    + intros [?|[= -> ->]%list_elem_of_singleton]%elem_of_app; [by apply Hd|done].
    + intros Hx. apply Hn. set_solver.
Qed.

Lemma recover_job_done now d done d1 id j rest :
  map_to_list (jobs d) = done ++ (id, j) :: rest -> jobs_done now d done d1 ->
  runs (recover_job now (id, j))
    (fun b d' => b = recovery_kind now j /\ jobs_done now d (done ++ [(id, j)]) d') d1.
Proof.
  intros Hl HI. rw /recover_job. tx; split.
  1,3,5,7: rw /recovery_kind; by rw ?Heqb ?Heqb0 ?Heqb1.
  1,2,3: eapply jobs_done_step; [done..|]; rw /job_recovered /recovery_kind ?Heqb ?Heqb0 ?Heqb1 //.
  - split; [done|]. simpl. apply bool_decide_eq_true_1 in Heqb1. set_solver.
  - destruct HI as (HA & HD & HJ). split; [done|]. split; [done|]. intros id' ja Hja. destruct (HJ _ _ Hja) as (jb & Hjb & Hd & Hn).
    exists jb. split_and!; [done|..].
    + intros [?|[= -> ->]%list_elem_of_singleton]%elem_of_app; [by apply Hd|].
      rw /job_recovered /recovery_kind Heqb Heqb0 Heqb1. apply Hn, (not_done _ _ _ _ _ Hl).
    + intros Hx. apply Hn. set_solver.
Qed.

Lemma recover_device_done t1 t2 now d done d1 k r rest :
  map_to_list (assignments d) = done ++ (k, r) :: rest -> rows_done t1 t2 now d done d1 ->
  runs (recover_device t1 t2 now (k, r))
    (fun b d' => b = bool_decide (is_Some (recover_row t1 t2 now r)) /\
                 rows_done t1 t2 now d (done ++ [(k, r)]) d') d1.
Proof.
  intros Hl (HJ & HD & HR).
  assert (assignments d !! k = Some r) as Hr by (apply elem_of_map_to_list; rw Hl; set_solver).
  pose proof (not_done _ _ _ _ _ Hl) as Hnot. rw /recover_device. cbn [fst snd].
  destruct (recover_row t1 t2 now r) as [r'|] eqn:Hrec; tx; (split; [done|]);
    (split; [done|]); (split; [first [done|intros ? Hx; apply HD; revert Hx; apply lookup_alter_is_Some]|]); intros k' ra Hra; destruct (HR _ _ Hra) as (rb & Hrb & Hd & Hn).
  - destruct (decide (k' = k)) as [->|Hne].
    + assert (ra = r) as -> by congruence. simpl. rw lookup_alter_eq Hrb /=. exists r'. rw Hrec /=.
      split_and!; [done..|]. intros Hx. destruct Hx. set_solver.
    + simpl. rw lookup_alter_ne //. exists rb. split_and!; [done|..|intros Hx; apply Hn; set_solver].
      intros [?|[= -> ->]%list_elem_of_singleton]%elem_of_app; [by apply Hd|done].
  - exists rb. split_and!; [done|..|intros Hx; apply Hn; set_solver].
    intros [?|[= -> ->]%list_elem_of_singleton]%elem_of_app; [by apply Hd|]. rw Hrec /=. by apply Hn.
Qed.

(** ** After the batch *)

(** A recovered job stays recovered when its state is derived again. *)
Lemma rederive_recovered now now' d0 d1 id :
  (forall i j, jobs d0 !! i = Some j -> exists j', jobs d1 !! i = Some j' /\ job_recovered now j j') ->
  (forall j, jobs d0 !! id = Some j -> is_Some (recovery_kind now j)) ->
  forall i j, jobs d0 !! i = Some j ->
    exists j', jobs (rederive_db id now' d1) !! i = Some j' /\ job_recovered now j j'.
Proof.
  intros HI Hid i j Hj. destruct (HI _ _ Hj) as (j' & Hj' & Hrec).
  destruct (decide (i = id)) as [->|]; [|rw rederive_other //; eauto].
  rw /rederive_db Hj'. destruct (derive_dispatched_job_state _) as [s|] eqn:Hs; [|by eauto].
  case_decide as Hq; [by eauto|]. exists (rederived s now' j').
  rw lookup_set_job decide_True // Hj'. split; [done|].
  rw /job_recovered in Hrec |- *. destruct (recovery_kind now j) as [[]|] eqn:Hk.
  - destruct Hq. left. rw Hrec. by apply (bool_decide_unpack _).
  - split; [apply Hrec|]. simpl. by eapply derived_states.
  - destruct (Hid _ Hj). congruence.
Qed.

Definition restarted (t1 t2 now : Z) (d d' : db) : Prop :=
  (forall k r', assignments d' !! k = Some r' ->
     exists r, assignments d !! k = Some r /\ r' = default r (recover_row t1 t2 now r)) /\
  (forall id j', jobs d' !! id = Some j' -> exists j, jobs d !! id = Some j /\ job_recovered now j j').

Lemma recover_startup_post t1 t2 now d :
  wf ∅ d -> constraints d ->
  operation (recover_startup_sync t1 t2 now) (fun _ d' => restarted t1 t2 now d d') d.
Proof.
  intros Hw Hc. rw /recover_startup_sync. apply operation_transaction, commits_bind, runs_select, commits_bind.
  apply (runs_map_each _ (fun jr b => b = recovery_kind now jr.2) (jobs_done now d)).
  { intros done [id j] rest d1 Hl HI. by eapply recover_job_done. }
  { split; [done|]. split; [done|].
    intros id j Hj. exists j. split_and!; [done|by intros ?%elem_of_nil|done]. }
  intros kinds d1 ->%Forall2_function (HA & HD & HJ). apply commits_bind, runs_select, commits_bind.
  rw /assignment_rows HA.
  apply (runs_map_each _ (fun kr b => b = bool_decide (is_Some (recover_row t1 t2 now kr.2)))
           (rows_done t1 t2 now d1)).
  { intros done [k r] rest d2 Hl HI. eapply recover_device_done; [|done]. by rw HA. }
  { split; [done|]. split; [done|].
    intros k r Hr. exists r. split_and!; [done|by intros ?%elem_of_nil|done]. }
  intros flags d2 ->%Forall2_function (HJ2 & HD2 & HR). apply commits_bind.
  set (touched := distinct_sorted _).
  assert (forall id j, id ∈ touched -> jobs d !! id = Some j -> is_Some (recovery_kind now j)) as Htouched.
  { intros id j [Hin|Hin]%distinct_sorted_spec%elem_of_app Hj.
    - apply (elem_of_filter_zip fst (fun jr => recovery_kind now jr.2) is_Some) in Hin
        as ([i ja] & Hja%elem_of_map_to_list & <- & Hk). simpl in *. congruence.
    - apply (elem_of_filter_zip (fun kr : pystr * pystr * device_row => kr.1.1)
               (fun kr => bool_decide (is_Some (recover_row t1 t2 now kr.2))) (fun b => b = true)) in Hin
        as ([[i v] r] & Hr%elem_of_map_to_list & <- & [r' Hr']%bool_decide_eq_true_1). cbn [fst snd] in *.
      assert (j_state j = J_RUNNING \/ j_state j = J_RECONCILING) as Hs.
      { eapply active_job; [done..| |done].
        by eapply (recover_row_step _ _ _ _ _ None), recover_row_live. }
      rw /recovery_kind. by destruct Hs as [->| ->]. }
  apply (runs_for_each _ (fun _ d' => assignments d' = assignments d2 /\
    (forall id, is_Some (jobs d' !! id) -> is_Some (jobs d !! id)) /\
    forall id j, jobs d !! id = Some j -> exists j', jobs d' !! id = Some j' /\ job_recovered now j j')).
  - intros done id rest d3 Hl (HA3 & HD3 & HJ3). tx. split; [by rw assignments_rederive|]. split.
    + intros i Hi. apply HD3. rw /rederive_db in Hi. repeat case_match; rw ?set_job_dom in Hi; done.
    + apply rederive_recovered; [done|]. intros j0. apply Htouched. rw Hl. set_solver.
  - split; [done|]. split; [by rw HJ2|].
    intros id j Hj. destruct (HJ _ _ Hj) as (j' & Hj' & Hd & _). exists j'. rw HJ2.
    split; [done|]. apply Hd. by apply elem_of_map_to_list.
  - intros d3 (HA3 & HD3 & HJ3). tx. split.
    + intros k r' Hr'. rw HA3 in Hr'. destruct (HD2 k) as [r Hr]; [by eexists|].
      destruct (HR k r Hr) as (r2 & Hr2 & Hd & _). rw HA in Hr. exists r. split; [done|].
      assert (r' = r2) as -> by congruence. apply Hd. by apply elem_of_map_to_list.
    + intros id j' Hj'. destruct (HD3 id) as [j Hj]; [by eexists|]. exists j. split; [done|].
      destruct (HJ3 _ _ Hj) as (j2 & ? & ?). by assert (j' = j2) as -> by congruence.
Qed.

(** The device rows recovery leaves. *)
Lemma recovered_row t1 t2 now r :
  let r' := default r (recover_row t1 t2 now r) in
  (d_state r' = QUEUED \/ d_state r' = RECONCILING \/ terminal_row r') /\
  (d_state r' = RECONCILING -> is_Some (d_reconciliation_deadline r')).
Proof.
  rw /recover_row /terminal_row. destruct (d_state r) eqn:E; repeat case_match; simpl; rw ?E;
    (split; [|first [by intros [=]|intros _; by eexists]]); auto.
  all: right; right; apply terminal_state; auto.
Qed.

Lemma recovered_job now j j' :
  job_recovered now j j' ->
  j_state j' <> J_UPLOADING /\ j_state j' <> J_PACKAGING /\
  (j_state j' = J_CREATED -> now < j_create_expires_at j') /\
  (j_state j' = J_RUNNING \/ j_state j' = J_RECONCILING -> j_dispatch_enabled j' = false).
Proof.
  rw /job_recovered. destruct (recovery_kind now j) as [[]|] eqn:Hk.
  - intros ->. by split_and!; try naive_solver.
  - intros [Hd Hs]. split_and!; [..|done]; intros E; rw E in Hs; exfalso; revert Hs; decided.
  - intros ->. rw /recovery_kind in Hk. destruct (j_state j) eqn:E; try done.
    all: split_and!; try naive_solver. intros _. simpl in Hk. case_match eqn:Hle; [done|lia].
Qed.

Lemma nothing_to_claim d online now :
  (forall id j, jobs d !! id = Some j ->
     j_state j = J_RUNNING \/ j_state j = J_RECONCILING -> j_dispatch_enabled j = false) ->
  claim_next online now (Conn d None) = (Ret None, Conn d None).
Proof.
  intros Hp. destruct (next_claim d online) as [[[id v] r]|] eqn:Hn.
  2: { rw /claim_next. case_bool_decide; [done|]. erewrite eval_bind; [|reflexivity].
       rw /try_except /claim_body. evals_select. by rw Hn. }
  apply next_claim_eligible in Hn as [_ He].
  apply eligible_spec in He as (_ & _ & (j & Hj & Hen & Hs) & _). 
  assert (j_dispatch_enabled j = false) by (apply (Hp _ _ Hj); set_solver). congruence.
Qed.

(** C35: Whatever state the server stopped in, the recovery of a restart returns.  Then no
    upload is under way and no device is waiting for a transfer, dispatching, downloading,
    validating or applying: every execution the server lost sight of is reconciling, with
    a deadline.  Every running job is paused, so that nothing is claimed, whatever devices
    are online, before dispatch is enabled again. *)
Theorem restart_settles_everything t1 t2 now d :
  reachable d -> exists o d', recover_startup_sync t1 t2 now (Conn d None) = (Ret o, Conn d' None) /\
  (forall k r, assignments d' !! k = Some r ->
     (d_state r = QUEUED \/ d_state r = RECONCILING \/ terminal_row r) /\
     (d_state r = RECONCILING -> is_Some (d_reconciliation_deadline r))) /\
  (forall id j, jobs d' !! id = Some j ->
     j_state j <> J_UPLOADING /\ j_state j <> J_PACKAGING /\
     (j_state j = J_CREATED -> now < j_create_expires_at j) /\
     (j_state j = J_RUNNING \/ j_state j = J_RECONCILING -> j_dispatch_enabled j = false)) /\
  (forall online now', claim_next online now' (Conn d' None) = (Ret None, Conn d' None)).
Proof.
  intros [Hc Hw]%reachable_invariant.
  destruct (recover_startup_returns t1 t2 now d Hw Hc) as (o & d' & E & _ & _). exists o, d'.
  pose proof (operation_run_ret _ _ _ _ _ _ (recover_startup_post t1 t2 now d Hw Hc) Hc E) as (_ & HR & HJ).
  assert (forall id j', jobs d' !! id = Some j' -> exists j, job_recovered now j j') as HJ'.
  { intros id j' (j & _ & ?)%HJ. by exists j. }
  split_and!; [done|..].
  - intros k r (r0 & _ & ->)%HR. apply recovered_row.
  - intros id j (j0 & Hj)%HJ'. by eapply recovered_job.
  - intros online now'. apply nothing_to_claim. intros id j (j0 & Hj)%HJ'. by eapply recovered_job.
Qed.
Lemma restart_settles_everything_witness :
  exists o d', recover_startup_sync 5 60 120 (Conn claimed_db None) = (Ret o, Conn d' None) /\
    claim_next sample_online 121 (Conn d' None) = (Ret None, Conn d' None).
Proof.
  destruct (restart_settles_everything 5 60 120 claimed_db reachable_claimed) as (o & d' & E & _ & _ & Hclaim).
  exists o, d'. split; [exact E|exact (Hclaim sample_online 121)].
Defined.
