(* ===== verification/Fences.v ===== *)
(** * Device fences

    A device whose execution was given up receives no job until there is evidence
    that the execution is over: which calls put a fence up, and the only ones that
    take one down. *)

From S2P Require Import Prelude PyStr Json PushJobs Domain Db Store Tx Manager Protocol Safety Steps.
From S2P Require Import Atomic Lifecycle Queue Outcomes.
From stdpp Require Import relations.
Open Scope Z_scope.

(** ** Calls that leave the fences alone *)

Lemma loop_fences {A} (f : A -> Op unit) l F (K : unit -> db -> Prop) d :
  fences d = F -> (forall x d', fences d' = F -> runs (f x) (fun _ d'' => fences d'' = F) d') ->
  (forall d', fences d' = F -> K tt d') -> runs (for_each f l) K d.
Proof. intros HF Hf HK. apply (runs_for_each _ (fun _ d' => fences d' = F)); auto. Qed.
Lemma map_fences {A B} (f : A -> Op B) l F (K : list B -> db -> Prop) d :
  fences d = F -> (forall x d', fences d' = F -> runs (f x) (fun _ d'' => fences d'' = F) d') ->
  (forall bs d', fences d' = F -> K bs d') -> runs (map_each f l) K d.
Proof.
  intros HF Hf HK. apply (runs_map_each _ (fun _ _ => True) (fun _ d' => fences d' = F)); auto.
  intros. eapply runs_mono; [by apply Hf|]. auto.
Qed.
Lemma insert_targets_fences id p now start n targets d F (K : unit -> db -> Prop) :
  fences d = F -> (forall d', fences d' = F -> K tt d') -> runs (insert_targets id p now start n targets) K d.
Proof. intros <- HK. apply runs_insert_targets. intros A _ _. by apply HK. Qed.
Lemma fences_rederive id now d : fences (rederive_db id now d) = fences d.
Proof. rw /rederive_db. by repeat case_match. Qed.

Definition fence_neutral (c : call) : Prop :=
  match c with
  | SettleLateFencedResult _ _ _ _ | ReconcileReport _ _ _ _ _ _ _ | MarkUnconfirmed _ _ _ _ _ _ _
  | AddOpaqueFence _ _ _ _ _ _ | ClearFenceOnProcessReplacement _ _ _ _ | ClearMatchingFence _ _ _ _
  | ClearMatchingOpaqueFence _ _ _ _ | SettleResult _ _ _ _ _ _ => False
  | _ => True
  end.

Ltac fences_step F :=
  match goal with
  | |- runs (for_each _ _) _ _ => apply (loop_fences _ _ F)
  | |- runs (map_each _snapshot _) _ _ => apply runs_snapshots
  | |- runs (map_each _ _) _ _ => apply (map_fences _ _ F)
  | |- runs (insert_targets _ _ _ _ _ _) _ _ => apply (insert_targets_fences _ _ _ _ _ _ _ F)
  | |- runs (update_device_if _ _ (claim_row _)) _ _ => eapply runs_claim; [eassumption|]
  | |- runs (update_device_if _ _ _) _ _ => apply runs_update_device_if
  | |- runs (_next_enqueue_seq _) _ _ => unfold _next_enqueue_seq
  | |- runs (write _) _ _ => apply runs_write
  | |- runs (recover_job _ _) _ _ => unfold recover_job
  | |- runs (recover_device _ _ _ _) _ _ => unfold recover_device
  | |- runs (fail_missing _ _) _ _ => unfold fail_missing
  | |- runs (update_job_devices _ _ _) _ _ => apply runs_write
  | |- operation (select _ ≫= _) _ _ => apply operation_select
  | |- is_Some (assignments (rederive_db _ _ _) !! _) =>
      eapply claimed_row_exists; eapply next_claim_eligible; eassumption
  | |- _ = _ => rw ?fences_rederive; assumption || reflexivity
  end.
Ltac solve_fences d :=
  repeat first [ progress intros | fences_step (fences d) | tx_step ]; try done.

Lemma claim_next_fences online now d :
  operation (claim_next online now) (fun _ d' => fences d' = fences d) d.
Proof.
  rw /claim_next. case_match; [by apply operation_ret|].
  apply operation_claim; [|done]. rw /claim_body. solve_fences d.
Qed.

Lemma neutral_fences c d : fence_neutral c -> operation (exec c) (fun _ d' => fences d' = fences d) d.
Proof.
  destruct c; intros Hn; try done; apply operation_run;
    unfold create_job, start_upload, mark_packaging, _simple_job_transition, publish_artifact,
      fail_pre_dispatch, enable_dispatch, expire_created, prepare_dispatch,
      mark_dispatching, mark_reconciling, transition_device, mark_acceptance_reconciling,
      reconcile_missing_artifacts_sync, recover_startup_sync.
  8: apply claim_next_fences.
  all: solve_fences d.
Qed.

(** ** Evidence *)

Definition blocks_on (f : fence_row) (id : pystr) (n : Z) : Prop :=
  f_blocking_job_id f = Some id /\ f_blocking_attempt f = Some n.

(** The stored opaque identity names the job of the call. *)
Definition opaque_match (f : fence_row) (id : pystr) (n : Z) : Prop :=
  exists expected stored,
    canonical_opaque_job_identity [(u "job_id", JStr id); (u "attempt", JInt n)] = Some expected /\
    parse_opaque_job_identity (f_blocking_opaque_identity f) = Some stored /\
    let identity := default [] (v ← loads expected; as_obj v) in
    eq_str (get (u "job_id") stored) (default [] (as_str (get (u "job_id") identity))) = true /\
    eq_int (get (u "attempt") stored) (default 0 (as_int (get (u "attempt") identity))) = true.

(** What a call must know to take down the fence [f] of device [v]. *)
Definition evidence (v : pystr) (f : fence_row) (c : call) : Prop :=
  match c with
  | ClearFenceOnProcessReplacement w p has_job_v1 _ =>
      w = v /\ has_job_v1 = true /\ truthy p = true /\ f_blocking_process_instance_id f <> p
  | ClearMatchingFence id w n _ | SettleLateFencedResult id w n _ => w = v /\ n = 1 /\ blocks_on f id 1
  | ReconcileReport id w n status _ _ _ =>
      w = v /\ n = 1 /\ blocks_on f id 1 /\ (status = u "absent" \/ status = u "interrupted")
  | ClearMatchingOpaqueFence w id n _ =>
      w = v /\ f_blocking_job_id f = None /\ f_protocol_mode f = JOB_V1 /\ opaque_match f id n
  | _ => False
  end.

Definition kept_or (v : pystr) (P : Prop) (d' : db) : Prop := is_Some (fences d' !! v) \/ P.

Lemma publish_affected_fences ids now F (C : outcome exn (list snapshot) -> db -> Prop) d :
  fences d = F -> (forall o d', fences d' = F -> C o d') -> commits (publish_affected ids now) C d.
Proof.
  intros HF HC. rw /publish_affected. apply commits_bind, (loop_fences _ _ F); [done| |].
  - intros id d' Hd'. tx. done.
  - intros d' Hd'. tx. by apply HC.
Qed.

Lemma exact_fence_spec f id n : exact_fence (Some f) id n = true <-> blocks_on f id n.
Proof. by rw /exact_fence andb_true_iff !bool_decide_eq_true. Qed.

(** A deleted fence of some device: of this one only with evidence. *)
Lemma kept_delete d v w f P F :
  fences d !! v = Some f -> F = delete w (fences d) -> (w = v -> P) -> is_Some (F !! v) \/ P.
Proof.
  intros Hf -> HP. rw lookup_delete. case_decide; [right; auto|left; by eexists].
Qed.

Ltac fence_case Hf :=
  repeat first [ match goal with |- commits (publish_affected _ _ ≫= _) _ _ => apply commits_then end
               | match goal with |- runs (_visible_job_ids _ _) _ _ => apply runs_visible end
               | progress intros | tx_step ];
  try (by left; eexists).

Lemma exact_fence_is f v d id :
  fences d !! v = Some f -> negb (exact_fence (fences d !! v) id 1) = false -> blocks_on f id 1.
Proof. intros ->. rw negb_false_iff. apply exact_fence_spec. Qed.

Lemma clear_matching_fence_evidence id w n now d v f :
  fences d !! v = Some f ->
  operation (clear_matching_fence id w n now)
    (fun _ => kept_or v (evidence v f (ClearMatchingFence id w n now))) d.
Proof.
  intros Hf. rw /clear_matching_fence /kept_or. fence_case Hf.
  eapply publish_affected_fences; [reflexivity|]. intros _ d' Hd'. rw Hd'.
  apply negb_false_iff, Z.eqb_eq in Heqb. subst n. eapply kept_delete; [done..|]. intros ->.
  simpl. split_and!; [done..|]. by eapply exact_fence_is.
Qed.

Lemma settle_late_evidence id w n now d v f :
  fences d !! v = Some f ->
  operation (settle_late_fenced_result id w n now)
    (fun _ => kept_or v (evidence v f (SettleLateFencedResult id w n now))) d.
Proof.
  intros Hf. rw /settle_late_fenced_result /kept_or. fence_case Hf.
  eapply publish_affected_fences; [reflexivity|]. intros o d' Hd'.
  assert (is_Some (fences d' !! v) \/ evidence v f (SettleLateFencedResult id w n now)) as H0.
  { rw Hd'. apply negb_false_iff, Z.eqb_eq in Heqb. subst n. eapply kept_delete; [done..|]. intros ->.
    simpl. split_and!; [done..|]. rw Hf in Heqo0. injection Heqo0 as ->. 
    by apply exact_fence_spec, negb_false_iff. }
  by destruct o.
Qed.

Lemma process_replacement_evidence w p has now d v f :
  fences d !! v = Some f ->
  operation (clear_fence_on_process_replacement w p has now)
    (fun _ => kept_or v (evidence v f (ClearFenceOnProcessReplacement w p has now))) d.
Proof.
  intros Hf. rw /clear_fence_on_process_replacement /kept_or. fence_case Hf.
  eapply publish_affected_fences; [reflexivity|]. intros _ d' Hd'. rw Hd'.
  eapply kept_delete; [done..|]. intros ->. rw Hf in Heqo. injection Heqo as ->.
  apply orb_false_iff in Heqb as [Hh%negb_false_iff Ht%negb_false_iff]. simpl.
  split_and!; [done..|]. intros E. apply negb_false_iff, orb_true_iff in Heqb0.
  destruct Heqb0 as [[_ Hx]%andb_true_iff|Hx%bool_decide_eq_true_1].
  - by apply negb_true_iff, bool_decide_eq_false_1 in Hx.
  - rw Hx in E. by subst p.
Qed.

Lemma opaque_evidence w id n now d v f :
  fences d !! v = Some f ->
  operation (clear_matching_opaque_fence w id n now)
    (fun _ => kept_or v (evidence v f (ClearMatchingOpaqueFence w id n now))) d.
Proof.
  intros Hf. rw /clear_matching_opaque_fence /kept_or. fence_case Hf.
  eapply publish_affected_fences; [reflexivity|]. intros o d' Hd'.
  assert (is_Some (fences d' !! v) \/ evidence v f (ClearMatchingOpaqueFence w id n now)) as H0.
  { rw Hd'. eapply kept_delete; [done..|]. intros ->. rw Hf in Heqo0. injection Heqo0 as ->.
    apply orb_false_iff in Heqb as [Hb%negb_false_iff%bool_decide_eq_true_1 Hp%negb_false_iff%bool_decide_eq_true_1].
    apply orb_false_iff in Heqb0 as [Hj%negb_false_iff Ha%negb_false_iff].
    simpl. split_and!; [done..|]. by exists p, l. }
  by destruct o.
Qed.

Lemma report_evidence id w n status phase detail now d v f :
  fences d !! v = Some f ->
  operation (reconcile_report id w n status phase detail now)
    (fun _ => kept_or v (evidence v f (ReconcileReport id w n status phase detail now))) d.
Proof.
  intros Hf. rw /reconcile_report /reconcile_row /kept_or. fence_case Hf.
  2,3,4: left; rw fences_rederive; by eexists.
  eapply publish_affected_fences; [reflexivity|]. intros o d' Hd'.
  assert (is_Some (fences d' !! v) \/ evidence v f (ReconcileReport id w n status phase detail now)) as H9.
  { rw Hd'. eapply kept_delete; [done..|]. intros ->. apply Z.eqb_eq in H. subst n. simpl.
    apply andb_true_iff in Heqb0 as [_ Hst%orb_true_iff].
    split_and!; [done..|rw Hf in H2; by apply exact_fence_spec|].
    destruct Hst as [Hst|Hst]; apply bool_decide_eq_true_1 in Hst; auto. }
  by destruct o.
Qed.

(** An accepted result finds no exact fence of its execution. *)
Lemma result_keeps_fence id w n status res now d v f :
  wf ∅ d -> fences d !! v = Some f ->
  operation (settle_result id w n status res now) (fun _ d' => is_Some (fences d' !! v)) d.
Proof.
  intros Hw Hf. rw /settle_result. tx; try (by eexists). rw fences_rederive /= /without_exact_fence /=.
  destruct (fences d !! w) as [fw|] eqn:Hfw; [|by eexists].
  destruct (bool_decide _ && _) eqn:Hx; [|by eexists]. rw lookup_delete. destruct (decide (w = v)) as [E|E]; [|by eexists]. subst w.
  exfalso. apply andb_true_iff in Hx as [Hb%bool_decide_eq_true_1 _].
  pose proof (w_fence _ _ Hw _ _ Hfw) as HF. rw /fence_wf Hb in HF. destruct HF as (r & Hr & Hs).
  rw Hr in H1. injection H1 as ->. by rw Hs in Heqb0.
Qed.

Lemma unconfirmed_keeps_fence id w p detail dl obs clock d v :
  is_Some (fences d !! v) ->
  operation (mark_unconfirmed id w p detail dl obs clock) (fun _ d' => is_Some (fences d' !! v)) d.
Proof.
  intros Hf. rw /mark_unconfirmed. tx. apply runs_upsert_fence. intros f' _ _ _ _.
  apply commits_bind, runs_visible, commits_bind.
  set (F := <[w := f']> _). apply (loop_fences _ _ F); [done| |].
  - intros i d' Hd'. tx. by rw fences_rederive.
  - intros d' Hd'. tx. rw Hd' /F lookup_insert.
    destruct (decide (w = v)); [by eexists|done].
Qed.
Lemma opaque_keeps_fence w identity p process reason now d v :
  is_Some (fences d !! v) ->
  operation (add_opaque_fence w identity p process reason now) (fun _ d' => is_Some (fences d' !! v)) d.
Proof.
  intros Hf. rw /add_opaque_fence. tx; try done.
  all: apply runs_upsert_fence; intros f' _ _ _ _; apply commits_bind, runs_visible;
    (eapply publish_affected_fences; [reflexivity|]); intros _ d' ->; simpl; rw lookup_insert;
    (destruct (decide (w = v)); [by eexists|done]).
Qed.

(** C36: A fence comes down only on evidence: the device reports another process that
    speaks the job protocol, or an exact report or late result of the very execution
    the fence names, or of the job its opaque identity names.  No other call, and no
    other argument, frees a fenced device. *)
Theorem fence_falls_on_evidence d v f c o d' :
  reachable d -> fences d !! v = Some f -> exec c (Conn d None) = (o, Conn d' None) ->
  fences d' !! v = None -> evidence v f c.
Proof.
  intros [Hc Hw]%reachable_invariant Hf E Hnone.
  assert (operation (exec c) (fun _ => kept_or v (evidence v f c)) d) as Hop.
  { assert (fence_neutral c -> operation (exec c) (fun _ => kept_or v (evidence v f c)) d) as Hneutral.
    { intros Hn. eapply operation_mono; [by apply (neutral_fences c d)|].
      simpl. intros o2 d2 Hd2. left. rw Hd2. by eexists. }
    destruct c; try (by apply Hneutral); apply operation_run.
    - eapply operation_mono; [by eapply result_keeps_fence|]. by left.
    - by apply settle_late_evidence.
    - by apply report_evidence.
    - eapply operation_mono; [apply unconfirmed_keeps_fence; by eexists|]. by left.
    - eapply operation_mono; [apply opaque_keeps_fence; by eexists|]. by left.
    - by apply process_replacement_evidence.
    - by apply clear_matching_fence_evidence.
    - by apply opaque_evidence. }
  specialize (Hop Hc). rw /wp E in Hop. destruct Hop as (_ & _ & Ho). simpl in Ho.
  assert (~ is_Some (fences d' !! v)) as Hn by (rw Hnone; by intros []).
  destruct o as [[]|e]; [by destruct Ho|].
  destruct Ho as [->|[_ [|]]]; [rw Hf in Hnone; done|done|done].
Qed.
Lemma fence_falls_on_evidence_witness :
  exists f, evidence (u "headset-2") f (ClearMatchingFence (u "job-1") (u "headset-2") 1 400).
Proof.
  destruct (find_row (fences finished_db) (u "headset-2") (fun _ => true)) as (f & Hf & _); [evaluated|].
  exists f.
  destruct (exec (ClearMatchingFence (u "job-1") (u "headset-2") 1 400) (Conn finished_db None))
    as [o [d' s]] eqn:E.
  assert (s = None) as ->.
  { apply (f_equal (fun x => bool_decide (saved x.2 = None))) in E. vm_compute in E. destruct s; [discriminate E|reflexivity]. }
  apply (fence_falls_on_evidence finished_db (u "headset-2") f _ o d' reachable_finished Hf E).
  apply (f_equal (fun x => bool_decide (fences (data x.2) !! u "headset-2" = None))) in E.
  vm_compute in E. symmetry in E. exact (bool_decide_eq_true_1 _ E).
Defined.
