(* ===== verification/Policy.v ===== *)
(** * Command policy of a device connection (device_policy.py)

    Which commands a registered connection may receive.  A connection's entry is the
    dict the server keeps for it; a missing field reads as [None], a set of strings is
    a list. *)

From S2P Require Import Prelude PyStr Json.
Open Scope Z_scope.

Definition PROVISIONAL_POWER_CAPABILITY : pystr := u "provisional_power_control_v1".
Definition PROVISIONAL_POWER_COMMANDS : list pystr := [u "EXECUTE_REBOOT"; u "EXECUTE_POWER_OFF"].

Definition is_true (v : json) : bool := match v with JBool true => true | _ => false end.
Definition contains (v : json) (s : pystr) : bool :=
  match v with JArr l => existsb (fun x => eq_str x s) l | _ => false end.
Definition in_commands (command : option pystr) : bool :=
  match command with Some c => bool_decide (c ∈ PROVISIONAL_POWER_COMMANDS) | None => false end.

Definition command_allowed (entry : option (list (pystr * json))) (command : option pystr) : bool :=
  match entry with
  | None => false
  | Some e =>
      if negb (is_true (get (u "registration_ready") e)) then false
      else
        let identity_kind := get (u "identity_kind") e in
        if eq_str identity_kind (u "canonical") then true
        else if eq_str identity_kind (u "legacy") then bool_decide (command = Some (u "EXECUTE_INSTALL"))
        else if eq_str identity_kind (u "provisional") then
          in_commands command && contains (get (u "capabilities") e) PROVISIONAL_POWER_CAPABILITY
        else false
  end.

(** ** What the policy grants *)

Lemma eq_str_spec v s : eq_str v s = true <-> v = JStr s.
Proof.
  destruct v as [| | | |t| |]; simpl; try (split; congruence).
  rw /streq bool_decide_eq_true. split; congruence.
Qed.
Lemma is_true_spec v : is_true v = true <-> v = JBool true.
Proof. destruct v as [|[]| | | | |]; simpl; split; congruence. Qed.

(** A command reaches a connection exactly when its registration is complete and its
    kind admits the command: every command for a canonical identity, installation alone
    for a legacy one, and the two power commands for a provisional one that announced
    the capability.  A missing entry or field never grants access. *)
Theorem command_allowed_spec e command :
  command_allowed e command = true <->
  exists fields, e = Some fields /\ get (u "registration_ready") fields = JBool true /\
    (get (u "identity_kind") fields = JStr (u "canonical") \/
     (get (u "identity_kind") fields = JStr (u "legacy") /\ command = Some (u "EXECUTE_INSTALL")) \/
     (get (u "identity_kind") fields = JStr (u "provisional") /\
      (exists c l, command = Some c /\ c ∈ PROVISIONAL_POWER_COMMANDS /\
         get (u "capabilities") fields = JArr l /\ JStr PROVISIONAL_POWER_CAPABILITY ∈ l))).
Proof.
  rw /command_allowed. destruct e as [fields|]; [|split; [done|by intros (? & ? & _)]].
  set (kind := get (u "identity_kind") fields). set (ready := get (u "registration_ready") fields).
  set (caps := get (u "capabilities") fields).
  assert (in_commands command && contains caps PROVISIONAL_POWER_CAPABILITY = true <->
          exists c l, command = Some c /\ c ∈ PROVISIONAL_POWER_COMMANDS /\ caps = JArr l /\
                      JStr PROVISIONAL_POWER_CAPABILITY ∈ l) as Hpower.
  { rw andb_true_iff /in_commands. split.
    - intros [Hc Hl]. destruct command as [c|]; [|done]. apply bool_decide_eq_true_1 in Hc.
      destruct caps as [| | | | |l|]; try done. simpl in Hl.
      apply existsb_exists in Hl as (x & Hx & ->%eq_str_spec). exists c, l.
      split_and!; [done..|]. by apply list_elem_of_In.
    - intros (c & l & -> & Hc & -> & Hl). split; [by apply bool_decide_eq_true_2|].
      apply existsb_exists. exists (JStr PROVISIONAL_POWER_CAPABILITY).
      split; [by apply list_elem_of_In|by apply eq_str_spec]. }
  transitivity (ready = JBool true /\
    (kind = JStr (u "canonical") \/ (kind = JStr (u "legacy") /\ command = Some (u "EXECUTE_INSTALL")) \/
     (kind = JStr (u "provisional") /\ in_commands command && contains caps PROVISIONAL_POWER_CAPABILITY = true))).
  - rw -is_true_spec. destruct (is_true ready); simpl; [|naive_solver].
    pose proof (eq_str_spec kind (u "canonical")). pose proof (eq_str_spec kind (u "legacy")).
    pose proof (eq_str_spec kind (u "provisional")).
    destruct (eq_str kind (u "canonical")); [naive_solver|].
    destruct (eq_str kind (u "legacy")).
    { destruct H0 as [Hk _]. specialize (Hk eq_refl). rw Hk bool_decide_eq_true. naive_solver. }
    destruct (eq_str kind (u "provisional")); naive_solver.
  - rw Hpower. naive_solver.
Qed.
