(* ===== verification/Transfers.v ===== *)
(** * Transfer waiters (transfer_registry.py, _LegacyTransferAdapter)

    A task that serves a file to a device waits on a future registered under a typed
    key; whatever ends the transfer completes that future once.  Futures are cells of a
    store, named by number: two variables hold one future when they hold one number. *)

From S2P Require Import Prelude PyStr Json.
Open Scope Z_scope.

(** ** Futures *)

Inductive future (A : Type) :=
  | Pending
  | Completed (a : A)
  | FutureCancelled.
Arguments Pending {A}.
Arguments Completed {A} a.
Arguments FutureCancelled {A}.

Definition future_done {A} (f : future A) : bool := match f with Pending => false | _ => true end.

(** ** Keys *)

Inductive transfer_kind := TInstall | TPush.
#[export] Instance transfer_kind_eq_dec : EqDecision transfer_kind.
Proof. solve_decision. Defined.

Record transfer_key := TransferKey {
  k_kind : transfer_kind;
  k_device_id : pystr;
  k_job_id : option pystr;
  k_attempt : option Z;
}.
#[export] Instance transfer_key_eq_dec : EqDecision transfer_key.
Proof. solve_decision. Defined.

(** [TransferKey.__post_init__]; [None] is [ValueError]. *)
Definition make_key (kind : transfer_kind) (device_id : pystr) (job_id : option pystr)
    (attempt : option Z) : option transfer_key :=
  match kind with
  | TPush =>
      if bool_decide (job_id = None) || bool_decide (job_id = Some []) || negb (bool_decide (attempt = Some 1))
      then None else Some (TransferKey kind device_id job_id attempt)
  | TInstall =>
      if bool_decide (job_id = None) && bool_decide (attempt = None)
      then Some (TransferKey kind device_id job_id attempt) else None
  end.

(** ** Dicts in insertion order *)

Section Dict.
Context {K V : Type} `{EqDecision K}.

Fixpoint dict_get (k : K) (m : list (K * V)) : option V :=
  match m with
  | [] => None
  | (k', v) :: m' => if bool_decide (k = k') then Some v else dict_get k m'
  end.
Fixpoint dict_set (k : K) (v : V) (m : list (K * V)) : list (K * V) :=
  match m with
  | [] => [(k, v)]
  | (k', v') :: m' => if bool_decide (k = k') then (k, v) :: m' else (k', v') :: dict_set k v m'
  end.
Definition dict_del (k : K) (m : list (K * V)) : list (K * V) := filter (fun kv => kv.1 <> k) m.
End Dict.

(** ** The registry *)

Record transfers := Transfers {
  t_waiters : list (transfer_key * N);
  t_futures : gmap N (future pystr);
}.
#[export] Instance eta_transfers : Settable transfers := fun t => Transfers (t_waiters t) (t_futures t).

Section Registry.
Context (t : transfers).

Definition future_state (f : N) : future pystr := default Pending (t_futures t !! f).
Definition set_future (f : N) (x : future pystr) : transfers := t <| t_futures := <[f := x]> (t_futures t) |>.

(** [None] is [RuntimeError]: a waiter of the key is still pending. *)
Definition register (key : transfer_key) (f : N) : option transfers :=
  match dict_get key (t_waiters t) with
  | Some current =>
      if negb (future_done (future_state current)) then None
      else Some (t <| t_waiters := dict_set key f (t_waiters t) |>)
  | None => Some (t <| t_waiters := dict_set key f (t_waiters t) |>)
  end.

Definition release_exact (key : transfer_key) (reason : pystr) : bool * transfers :=
  match dict_get key (t_waiters t) with
  | None => (false, t)
  | Some f => if future_done (future_state f) then (false, t) else (true, set_future f (Completed reason))
  end.

Definition remove_if_same (key : transfer_key) (f : N) : bool * transfers :=
  if negb (bool_decide (dict_get key (t_waiters t) = Some f)) then (false, t)
  else (true, t <| t_waiters := dict_del key (t_waiters t) |>).

Definition get_waiter (key : transfer_key) : option N := dict_get key (t_waiters t).
Definition waiter_count : nat := length (t_waiters t).
End Registry.

(** The loop runs over a copy of the items, each future read when its turn comes. *)
Fixpoint release_items (items : list (transfer_key * N)) (device_id reason : pystr) (t : transfers)
    : list transfer_key * transfers :=
  match items with
  | [] => ([], t)
  | (key, f) :: items' =>
      if bool_decide (k_device_id key = device_id) && negb (future_done (future_state t f)) then
        let '(released, t') := release_items items' device_id reason (set_future t f (Completed reason)) in
        (key :: released, t')
      else release_items items' device_id reason t
  end.
Definition release_all_for_device (t : transfers) (device_id reason : pystr) : list transfer_key * transfers :=
  release_items (t_waiters t) device_id reason t.

(** ** The tuple-keyed facade *)

(** [(device_id, task)] to the typed key it stands for. *)
Record adapter := Adapter {
  a_keys : list ((pystr * pystr) * transfer_key);
  a_registry : transfers;
}.
#[export] Instance eta_adapter : Settable adapter := fun a => Adapter (a_keys a) (a_registry a).

Section Adapter.
Context (a : adapter).

(** [_key]: [fresh] is the text of the [uuid4()] a new legacy Push draws. *)
Definition _key (fresh : pystr) (key : pystr * pystr) : transfer_key :=
  if streq key.2 (u "install") then TransferKey TInstall key.1 None None
  else match dict_get key (a_keys a) with
       | Some existing => existing
       | None => TransferKey TPush key.1 (Some (u "legacy-" ++ fresh)) (Some 1)
       end.

(** [adapter[key]]; [None] is [KeyError]. *)
Definition getitem (key : pystr * pystr) : option N * adapter :=
  match dict_get key (a_keys a) with
  | None => (None, a)
  | Some typed =>
      match get_waiter (a_registry a) typed with
      | None => (None, a <| a_keys := dict_del key (a_keys a) |>)
      | Some f => (Some f, a)
      end
  end.

(** What [adapter[key] = value] registers with: the previous waiter is gone. *)
Definition without_previous (key : pystr * pystr) : transfers :=
  match dict_get key (a_keys a) with
  | None => a_registry a
  | Some previous =>
      match get_waiter (a_registry a) previous with
      | Some current => (remove_if_same (a_registry a) previous current).2
      | None => a_registry a
      end
  end.

(** [adapter[key] = value]; the failure is [register]'s. *)
Definition setitem (fresh : pystr) (key : pystr * pystr) (value : N) : option unit * adapter :=
  let registry := without_previous key in
  let typed := _key fresh key in
  match register registry typed value with
  | None => (None, a <| a_registry := registry |>)
  | Some registry' => (Some tt, Adapter (dict_set key typed (a_keys a)) registry')
  end.

Definition delitem (key : pystr * pystr) : option unit * adapter :=
  match dict_get key (a_keys a) with
  | None => (None, a)
  | Some typed =>
      let registry := match get_waiter (a_registry a) typed with
                      | Some f => (remove_if_same (a_registry a) typed f).2
                      | None => a_registry a
                      end in
      (Some tt, Adapter (dict_del key (a_keys a)) registry)
  end.
End Adapter.

(** [tuple(adapter)]: keys whose waiter is gone are dropped on the way. *)
Fixpoint iterate (keys : list (pystr * pystr)) (a : adapter) : list (pystr * pystr) * adapter :=
  match keys with
  | [] => ([], a)
  | key :: keys' =>
      match dict_get key (a_keys a) ≫= get_waiter (a_registry a) with
      | None => iterate keys' (a <| a_keys := dict_del key (a_keys a) |>)
      | Some _ => let '(l, a') := iterate keys' a in (key :: l, a')
      end
  end.
Definition adapter_keys (a : adapter) : list (pystr * pystr) * adapter := iterate (a_keys a).*1 a.

(** [_release_transfer_slot]: the server's hook, on the facade. *)
Definition release_future (a : adapter) (f : N) (reason : pystr) : bool * adapter :=
  if future_done (future_state (a_registry a) f) then (false, a)
  else (true, a <| a_registry := set_future (a_registry a) f (Completed reason) |>).
Fixpoint release_keys (keys : list (pystr * pystr)) (device_id reason : pystr) (a : adapter) : bool * adapter :=
  match keys with
  | [] => (false, a)
  | key :: keys' =>
      if negb (bool_decide (key.1 = device_id)) then release_keys keys' device_id reason a
      else
        let '(future, a1) := getitem a key in
        let '(r1, a2) := match future with Some f => release_future a1 f reason | None => (false, a1) end in
        let '(r2, a3) := release_keys keys' device_id reason a2 in
        (r1 || r2, a3)
  end.
Definition _release_transfer_slot (a : adapter) (device_id reason : pystr) (task : option pystr) : bool * adapter :=
  match task with
  | Some task =>
      if streq task (u "install") || streq task (u "push") then
        let '(future, a1) := getitem a (device_id, task) in
        match future with
        | Some f => release_future a1 f reason
        | None => (false, a1)
        end
      else let '(keys, a1) := adapter_keys a in release_keys keys device_id reason a1
  | None => let '(keys, a1) := adapter_keys a in release_keys keys device_id reason a1
  end.

(** ** Dict lemmas *)

Section DictLemmas.
Context {K V : Type} `{EqDecision K}.

Lemma dict_get_set (k k' : K) (v : V) m :
  dict_get k' (dict_set k v m) = if bool_decide (k' = k) then Some v else dict_get k' m.
Proof.
  induction m as [|[k2 v2] m IH]; simpl; [done|].
  destruct (bool_decide (k = k2)) eqn:E; simpl.
  - apply bool_decide_eq_true_1 in E as ->. by case_bool_decide.
  - apply bool_decide_eq_false_1 in E. rw IH. repeat case_bool_decide; congruence.
Qed.
Lemma dict_get_del (k k' : K) (m : list (K * V)) :
  dict_get k' (dict_del k m) = if bool_decide (k' = k) then None else dict_get k' m.
Proof.
  induction m as [|[k2 v2] m IH]; [by case_bool_decide|]. rw /dict_del filter_cons.
  fold (dict_del k m). simpl. destruct (decide (k2 <> k)) as [Hn|Hn]; simpl.
  - rw IH. repeat case_bool_decide; congruence.
  - assert (k2 = k) as -> by by destruct (decide (k2 = k)). rw IH. by repeat case_bool_decide.
Qed.
Lemma dict_get_in (k : K) (v : V) m : dict_get k m = Some v -> (k, v) ∈ m.
Proof.
  induction m as [|[k2 v2] m IH]; [done|]. simpl. case_bool_decide as E.
  - intros [= ->]. subst. left.
  - intros ?%IH. by right.
Qed.
End DictLemmas.

Lemma future_state_set t f x g :
  future_state (set_future t f x) g = if bool_decide (g = f) then x else future_state t g.
Proof.
  rw /future_state /set_future /= lookup_insert. case_bool_decide as E.
  - by subst; rw decide_True.
  - by rw decide_False.
Qed.

(** ** What the registry guarantees *)

Lemma register_some t key f t' :
  register t key f = Some t' ->
  get_waiter t' key = Some f /\ (forall k, k <> key -> get_waiter t' k = get_waiter t k) /\
  t_futures t' = t_futures t.
Proof.
  intros Ht. assert (t' = t <| t_waiters := dict_set key f (t_waiters t) |>) as ->.
  { rw /register in Ht. repeat case_match; congruence. }
  rw /get_waiter /=. split_and!; [|intros k Hk|done]; rw dict_get_set; by case_bool_decide.
Qed.

(** A waiter can be registered exactly when its key has no pending one, so nothing
    displaces a transfer in progress; a registered pending waiter is released once, with
    the first reason, and a release completes no other future. *)
Theorem waiter_released_once t key f :
  (register t key f = None <->
     exists g, get_waiter t key = Some g /\ future_state t g = Pending) /\
  (forall t', register t key f = Some t' ->
     get_waiter t' key = Some f /\ (forall k, k <> key -> get_waiter t' k = get_waiter t k) /\
     t_futures t' = t_futures t) /\
  (forall reason, get_waiter t key = Some f -> future_state t f = Pending ->
     exists t', release_exact t key reason = (true, t') /\
       future_state t' f = Completed reason /\ (forall g, g <> f -> future_state t' g = future_state t g) /\
       t_waiters t' = t_waiters t /\ (forall again, release_exact t' key again = (false, t'))).
Proof.
  split_and!.
  - rw /register /get_waiter. destruct (dict_get key (t_waiters t)) as [g|]; [|split; [done|by intros (? & ? & _)]].
    destruct (future_state t g) eqn:E; simpl; split; try done; try (by intros (? & [= <-] & ?); congruence).
    intros _. by exists g.
  - apply register_some.
  - intros reason Hg Hf. rw /get_waiter in Hg. exists (set_future t f (Completed reason)). rw /release_exact Hg Hf /=.
    split_and!; [done| |intros g Hn|done|intros again]; try (rw future_state_set; by case_bool_decide).
Qed.

Lemma exists_skip {A} (P : A -> Prop) `{forall x, Decision (P x)} x l :
  ~ P x -> bool_decide (Exists P (x :: l)) = bool_decide (Exists P l).
Proof. intros Hx. apply bool_decide_ext. rw Exists_cons. naive_solver. Qed.

Lemma release_items_spec items device_id reason t :
  let r := release_items items device_id reason t in
  t_waiters r.2 = t_waiters t /\
  (forall g, future_state r.2 g =
     if bool_decide (Exists (fun kf => k_device_id kf.1 = device_id /\ kf.2 = g) items)
        && negb (future_done (future_state t g))
     then Completed reason else future_state t g) /\
  (forall k, k ∈ r.1 -> k_device_id k = device_id /\ exists g, (k, g) ∈ items /\ future_state t g = Pending).
Proof.
  assert (forall t g, future_done (future_state t g) = false -> future_state t g = Pending) as Hpend.
  { intros t2 g. by destruct (future_state t2 g). }
  induction items as [|[key f] items IH] in t |- *; simpl.
  { by split_and!; [| |intros k ?%elem_of_nil]. }
  destruct (bool_decide (k_device_id key = device_id) && negb (future_done (future_state t f))) eqn:E.
  - apply andb_true_iff in E as [Hd%bool_decide_eq_true_1 Hf%negb_true_iff].
    specialize (IH (set_future t f (Completed reason))).
    destruct (release_items items device_id reason _) as [ks t']. simpl in *. destruct IH as (Hw & Hs & Hk).
    split_and!; [done| |].
    + intros g. rw Hs future_state_set. destruct (decide (g = f)) as [->|Hn].
      * rw (bool_decide_eq_true_2 (f = f)) //= Hf andb_false_r /=.
        rw bool_decide_eq_true_2 //. by left.
      * rw (bool_decide_eq_false_2 (g = f)) // exists_skip //. naive_solver.
    + intros k [->|(Hkd & g & Hg & Hp)%Hk]%elem_of_cons.
      * split; [done|]. exists f. split; [left|by apply Hpend].
      * split; [done|]. exists g. split; [by right|]. rw future_state_set in Hp. by case_bool_decide.
  - destruct (IH t) as (Hw & Hs & Hk). destruct (release_items items device_id reason t) as [ks t'].
    simpl in *. split_and!; [done| |].
    + intros g. rw Hs. apply andb_false_iff in E as [Hn%bool_decide_eq_false_1|Hd%negb_false_iff].
      * rw exists_skip //. naive_solver.
      * destruct (decide (g = f)) as [->|Hn]; [by rw Hd !andb_false_r|].
        rw exists_skip //. naive_solver.
    + intros k (Hkd & g & Hg & Hp)%Hk. split; [done|]. exists g. split; [by right|done].
Qed.

(** Releasing a device's waiters completes exactly the pending futures registered for
    that device, with the given reason, and leaves every other future and every
    registration as it was; the keys it reports are those of the device that were
    pending. *)
Theorem release_all_is_exact t device_id reason :
  let '(released, t') := release_all_for_device t device_id reason in
  t_waiters t' = t_waiters t /\
  (forall g, future_state t' g =
     if bool_decide (Exists (fun kf => k_device_id kf.1 = device_id /\ kf.2 = g) (t_waiters t))
        && negb (future_done (future_state t g))
     then Completed reason else future_state t g) /\
  (forall k, k ∈ released -> k_device_id k = device_id /\
     exists g, (k, g) ∈ t_waiters t /\ future_state t g = Pending).
Proof.
  pose proof (release_items_spec (t_waiters t) device_id reason t) as H.
  rw /release_all_for_device. by destruct (release_items _ _ _ _).
Qed.

(** ** What the facade guarantees *)

(** The keys of the facade: an installation's, or a legacy Push's own identity. *)
Definition facade_key (k : transfer_key) : Prop :=
  k_kind k = TInstall \/ exists s, k_job_id k = Some (u "legacy-" ++ s).
Definition facade_ok (a : adapter) : Prop := forall p k, (p, k) ∈ a_keys a -> facade_key k.

Lemma remove_if_same_get t key f k :
  k <> key -> get_waiter (remove_if_same t key f).2 k = get_waiter t k.
Proof.
  intros Hn. rw /remove_if_same /get_waiter. case_bool_decide; simpl; [|done].
  rw dict_get_del. by case_bool_decide.
Qed.
Lemma facade_key_of a fresh key : facade_ok a -> facade_key (_key a fresh key).
Proof.
  intros Ha. rw /_key. destruct (streq key.2 (u "install")); [by left|].
  destruct (dict_get key (a_keys a)) as [k|] eqn:E; [by eapply Ha, dict_get_in|].
  right. by eexists.
Qed.
Lemma dict_set_in {K V} `{EqDecision K} (k k' : K) (v v' : V) m :
  (k', v') ∈ dict_set k v m -> (k' = k /\ v' = v) \/ (k', v') ∈ m.
Proof.
  induction m as [|[k2 v2] m IH]; simpl.
  - intros [= -> ->]%list_elem_of_singleton. by left.
  - case_bool_decide.
    + intros [[= -> ->]|?]%elem_of_cons; [by left|right; by right].
    + intros [[= -> ->]|[?|?]%IH]%elem_of_cons; [right; left|by left|right; by right].
Qed.

(** Assigning through the facade makes the value the waiter of its key, and neither
    assigning nor deleting touches the waiter of a canonical (job, device, attempt) key:
    the legacy code cannot displace a job transfer. *)
Theorem facade_keeps_canonical_waiters a fresh key value r a' :
  facade_ok a -> setitem a fresh key value = (r, a') ->
  facade_ok a' /\ (r = Some tt -> (getitem a' key).1 = Some value) /\
  facade_ok (delitem a' key).2 /\
  (forall k, ~ facade_key k ->
     get_waiter (a_registry a') k = get_waiter (a_registry a) k /\
     get_waiter (a_registry (delitem a' key).2) k = get_waiter (a_registry a) k).
Proof.
  intros Ha Hset.
  assert (forall k, ~ facade_key k -> get_waiter (without_previous a key) k = get_waiter (a_registry a) k) as Hprev.
  { intros k Hk. rw /without_previous. destruct (dict_get key (a_keys a)) as [p|] eqn:E; [|done].
    destruct (get_waiter _ p); [|done]. apply remove_if_same_get. intros ->. by eapply Hk, Ha, dict_get_in. }
  assert (facade_ok a' /\ (r = Some tt -> (getitem a' key).1 = Some value) /\
          (forall k, ~ facade_key k -> get_waiter (a_registry a') k = get_waiter (a_registry a) k)) as (Hok & Hget & Hk).
  { rw /setitem in Hset. destruct (register _ _ _) as [t|] eqn:E.
    - injection Hset as <- <-.
      destruct (register_some _ _ _ _ E) as (Hw & Ho & _). split_and!.
      + intros p k [[-> ->]|H]%dict_set_in; [by apply facade_key_of|by eapply Ha].
      + intros _. rw /getitem /= dict_get_set bool_decide_eq_true_2 //. by rw Hw.
      + intros k Hk. rw Ho ?Hprev //. intros ->. by apply Hk, facade_key_of.
    - injection Hset as <- <-. split_and!; [done|done|]. intros k Hk. by apply Hprev. }
  split_and!; [done..| |].
  - rw /delitem. destruct (dict_get key (a_keys a')) as [p|]; [|done].
    intros q k [_ Hin]%list_elem_of_filter. by eapply Hok.
  - intros k Hnk. split; [by apply Hk|]. rw -Hk // /delitem.
    destruct (dict_get key (a_keys a')) as [p|] eqn:E; [|done]. simpl.
    destruct (get_waiter (a_registry a') p); [|done]. apply remove_if_same_get.
    intros ->. by eapply Hnk, Hok, dict_get_in.
Qed.
Lemma facade_keeps_canonical_waiters_witness :
  let job := TransferKey TPush (u "headset-1") (Some (u "job-1")) (Some 1) in
  let a := Adapter [] (Transfers [(job, 1%N)] ∅) in
  let a' := (setitem a (u "f") (u "headset-1", u "push") 2%N).2 in
  (getitem a' (u "headset-1", u "push")).1 = Some 2%N /\ get_waiter (a_registry a') job = Some 1%N.
Proof.
  intros job a a'.
  destruct (facade_keeps_canonical_waiters a (u "f") (u "headset-1", u "push") 2%N (Some tt) a')
    as (_ & Hget & _ & Hk).
  - by intros p k ?%elem_of_nil.
  - vm_compute. reflexivity.
  - split; [by apply Hget|]. apply Hk. intros [H|[s H]]; discriminate H.
Defined.
