(* ===== verification/Live.v ===== *)
(** * The event loop around the database

    The memory the scheduler and the runtime share ([PushRuntime], [PushScheduler],
    [RuntimeWebSocketResponse.send_str]), and the effects of their tasks: calls of the
    database worker, sends on sockets, waits for futures.  A task runs alone between two
    awaits; at an await the other tasks and the peers run, and what they do is the
    environment's choice: any change of the tables and of the shared memory, a
    cancellation, the fate of a send, the time. *)

From S2P Require Import Prelude PyStr Json PushJobs Db Store Manager Policy Transfers.
From stdpp Require Import strings.
Open Scope Z_scope.

(** ** The shared memory *)

(** [LiveSession]; its lock is the device's.  The session ID is drawn with [uuid4], so
    that equal sessions are one object. *)
Record session := Session {
  se_device_id : pystr;
  se_session_id : pystr;
  se_ws : N;
  se_capabilities : gset pystr;
  se_process_instance_id : option pystr;
  se_http_base : pystr;
}.
#[export] Instance session_eq_dec : EqDecision session.
Proof. solve_decision. Defined.

(** The server's entry of a connected device: its socket and the rest of the dict. *)
Record device_entry := DeviceEntry { en_ws : N; en_fields : list (pystr * json) }.

(** A device socket: the device it registered for, and the entry of a connection that
    has not been granted one. *)
Record socket := Socket {
  so_device_id : option pystr;
  so_provisional : option (list (pystr * json));
}.

(** The identity of an acceptance wait: job, device, attempt. *)
Abbreviation accept_key := (pystr * pystr * Z)%type.
(** The answer to a command: [("accepted", payload)]. *)
Abbreviation response := (pystr * list (pystr * json))%type.

Record ram := Ram {
  sessions : gmap pystr session;
  registration_candidates : gmap pystr N;
  devices : gmap pystr device_entry;
  device_registry : gmap pystr (list (pystr * json));
  sockets : gmap N socket;
  transfer_registry : transfers;
  _accept_waiters : gmap accept_key N;
  accept_futures : gmap N (future response);
  _dispatch_waiters : gmap N (transfer_key * N * option N);
  publication_revisions : gmap pystr Z;
  pending_publications : list (pystr * snapshot);
  free_slots : Z;
  next_future : N;
  has_scheduler : bool;
  scheduler_running : bool;
  scheduler_awake : bool;
  _stopping : bool;
  outbox : list (N * json);
}.
#[export] Instance eta_ram : Settable ram := fun r =>
  Ram (sessions r) (registration_candidates r) (devices r) (device_registry r) (sockets r) (transfer_registry r)
    (_accept_waiters r) (accept_futures r) (_dispatch_waiters r) (publication_revisions r)
    (pending_publications r) (free_slots r) (next_future r) (has_scheduler r) (scheduler_running r) (scheduler_awake r)
    (_stopping r) (outbox r).

(** ** Exceptions of the tasks *)

Inductive failure :=
  | Database (e : exn)
  | OwnerChanged (msg : pystr)
  | NotAllowed (msg : pystr)
  | ConnectionLost (msg : pystr)
  | TimedOut
  | Cancelled
  | AssertionError
  | TypeError
  | WaiterRegistered
  | NoKey
  | Blocked.

(** [except StoreConflict], [StoreNotFound], [ConnectionError] ([ConnectionOwnerChanged]
    and [CommandNotAllowedError] are connection errors), [asyncio.TimeoutError],
    [Exception].  [Blocked] is not an exception: the task still waits for a slot. *)
Definition store_conflict (f : failure) : bool := match f with Database e => is_conflict e | _ => false end.
Definition store_not_found (f : failure) : bool :=
  match f with Database (StoreNotFound _) => true | _ => false end.
Definition connection_error (f : failure) : bool :=
  match f with OwnerChanged _ | NotAllowed _ | ConnectionLost _ => true | _ => false end.
Definition timeout_error (f : failure) : bool := match f with TimedOut => true | _ => false end.
Definition is_exception (f : failure) : bool := match f with Cancelled | Blocked => false | _ => true end.

(** ** The environment *)

(** What happens at the [n]-th await, the [n]-th reading of the clock, and the
    configuration of the server. *)
Class world := World {
  others_tables : nat -> db -> db;
  others_memory : nat -> ram -> ram;
  (** [Some b]: the task is cancelled there; a database operation it awaits has run when [b]. *)
  cancelled_at : nat -> option bool;
  (** A send that does not arrive raises. *)
  lost_send : nat -> option failure;
  clock : nat -> Z;
  (** An operation on files that raises. *)
  disk_error : nat -> option failure;
  (** The wait for the nearest upload deadline ends early. *)
  deadline_woken : nat -> bool;
  (** A task that has ended. *)
  task_done : N -> bool;
  str_of_failure : failure -> pystr;
  allow_legacy : bool;
  accept_timeout_ms : Z;
  accept_reconciliation_timeout_ms : Z;
  reconciliation_timeout_ms : Z;
}.

(** The database connection, the memory, the awaits and the readings of the clock so far. *)
Record live := Live { canon : conn; memory : ram; awaits : nat; reads : nat }.
#[export] Instance eta_live : Settable live := fun s => Live (canon s) (memory s) (awaits s) (reads s).

Abbreviation Task := (M live failure).

Definition look {A} (f : ram -> A) : Task A := gets (fun s => f (memory s)).
Definition change (f : ram -> ram) : Task unit := modify (fun s => s <| memory := f (memory s) |>).

(** [except <p>]: the exceptions of [p] are handled by [h]. *)
Definition except_on {A} (p : failure -> bool) (m : Task A) (h : failure -> Task A) : Task A :=
  try_except m (fun e => if p e then Some (h e) else None).

(** [try: m finally: cleanup]. *)
Definition finally {A} (m : Task A) (cleanup : Task unit) : Task A := fun s =>
  match m s with
  | (o, s') =>
      match cleanup s' with
      | (Ret _, s'') => (o, s'')
      | (Raise e, s'') => (Raise e, s'')
      end
  end.

(** [v in {...}]: a list or a dict is not hashable. *)
Definition hashable (v : json) : bool := match v with JArr _ | JObj _ => false | _ => true end.
Definition in_set (v : json) (names : list string) : Task bool :=
  if negb (hashable v) then raise TypeError else mret (existsb (fun s => eq_str v (u s)) names).

(** A missing value raises. *)
Definition or_fail {A} (e : failure) (o : option A) : Task A :=
  match o with Some a => mret a | None => raise e end.

Section Effects.
Context {W : world}.

(** The other tasks run. *)
Definition others (s : live) : live :=
  Live (Conn (others_tables (awaits s) (data (canon s))) (saved (canon s)))
    (others_memory (awaits s) (memory s)) (S (awaits s)) (reads s).

(** An await of anything but the database. *)
Definition pause : Task unit := fun s =>
  match cancelled_at (awaits s) with
  | Some _ => (Raise Cancelled, others s)
  | None => (Ret tt, others s)
  end.

Definition now_ms : Task Z := fun s => (Ret (clock (reads s)), s <| reads := S (reads s) |>).

(** [await asyncio.to_thread(f)] for an [f] that works on files. *)
Definition to_thread : Task unit :=
  n ← gets awaits;
  pause ;;
  match disk_error n with Some e => raise e | None => mret tt end.

(** [await self.store._call(op)]: other operations run before it and tasks after it. *)
Definition call {A} (op : Z -> Op A) : Task A := fun s =>
  let s1 := others s in
  match cancelled_at (awaits s) with
  | Some false => (Raise Cancelled, s1)
  | c =>
      let '(o, t) := op (clock (reads s1)) (canon s1) in
      let s2 := others (s1 <| canon := t |> <| reads := S (reads s1) |>) in
      match c, o with
      | None, Ret a => (Ret a, s2)
      | None, Raise e => (Raise (Database e), s2)
      | Some _, _ => (Raise Cancelled, s2)
      end
  end.

(** ** Futures *)

Definition create_future : Task N :=
  f ← look next_future;
  change (fun r => r <| next_future := (f + 1)%N |>) ;;
  mret f.

Definition transfer_done (r : ram) (f : N) : bool := future_done (future_state (transfer_registry r) f).
Definition accept_state (r : ram) (f : N) : future response := default Pending (accept_futures r !! f).

Definition cancel_transfer (f : N) : Task unit :=
  change (fun r => if transfer_done r f then r
                   else r <| transfer_registry := set_future (transfer_registry r) f FutureCancelled |>).
Definition cancel_accept (f : N) : Task unit :=
  change (fun r => if future_done (accept_state r f) then r
                   else r <| accept_futures := <[f := FutureCancelled]> (accept_futures r) |>).

(** [asyncio.wait_for]: a timeout or a cancellation cancels the future. *)
Definition wait_for {A} (state : ram -> future A) (cancel : Task unit) : Task A :=
  try_reraise pause cancel ;;
  x ← look state;
  match x with
  | Completed a => mret a
  | FutureCancelled => raise Cancelled
  | Pending => cancel ;; raise TimedOut
  end.
Definition wait_transfer (f : N) : Task pystr :=
  wait_for (fun r => future_state (transfer_registry r) f) (cancel_transfer f).
Definition wait_acceptance (f : N) : Task response :=
  wait_for (fun r => accept_state r f) (cancel_accept f).

(** ** The registry, the scheduler's wake-up, publication *)

Definition release (key : transfer_key) (reason : pystr) : Task unit :=
  change (fun r => r <| transfer_registry := (release_exact (transfer_registry r) key reason).2 |>).
Definition register_waiter (key : transfer_key) (f : N) : Task unit :=
  t ← look transfer_registry;
  t ← or_fail WaiterRegistered (register t key f);
  change (fun r => r <| transfer_registry := t |>).

(** [TransferKey("push", device_id, job_id, attempt)]; callers pass attempt 1. *)
Definition push_key (device_id job_id : pystr) (attempt : Z) : transfer_key :=
  TransferKey TPush device_id (Some job_id) (Some attempt).

(** [start()] does nothing while the scheduler stops. *)
Definition wake : Task unit :=
  change (fun r => r <| scheduler_running := scheduler_running r || negb (_stopping r) |>
                     <| scheduler_awake := true |>).
(** [if self.scheduler is not None: self.scheduler.wake()]. *)
Definition wake_scheduler : Task unit :=
  present ← look has_scheduler;
  if present : bool then wake else mret tt.

(** A dict entry that is replaced keeps its place. *)
Definition publish (snap : snapshot) : Task unit :=
  revisions ← look publication_revisions;
  if s_revision snap <=? default (-1) (revisions !! s_job_id snap) then mret tt
  else change (fun r =>
         r <| publication_revisions := <[s_job_id snap := s_revision snap]> (publication_revisions r) |>
           <| pending_publications := dict_set (s_job_id snap) snap (pending_publications r) |>).

(** One turn of [_publication_loop]: [popitem] takes the newest entry; the send to the
    administrators is an await. *)
Definition publish_next : Task (option snapshot) :=
  pending ← look pending_publications;
  match last pending with
  | None => mret None
  | Some (job_id, snap) =>
      change (fun r => r <| pending_publications := dict_del job_id (pending_publications r) |>) ;;
      pause ;;
      mret (Some snap)
  end.

(** ** Sending *)

Definition text_of (v : json) : option pystr := as_str v.
Definition registration_replies : list pystr := [u "REGISTERED"; u "REGISTERED_PROVISIONAL"; u "ERROR"].

(** The checks of [RuntimeWebSocketResponse.send_str] on a device socket; [false] is
    [CommandNotAllowedError]. *)
Definition may_send (r : ram) (ws : N) (payload : list (pystr * json)) : bool :=
  match sockets r !! ws with
  | None => true
  | Some so =>
      let message_type := default [] (text_of (get (u "type") payload)) in
      let reply := bool_decide (message_type ∈ registration_replies) in
      match so_provisional so with
      | Some provisional =>
          reply ||
          (bool_decide (message_type ∈ PROVISIONAL_POWER_COMMANDS) &&
           match get (u "connection_id") payload, get (u "connection_id") provisional with
           | JStr a, JStr b => streq a b
           | JNull, JNull => true
           | _, _ => false
           end &&
           command_allowed (Some provisional) (Some message_type))
      | None =>
          reply ||
          match so_device_id so with
          | None => false
          | Some device_id =>
              match devices r !! device_id, sessions r !! device_id with
              | Some entry, Some session =>
                  (en_ws entry =? ws)%N && (se_ws session =? ws)%N &&
                  is_null (get (u "connection_id") payload) &&
                  command_allowed (Some (en_fields entry)) (Some message_type)
              | _, _ => false
              end
          end
      end
  end.

(** [await ws.send_str(json.dumps(payload))] under [wait_for]: the send lock is taken,
    the checks are made, the frame leaves or is lost. *)
Definition send (ws : N) (payload : list (pystr * json)) : Task unit :=
  pause ;;
  r ← look id;
  if negb (may_send r ws payload) then raise (NotAllowed (u "Device is not ready or command is not allowed"))
  else
    n ← gets awaits;
    match lost_send n with
    | Some e => pause ;; raise e
    | None => change (fun r => r <| outbox := outbox r ++ [(ws, JObj payload)] |>) ;; pause
    end.
End Effects.

(** ** Reasoning about tasks *)

Lemma task_bind_ret {A B} (m : Task A) (f : A -> Task B) s b s' :
  (m ≫= f) s = (Ret b, s') -> exists a s1, m s = (Ret a, s1) /\ f a s1 = (Ret b, s').
Proof. rw /mbind /M_bind. destruct (m s) as [[a|e] s1]; [by eauto|done]. Qed.
Lemma or_fail_ret {A} e (o : option A) s a s' : or_fail e o s = (Ret a, s') -> o = Some a /\ s' = s.
Proof. destruct o; [|done]. by intros [= -> ->]. Qed.

Lemma ret_then {A B} (a : A) (f : A -> Task B) s : ((mret a : Task A) ≫= f) s = f a s.
Proof. done. Qed.
Lemma raise_then {A B} e (f : A -> Task B) s : ((raise e : Task A) ≫= f) s = (Raise e, s).
Proof. done. Qed.

Lemma pause_then {W : world} {B} (f : unit -> Task B) s :
  (pause ≫= f) s = match cancelled_at (awaits s) with
                   | Some _ => (Raise Cancelled, others s)
                   | None => f tt (others s)
                   end.
Proof. rw /mbind /M_bind /pause. by destruct (cancelled_at _). Qed.
Lemma look_then {A B} (g : ram -> A) (f : A -> Task B) s : (look g ≫= f) s = f (g (memory s)) s.
Proof. done. Qed.
Lemma change_then {B} (g : ram -> ram) (f : unit -> Task B) s : (change g ≫= f) s = f tt (change g s).2.
Proof. done. Qed.
Lemma gets_then {A B} (g : live -> A) (f : A -> Task B) s : (gets g ≫= f) s = f (g s) s.
Proof. done. Qed.
