(* ===== verification/Scheduler.v ===== *)
(** * The push scheduler (push_scheduler.py)

    One definition per method of [PushScheduler], on the event loop of [Live]: the
    claim of the next assignment, its dispatch to the live session, the wait for the
    client's acceptance, busy and late answers, timeouts and the recovery of a dispatch
    that failed unexpectedly. *)

From S2P Require Import Prelude PyStr Json PushJobs Db Store Manager Policy Transfers Live.
Open Scope Z_scope.

Definition MAX_FAILURE_DETAIL : nat := 2000.
Definition SENT_STATES : list device_state := [DISPATCHING; DOWNLOADING; VALIDATING; APPLYING].

(** [reason] and [detail] of a rejection, with their defaults. *)
Definition text_or (v : json) (default : pystr) : pystr :=
  match v with JStr s => if bool_decide (s = []) then default else s | _ => default end.

(** [snapshot["devices"][device_id]]. *)
Definition device_of (snap : snapshot) (device_id : pystr) : option device_snapshot :=
  dict_get device_id (s_devices snap).

Definition json_or_null (v : option pystr) : json := match v with Some s => JStr s | None => JNull end.

(** [urljoin(base.rstrip("/") + "/", path.lstrip("/"))] for an absolute base without
    query or fragment and a relative path of plain segments. *)
Definition join_url (http_base path : pystr) : pystr :=
  rstrip_chars [slash] http_base ++ [slash] ++ lstrip_by (fun c => (c =? slash)%N) path.

(** [self.sessions()] of the runtime: the sessions that own the device's connection and
    may receive any command. *)
Definition owns (r : ram) (device_id : pystr) (ws : N) : bool :=
  match devices r !! device_id with Some e => (en_ws e =? ws)%N | None => false end.
Definition dispatchable (r : ram) (device_id : pystr) (s : session) : bool :=
  match registration_candidates r !! device_id with Some c => (c =? se_ws s)%N | None => true end &&
  owns r device_id (se_ws s) &&
  command_allowed (en_fields <$> devices r !! device_id) None.
Definition _dispatch_sessions (r : ram) : gmap pystr session :=
  filter (fun ks => dispatchable r ks.1 ks.2 = true) (sessions r).

(** What [claim_next] hands to a dispatch task: the assignment and its job. *)
Abbreviation claimed_assignment := ((pystr * pystr) * device_row * snapshot)%type.

Section Scheduler.
Context {W : world}.

Definition live_session (device_id : pystr) : Task (option session) :=
  look (fun r => _dispatch_sessions r !! device_id).

Definition _protocol_for (s : session) : option protocol_mode :=
  if bool_decide (CAP_PUSH_JOB_ID_V1 ∈ se_capabilities s) then Some JOB_V1
  else if allow_legacy then Some LEGACY else None.

(** The command sent to the device. *)
Definition _command (snap : snapshot) (device_id : pystr) (protocol : protocol_mode) (http_base : pystr)
    : Task (list (pystr * json)) :=
  artifact ← or_fail AssertionError (s_artifact snap);
  let artifact_url := join_url http_base (as_url artifact) in
  let common := [(u "type", JStr (u "EXECUTE_PUSH_FILES")); (u "bundle_url", JStr artifact_url);
                 (u "bundle_filename", json_or_null (a_display_filename <$> as_row artifact));
                 (u "dest_path", JStr (s_dest_path snap));
                 (u "delete_extras", JBool (bool_decide (s_mode snap = SYNC)))] in
  match protocol with
  | JOB_V1 =>
      device ← or_fail NoKey (device_of snap device_id);
      mret (common ++
        [(u "job_id", JStr (s_job_id snap)); (u "attempt", JInt (ds_attempt device));
         (u "revision", JInt (s_revision snap)); (u "artifact_id", JStr (as_artifact_id artifact));
         (u "artifact_url", JStr artifact_url);
         (u "artifact_size", default JNull (JInt <$> (a_byte_size <$> as_row artifact)));
         (u "artifact_sha256", json_or_null (a_sha256 <$> as_row artifact))])
  | LEGACY => mret common
  end.

(** ** Reconciliation requests *)

Definition reconcile_request (job_id : pystr) (attempt : Z) (artifact_id : option pystr) : list (pystr * json) :=
  [(u "type", JStr (u "PUSH_RECONCILE_REQUEST"));
   (u "jobs", JArr [JObj [(u "job_id", JStr job_id); (u "attempt", JInt attempt);
                          (u "artifact_id", json_or_null artifact_id)]])].

(** Taking the device's lock is an await; the caller may hold it already. *)
Definition send_exact_reconcile (s : session) (job_id : pystr) (attempt : Z) (artifact_id : option pystr)
    (owner_lock_held : bool) : Task unit :=
  (if owner_lock_held then mret tt else pause) ;;
  current ← live_session (se_device_id s);
  if negb (bool_decide (current = Some s))
  then raise (OwnerChanged (u "device owner changed before reconcile request"))
  else send (se_ws s) (reconcile_request job_id attempt artifact_id).

Definition send_reconcile (s : session) (snap : snapshot) (device_id : pystr) : Task unit :=
  device ← or_fail NoKey (device_of snap device_id);
  send_exact_reconcile s (s_job_id snap) (ds_attempt device) (as_artifact_id <$> s_artifact snap) false.

(** ** Settling an assignment *)

(** The columns of a failure, and of the end of a reconciliation. *)
Definition failure_fields (code detail : pystr) : list assignment :=
  [failure_code_col (Some code); failure_detail_col (Some (take MAX_FAILURE_DETAIL detail));
   accept_deadline None; reconciliation_reason None; reconciliation_deadline None].

Definition _fail_current (job_id device_id : pystr) (expected : list device_state) (code detail : pystr)
    : Task unit :=
  finally
    (except_on store_conflict
       (snap ← call (transition_device job_id device_id (Some expected) FAILED
                       (failure_fields code detail) false);
        publish snap)
       (fun _ => mret tt))
    wake.

Definition _requeue_after_send_race (job_id device_id detail : pystr) : Task unit :=
  except_on store_conflict
    (snap ← call (transition_device job_id device_id (Some [DISPATCHING]) QUEUED
                    [queue_reason (Some (u "awaiting_dispatch")); accept_deadline None; failure_code_col None;
                     failure_detail_col (Some (take MAX_FAILURE_DETAIL detail))] false);
     publish snap)
    (fun _ => mret tt) ;;
  wake.

(** ** The client is busy *)

(** Back to the queue behind the job the client works on; [false] when the assignment has
    moved on. *)
Definition requeue_behind (job_id device_id : pystr) : Task bool :=
  except_on store_conflict
    (snap ← call (transition_device job_id device_id (Some [DISPATCHING; RECONCILING]) QUEUED
                    [queue_reason (Some (u "same_device_job")); accept_deadline None] false);
     publish snap ;;
     mret true)
    (fun _ => mret false).

Definition fence_matches (fence : option (fence_row * option device_state * option pystr)) (job_id : pystr) : bool :=
  match fence with
  | Some (f, _, _) => bool_decide (f_blocking_job_id f = Some job_id)
                      && bool_decide (f_blocking_attempt f = Some 1)
  | None => false
  end.

(** The client names an execution this server knows nothing of. *)
Definition busy_with_unknown (job_id device_id : pystr) (active : list (pystr * json)) : Task bool :=
  let opaque := opaque_identity_for_active active in
  let protocol := if is_true (get (u "legacy") active) then LEGACY else JOB_V1 in
  s ← live_session device_id;
  snaps ← call (add_opaque_fence device_id
                  (if bool_decide (opaque = []) then u "unknown-active-job" else opaque) protocol
                  (s ≫= se_process_instance_id)
                  (u "client reported an active Push/Sync execution unknown to this server"));
  for_each publish snaps ;;
  _fail_current job_id device_id [DISPATCHING; RECONCILING] (u "client_state_conflict")
    (u "Device reported an active Push/Sync execution that is not canonical on this server") ;;
  mret false.

(** The client works on an assignment of this server, in state [known]. *)
Definition busy_with_known (job_id device_id active_job_id : pystr) (active : list (pystr * json))
    (known : device_row * job_row) (owner_lock_held : bool) : Task bool :=
  fence ← call (fun _ => fenced_assignment_for_device device_id);
  let matches_fence := fence_matches fence active_job_id in
  if bool_decide (d_state known.1 ∈ ACTIVE_DEVICE_STATES)
     || (bool_decide (d_state known.1 = UNCONFIRMED) && matches_fence) then
    requeued ← requeue_behind job_id device_id;
    if negb (requeued : bool) then mret false
    else
      (if matches_fence then
         s ← live_session device_id;
         match s with
         | Some s => send_exact_reconcile s active_job_id 1 (j_artifact_id known.2) owner_lock_held
         | None => mret tt
         end
       else mret tt) ;;
      wake ;;
      mret false
  else busy_with_unknown job_id device_id active.

(** [payload.get("active_job")], an empty dict unless it is one. *)
Definition active_job (payload : list (pystr * json)) : list (pystr * json) :=
  default [] (as_obj (get (u "active_job") payload)).

Definition busy_with_legacy (job_id device_id : pystr) (active : list (pystr * json)) : Task bool :=
  if negb (is_true (get (u "legacy") active)) then mret false
  else
    row ← call (fun _ => active_assignment_for_device device_id);
    match row with
    | Some (key, r) => mret (negb (streq key.1 job_id) && bool_decide (d_protocol_mode r = LEGACY))
    | None => mret false
    end.

Definition _handle_busy (snap : snapshot) (device_id : pystr) (payload : list (pystr * json))
    (owner_lock_held : bool) : Task bool :=
  let job_id := s_job_id snap in
  let active := active_job payload in
  let active_attempt_1 := eq_int (get (u "attempt") active) 1 in
  legacy ← busy_with_legacy job_id device_id active;
  if (legacy : bool) then
    requeued ← requeue_behind job_id device_id;
    (if (requeued : bool) then wake else mret tt) ;;
    mret false
  else if eq_str (get (u "job_id") active) job_id && active_attempt_1 then
    now ← now_ms;
    except_on store_conflict
      (next ← call (transition_device job_id device_id (Some [DISPATCHING; RECONCILING]) DOWNLOADING
                      [accepted_at (Some now); accept_deadline None] false);
       publish next ;;
       mret true)
      (fun _ => mret false)
  else
    match as_str (get (u "job_id") active) with
    | Some active_job_id =>
        if active_attempt_1 then
          known ← call (fun _ => assignment_of active_job_id device_id);
          match known with
          | Some known => busy_with_known job_id device_id active_job_id active known owner_lock_held
          | None => busy_with_unknown job_id device_id active
          end
        else busy_with_unknown job_id device_id active
    | None => busy_with_unknown job_id device_id active
    end.

(** ** Command responses *)

Definition command_response (job_id device_id : pystr) (attempt : Z) (outcome : pystr)
    (payload : list (pystr * json)) : Task bool :=
  r ← look id;
  match _accept_waiters r !! (job_id, device_id, attempt) with
  | None => mret false
  | Some f =>
      if future_done (accept_state r f) then mret false
      else
        change (fun r => r <| accept_futures := <[f := Completed (outcome, payload)]> (accept_futures r) |>) ;;
        mret true
  end.

Definition rejection (payload : list (pystr * json)) : pystr * pystr :=
  let reason := text_or (get (u "reason") payload) (u "command_rejected") in
  (reason, text_or (get (u "detail") payload) reason).

Definition handle_late_command_response (job_id device_id outcome : pystr) (payload : list (pystr * json))
    (owner_lock_held : bool) : Task unit :=
  row ← call (fun _ => assignment_of job_id device_id);
  match row with
  | None => mret tt
  | Some (r, _) =>
      if negb (bool_decide (d_state r = RECONCILING)) then mret tt
      else
        let key := push_key device_id job_id 1 in
        if streq outcome (u "busy") then
          snap ← call (fun _ => get_snapshot job_id);
          keep_transfer ← _handle_busy snap device_id payload owner_lock_held;
          if (keep_transfer : bool) then mret tt else release key (u "late_device_busy")
        else
          release key (u "late_command_rejected") ;;
          let '(reason, detail) := rejection payload in
          _fail_current job_id device_id [RECONCILING] reason detail
  end.

(** The acceptance wait timed out: the assignment starts a short reconciliation and keeps
    its transfer slot. *)
Definition acceptance_timed_out (s : session) (job_id device_id : pystr) (deadline : Z) : Task bool :=
  now ← now_ms;
  except_on (fun e => store_conflict e || connection_error e || timeout_error e)
    (change_snap ← call (mark_acceptance_reconciling job_id device_id deadline
                           (now + accept_reconciliation_timeout_ms));
     (if (change_snap.1 : bool) then publish change_snap.2 else mret tt) ;;
     send_reconcile s change_snap.2 device_id ;;
     mret true)
    (fun _ => mret false).

Definition acceptance_answered (snap : snapshot) (device_id : pystr) (key : transfer_key)
    (answer : response) : Task bool :=
  let job_id := s_job_id snap in
  if streq answer.1 (u "accepted") then
    now ← now_ms;
    except_on store_conflict
      (next ← call (transition_device job_id device_id (Some [DISPATCHING; RECONCILING]) DOWNLOADING
                      [accepted_at (Some now); accept_deadline None; reconciliation_reason None;
                       reconciliation_deadline None] false);
       publish next)
      (fun _ => mret tt) ;;
    mret true
  else if streq answer.1 (u "busy") then
    continue_transfer ← _handle_busy snap device_id answer.2 false;
    if (continue_transfer : bool) then mret true
    else release key (u "device_busy") ;; mret false
  else
    release key (u "command_rejected") ;;
    let '(reason, detail) := rejection answer.2 in
    _fail_current job_id device_id [DISPATCHING; RECONCILING] reason detail ;;
    mret false.

(** [wait_for] within [try]: the answer, or [None] for a timeout. *)
Definition _await_acceptance (s : session) (snap : snapshot) (device_id : pystr) (accept_future : N)
    (key : transfer_key) (deadline : Z) : Task bool :=
  _ ← or_fail NoKey (device_of snap device_id);
  answer ← except_on timeout_error (a ← wait_acceptance accept_future; mret (Some a)) (fun _ => mret None);
  match answer with
  | None => acceptance_timed_out s (s_job_id snap) device_id deadline
  | Some answer => acceptance_answered snap device_id key answer
  end.

(** ** The waiters of a dispatch *)

(** The waiters go, cancelled if nothing completed them; [task] is the current task. *)
Definition _clear_dispatch_waiters (task : N) (key : transfer_key) (transfer_future : N)
    (accept_future : option N) : Task unit :=
  job_id ← or_fail AssertionError (k_job_id key);
  attempt ← or_fail AssertionError (k_attempt key);
  cancel_transfer transfer_future ;;
  change (fun r => r <| transfer_registry := (remove_if_same (transfer_registry r) key transfer_future).2 |>) ;;
  let accept_key := (job_id, k_device_id key, attempt) in
  match accept_future with
  | None => mret tt
  | Some f =>
      r ← look id;
      if bool_decide (_accept_waiters r !! accept_key = Some f) then
        change (fun r => r <| _accept_waiters := delete accept_key (_accept_waiters r) |>) ;;
        cancel_accept f
      else mret tt
  end ;;
  change (fun r => match _dispatch_waiters r !! task with
                   | Some (_, f, _) => if (f =? transfer_future)%N
                                       then r <| _dispatch_waiters := delete task (_dispatch_waiters r) |> else r
                   | None => r
                   end) ;;
  wake.

Definition has_live_acceptance_waiter (r : ram) (job_id device_id : pystr)
    (attempt : Z) : bool :=
  match _accept_waiters r !! (job_id, device_id, attempt) with
  | None => false
  | Some waiter =>
      negb (future_done (accept_state r waiter)) &&
      existsb (fun '(task, (key, _, accept_future)) =>
                 negb (task_done task) && bool_decide (key = push_key device_id job_id attempt)
                 && bool_decide (accept_future = Some waiter))
        (map_to_list (_dispatch_waiters r))
  end.

(** ** One dispatch *)

(** [async with self.transfer_slots()]. *)
Definition with_slot {A} (body : Task A) : Task A :=
  pause ;;
  free ← look free_slots;
  if free <=? 0 then raise Blocked
  else
    change (fun r => r <| free_slots := free_slots r - 1 |>) ;;
    finally body (change (fun r => r <| free_slots := free_slots r + 1 |>)).

(** The send of the command under the device's lock: [true] when it left. *)
Definition send_command (s : session) (device_id : pystr) (command : list (pystr * json)) : Task unit :=
  pause ;;
  current ← live_session device_id;
  if negb (bool_decide (current = Some s))
  then raise (OwnerChanged (u "device WebSocket owner changed before command send"))
  else send (se_ws s) command.

(** The three clauses of the send's [try]. *)
Definition command_not_sent (job_id device_id : pystr) (key : transfer_key) (clear : Task unit) (e : failure)
    : Task bool :=
  match e with
  | OwnerChanged msg =>
      release key (u "connection_replaced") ;;
      clear ;;
      _requeue_after_send_race job_id device_id msg ;;
      mret false
  | Cancelled => clear ;; raise Cancelled
  | e =>
      release key (u "command_send_failed") ;;
      clear ;;
      _fail_current job_id device_id [DISPATCHING] (u "command_send_failed")
        (u "Could not send EXECUTE_PUSH_FILES: " ++ str_of_failure e) ;;
      mret false
  end.

(** The transfer took too long: the assignment is reconciled, not settled. *)
Definition transfer_timed_out (job_id device_id : pystr) (attempt : Z) : Task unit :=
  row ← call (fun _ => active_assignment_for_device device_id);
  match row with
  | Some ((active_job_id, _), r) =>
      if streq active_job_id job_id && (d_attempt r =? attempt) && bool_decide (d_state r ∈ SENT_STATES) then
        now ← now_ms;
        except_on (fun e => store_conflict e || connection_error e || timeout_error e)
          (snap ← call (mark_reconciling job_id device_id [d_state r] (u "transfer_timeout")
                          (now + reconciliation_timeout_ms));
           publish snap ;;
           s ← live_session device_id;
           match s with Some s => send_reconcile s snap device_id | None => mret tt end)
          (fun _ => mret tt)
      else mret tt
  | None => mret tt
  end.

(** From the command on its way to the end of the transfer. *)
Definition await_transfer (job_id device_id : pystr) (attempt : Z) (transfer_future : N) (clear : Task unit)
    : Task unit :=
  finally
    (except_on timeout_error (wait_transfer transfer_future ;; mret tt)
       (fun _ => transfer_timed_out job_id device_id attempt))
    clear.

Definition after_send (s : session) (snap : snapshot) (device_id : pystr) (protocol : protocol_mode)
    (accept_future : option N) (key : transfer_key) (deadline : option Z) (clear : Task unit) : Task bool :=
  match protocol with
  | LEGACY =>
      now ← now_ms;
      except_on store_conflict
        (next ← call (transition_device (s_job_id snap) device_id (Some [DISPATCHING]) DOWNLOADING
                        [accepted_at (Some now); accept_deadline None] false);
         publish next ;;
         mret true)
        (fun _ => clear ;; mret false)
  | JOB_V1 =>
      f ← or_fail AssertionError accept_future;
      accepted ← try_reraise
                   (_await_acceptance s snap device_id f key (default 0 deadline)) clear;
      (if (accepted : bool) then mret tt else clear) ;;
      mret accepted
  end.

Definition dispatch_to (task : N) (s : session) (protocol : protocol_mode) (job_id device_id : pystr)
    (attempt : Z) (transfer_future : N) : Task unit :=
  let key := push_key device_id job_id attempt in
  register_waiter key transfer_future ;;
  accept_future ←
    match protocol with
    | JOB_V1 =>
        f ← create_future;
        change (fun r => r <| _accept_waiters := <[(job_id, device_id, attempt) := f]> (_accept_waiters r) |>) ;;
        mret (Some f)
    | LEGACY => mret None
    end;
  change (fun r => r <| _dispatch_waiters := <[task := (key, transfer_future, accept_future)]> (_dispatch_waiters r) |>) ;;
  let clear := _clear_dispatch_waiters task key transfer_future accept_future in
  deadline ← match protocol with
             | JOB_V1 => now ← now_ms; mret (Some (now + accept_timeout_ms))
             | LEGACY => mret None
             end;
  snap ← try_reraise (call (prepare_dispatch job_id device_id protocol (se_capabilities s) deadline)) clear;
  try_reraise (publish snap) clear ;;
  command ← _command snap device_id protocol (se_http_base s);
  sent ← try_except (send_command s device_id command ;; mret true)
           (fun e => Some (command_not_sent job_id device_id key clear e));
  if negb (sent : bool) then mret tt
  else
    accepted ← after_send s snap device_id protocol accept_future key deadline clear;
    if negb (accepted : bool) then mret tt
    else await_transfer job_id device_id attempt transfer_future clear.

Definition _dispatch_assignment_inner (task : N) (a : claimed_assignment) : Task unit :=
  let '((job_id, device_id), row, _) := a in
  transfer_future ← create_future;
  with_slot (
    s ← live_session device_id;
    match s with
    | None =>
        _fail_current job_id device_id [WAITING_TRANSFER] (u "device_offline_before_dispatch")
          (u "Device went offline before its queue turn")
    | Some s =>
        match _protocol_for s with
        | None =>
            _fail_current job_id device_id [WAITING_TRANSFER] (u "capability_changed_before_dispatch")
              (u "Live session no longer supports push_job_id_v1 and legacy fallback is disabled")
        | Some protocol => dispatch_to task s protocol job_id device_id (d_attempt row) transfer_future
        end
    end).

(** ** Recovery of a dispatch that failed unexpectedly *)

Definition recover_once (job_id device_id : pystr) (attempt : Z) (error : failure) : Task unit :=
  row ← call (fun _ => assignment_of job_id device_id);
  match row with
  | None => mret tt
  | Some (r, _) =>
      if negb (d_attempt r =? attempt) then mret tt
      else
        let current := d_state r in
        if bool_decide (current = WAITING_TRANSFER) then
          snap ← call (transition_device job_id device_id (Some [WAITING_TRANSFER]) QUEUED
                         [queue_reason (Some (u "dispatch_recovery")); failure_code_col None;
                          failure_detail_col (Some (take MAX_FAILURE_DETAIL (str_of_failure error)))] false);
          publish snap
        else if bool_decide (current ∈ RECONCILING :: SENT_STATES) then
          snap ←
            (if bool_decide (current = RECONCILING) then call (fun _ => get_snapshot job_id)
             else
               let pre_accept := bool_decide (current = DISPATCHING) && bool_decide (d_accepted_at r = None) in
               now ← now_ms;
               call (mark_reconciling job_id device_id [current] (u "unexpected_dispatch_failure")
                       (now + if pre_accept then accept_reconciliation_timeout_ms else reconciliation_timeout_ms)));
          publish snap ;;
          s ← live_session device_id;
          match s with
          | Some s =>
              if bool_decide (d_protocol_mode r = JOB_V1) then
                except_on (fun e => connection_error e || timeout_error e)
                  (send_reconcile s snap device_id) (fun _ => mret tt)
              else mret tt
          | None => mret tt
          end
        else mret tt
  end.

(** [while not self._stopping]: [false] when the fuel, the number of attempts, ran out. *)
Fixpoint recover_loop (fuel : nat) (job_id device_id : pystr) (attempt : Z) (error : failure) : Task bool :=
  match fuel with
  | O => mret false
  | S fuel' =>
      stopping ← look _stopping;
      if (stopping : bool) then mret true
      else
        again ← except_on is_exception (recover_once job_id device_id attempt error ;; mret false)
                  (fun _ => pause ;; mret true);
        if (again : bool) then recover_loop fuel' job_id device_id attempt error else mret true
  end.

Definition _recover_unexpected_dispatch_failure (fuel : nat) (task : N) (a : claimed_assignment) (error : failure)
    : Task bool :=
  let '((job_id, device_id), row, _) := a in
  owned ← look (fun r => _dispatch_waiters r !! task);
  match owned with
  | Some (key, transfer_future, accept_future) =>
      change (fun r => r <| _dispatch_waiters := delete task (_dispatch_waiters r) |>) ;;
      _clear_dispatch_waiters task key transfer_future accept_future
  | None => mret tt
  end ;;
  recover_loop fuel job_id device_id (d_attempt row) error.

Definition _dispatch_assignment (fuel : nat) (task : N) (a : claimed_assignment) : Task bool :=
  except_on is_exception (_dispatch_assignment_inner task a ;; mret true)
    (fun e => _recover_unexpected_dispatch_failure fuel task a e).

(** [start] alone does not wake a scheduler that runs. *)
Definition start : Task unit :=
  change (fun r => if negb (_stopping r) && negb (scheduler_running r)
                   then r <| scheduler_running := true |> <| scheduler_awake := true |> else r).

(** The futures of the waits are cancelled. *)
Definition cancel_waiters (r : ram) : gmap N (future response) :=
  map_fold (fun _ f futures => if future_done (accept_state r f) then futures else <[f := FutureCancelled]> futures)
    (accept_futures r) (_accept_waiters r).

(** The runner and the dispatch tasks are cancelled; [gather] waits for their end. *)
Definition stop : Task unit :=
  change (fun r => r <| _stopping := true |>) ;;
  pause ;;
  change (fun r => r <| scheduler_running := false |> <| accept_futures := cancel_waiters r |>
                     <| _accept_waiters := ∅ |> <| _dispatch_waiters := ∅ |> <| _stopping := false |>).

(** [_dispatch_done]: a task that ended, unless cancelled, wakes the scheduler. *)
Definition _dispatch_done (cancelled : bool) : Task unit := if cancelled then mret tt else wake.

(** ** The scheduler's loop *)

(** The inner loop of [_run]: one task per assignment claimed, until there is none.
    [None] when the fuel, the number of claims, ran out. *)
Fixpoint _run (fuel : nat) : Task (option (list claimed_assignment)) :=
  match fuel with
  | O => mret None
  | S fuel' =>
      online ← look (fun r => dom (_dispatch_sessions r));
      claimed ← except_on is_exception (a ← call (claim_next online); mret (Some a))
                  (fun _ => pause ;; mret None);
      match claimed with
      | Some None => mret (Some [])
      | Some (Some a) => rest ← _run fuel'; mret (cons a <$> rest)
      | None => _run fuel'
      end
  end.
End Scheduler.
