(* ===== verification/Runtime.v ===== *)
(** * Device messages (push_runtime.py)

    One definition per handler of [PushRuntime] that a frame of a device socket or a
    lost connection runs, under the device's lock, on the event loop of [Live]: command
    responses, transfer and validation progress, results and their acknowledgements,
    reconciliation reports, registration, disconnection, and the housekeeping of
    deadlines. *)

From S2P Require Import Prelude PyStr Json Uuid PushJobs Db Store Manager Policy Transfers Live Scheduler.
Open Scope Z_scope.

Abbreviation payload_t := (list (pystr * json)).

(** [payload.get("attempt") != 1]. *)
Definition attempt_is_1 (payload : payload_t) : bool := eq_int (get (u "attempt") payload) 1.
Definition _nonnegative_int (v : json) : Z :=
  match as_int v with Some n => if 0 <=? n then n else 0 | None => 0 end.
Definition message_type (payload : payload_t) (name : string) : bool := eq_str (get (u "type") payload) (u name).
Definition str_field (payload : payload_t) (key : string) : option pystr := as_str (get (u key) payload).

Section Runtime.
Context {W : world}.

Definition publish_all (snaps : list snapshot) : Task unit := for_each publish snaps.

(** [except (StoreConflict, StoreNotFound)]. *)
Definition lost_race (e : failure) : bool := store_conflict e || store_not_found e.

Definition reconciling (r : device_row) : bool := bool_decide (d_state r = RECONCILING).

(** ** Acceptance and rejection *)

(** A late acceptance is an exact report of an active execution. *)
Definition late_acceptance (device_id job_id : pystr) (payload : payload_t) : Task unit :=
  row ← call (fun _ => assignment_of job_id device_id);
  match row with
  | Some (r, _) =>
      if negb (reconciling r) then mret tt
      else
        except_on lost_race
          (report ← call (reconcile_report job_id device_id 1 (u "active")
                            (Some (default (u "downloading") (str_field payload "phase"))) None);
           if streq report.1 (u "active") then
             publish_all report.2 ;;
             transferred ← in_set (get (u "phase") payload) ["validating"; "applying"]%string;
             if (transferred : bool) then release (push_key device_id job_id 1) (u "late_accept_after_transfer")
             else mret tt
           else mret tt)
          (fun _ => mret tt)
  | None => mret tt
  end.

(** [self.scheduler.command_response(...)], [False] without a scheduler. *)
Definition deliver_response (device_id job_id outcome : pystr) (payload : payload_t) : Task bool :=
  present ← look has_scheduler;
  if (present : bool) then command_response job_id device_id 1 outcome payload else mret false.

Definition handle_accepted (device_id job_id : pystr) (payload : payload_t) : Task unit :=
  if negb (attempt_is_1 payload) then mret tt
  else
    delivered ← deliver_response device_id job_id (u "accepted") payload;
    if (delivered : bool) then mret tt else late_acceptance device_id job_id payload.

Definition handle_rejected (device_id job_id : pystr) (payload : payload_t) : Task unit :=
  if negb (attempt_is_1 payload) then mret tt
  else
    let outcome := if eq_str (get (u "reason") payload) (u "device_busy") then u "busy" else u "rejected" in
    delivered ← deliver_response device_id job_id outcome payload;
    present ← look has_scheduler;
    if negb (delivered : bool) && (present : bool)
    then handle_late_command_response job_id device_id outcome payload true
    else mret tt.

(** ** Progress *)

(** [try: snapshot = await self.store.get_snapshot(job_id) except StoreNotFound: return]. *)
Definition snapshot_or_none (job_id : pystr) : Task (option snapshot) :=
  except_on store_not_found (s ← call (fun _ => get_snapshot job_id); mret (Some s)) (fun _ => mret None).

(** [artifact["byte_size"]], which is [None] when the join found no artifact row. *)
Definition received_all (payload : payload_t) (a : artifact_snapshot) : bool :=
  match as_int (get (u "received_size") payload), a_byte_size <$> as_row a with
  | Some n, Some size => n =? size
  | _, _ => false
  end.

Definition _handle_transfer_complete (device_id : pystr) (payload : payload_t) : Task unit :=
  match str_field payload "job_id" with
  | Some job_id =>
      if negb (attempt_is_1 payload) then mret tt
      else
        snap ← snapshot_or_none job_id;
        match snap with
        | None => mret tt
        | Some snap =>
            match device_of snap device_id, s_artifact snap with
            | Some device, Some artifact =>
                if negb (eq_str (get (u "artifact_id") payload) (as_artifact_id artifact))
                   || negb (received_all payload artifact)
                   || negb (ds_attempt device =? 1)
                then mret tt
                else
                  now ← now_ms;
                  next ← except_on store_conflict
                    (s ← call (transition_device job_id device_id (Some [DOWNLOADING]) VALIDATING
                                 [transfer_completed_at (Some now); accept_deadline None;
                                  reconciliation_reason None; reconciliation_deadline None] false);
                     mret (Some s))
                    (fun _ => mret None);
                  match next with
                  | None => mret tt
                  | Some next =>
                      release (push_key device_id job_id 1) (u "transfer_complete") ;;
                      publish next
                  end
            | _, _ => mret tt
            end
        end
  | None => mret tt
  end.

Definition _handle_validation_complete (device_id : pystr) (payload : payload_t) : Task unit :=
  match str_field payload "job_id" with
  | Some job_id =>
      if negb (attempt_is_1 payload) then mret tt
      else
        snap ← snapshot_or_none job_id;
        match snap with
        | None => mret tt
        | Some snap =>
            row ← call (fun _ => assignment_of job_id device_id);
            match s_artifact snap, device_of snap device_id, row with
            | Some artifact, Some device, Some (r, _) =>
                if negb (eq_str (get (u "artifact_id") payload) (as_artifact_id artifact))
                   || negb (bool_decide (ds_state device = VALIDATING))
                   || negb (bool_decide (d_validation_completed_at r = None))
                then mret tt
                else
                  now ← now_ms;
                  except_on store_conflict
                    (next ← call (transition_device job_id device_id (Some [VALIDATING]) VALIDATING
                                    [validation_completed_at (Some now)] false);
                     publish next)
                    (fun _ => mret tt)
            | _, _, _ => mret tt
            end
        end
  | None => mret tt
  end.

Definition _handle_phase (device_id : pystr) (payload : payload_t) : Task unit :=
  if negb (eq_str (get (u "phase") payload) (u "applying")) || negb (attempt_is_1 payload) then mret tt
  else
    match str_field payload "job_id" with
    | None => mret tt
    | Some job_id =>
        now ← now_ms;
        except_on lost_race
          (snap ← call (transition_device job_id device_id (Some [VALIDATING; RECONCILING]) APPLYING
                          [apply_started_at (Some now); reconciliation_reason None;
                           reconciliation_deadline None] false);
           publish snap)
          (fun _ => mret tt)
    end.

(** ** Results *)

(** [if reason], [if revision is not None], [if not accepted]. *)
Definition result_ack (job_id : pystr) (accepted : bool) (revision : option Z) (reason : option pystr) : payload_t :=
  [(u "type", JStr (u "PUSH_RESULT_ACK")); (u "job_id", JStr job_id); (u "attempt", JInt 1);
   (u "accepted", JBool accepted)] ++
  match revision with Some n => [(u "revision", JInt n)] | None => [] end ++
  (if truthy reason then [(u "reason", json_or_null reason)] else []) ++
  (if accepted then [] else [(u "retryable", JBool false)]).

Definition _send_result_ack (s : session) (device_id job_id : pystr) (accepted : bool) (revision : option Z)
    (reason : option pystr) : Task unit :=
  current ← look (fun r => sessions r !! device_id);
  if negb (bool_decide (current = Some s)) then mret tt
  else
    except_on (fun e => connection_error e || timeout_error e)
      (send (se_ws s) (result_ack job_id accepted revision reason))
      (fun _ => mret tt).

Definition malformed_counts (status : pystr) (payload : payload_t) : bool :=
  streq status (u "success") &&
  existsb (fun name => match as_int (get (u name) payload) with Some n => n <? 0 | None => true end)
    ["added"; "updated"; "deleted"]%string.

Definition result_failure_code (status : pystr) (payload : payload_t) : option pystr :=
  match str_field payload "failure_code" with
  | Some c => if bool_decide (c = []) then if streq status (u "fail") then Some (u "apply_failed") else None
              else Some (take 128 c)
  | None => if streq status (u "fail") then Some (u "apply_failed") else None
  end.
Definition result_detail (payload : payload_t) : pystr :=
  take MAX_FAILURE_DETAIL
    (match str_field payload "detail" with
     | Some d => d
     | None => default [] (str_field payload "error")
     end).
Definition result_of (status : pystr) (payload : payload_t) : result :=
  Result (_nonnegative_int (get (u "added") payload)) (_nonnegative_int (get (u "updated") payload))
    (_nonnegative_int (get (u "deleted") payload)) (result_failure_code status payload)
    (Some (result_detail payload)).

(** [next((s for s in snapshots if s["job_id"] == job_id), None)]. *)
Definition snapshot_of_job (job_id : pystr) (snaps : list snapshot) : option snapshot :=
  List.find (fun s => streq (s_job_id s) job_id) snaps.

Definition terminal_result (device_id job_id : pystr) : Task unit :=
  release (push_key device_id job_id 1) (u "terminal_result").

Definition opaque_result (s : session) (device_id job_id : pystr) (snaps : list snapshot) : Task unit :=
  publish_all snaps ;;
  _send_result_ack s device_id job_id true (s_revision <$> snapshot_of_job job_id snaps) None ;;
  wake_scheduler.

Definition unconfirmed_result (s : session) (device_id job_id : pystr) : Task unit :=
  settled ← call (settle_late_fenced_result job_id device_id 1);
  let accepted : bool := settled.1 in
  (if accepted then terminal_result device_id job_id else mret tt) ;;
  publish_all settled.2 ;;
  _send_result_ack s device_id job_id accepted (s_revision <$> snapshot_of_job job_id settled.2)
    (if accepted then None else Some (u "stale_result")) ;;
  if (accepted : bool) then wake_scheduler else mret tt.

(** The assignment was given up between the read and the settlement. *)
Definition given_up_meanwhile (device_id : pystr) (settled : bool * option pystr * snapshot) : bool :=
  let '(accepted, reason, snap) := settled in
  negb accepted &&
  bool_decide (reason ∈ [Some (u "unexpected_result_state"); Some (u "conflicting_terminal_result")]) &&
  match device_of snap device_id with Some d => bool_decide (ds_state d = UNCONFIRMED) | None => false end.

Definition settle_and_ack (s : session) (device_id job_id status : pystr) (payload : payload_t)
    (was_terminal : bool) : Task unit :=
  settled ← call (settle_result job_id device_id 1 status (result_of status payload));
  final ←
    (if given_up_meanwhile device_id settled then
       retried ← call (settle_late_fenced_result job_id device_id 1);
       if (retried.1 : bool)
       then mret ((true, None, default settled.2 (snapshot_of_job job_id retried.2)), retried.2)
       else mret (settled, retried.2)
     else mret (settled, []));
  let '((accepted, reason, snap), late) := final in
  (if (accepted : bool) then terminal_result device_id job_id else mret tt) ;;
  (if (accepted : bool) then
     match late with
     | [] => if was_terminal then mret tt else publish snap
     | _ => publish_all late
     end
   else mret tt) ;;
  _send_result_ack s device_id job_id accepted (Some (s_revision snap)) reason ;;
  if (accepted : bool) then wake_scheduler else mret tt.

Definition _handle_result (device_id : pystr) (payload : payload_t) (s : session) : Task unit :=
  match str_field payload "job_id" with
  | None => mret tt
  | Some job_id =>
      let refuse reason := _send_result_ack s device_id job_id false None (Some (u reason)) in
      if negb (attempt_is_1 payload) then refuse "stale_result"%string
      else
        known_status ← in_set (get (u "status") payload) ["success"; "fail"]%string;
        match str_field payload "status" with
        | None => refuse "malformed_terminal_result"%string
        | Some status =>
            if negb (known_status : bool) || malformed_counts status payload
            then refuse "malformed_terminal_result"%string
            else
              opaque ← call (clear_matching_opaque_fence device_id job_id 1);
              if (opaque.1 : bool) then opaque_result s device_id job_id opaque.2
              else
                row ← call (fun _ => assignment_of job_id device_id);
                match row with
                | None => refuse "unknown_job"%string
                | Some (r, _) =>
                    if negb (d_attempt r =? 1) then refuse "stale_result"%string
                    else if bool_decide (d_state r = UNCONFIRMED) then unconfirmed_result s device_id job_id
                    else
                      settle_and_ack s device_id job_id status payload
                        (bool_decide (d_state r ∈ [SUCCEEDED; FAILED; INTERRUPTED]))
                end
        end
  end.

(** ** Reconciliation reports *)

Definition report_statuses : list pystr := [u "active"; u "absent"; u "interrupted"].
Definition gone (status : pystr) : bool := streq status (u "absent") || streq status (u "interrupted").

Definition unknown_report (device_id job_id status : pystr) : Task unit :=
  if negb (gone status) then mret tt
  else
    cleared ← call (clear_matching_opaque_fence device_id job_id 1);
    publish_all cleared.2 ;;
    if (cleared.1 : bool) then wake_scheduler else mret tt.

Definition unconfirmed_report (device_id job_id : pystr) : Task unit :=
  snaps ← call (clear_matching_fence job_id device_id 1);
  publish_all snaps ;;
  match snaps with [] => mret tt | _ => wake_scheduler end.

Definition reconciling_report (device_id job_id status : pystr) (payload : payload_t) : Task unit :=
  report ← except_on lost_race
    (r ← call (reconcile_report job_id device_id 1 status (str_field payload "phase") (str_field payload "detail"));
     mret (Some r))
    (fun _ => mret None);
  match report with
  | None => mret tt
  | Some (outcome, snaps) =>
      publish_all snaps ;;
      transferred ← (if bool_decide (outcome ∈ [u "requeued"; u "interrupted"]) then mret true
                     else if streq outcome (u "active")
                     then in_set (get (u "phase") payload) ["validating"; "applying"]%string
                     else mret false);
      (if (transferred : bool) then release (push_key device_id job_id 1) outcome
       else mret tt) ;;
      wake_scheduler
  end.

Definition _handle_reconcile_report (device_id : pystr) (payload : payload_t) : Task unit :=
  match str_field payload "job_id" with
  | None => mret tt
  | Some job_id =>
      if negb (attempt_is_1 payload) then mret tt
      else
        known_status ← in_set (get (u "status") payload) ["active"; "absent"; "interrupted"]%string;
        if negb (known_status : bool) then mret tt
        else
          let status := default [] (str_field payload "status") in
          row ← call (fun _ => assignment_of job_id device_id);
          match row with
          | None => unknown_report device_id job_id status
          | Some (r, _) =>
              if bool_decide (d_state r = UNCONFIRMED) && gone status then unconfirmed_report device_id job_id
              else if negb (reconciling r) then mret tt
              else reconciling_report device_id job_id status payload
          end
  end.

(** ** The frames of the current owner *)

Definition _handle_owned_legacy_message (s : session) (device_id : pystr) (payload : payload_t) : Task bool :=
  if message_type payload "DOWNLOAD_COMPLETE" && eq_str (get (u "task") payload) (u "push") then
    active ← call (fun _ => active_assignment_for_device device_id);
    match active with
    | Some ((job_id, _), r) =>
        if bool_decide (d_protocol_mode r = LEGACY) then
          release (push_key device_id job_id 1) (u "legacy_download_complete") ;;
          now ← now_ms;
          except_on store_conflict
            (snap ← call (transition_device job_id device_id (Some [DOWNLOADING]) VALIDATING
                            [transfer_completed_at (Some now)] false);
             publish snap)
            (fun _ => mret tt) ;;
          mret true
        else mret false
    | None => mret false
    end
  else if message_type payload "PUSH_FILES_RESULT" then
    active ← call (fun _ => active_assignment_for_device device_id);
    match active with
    | Some ((job_id, _), r) =>
        if bool_decide (d_protocol_mode r = LEGACY) then
          _handle_result device_id
            (dict_set (u "attempt") (JInt 1) (dict_set (u "job_id") (JStr job_id) payload)) s ;;
          mret true
        else mret false
    | None => mret false
    end
  else mret false.

Definition _handle_owned_job_v1_message (s : session) (device_id : pystr) (payload : payload_t) : Task bool :=
  match str_field payload "job_id" with
  | None => mret false
  | Some job_id =>
      if message_type payload "PUSH_JOB_ACCEPTED" then handle_accepted device_id job_id payload ;; mret true
      else if message_type payload "PUSH_JOB_REJECTED" then handle_rejected device_id job_id payload ;; mret true
      else if message_type payload "PUSH_TRANSFER_COMPLETE" then _handle_transfer_complete device_id payload ;; mret true
      else if message_type payload "DOWNLOAD_COMPLETE" then _handle_validation_complete device_id payload ;; mret true
      else if message_type payload "PUSH_PHASE" then _handle_phase device_id payload ;; mret true
      else if message_type payload "PUSH_FILES_RESULT" then _handle_result device_id payload s ;; mret true
      else if message_type payload "PUSH_RECONCILE_REPORT" then _handle_reconcile_report device_id payload ;; mret true
      else mret false
  end.

Definition job_v1_types : list string :=
  ["PUSH_JOB_ACCEPTED"; "PUSH_JOB_REJECTED"; "PUSH_TRANSFER_COMPLETE"; "PUSH_PHASE";
   "PUSH_RECONCILE_REPORT"]%string.

(** The candidate, when there is one, and the session are those of the frame's socket. *)
Definition current_owner (r : ram) (device_id : pystr) (ws : N) : option session :=
  match registration_candidates r !! device_id with
  | Some c => if (c =? ws)%N then sessions r !! device_id else None
  | None => sessions r !! device_id
  end ≫= fun s => if (se_ws s =? ws)%N then Some s else None.

(** [handle_device_message]: [true] when the frame was consumed. *)
Definition handle_device_message (ws : N) (device_id : option pystr) (payload : payload_t) : Task bool :=
  match device_id with
  | None | Some [] => mret false
  | Some device_id =>
      let has_job := bool_decide (is_Some (str_field payload "job_id")) in
      job_type ← in_set (get (u "type") payload) job_v1_types;
      let job_v1 : bool :=
        job_type || ((message_type payload "DOWNLOAD_COMPLETE" || message_type payload "PUSH_FILES_RESULT") && has_job) in
      let legacy_push_message :=
        (message_type payload "DOWNLOAD_COMPLETE" && eq_str (get (u "task") payload) (u "push"))
        || (message_type payload "PUSH_FILES_RESULT" && negb has_job) in
      if job_v1 || legacy_push_message then
        pause ;;
        owner ← look (fun r => current_owner r device_id ws);
        match owner with
        | None => mret job_v1
        | Some s => if job_v1 then _handle_owned_job_v1_message s device_id payload
                    else _handle_owned_legacy_message s device_id payload
        end
      else mret false
  end.

(** ** Asking a device what it does *)

(** The device's fence, exact or opaque. *)
Definition ask_about_fence (s : session) (device_id : pystr) : Task unit :=
  fence ← call (fun _ => fenced_assignment_for_device device_id);
  match fence ≫= (fun f => b ← f_blocking_job_id f.1.1;
                           if bool_decide (b = []) || negb (bool_decide (f_blocking_attempt f.1.1 = Some 1))
                           then None else Some (b, f.2)) with
  | Some (blocking_job_id, artifact_id) => send_exact_reconcile s blocking_job_id 1 artifact_id false
  | None =>
      opaque ← call (fun _ => opaque_reconcile_target device_id);
      match opaque with
      | Some o =>
          send_exact_reconcile s (default [] (as_str (get (u "job_id") o)))
            (default 0 (as_int (get (u "attempt") o))) (as_str (get (u "artifact_id") o)) false
      | None => mret tt
      end
  end.

Definition request_reconcile (device_id : pystr) : Task unit :=
  r ← look id;
  match sessions r !! device_id with
  | None => mret tt
  | Some s =>
      if negb (has_scheduler r) then mret tt
      else
        active ← call (fun _ => active_assignment_for_device device_id);
        match active with
        | Some ((job_id, _), row) =>
            if reconciling row then
              snap ← call (fun _ => get_snapshot job_id);
              send_reconcile s snap device_id
            else ask_about_fence s device_id
        | None => ask_about_fence s device_id
        end
  end.

(** ** A connection that is lost or replaced *)

(** What becomes of the device's active assignment: back to the queue before the
    command was sent, reconciled after. *)
Definition give_back (job_id device_id : pystr) (r : device_row) : Task (option snapshot) :=
  except_on store_conflict
    (if bool_decide (d_state r = WAITING_TRANSFER) then
       snap ← call (transition_device job_id device_id (Some [WAITING_TRANSFER]) QUEUED
                      [queue_reason (Some (u "awaiting_dispatch"))] false);
       mret (Some snap)
     else if bool_decide (d_state r ∈ SENT_STATES) then
       let short := bool_decide (d_state r = DISPATCHING) && bool_decide (d_accepted_at r = None) in
       now ← now_ms;
       snap ← call (mark_reconciling job_id device_id [d_state r]
                      (if short then u "disconnect_before_accept" else u "device_disconnect")
                      (now + if short then accept_reconciliation_timeout_ms else reconciliation_timeout_ms));
       mret (Some snap)
     else mret None)
    (fun _ => mret None).

Definition lose_assignment (device_id reason : pystr) : Task (option snapshot) :=
  active ← call (fun _ => active_assignment_for_device device_id);
  match active with
  | None => mret None
  | Some ((job_id, _), r) =>
      release (push_key device_id job_id (d_attempt r)) reason ;;
      give_back job_id device_id r
  end.

Definition set_ready (device_id : pystr) (ready : bool) : Task unit :=
  change (fun r => r <| devices := alter (fun e =>
    DeviceEntry (en_ws e) (dict_set (u "registration_ready") (JBool ready) (en_fields e))) device_id (devices r) |>).
Definition forget_candidate (device_id : pystr) (ws : N) : Task unit :=
  change (fun r => if bool_decide (registration_candidates r !! device_id = Some ws)
                   then r <| registration_candidates := delete device_id (registration_candidates r) |> else r).
Definition forget_session (device_id : pystr) : Task unit :=
  change (fun r => r <| sessions := delete device_id (sessions r) |>).

Definition disconnect_device (device_id : option pystr) (ws : N) : Task unit :=
  match device_id with
  | None | Some [] => mret tt
  | Some device_id =>
      pause ;;
      forget_candidate device_id ws ;;
      r ← look id;
      match sessions r !! device_id with
      | None => mret tt
      | Some s =>
          if negb (se_ws s =? ws)%N then mret tt
          else
            forget_session device_id ;;
            (if owns r device_id ws then set_ready device_id false else mret tt) ;;
            snap ← lose_assignment device_id (u "device_disconnect");
            match snap with Some snap => publish snap | None => mret tt end
      end
  end.

(** ** Registration *)

(** The report of an execution that is not one of this server's. *)
Definition opaque_registration (s : session) (device_id : pystr) (active_report : payload_t) (reason : string)
    : Task (list snapshot) :=
  call (add_opaque_fence device_id (opaque_identity_for_active active_report) JOB_V1
          (se_process_instance_id s) (u reason)).

Definition artifact_conflict (s : session) (device_id job_id : pystr) (active_report : payload_t)
    (current : device_state) : Task (list snapshot) :=
  snaps ← opaque_registration s device_id active_report
            "REGISTER active state conflicted with the canonical artifact";
  if is_terminal_device_state current then mret snaps
  else
    except_on store_conflict
      (snap ← call (transition_device job_id device_id (Some [current]) FAILED
                      [failure_code_col (Some (u "artifact_identity_mismatch"));
                       failure_detail_col (Some (u "REGISTER active artifact did not match the canonical assignment"));
                       accept_deadline None; reconciliation_reason None; reconciliation_deadline None] false);
       mret (snaps ++ [snap]))
      (fun _ => mret snaps).

Definition _registration_active_snapshots (device_id : pystr) (s : session) (active_report : payload_t)
    : Task (list snapshot) :=
  match str_field active_report "job_id", str_field active_report "phase" with
  | Some job_id, Some phase =>
      if negb (attempt_is_1 active_report)
      then opaque_registration s device_id active_report "REGISTER reported malformed active Push/Sync state"
      else
        row ← call (fun _ => assignment_of job_id device_id);
        match row with
        | None =>
            opaque_registration s device_id active_report
              "REGISTER reported an active Push/Sync job unknown to this server"
        | Some (r, j) =>
            let reported := str_field active_report "artifact_id" in
            if bool_decide (reported = None) || negb (bool_decide (reported = j_artifact_id j))
            then artifact_conflict s device_id job_id active_report (d_state r)
            else if negb (reconciling r) then mret []
            else
              except_on store_conflict
                (report ← call (reconcile_report job_id device_id 1 (u "active") (Some phase) None);
                 mret (if streq report.1 (u "active") then report.2 else []))
                (fun _ => mret [])
        end
  | _, _ => opaque_registration s device_id active_report "REGISTER reported malformed active Push/Sync state"
  end.

(** The capabilities of a session: the job protocol needs a process identity. *)
Definition session_capabilities (payload : payload_t) : gset pystr :=
  let capabilities := parse_capabilities (get (u "capabilities") payload) in
  match uuid_v4_or_none (get (u "process_instance_id") payload) with
  | None => capabilities ∖ {[CAP_PUSH_JOB_ID_V1]}
  | Some _ => capabilities
  end.

Definition still_candidate (r : ram) (device_id : pystr) (ws : N) : bool :=
  bool_decide (registration_candidates r !! device_id = Some ws) && owns r device_id ws.

(** The device's own account of what it does: the snapshots that changed, and whether a
    reconciliation is due. *)
Definition registration_report (s : session) (device_id : pystr) (payload : payload_t)
    : Task (list snapshot * bool) :=
  let runtime := as_obj (get (u "push_runtime") payload) in
  match runtime ≫= fun o => as_obj (get (u "active") o) with
  | Some active_report =>
      snaps ← _registration_active_snapshots device_id s active_report;
      mret (snaps, false)
  | None =>
      let reports_idle := match runtime ≫= assoc_get (u "active") with Some JNull => true | _ => false end in
      snaps ← (if reports_idle
               then call (clear_fence_on_process_replacement device_id (se_process_instance_id s)
                            (bool_decide (CAP_PUSH_JOB_ID_V1 ∈ se_capabilities s)))
               else mret []);
      active ← call (fun _ => active_assignment_for_device device_id);
      mret (snaps, match active with Some (_, r) => reconciling r | None => false end)
  end.

Definition registered_reply (s : session) : payload_t :=
  [(u "type", JStr (u "REGISTERED")); (u "session_id", JStr (se_session_id s))].

(** The new session takes over and is told so; an exception takes it back. *)
Definition install_session (s : session) (device_id : pystr) : Task unit :=
  change (fun r => r <| sessions := <[device_id := s]> (sessions r) |>) ;;
  try_reraise (send (se_ws s) (registered_reply s))
    (change (fun r => if bool_decide (sessions r !! device_id = Some s)
                      then r <| sessions := delete device_id (sessions r) |> else r)).

(** The part under the device's lock: [None] when another connection took the device. *)
Definition register_locked (s : session) (device_id : pystr) (payload : payload_t)
    : Task (option (list snapshot * bool)) :=
  let ws := se_ws s in
  r ← look id;
  if negb (still_candidate r device_id ws) then mret None
  else
    lost ← match sessions r !! device_id with
           | Some previous =>
               if (se_ws previous =? ws)%N then mret None
               else forget_session device_id ;; lose_assignment device_id (u "connection_replaced")
           | None => mret None
           end;
    report ← registration_report s device_id payload;
    r ← look id;
    if negb (still_candidate r device_id ws) then mret None
    else
      install_session s device_id ;;
      r ← look id;
      if negb (owns r device_id ws) then mret None
      else
        set_ready device_id true ;;
        forget_candidate device_id ws ;;
        mret (Some (match lost with Some snap => snap :: report.1 | None => report.1 end, report.2)).

(** [session_id] is the text of the [uuid4()] drawn for the session. *)
Definition register_device (session_id : pystr) (ws : N) (payload : payload_t) (http_base : pystr)
    (established_device_id : option pystr) : Task unit :=
  match (if truthy established_device_id then established_device_id else str_field payload "device_id") with
  | None | Some [] => mret tt
  | Some device_id =>
      let s := Session device_id session_id ws (session_capabilities payload)
                 (uuid_v4_or_none (get (u "process_instance_id") payload)) http_base in
      pause ;;
      registered ← register_locked s device_id payload;
      match registered with
      | None => mret tt
      | Some (snaps, needs_reconcile) =>
          publish_all snaps ;;
          r ← look id;
          (if needs_reconcile && command_allowed (en_fields <$> devices r !! device_id) None
           then request_reconcile device_id else mret tt) ;;
          wake_scheduler
      end
  end.

Definition acknowledge_registration (ws : N) (device_id : pystr) : Task unit :=
  r ← look id;
  match sessions r !! device_id, devices r !! device_id with
  | Some s, Some e =>
      if (se_ws s =? ws)%N && (en_ws e =? ws)%N && is_true (get (u "registration_ready") (en_fields e))
      then send ws (registered_reply s) else mret tt
  | _, _ => mret tt
  end.

Definition note_registration_candidate (ws : N) (device_id : pystr) : Task unit :=
  change (fun r => r <| registration_candidates := <[device_id := ws]> (registration_candidates r) |>).

(** ** Housekeeping of deadlines *)

Definition acceptance_expired (kr : (pystr * pystr) * device_row) : Task unit :=
  let '((job_id, device_id), row) := kr in
  r ← look id;
  if has_scheduler r && has_live_acceptance_waiter r job_id device_id (d_attempt row) then mret tt
  else
    finally
      (except_on is_exception
         (now ← now_ms;
          change_snap ← call (mark_acceptance_reconciling job_id device_id (default 0 (d_accept_deadline row))
                                (now + accept_reconciliation_timeout_ms));
          (if (change_snap.1 : bool) then publish change_snap.2 else mret tt) ;;
          request_reconcile device_id)
         (fun _ => mret tt))
      wake_scheduler.

Definition reconciliation_expired (kr : (pystr * pystr) * device_row) : Task unit :=
  let '((job_id, device_id), row) := kr in
  settled ← except_on is_exception
    (r ← look id;
     timestamp ← now_ms;
     snaps ← call (mark_unconfirmed job_id device_id (sessions r !! device_id ≫= se_process_instance_id)
                     (u "reconciliation deadline elapsed without matching evidence")
                     (d_reconciliation_deadline row) (Some timestamp));
     mret (Some snaps))
    (fun _ => mret None);
  match settled with
  | None => mret tt
  | Some snaps =>
      except_on is_exception
        (finally (release (push_key device_id job_id (d_attempt row)) (u "reconciliation_timeout") ;;
                  publish_all snaps) wake_scheduler)
        (fun _ => mret tt)
  end.

(** One turn of [_reconciliation_housekeeping], after its sleep. *)
Definition housekeeping_turn : Task unit :=
  pause ;;
  due ← except_on is_exception
    (timestamp ← now_ms;
     acceptances ← call (fun _ => expired_acceptances timestamp);
     rows ← call (fun _ => expired_reconciliations timestamp);
     mret (Some (acceptances, rows)))
    (fun _ => mret None);
  match due with
  | None => mret tt
  | Some (acceptances, rows) =>
      for_each acceptance_expired acceptances ;;
      for_each reconciliation_expired rows
  end.

(** One turn of [_created_deadline_loop]; the cleanup of the upload's files is an await. *)
Definition created_deadline_turn : Task unit :=
  except_on is_exception
    (nearest ← call (fun _ => next_created_deadline);
     match nearest with
     | None => pause
     | Some (job_id, deadline) =>
         n ← gets awaits;
         pause ;;
         if deadline_woken n then mret tt
         else
           snap ← except_on lost_race (call (expire_created job_id (Some deadline))) (fun _ => mret None);
           match snap with
           | None => mret tt
           | Some snap => finally (publish snap) (finally pause wake_scheduler)
           end
     end)
    (fun _ => pause).
End Runtime.
