(* ===== verification/Api.v ===== *)
(** * The job API (push_runtime.py)

    What an administrator's requests do: the creation of a job with its checks of the
    targets, the enabling of its dispatch, the record of an upload that failed. *)

From S2P Require Import Prelude PyStr Json PushJobs Db Store Manager Policy Transfers Live Scheduler Runtime.
Open Scope Z_scope.

Definition MAX_BUNDLE_SIZE : Z := 2 * 1024 * 1024 * 1024.
Definition MAX_BUNDLE_ENTRIES : Z := 5000.

(** [raise PushJobError(...)]. *)
Definition refused (msg : pystr) : failure := Database (JobError (PushJobError msg)).

(** ** Creating a job *)

Definition _create_response (snap : snapshot) : json :=
  JObj [(u "job_id", JStr (s_job_id snap)); (u "revision", JInt (s_revision snap));
        (u "state", JStr (job_state_value (s_state snap)));
        (u "create_expires_at", JInt (s_create_expires_at snap));
        (u "upload_url", JStr (u "/api/push-jobs/" ++ s_job_id snap ++ u "/upload"));
        (u "targets", JArr ((fun kd => JObj [(u "device_id", JStr kd.1);
           (u "protocol_mode", JStr (protocol_value (ds_protocol_mode kd.2)))]) <$> s_devices snap))].

Section Api.
Context {W : world}.

(** [entry or record or {}]. *)
Definition known_fields (r : ram) (device_id : pystr) : payload_t :=
  match devices r !! device_id with
  | Some e => en_fields e
  | None => default [] (device_registry r !! device_id)
  end.

(** The protocol a target will be served with, or why it is refused. *)
Definition target_protocol (r : ram) (device_id : pystr) : outcome failure (protocol_mode * gset pystr) :=
  if is_true (get (u "retired") (default [] (device_registry r !! device_id)))
  then Raise (refused (u "target device is retired: " ++ device_id))
  else if eq_str (get (u "identity_kind") (known_fields r device_id)) (u "legacy")
  then Raise (refused (u "legacy device only supports APK installation/update: " ++ device_id))
  else
    match _dispatch_sessions r !! device_id with
    | None => Raise (refused (u "target device is not online: " ++ device_id))
    | Some s =>
        if bool_decide (CAP_PUSH_JOB_ID_V1 ∈ se_capabilities s) then Ret (JOB_V1, se_capabilities s)
        else if allow_legacy then Ret (LEGACY, se_capabilities s)
        else Raise (refused (u "target does not support push_job_id_v1: " ++ device_id))
    end.

Fixpoint target_protocols (r : ram) (targets : list pystr)
    : outcome failure (gmap pystr (protocol_mode * gset pystr)) :=
  match targets with
  | [] => Ret ∅
  | device_id :: rest =>
      p ← target_protocol r device_id;
      ps ← target_protocols r rest;
      Ret (<[device_id := p]> ps)
  end.

Definition from_outcome {A} (o : outcome failure A) : Task A :=
  match o with Ret a => mret a | Raise e => raise e end.
Definition from_job {A} (o : outcome job_error A) : Task A :=
  match o with Ret a => mret a | Raise e => raise (Database (JobError e)) end.

(** A canonical request: the status and the snapshot it is answered with.  [fresh] is
    the text of the [uuid4()] of the job, [create_timeout] is in milliseconds. *)
Definition create_canonical (fresh : pystr) (create_timeout : Z) (canonical : canonical_create_request)
    : Task (Z * snapshot) :=
  existing ← call (fun _ => find_idempotent_job (client_request_id canonical) (fingerprint canonical));
  match existing with
  | Some snap => mret (200, snap)
  | None =>
      if MAX_BUNDLE_ENTRIES <? declared_file_count (source canonical)
      then raise (refused (u "declared file count exceeds the server limit"))
      else if MAX_BUNDLE_SIZE <? declared_total_bytes (source canonical)
      then raise (refused (u "declared total bytes exceed the server limit"))
      else
        r ← look id;
        protocols ← from_outcome (target_protocols r (target_devices canonical));
        created ← call (fun now => create_job canonical protocols create_timeout now fresh);
        (if (created.1 : bool) then publish created.2 else mret tt) ;;
        mret (if (created.1 : bool) then 201 else 200, created.2)
  end.

(** The body of the handler's [try]. *)
Definition create_checked (fresh : pystr) (create_timeout : Z) (body : json) : Task (Z * snapshot) :=
  fields ← or_fail (refused (u "request body must be a JSON object")) (as_obj body);
  canonical ← from_job (canonicalize_create_request fields);
  create_canonical fresh create_timeout canonical.

(** The status of an exception: conflicts 409, refused requests and [ValueError]s (a text
    that cannot be encoded is one) 422, anything else 500. *)
Definition http_status (e : failure) : Z :=
  match e with
  | Database (StoreConflict _) | Database (UploadDeadlineExpired _) => 409
  | Database (JobError _) | Database (ValueError _) => 422
  | _ => 500
  end.
Definition error_body (e : failure) : json := JObj [(u "error", JStr (str_of_failure e))].

(** [body] is [None] when the request does not hold JSON. *)
Definition create_job_handler (fresh : pystr) (create_timeout : Z) (body : option json) : Task (Z * json) :=
  except_on is_exception
    (body ← or_fail (Database (ValueError (u "request body is not JSON"))) body;
     created ← create_checked fresh create_timeout body;
     mret (created.1, _create_response created.2))
    (fun e => mret (http_status e, error_body e)).

(** ** A failed upload *)

Definition _record_upload_failure (job_id : pystr) (state : job_state) (code detail : pystr) : Task unit :=
  finally
    (except_on lost_race
       (snap ← call (fail_pre_dispatch job_id state code (take MAX_FAILURE_DETAIL detail));
        publish snap)
       (fun _ => mret tt))
    wake_scheduler.

(** ** Frames of the administrator's console *)

(** [_close_failed_admin_socket]: closing is an await whose failure is logged. *)
Definition _close_failed_admin_socket : Task unit := pause.

(** A send whose failure closes the socket; a cancellation goes on. *)
Definition tell_admin (ws : N) (message : payload_t) : Task unit :=
  except_on is_exception (send ws message) (fun _ => _close_failed_admin_socket).

Definition push_files_sent (max_concurrent : Z) (snap : snapshot) : payload_t :=
  [(u "type", JStr (u "PUSH_FILES_SENT")); (u "job_id", JStr (s_job_id snap));
   (u "revision", JInt (s_revision snap)); (u "state", JStr (job_state_value (s_state snap)));
   (u "dispatch_enabled", JBool (s_dispatch_enabled snap));
   (u "target_count", JInt (s_aggregate snap).2); (u "max_concurrent", JInt max_concurrent);
   (u "delete_extras", JBool (bool_decide (s_mode snap = SYNC))); (u "dest_path", JStr (s_dest_path snap))].

Definition push_files (max_concurrent : Z) (ws : N) (job_id : pystr) : Task unit :=
  enabled ← except_on lost_race (e ← call (enable_dispatch job_id); mret (Ret e)) (fun e => mret (Raise e));
  match enabled : outcome failure (bool * snapshot) with
  | Raise e => tell_admin ws [(u "type", JStr (u "ERROR")); (u "message", JStr (str_of_failure e))]
  | Ret (changed, snap) =>
      wake_scheduler ;;
      (if changed : bool then publish snap else mret tt) ;;
      tell_admin ws (push_files_sent max_concurrent snap)
  end.

Definition reconcile_push_device (payload : payload_t) : Task bool :=
  if message_type payload "RECONCILE_PUSH_DEVICE" then
    match str_field payload "device_id" with
    | Some device_id => request_reconcile device_id
    | None => mret tt
    end ;;
    mret true
  else mret false.

Definition handle_admin_message (max_concurrent : Z) (ws : N) (payload : payload_t) : Task bool :=
  let typ := get (u "type") payload in
  misplaced ← match assoc_get (u "target_connections") payload with
              | Some _ => power ← in_set typ ["REBOOT_DEVICE"; "POWER_OFF_DEVICE"]%string; mret (negb (power : bool))
              | None => mret false
              end;
  if (misplaced : bool) then
    send ws [(u "type", JStr (u "ERROR"));
             (u "message", JStr (u "target_connections is only supported for power control"))] ;;
    mret true
  else
    match str_field payload "job_id" with
    | Some job_id =>
        if message_type payload "PUSH_FILES" then push_files max_concurrent ws job_id ;; mret true
        else reconcile_push_device payload
    | None => reconcile_push_device payload
    end.
End Api.
