(* ===== verification/Discipline.v ===== *)
(** * The tasks keep the discipline

    The lifecycle of [Steps] asks something of its callers: canonical requests, device
    transitions from named live states, failures before dispatch only.  Here every task
    of the scheduler, of the runtime and of the job API is shown to make only such
    calls, whatever the other tasks do between its awaits and whichever send is lost:
    the tables stay reachable, so every invariant of the lifecycle holds while the
    server runs. *)

From S2P Require Import Prelude PyStr Json PushJobs Domain Db Store Tx Manager Protocol Safety Steps.
From S2P Require Import Requests Policy Transfers Live Scheduler Runtime Api.
From stdpp Require Import relations.
Open Scope Z_scope.

(** ** What tasks are made of *)

(** A change of the memory that neither publishes, sends, takes a slot nor grants a socket. *)
Definition bookkeeping (f : ram -> ram) : Prop :=
  forall r, publication_revisions (f r) = publication_revisions r /\
            pending_publications (f r) = pending_publications r /\ outbox (f r) = outbox r /\
            free_slots (f r) = free_slots r /\ sockets (f r) = sockets r.

(** The primitives: reads of the memory and of the tables, calls that [allowed] admits,
    publications, sends, awaits, bookkeeping, and Python's control flow. *)
Inductive built {W : world} : forall A, Task A -> Prop :=
  | built_ret A (a : A) : built A (mret a)
  | built_raise A e : built A (raise e)
  | built_gets A f : built A (gets f)
  | built_look A f : built A (look f)
  | built_now_ms : built Z now_ms
  | built_pause : built unit pause
  | built_change f : bookkeeping f -> built unit (change f)
  | built_publish snap : built unit (publish snap)
  | built_publish_next : built (option snapshot) publish_next
  | built_send ws payload : built unit (send ws payload)
  | built_step A op c :
      (forall n, exec (c n) = run (op n)) -> (forall n d, reachable d -> allowed d (c n)) -> built A (call op)
  | built_read A (op : Op A) : (forall t, (op t).2 = t) -> built A (call (fun _ => op))
  | built_bind A B (m : Task A) (f : A -> Task B) : built A m -> (forall a, built B (f a)) -> built B (m ≫= f)
  | built_try_except A m h : built A m -> (forall e h', h e = Some h' -> built A h') -> built A (try_except m h)
  | built_finally A m c : built A m -> built unit c -> built A (finally m c)
  | built_try_reraise A m c : built A m -> built unit c -> built A (try_reraise m c)
  | built_with_slot A m : built A m -> built A (with_slot m).
Arguments built {W A} m.

Create HintDb built.

Section Rules.
Context {W : world}.

Lemma built_or_fail {A} e (o : option A) : built (or_fail e o).
Proof. destruct o; constructor. Qed.
Lemma built_except_on {A} p (m : Task A) h : built m -> (forall e, built (h e)) -> built (except_on p m h).
Proof. intros Hm Hh. apply built_try_except; [done|]. intros e h'. destruct (p e); [|done]. by intros [= <-]. Qed.
Lemma built_for_each {A} (f : A -> Task unit) l : (forall x, built (f x)) -> built (for_each f l).
Proof. intros Hf. induction l as [|x l IH]; simpl; [constructor|]. apply built_bind; [apply Hf|done]. Qed.

(** What the primitives preserve, every task preserves.  The invariant is indexed by a
    balance, which a slot that is taken lowers until it is given back. *)
Section Preserved.
Context (I : Z -> live -> Prop).

Record preserved : Prop := Preserved {
  pr_others : forall k s, I k s -> I k (others s);
  pr_read : forall k s, I k s -> I k (s <| reads := S (reads s) |>);
  pr_change : forall k s f, bookkeeping f -> I k s -> I k (change f s).2;
  pr_publish : forall k s snap, I k s -> I k (publish snap s).2;
  pr_take_publication : forall k s job_id, I k s ->
    I k (change (fun r => r <| pending_publications := dict_del job_id (pending_publications r) |>) s).2;
  pr_sent : forall k s ws payload, I k s -> may_send (memory s) ws payload = true ->
    I k (change (fun r => r <| outbox := outbox r ++ [(ws, JObj payload)] |>) s).2;
  pr_take_slot : forall k s, I k s -> 0 < free_slots (memory s) ->
    I (k - 1) (change (fun r => r <| free_slots := free_slots r - 1 |>) s).2;
  pr_give_slot : forall k s, I k s ->
    I (k + 1) (change (fun r => r <| free_slots := free_slots r + 1 |>) s).2;
  pr_step : forall k s d, I k s -> saved (canon s) = None -> reachable (data (canon s)) ->
              step (data (canon s)) d -> I k (s <| canon := Conn d None |>);
  pr_calm : forall k s, I k s -> saved (canon s) = None /\ reachable (data (canon s));
}.

Definition keeps {A} (m : Task A) : Prop := forall k s, I k s -> I k (m s).2.

Lemma keeps_bind {A B} (m : Task A) (f : A -> Task B) : keeps m -> (forall a, keeps (f a)) -> keeps (m ≫= f).
Proof.
  intros Hm Hf k s Hs. specialize (Hm k s Hs). rw /mbind /M_bind.
  destruct (m s) as [[a|e] s']; [by apply Hf|done].
Qed.
Lemma keeps_finally {A} (m : Task A) c : keeps m -> keeps c -> keeps (finally m c).
Proof.
  intros Hm Hc k s Hs. specialize (Hm k s Hs). rw /finally. destruct (m s) as [o s'].
  specialize (Hc k s' Hm). by destruct (c s') as [[]].
Qed.
Lemma keeps_pause : preserved -> keeps pause.
Proof. intros HP k s Hs. rw /pause. destruct (cancelled_at _); by apply (pr_others HP). Qed.
Lemma keeps_look {A} (f : ram -> A) : keeps (look f).
Proof. by intros k s. Qed.
Lemma keeps_gets {A} (f : live -> A) : keeps (gets f).
Proof. by intros k s. Qed.
Lemma keeps_ret {A} (a : A) : keeps (mret a).
Proof. by intros k s. Qed.
Lemma keeps_raise {A} e : keeps (raise e : Task A).
Proof. by intros k s. Qed.

Lemma keeps_send ws payload : preserved -> keeps (send ws payload).
Proof.
  intros HP. unfold send. apply keeps_bind; [by apply keeps_pause|intros _].
  intros k s Hs. rw look_then.
  change (id (memory s)) with (memory s). destruct (may_send (memory s) ws payload) eqn:E; [|exact Hs].
  change (negb true) with false. cbv iota. rw gets_then. destruct (lost_send (awaits s)).
  - by apply (keeps_bind pause (fun _ => raise _)); [apply keeps_pause|intros; apply keeps_raise|].
  - apply (keeps_pause HP). by apply (pr_sent HP).
Qed.

Lemma keeps_publish_next : preserved -> keeps publish_next.
Proof.
  intros HP. unfold publish_next. apply keeps_bind; [apply keeps_look|intros pending].
  destruct (last pending) as [[job_id snap]|]; [|apply keeps_ret].
  apply keeps_bind; [|intros _; apply keeps_bind; [by apply keeps_pause|intros; apply keeps_ret]].
  intros k s. apply (pr_take_publication HP).
Qed.

Lemma keeps_with_slot {A} (m : Task A) : preserved -> keeps m -> keeps (with_slot m).
Proof.
  intros HP Hm. unfold with_slot. apply keeps_bind; [by apply keeps_pause|intros _].
  intros k s Hs. rw look_then. destruct (free_slots (memory s) <=? 0) eqn:E; [exact Hs|].
  assert (0 < free_slots (memory s)) as Hpos by lia. pose proof (pr_take_slot HP k s Hs Hpos) as H1.
  rw change_then. generalize dependent (change (fun r => r <| free_slots := free_slots r - 1 |>) s).2.
  intros s1 H1. specialize (Hm _ _ H1). rw /finally. destruct (m s1) as [o s2].
  pose proof (pr_give_slot HP _ _ Hm) as H2. replace (k - 1 + 1) with k in H2 by lia. exact H2.
Qed.

Lemma keeps_call {A} (op : Z -> Op A) :
  preserved ->
  (forall n d, reachable d -> (op n (Conn d None)).2 = Conn d None \/
     exists d', (op n (Conn d None)).2 = Conn d' None /\ step d d') -> keeps (call op).
Proof.
  intros HP Hop k s Hs. pose proof (pr_others HP k s Hs) as Ho. destruct (pr_calm HP _ _ Ho) as [Hn Hr].
  rw /call. destruct (others s) as [[d sv] m a n] eqn:E. simpl in Hn, Hr. subst sv. simpl.
  specialize (Hop (clock n) d Hr). destruct (op (clock n) (Conn d None)) as [o t]. simpl in Hop.
  assert (I k (Live t m a (S n))) as H1.
  { apply (pr_read HP k (Live t m a n)). destruct Hop as [->|(d' & -> & Hd)]; [done|].
    by apply (pr_step HP k (Live (Conn d None) m a n) d' Ho). }
  pose proof (pr_others HP _ _ H1) as H2.
  destruct (cancelled_at _) as [[]|]; [by destruct o|done|by destruct o].
Qed.

Lemma built_keeps {A} (m : Task A) : preserved -> built m -> keeps m.
Proof.
  intros HP Hm. induction Hm as
    [A a|A e|A f|A f| | |f Hf|snap| |ws p|A op c Hc Ha|A op Hop|A B m f _ IHm _ IHf|A m h _ IHm _ IHh
    |A m c _ IHm _ IHc|A m c _ IHm _ IHc|A m _ IHm].
  1-4: by intros k s.
  - intros k s. apply (pr_read HP).
  - by apply keeps_pause.
  - intros k s. by apply (pr_change HP).
  - intros k s. apply (pr_publish HP).
  - by apply keeps_publish_next.
  - by apply keeps_send.
  - apply keeps_call; [done|]. intros n d Hr. right.
    pose proof (reachable_invariant d Hr) as [Hcs Hw].
    assert ((exec (c n) (Conn d None)).2 = (op n (Conn d None)).2) as Heq.
    { rw Hc /run /mbind /M_bind. by destruct (op n (Conn d None)) as [[a|e] t]. }
    pose proof (exec_safe (c n) d (Ha n d Hr) Hw Hcs Hcs) as Hsafe. rw /wp in Hsafe.
    destruct (exec (c n) (Conn d None)) as [o [d' sv]] eqn:E. simpl in Heq. rw -Heq.
    destruct Hsafe as (Hsv & _). simpl in Hsv. subst sv. exists d'. split; [done|].
    exists (c n), o. split; [by apply Ha|done].
  - apply keeps_call; [done|]. intros n d _. left. by rw Hop.
  - by apply keeps_bind.
  - intros k s Hs. specialize (IHm k s Hs). rw /try_except. destruct (m s) as [[a|e] s']; [done|].
    destruct (h e) as [h'|] eqn:E; [by apply (IHh e)|done].
  - by apply keeps_finally.
  - intros k s Hs. specialize (IHm k s Hs). rw /try_reraise. destruct (m s) as [[a|e] s']; [done|].
    specialize (IHc k s' IHm). by destruct (c s') as [[]].
  - by apply keeps_with_slot.
Qed.
End Preserved.
End Rules.

(** Reads leave the connection as it is. *)
Lemma snapshot_same id t : (_snapshot id t).2 = t.
Proof. rw /_snapshot /mbind /M_bind /=. by destruct (snapshot_of _ _). Qed.

(** The states named in a call are live ones. *)
Lemma sent_not_terminal s : s ∈ SENT_STATES -> s ∉ TERMINAL_DEVICE_STATES.
Proof. rw /SENT_STATES /TERMINAL_DEVICE_STATES. destruct s; set_solver. Qed.
Lemma recovered_not_terminal s : s ∈ RECONCILING :: SENT_STATES -> s ∉ TERMINAL_DEVICE_STATES.
Proof. rw /SENT_STATES /TERMINAL_DEVICE_STATES. destruct s; set_solver. Qed.
Lemma is_terminal_false s : is_terminal_device_state s = false -> s ∉ TERMINAL_DEVICE_STATES.
Proof. intros H. by apply bool_decide_eq_false_1 in H. Qed.

Ltac live_states :=
  let Hin := fresh "Hin" in
  intros ? Hin;
  repeat match goal with H : _ && _ = true |- _ => apply andb_true_iff in H as [? ?] end;
  repeat (apply elem_of_cons in Hin as [->|Hin];
          [first [ by apply is_terminal_false
                 | by (apply sent_not_terminal; eapply bool_decide_eq_true_1)
                 | by (apply recovered_not_terminal; eapply bool_decide_eq_true_1)
                 | by (apply (bool_decide_eq_true_1 _); vm_compute) ]|]);
  by apply elem_of_nil in Hin.

Ltac allowed_call :=
  intros; first
    [ exact I
    | solve [ split; [eexists; split; [reflexivity|live_states]|done|done] ]
    | solve [ live_states ] ].

Ltac solve_bookkeeping := intros ?; simpl; repeat case_match; done.

(** One step of a proof that a task is built of the primitives. *)
Ltac build_call :=
  match goal with
  | |- built (call (transition_device ?i ?v ?e ?t ?f ?b)) =>
      apply (built_step _ _ (TransitionDevice i v e t f b)); [intros; reflexivity|allowed_call]
  | |- built (call (mark_reconciling ?i ?v ?e ?r ?d)) =>
      apply (built_step _ _ (MarkReconciling i v e r d)); [intros; reflexivity|allowed_call]
  | |- built (call (mark_acceptance_reconciling ?i ?v ?e ?d)) =>
      apply (built_step _ _ (MarkAcceptanceReconciling i v e d)); [intros; reflexivity|allowed_call]
  | |- built (call (prepare_dispatch ?i ?v ?p ?c ?d)) =>
      apply (built_step _ _ (PrepareDispatch i v p c d)); [intros; reflexivity|allowed_call]
  | |- built (call (claim_next ?o)) =>
      apply (built_step _ _ (ClaimNext o)); [intros; reflexivity|allowed_call]
  | |- built (call (add_opaque_fence ?v ?i ?p ?s ?r)) =>
      apply (built_step _ _ (AddOpaqueFence v i p s r)); [intros; reflexivity|allowed_call]
  | |- built (call (settle_result ?i ?v ?n ?s ?r)) =>
      apply (built_step _ _ (SettleResult i v n s r)); [intros; reflexivity|allowed_call]
  | |- built (call (settle_late_fenced_result ?i ?v ?n)) =>
      apply (built_step _ _ (SettleLateFencedResult i v n)); [intros; reflexivity|allowed_call]
  | |- built (call (reconcile_report ?i ?v ?n ?s ?p ?d)) =>
      apply (built_step _ _ (ReconcileReport i v n s p d)); [intros; reflexivity|allowed_call]
  | |- built (call (mark_unconfirmed ?i ?v ?p ?d ?l ?o)) =>
      apply (built_step _ _ (MarkUnconfirmed i v p d l o)); [intros; reflexivity|allowed_call]
  | |- built (call (clear_fence_on_process_replacement ?v ?p ?h)) =>
      apply (built_step _ _ (ClearFenceOnProcessReplacement v p h)); [intros; reflexivity|allowed_call]
  | |- built (call (clear_matching_fence ?i ?v ?n)) =>
      apply (built_step _ _ (ClearMatchingFence i v n)); [intros; reflexivity|allowed_call]
  | |- built (call (clear_matching_opaque_fence ?v ?i ?n)) =>
      apply (built_step _ _ (ClearMatchingOpaqueFence v i n)); [intros; reflexivity|allowed_call]
  | |- built (call (expire_created ?i ?d)) =>
      apply (built_step _ _ (ExpireCreated i d)); [intros; reflexivity|allowed_call]
  | |- built (call (enable_dispatch ?i)) =>
      apply (built_step _ _ (EnableDispatch i)); [intros; reflexivity|allowed_call]
  | |- built (call (fun _ => get_snapshot _)) => apply built_read; intros; apply snapshot_same
  | |- built (call (fun _ => _)) => apply built_read; intros; reflexivity
  end.
Ltac build_step :=
  match goal with
  | |- built (call _) => build_call
  | |- built (publish _) => apply built_publish
  | |- built (send _ _) => apply built_send
  | |- built (mbind _ _) => apply built_bind; [|intros ?]
  | |- built (mret _) => apply built_ret
  | |- built (raise _) => apply built_raise
  | |- built (gets _) => apply built_gets
  | |- built (look _) => apply built_look
  | |- built (change _) => (apply built_change; solve_bookkeeping)
  | |- built now_ms => apply built_now_ms
  | |- built pause => apply built_pause
  | |- built publish_next => apply built_publish_next
  | |- built (or_fail _ _) => apply built_or_fail
  | |- built (except_on _ _ _) => apply built_except_on; [|intros ?]
  | |- built (finally _ _) => apply built_finally
  | |- built (try_reraise _ _) => apply built_try_reraise
  | |- built (for_each _ _) => apply built_for_each; intros ?
  | |- built (match ?x with _ => _ end) => destruct x eqn:?
  | |- built (let _ := _ in _) => cbv zeta
  | _ => solve [assumption|eauto with built]
  end.
Ltac build := cbv zeta; repeat build_step.

(** ** Every task *)

Section Tasks.
Context {W : world} .

Lemma in_set_built v l : built (in_set v l).
Proof. unfold in_set. build. Qed.
Lemma wait_for_built {A} (st : ram -> future A) c : built c -> built (wait_for st c).
Proof. intros. unfold wait_for. build. Qed.
Lemma release_built k r : built (release k r).
Proof. unfold release. build. Qed.
Lemma wake_built : built wake.
Proof. unfold wake. build. Qed.
Lemma wake_scheduler_built : built wake_scheduler.
Proof. unfold wake_scheduler, wake. build. Qed.
Lemma create_future_built : built create_future.
Proof. unfold create_future. build. Qed.
Lemma register_waiter_built k f : built (register_waiter k f).
Proof. unfold register_waiter. build. Qed.
Lemma wait_transfer_built f : built (wait_transfer f).
Proof. apply wait_for_built. unfold cancel_transfer. build. Qed.
Lemma wait_acceptance_built f : built (wait_acceptance f).
Proof. apply wait_for_built. unfold cancel_accept. build. Qed.
Lemma live_session_built v : built (live_session v).
Proof. unfold live_session. build. Qed.
#[local] Hint Resolve in_set_built release_built wake_built wake_scheduler_built create_future_built
  register_waiter_built wait_transfer_built wait_acceptance_built live_session_built : built.

Lemma send_exact_reconcile_built s j n a b : built (send_exact_reconcile s j n a b).
Proof. unfold send_exact_reconcile. build. Qed.
#[local] Hint Resolve send_exact_reconcile_built : built.
Lemma send_reconcile_built s snap v : built (send_reconcile s snap v).
Proof. unfold send_reconcile. build. Qed.
Lemma fail_current_built j v l c d :
  (forall s, s ∈ l -> s ∉ TERMINAL_DEVICE_STATES) -> built (_fail_current j v l c d).
Proof.
  intros Hl. unfold _fail_current. build.
  apply (built_step _ _ (TransitionDevice j v (Some l) FAILED (failure_fields c d) false)); [done|].
  intros. split; [by exists l|done|done].
Qed.
Lemma requeue_built j v d : built (_requeue_after_send_race j v d).
Proof. unfold _requeue_after_send_race. build. Qed.
Lemma requeue_behind_built j v : built (requeue_behind j v).
Proof. unfold requeue_behind. build. Qed.
#[local] Hint Resolve send_reconcile_built requeue_built requeue_behind_built : built.
#[local] Hint Extern 1 (built (_fail_current _ _ _ _ _)) => (apply fail_current_built; live_states) : built.
Lemma busy_with_unknown_built j v a : built (busy_with_unknown j v a).
Proof. unfold busy_with_unknown. build. Qed.
#[local] Hint Resolve busy_with_unknown_built : built.
Lemma busy_with_known_built j v i a k b : built (busy_with_known j v i a k b).
Proof. unfold busy_with_known. build. Qed.
Lemma busy_with_legacy_built j v a : built (busy_with_legacy j v a).
Proof. unfold busy_with_legacy. build. Qed.
#[local] Hint Resolve busy_with_known_built busy_with_legacy_built : built.
Lemma handle_busy_built s v p b : built (_handle_busy s v p b).
Proof. unfold _handle_busy. build. Qed.
#[local] Hint Resolve handle_busy_built : built.
Lemma command_response_built j v n o p : built (command_response j v n o p).
Proof. unfold command_response. build. Qed.
Lemma late_response_built j v o p b : built (handle_late_command_response j v o p b).
Proof. unfold handle_late_command_response. build. Qed.
Lemma acceptance_timed_out_built s j v d : built (acceptance_timed_out s j v d).
Proof. unfold acceptance_timed_out. build. Qed.
Lemma acceptance_answered_built s v k a : built (acceptance_answered s v k a).
Proof. unfold acceptance_answered. build. Qed.
#[local] Hint Resolve command_response_built late_response_built acceptance_timed_out_built
  acceptance_answered_built : built.
Lemma await_acceptance_built s snap v f k d : built (_await_acceptance s snap v f k d).
Proof. unfold _await_acceptance. build. Qed.
Lemma clear_built t k f a : built (_clear_dispatch_waiters t k f a).
Proof. unfold _clear_dispatch_waiters, cancel_transfer, cancel_accept. build. Qed.
#[local] Hint Resolve await_acceptance_built clear_built : built.
Lemma send_command_built s v c : built (send_command s v c).
Proof. unfold send_command. build. Qed.
Lemma command_not_sent_built j v k c e : built c -> built (command_not_sent j v k c e).
Proof. intros. unfold command_not_sent. build. Qed.
Lemma transfer_timed_out_built j v n : built (transfer_timed_out j v n).
Proof.
  unfold transfer_timed_out. build.
Qed.
#[local] Hint Resolve send_command_built transfer_timed_out_built : built.
Lemma await_transfer_built j v n f c : built c -> built (await_transfer j v n f c).
Proof. intros. unfold await_transfer. build. Qed.
Lemma after_send_built s snap v p a k d c : built c -> built (after_send s snap v p a k d c).
Proof. intros. unfold after_send. build. Qed.
Lemma command_built snap v p b : built (_command snap v p b).
Proof. unfold _command. build. Qed.
#[local] Hint Resolve command_built : built.
Lemma dispatch_to_built t s p j v n f : built (dispatch_to t s p j v n f).
Proof.
  unfold dispatch_to. build.
  - apply built_try_except; [build|]. intros e h [= <-]. apply command_not_sent_built. build.
  - apply after_send_built. build.
  - apply await_transfer_built. build.
Qed.
#[local] Hint Resolve dispatch_to_built : built.
Lemma inner_built t a : built (_dispatch_assignment_inner t a).
Proof. unfold _dispatch_assignment_inner. build. apply built_with_slot. build. Qed.
Lemma recover_once_built j v n e : built (recover_once j v n e).
Proof. unfold recover_once. build. Qed.
#[local] Hint Resolve inner_built recover_once_built : built.
Lemma recover_loop_built fuel j v n e : built (recover_loop fuel j v n e).
Proof. induction fuel as [|fuel IH]; simpl; build. Qed.
#[local] Hint Resolve recover_loop_built : built.
Lemma recover_built fuel t a e : built (_recover_unexpected_dispatch_failure fuel t a e).
Proof. unfold _recover_unexpected_dispatch_failure. build. Qed.
#[local] Hint Resolve recover_built : built.
Lemma dispatch_built fuel t a : built (_dispatch_assignment fuel t a).
Proof. unfold _dispatch_assignment. build. Qed.
Lemma run_built fuel : built (_run fuel).
Proof. induction fuel as [|fuel IH]; simpl; build. Qed.

Lemma stop_built : built stop.
Proof. unfold stop. build. Qed.
Lemma start_built : built start.
Proof. unfold start. build. Qed.

(** *** Device frames *)

Lemma publish_all_built l : built (publish_all l).
Proof. unfold publish_all. build. Qed.
#[local] Hint Resolve publish_all_built : built.
Lemma late_acceptance_built v j p : built (late_acceptance v j p).
Proof. unfold late_acceptance. build. Qed.
Lemma deliver_built v j o p : built (deliver_response v j o p).
Proof. unfold deliver_response. build. Qed.
#[local] Hint Resolve late_acceptance_built deliver_built : built.
Lemma accepted_built v j p : built (handle_accepted v j p).
Proof. unfold handle_accepted. build. Qed.
Lemma rejected_built v j p : built (handle_rejected v j p).
Proof. unfold handle_rejected. build. Qed.
Lemma snapshot_or_none_built j : built (snapshot_or_none j).
Proof. unfold snapshot_or_none. build. Qed.
#[local] Hint Resolve accepted_built rejected_built snapshot_or_none_built : built.
Lemma transfer_complete_built v p : built (_handle_transfer_complete v p).
Proof. unfold _handle_transfer_complete. build. Qed.
Lemma validation_complete_built v p : built (_handle_validation_complete v p).
Proof. unfold _handle_validation_complete. build. Qed.
Lemma phase_built v p : built (_handle_phase v p).
Proof. unfold _handle_phase. build. Qed.
Lemma ack_built s v j b n r : built (_send_result_ack s v j b n r).
Proof. unfold _send_result_ack. build. Qed.
#[local] Hint Resolve transfer_complete_built validation_complete_built phase_built ack_built : built.
Lemma terminal_result_built v j : built (terminal_result v j).
Proof. unfold terminal_result. build. Qed.
#[local] Hint Resolve terminal_result_built : built.
Lemma opaque_result_built s v j l : built (opaque_result s v j l).
Proof. unfold opaque_result. build. Qed.
Lemma unconfirmed_result_built s v j : built (unconfirmed_result s v j).
Proof. unfold unconfirmed_result. build. Qed.
Lemma settle_and_ack_built s v j st p b : built (settle_and_ack s v j st p b).
Proof. unfold settle_and_ack. build. Qed.
#[local] Hint Resolve opaque_result_built unconfirmed_result_built settle_and_ack_built : built.
Lemma result_built v p s : built (_handle_result v p s).
Proof. unfold _handle_result. build. Qed.
Lemma unknown_report_built v j s : built (unknown_report v j s).
Proof. unfold unknown_report. build. Qed.
Lemma unconfirmed_report_built v j : built (unconfirmed_report v j).
Proof. unfold unconfirmed_report. build. Qed.
Lemma reconciling_report_built v j s p : built (reconciling_report v j s p).
Proof. unfold reconciling_report. build. Qed.
#[local] Hint Resolve result_built unknown_report_built unconfirmed_report_built reconciling_report_built : built.
Lemma report_built v p : built (_handle_reconcile_report v p).
Proof. unfold _handle_reconcile_report. build. Qed.
#[local] Hint Resolve report_built : built.
Lemma owned_legacy_built s v p : built (_handle_owned_legacy_message s v p).
Proof. unfold _handle_owned_legacy_message. build. Qed.
Lemma owned_job_built s v p : built (_handle_owned_job_v1_message s v p).
Proof. unfold _handle_owned_job_v1_message. build. Qed.
#[local] Hint Resolve owned_legacy_built owned_job_built : built.
Lemma device_message_built ws v p : built (handle_device_message ws v p).
Proof. unfold handle_device_message. build. Qed.

(** *** Connections and housekeeping *)

Lemma ask_about_fence_built s v : built (ask_about_fence s v).
Proof. unfold ask_about_fence. build. Qed.
#[local] Hint Resolve ask_about_fence_built : built.
Lemma request_reconcile_built v : built (request_reconcile v).
Proof. unfold request_reconcile. build. Qed.
Lemma give_back_built j v r : built (give_back j v r).
Proof. unfold give_back. build. Qed.
#[local] Hint Resolve request_reconcile_built give_back_built : built.
Lemma lose_assignment_built v r : built (lose_assignment v r).
Proof. unfold lose_assignment. build. Qed.
#[local] Hint Resolve lose_assignment_built : built.
Lemma disconnect_built v ws : built (disconnect_device v ws).
Proof. unfold disconnect_device, forget_candidate, forget_session, set_ready. build. Qed.
Lemma opaque_registration_built s v a r : built (opaque_registration s v a r).
Proof. unfold opaque_registration. build. Qed.
#[local] Hint Resolve opaque_registration_built : built.
Lemma artifact_conflict_built s v j a c : built (artifact_conflict s v j a c).
Proof. unfold artifact_conflict. build. Qed.
#[local] Hint Resolve artifact_conflict_built : built.
Lemma registration_active_built v s a : built (_registration_active_snapshots v s a).
Proof. unfold _registration_active_snapshots. build. Qed.
#[local] Hint Resolve registration_active_built : built.
Lemma registration_report_built s v p : built (registration_report s v p).
Proof. unfold registration_report. build. Qed.
Lemma install_session_built s v : built (install_session s v).
Proof. unfold install_session. build. Qed.
#[local] Hint Resolve registration_report_built install_session_built : built.
Lemma register_locked_built s v p : built (register_locked s v p).
Proof. unfold register_locked, forget_candidate, forget_session, set_ready. build. Qed.
#[local] Hint Resolve register_locked_built : built.
Lemma register_built i ws p b e : built (register_device i ws p b e).
Proof. unfold register_device. build. Qed.
Lemma acknowledge_built ws v : built (acknowledge_registration ws v).
Proof. unfold acknowledge_registration. build. Qed.
Lemma acceptance_expired_built kr : built (acceptance_expired kr).
Proof. unfold acceptance_expired. build. Qed.
Lemma reconciliation_expired_built kr : built (reconciliation_expired kr).
Proof. unfold reconciliation_expired. build. Qed.
#[local] Hint Resolve acceptance_expired_built reconciliation_expired_built : built.
Lemma housekeeping_built : built housekeeping_turn.
Proof. unfold housekeeping_turn. build. Qed.
Lemma deadline_built : built created_deadline_turn.
Proof. unfold created_deadline_turn. build. Qed.
End Tasks.

(** ** The server as a sequence of events *)

(** What starts a task: a frame, a connection made or lost, a timer, a claim, an HTTP
    request.  The arguments are what the peers and the runtime choose. *)
Inductive event :=
  | DeviceFrame (ws : N) (device_id : option pystr) (payload : payload_t)
  | Disconnected (device_id : option pystr) (ws : N)
  | RegistrationNoted (ws : N) (device_id : pystr)
  | Registered (session_id : pystr) (ws : N) (payload : payload_t) (http_base : pystr) (established : option pystr)
  | RegisteredAgain (ws : N) (device_id : pystr)
  | Housekeeping
  | CreatedDeadline
  | Claims (fuel : nat)
  | Dispatch (fuel : nat) (task : N) (a : claimed_assignment)
  | CreateRequest (fresh : pystr) (create_timeout : Z) (body : option json)
  | UploadInterrupted (job_id code detail : pystr)
  | AdminFrame (max_concurrent : Z) (ws : N) (payload : payload_t)
  | PublishNext
  | SchedulerStarted
  | SchedulerStopped.

Section Events.
Context {W : world}.

Definition handle (e : event) : Task unit :=
  match e with
  | DeviceFrame ws device_id payload => handle_device_message ws device_id payload ;; mret tt
  | Disconnected device_id ws => disconnect_device device_id ws
  | RegistrationNoted ws device_id => note_registration_candidate ws device_id
  | Registered i ws payload base est => register_device i ws payload base est
  | RegisteredAgain ws device_id => acknowledge_registration ws device_id
  | Housekeeping => housekeeping_turn
  | CreatedDeadline => created_deadline_turn
  | Claims fuel => _run fuel ;; mret tt
  | Dispatch fuel task a => _dispatch_assignment fuel task a ;; mret tt
  | CreateRequest fresh timeout body => create_job_handler fresh timeout body ;; mret tt
  | UploadInterrupted job_id code detail => _record_upload_failure job_id J_INTERRUPTED code detail
  | AdminFrame n ws payload => handle_admin_message n ws payload ;; mret tt
  | PublishNext => publish_next ;; mret tt
  | SchedulerStarted => start
  | SchedulerStopped => stop
  end.

(** A task that raises ends; the server goes on. *)
Definition server_step (s s' : live) : Prop := exists e, s' = (handle e s).2.
End Events.

Section Served.
Context {W : world} .

Lemma from_outcome_built {A} (o : outcome failure A) : built (from_outcome o).
Proof. destruct o; [apply built_ret|apply built_raise]. Qed.

Lemma canonical_has_targets fields r : canonicalize_create_request fields = Ret r -> target_devices r <> [].
Proof.
  rw /canonicalize_create_request.
  destruct (require_uuid _ _); [|done]. simpl.
  destruct (canonical_targets _) as [ts|] eqn:E; [|done]. simpl.
  destruct (parse_mode _); [|done]. simpl. destruct (canonical_destination _); [|done]. simpl.
  destruct (canonical_source_of _); [|done]. simpl. destruct (fingerprint_of _); [|done].
  intros [= <-]. simpl. by apply canonical_targets_spec in E as (_ & _ & ? & _).
Qed.

Lemma find_idempotent_same i f t : (find_idempotent_job i f t).2 = t.
Proof.
  rw /find_idempotent_job /mbind /M_bind /=. destruct (job_for_request _ _) as [[j row]|]; [|done].
  destruct (streq _ _); [|done]. pose proof (snapshot_same j t) as Hs. simpl.
  by destruct (_snapshot j t) as [[] ?].
Qed.

#[local] Hint Resolve wake_scheduler_built in_set_built request_reconcile_built
  from_outcome_built : built.

(** The creation of a job is a call with a canonical request. *)
Lemma create_call_built fields r protocols timeout fresh :
  canonicalize_create_request fields = Ret r ->
  built (call (fun now => create_job r protocols timeout now fresh)).
Proof.
  intros Hr. apply (built_step _ _ (fun now => CreateJob r protocols timeout now fresh)); [done|].
  intros n d _. by eapply canonical_has_targets.
Qed.

Lemma create_checked_built fresh timeout body : built (create_checked fresh timeout body).
Proof.
  unfold create_checked. apply built_bind; [apply built_or_fail|intros fields].
  destruct (canonicalize_create_request fields) as [r|e] eqn:E; [|exact (built_raise _ _)].
  enough (built (create_canonical fresh timeout r)) as H by exact H. unfold create_canonical.
  apply built_bind; [apply built_read, find_idempotent_same|].
  intros [snap|]; [apply built_ret|]. repeat (case_match; [apply built_raise|]).
  apply built_bind; [apply built_look|intros memory]. apply built_bind; [apply from_outcome_built|].
  intros protocols. apply built_bind; [by eapply create_call_built|intros created]. build.
Qed.
Lemma create_job_built fresh timeout body : built (create_job_handler fresh timeout body).
Proof.
  unfold create_job_handler. apply built_except_on; [|intros; apply built_ret].
  apply built_bind; [apply built_or_fail|intros b]. apply built_bind; [apply create_checked_built|].
  intros; apply built_ret.
Qed.
Lemma upload_interrupted_built j c d : built (_record_upload_failure j J_INTERRUPTED c d).
Proof.
  unfold _record_upload_failure. build.
  by apply (built_step _ _ (FailPreDispatch j J_INTERRUPTED c (take MAX_FAILURE_DETAIL d))).
Qed.
Lemma tell_admin_built ws m : built (tell_admin ws m).
Proof. unfold tell_admin, _close_failed_admin_socket. build. Qed.
#[local] Hint Resolve tell_admin_built : built.
Lemma push_files_built n ws j : built (push_files n ws j).
Proof. unfold push_files. build. Qed.
Lemma reconcile_push_built p : built (reconcile_push_device p).
Proof. unfold reconcile_push_device. build. Qed.
#[local] Hint Resolve push_files_built reconcile_push_built : built.
Lemma admin_built n ws p : built (handle_admin_message n ws p).
Proof. unfold handle_admin_message. build. Qed.

#[local] Hint Resolve device_message_built disconnect_built register_built acknowledge_built housekeeping_built
  deadline_built run_built dispatch_built create_job_built upload_interrupted_built admin_built
  start_built stop_built : built.

Lemma handle_built e : built (handle e).
Proof. destruct e; simpl; unfold note_registration_candidate; build. Qed.

(** What the primitives preserve holds however the server runs. *)
Lemma server_steps_keep I k s s' : preserved I -> rtc server_step s s' -> I k s -> I k s'.
Proof.
  intros HP. induction 1 as [|s1 s2 s3 [e ->] _ IH]; [done|]. intros Hs.
  by apply IH, (built_keeps I _ HP (handle_built e)).
Qed.
End Served.
