(* ===== verification/Serving.v ===== *)
(** * What holds while the server runs

    Theorems about every run of the server: the tables stay in the lifecycle,
    publications only advance, transfer slots are returned, and a socket that was
    granted no device is told nothing but power commands.  The other tasks and the
    peers act at every await, under the stated conditions. *)

From S2P Require Import Prelude PyStr Json PushJobs Domain Db Store Tx Manager Protocol Safety Steps Lifecycle.
From S2P Require Import Requests Policy Transfers Live Scheduler Runtime Api Discipline.
From stdpp Require Import relations.
Open Scope Z_scope.

(** ** The tables *)

(** What the other tasks do to the tables is a run of the lifecycle. *)
Definition others_step (W : world) : Prop := forall n d, reachable d -> rtc step d (others_tables n d).

(** No transaction is open between two tasks and the tables are reachable, from [d0] on. *)
Definition calm (d0 : db) (s : live) : Prop :=
  saved (canon s) = None /\ reachable d0 /\ rtc step d0 (data (canon s)).

Lemma calm_reachable d0 s : calm d0 s -> reachable (data (canon s)).
Proof. intros (_ & H0 & Hs). unfold reachable in *. by etrans. Qed.

Section Combined.
Context {W : world} (Ho : others_step W) (d0 : db).

(** An invariant of the memory, indexed by the balance and the awaits. *)
Context (J : Z -> nat -> ram -> Prop).

Record memory_preserved : Prop := MemoryPreserved {
  mp_others : forall k n r, J k n r -> J k (S n) (others_memory n r);
  mp_change : forall k n r f, bookkeeping f -> J k n r -> J k n (f r);
  mp_publish : forall k n r snap, J k n r ->
    default (-1) (publication_revisions r !! s_job_id snap) < s_revision snap ->
    J k n (r <| publication_revisions := <[s_job_id snap := s_revision snap]> (publication_revisions r) |>
             <| pending_publications := dict_set (s_job_id snap) snap (pending_publications r) |>);
  mp_take_publication : forall k n r id, J k n r ->
    J k n (r <| pending_publications := dict_del id (pending_publications r) |>);
  mp_sent : forall k n r ws payload, J k n r -> may_send r ws payload = true ->
    J k n (r <| outbox := outbox r ++ [(ws, JObj payload)] |>);
  mp_take_slot : forall k n r, J k n r -> 0 < free_slots r -> J (k - 1) n (r <| free_slots := free_slots r - 1 |>);
  mp_give_slot : forall k n r, J k n r -> J (k + 1) n (r <| free_slots := free_slots r + 1 |>);
}.

Lemma memory_invariant :
  memory_preserved -> preserved (fun k s => calm d0 s /\ J k (awaits s) (memory s)).
Proof.
  intros HJ. split.
  - intros k s [[Hs [H0 Hr]] Hj]. split; [|by apply (mp_others HJ)]. split_and!; [done|done|].
    simpl. etrans; [exact Hr|]. apply Ho. by unfold reachable in *; etrans.
  - done.
  - intros k s f Hf [Hc Hj]. split; [done|]. by apply (mp_change HJ).
  - intros k s snap [Hc Hj]. unfold publish. rw look_then. destruct (_ <=? _) eqn:E; [done|].
    split; [done|]. apply (mp_publish HJ); [done|lia].
  - intros k s id [Hc Hj]. split; [done|]. by apply (mp_take_publication HJ).
  - intros k s ws p [Hc Hj] Hm. split; [done|]. by apply (mp_sent HJ).
  - intros k s [Hc Hj] Hp. split; [done|]. by apply (mp_take_slot HJ).
  - intros k s [Hc Hj]. split; [done|]. by apply (mp_give_slot HJ).
  - intros k s d [(_ & H0 & Hr) Hj] _ _ Hd. split; [|done]. split_and!; [done|done|]. by eapply rtc_r.
  - intros k s [Hc _]. split; [apply Hc|by eapply calm_reachable].
Qed.
End Combined.

(** ** A sample world *)

(** One headset with the job protocol is connected; nothing else happens. *)
#[local] Instance quiet_world : world := {|
  others_tables := fun _ d => d; others_memory := fun _ r => r; cancelled_at := fun _ => None;
  lost_send := fun _ => None; clock := fun n => 200 + Z.of_nat n; disk_error := fun _ => None; deadline_woken := fun _ => false;
  task_done := fun _ => false; str_of_failure := fun _ => u "error"; allow_legacy := false;
  accept_timeout_ms := 30000; accept_reconciliation_timeout_ms := 60000; reconciliation_timeout_ms := 300000
|}.

Definition sample_session : session :=
  Session (u "headset-1") (u "session-1") 7 {[CAP_PUSH_JOB_ID_V1]} (Some (u "process-1")) (u "http://mdm").
Definition sample_ram : ram :=
  Ram {[u "headset-1" := sample_session]} ∅
    {[u "headset-1" := DeviceEntry 7 [(u "registration_ready", JBool true); (u "identity_kind", JStr (u "canonical"))]]} ∅
    {[7%N := Socket (Some (u "headset-1")) None; 8%N := Socket None (Some [(u "connection_id", JStr (u "c-8"))])]}
    (Transfers [] ∅) ∅ ∅ ∅ ∅ [] 2 0 true true false false [].
Definition sample_live : live := Live (Conn dispatched_db None) sample_ram 0 0.

Lemma quiet_steps : others_step quiet_world.
Proof. by intros n d _. Qed.
Lemma sample_reachable : reachable (data (canon sample_live)).
Proof. apply reachable_dispatched. Qed.

(** ** The theorems *)


(** *** Publications *)

(** Every snapshot that waits for its publication is the newest one announced. *)
Definition newest (r : ram) : Prop :=
  forall id snap, dict_get id (pending_publications r) = Some snap ->
    s_job_id snap = id /\ publication_revisions r !! id = Some (s_revision snap).
Definition advanced (r r' : ram) : Prop :=
  forall id n, publication_revisions r !! id = Some n ->
    exists n', publication_revisions r' !! id = Some n' /\ n <= n'.
Definition others_publish (W : world) : Prop :=
  forall n r, advanced r (others_memory n r) /\ (newest r -> newest (others_memory n r)).

Lemma advanced_trans r1 r2 r3 : advanced r1 r2 -> advanced r2 r3 -> advanced r1 r3.
Proof. intros H1 H2 id n (n1 & Hn1 & ?)%H1. destruct (H2 id n1 Hn1) as (n2 & ? & ?). exists n2. split; [done|lia]. Qed.

Lemma publications_preserved (W : world) r0 :
  others_publish W -> memory_preserved (fun _ _ r => newest r /\ advanced r0 r).
Proof.
  intros Ho. split; try done.
  - intros _ n r [Hn Ha]. destruct (Ho n r) as [H1 H2]. split; [by apply H2|by eapply advanced_trans].
  - intros _ _ r f Hf [Hn Ha]. destruct (Hf r) as (E1 & E2 & _). rw /newest /advanced E1 E2. by split.
  - intros _ _ r snap [Hn Ha] Hlt. split.
    + intros id sn. rw /= dict_get_set. case_bool_decide as E.
      * intros [= <-]. subst id. by rw lookup_insert_eq.
      * intros [? ?]%Hn. by rw lookup_insert_ne; [|congruence].
    + intros id n Hid. destruct (Ha id n Hid) as (n' & Hn' & Hle). simpl.
      destruct (decide (s_job_id snap = id)) as [<-|Hne].
      * rw lookup_insert_eq. exists (s_revision snap). split; [done|]. rw Hn' /= in Hlt. lia.
      * rw lookup_insert_ne; [|done]. by exists n'.
  - intros _ _ r id [Hn Ha]. split; [|done]. intros id' sn. rw /= dict_get_del. case_bool_decide; [done|apply Hn].
Qed.

(** C37: However the server runs, the revision announced for a job never falls back and
    what waits for its publication is always the newest snapshot announced for its job:
    a console that gets the pending snapshots in any order ends on the latest one. *)
Theorem publications_only_advance (W : world) s s' :
  others_step W -> others_publish W -> saved (canon s) = None -> reachable (data (canon s)) ->
  newest (memory s) -> rtc server_step s s' ->
  newest (memory s') /\ advanced (memory s) (memory s').
Proof.
  intros Ho Hp Hs Hr Hn Hrun.
  eapply (server_steps_keep _ 0 s s'
    (memory_invariant Ho (data (canon s)) _ (publications_preserved W (memory s) Hp)) Hrun).
  split; [by split_and!|]. split; [done|]. intros id n Hid. exists n. by split.
Qed.
Lemma publications_only_advance_witness :
  let s' := (handle (AdminFrame 2 9 [(u "type", JStr (u "PUSH_FILES")); (u "job_id", JStr (u "job-1"))])
               sample_live).2 in
  newest (memory s') /\ advanced (memory sample_live) (memory s').
Proof.
  apply (publications_only_advance quiet_world sample_live _ quiet_steps); [|done|apply sample_reachable|done|].
  - intros n r. split; [|done]. intros id m Hm. exists m. by split.
  - apply rtc_once. by eexists.
Defined.

(** *** Transfer slots *)

(** The other tasks take and give slots at their awaits: [total n] more are free after
    the first [n] awaits. *)
Definition others_slots (W : world) (total : nat -> Z) : Prop :=
  forall n r, free_slots (others_memory n r) = free_slots r + (total (S n) - total n).

Lemma slots_preserved (W : world) total :
  others_slots W total -> memory_preserved (fun k n r => free_slots r = k + total n).
Proof.
  intros Ho. split; try done; simpl.
  - intros k n r Hk. rw Ho. lia.
  - intros k n r f Hf Hk. by destruct (Hf r) as (_ & _ & _ & -> & _).
  - intros k n r Hk _. lia.
  - intros k n r Hk. lia.
Qed.

(** C38: Every task the server starts returns the transfer slots it takes, on every path:
    success, refusal, lost connection, exception of the database, cancellation.  When it
    ends, the number of free slots has changed only by what the other tasks did. *)
Theorem slots_are_returned (W : world) total s s' :
  others_step W -> others_slots W total -> saved (canon s) = None -> reachable (data (canon s)) ->
  rtc server_step s s' ->
  free_slots (memory s') = free_slots (memory s) + (total (awaits s') - total (awaits s)).
Proof.
  intros Ho Ht Hs Hr Hrun.
  destruct (server_steps_keep _ (free_slots (memory s) - total (awaits s)) s s'
    (memory_invariant Ho (data (canon s)) _ (slots_preserved W total Ht)) Hrun) as [_ H]; [|lia].
  split; [by split_and!|lia].
Qed.

(** The first assignment of the sample job is claimed for the headset. *)
Definition sample_claimed : outcome exn (option claimed_assignment) * conn :=
  claim_next sample_online 105 (Conn dispatched_db None).
Definition waiting_db : db := after (ClaimNext sample_online 105) dispatched_db.
Definition waiting_live : live := Live (Conn waiting_db None) sample_ram 0 0.

Lemma reachable_waiting : reachable waiting_db.
Proof.
  eapply rtc_r; [apply reachable_dispatched|]. apply after_step; [apply dispatched_invariant|done].
Qed.
Lemma slots_are_returned_witness :
  exists a, sample_claimed.1 = Ret (Some a) /\
    free_slots (memory (handle (Dispatch 3 1 a) waiting_live).2) = 2 + (0 - 0).
Proof.
  eexists. split; [vm_compute; reflexivity|].
  apply (slots_are_returned quiet_world (fun _ => 0) waiting_live _ quiet_steps);
    [|reflexivity|apply reachable_waiting|].
  - intros n r. simpl. lia.
  - apply rtc_once. by eexists.
Defined.

(** *** Sockets that were granted no device *)

Definition of_type (payload : json) (types : list pystr) : Prop :=
  exists fields, payload = JObj fields /\ default [] (text_of (get (u "type") fields)) ∈ types.
(** Frames to a socket of a provisional connection are replies or power commands. *)
Definition confined (r : ram) : Prop :=
  forall ws payload so, (ws, payload) ∈ outbox r -> sockets r !! ws = Some so -> is_Some (so_provisional so) ->
    of_type payload (registration_replies ++ PROVISIONAL_POWER_COMMANDS).
Definition others_confined (W : world) : Prop := forall n r, confined r -> confined (others_memory n r).

Lemma may_send_provisional r ws payload so :
  may_send r ws payload = true -> sockets r !! ws = Some so -> is_Some (so_provisional so) ->
  of_type (JObj payload) (registration_replies ++ PROVISIONAL_POWER_COMMANDS).
Proof.
  rw /may_send. intros H Hso [p Hp]. rw Hso Hp in H. exists payload. split; [done|].
  apply elem_of_app. apply orb_true_iff in H as [H|H]; [left; by apply bool_decide_eq_true_1 in H|].
  apply andb_true_iff in H as [H _]. apply andb_true_iff in H as [H _]. right. by apply bool_decide_eq_true_1 in H.
Qed.

Lemma confined_preserved (W : world) : others_confined W -> memory_preserved (fun _ _ => confined).
Proof.
  intros Ho. split; try done.
  - intros _ _ r f Hf Hc. destruct (Hf r) as (_ & _ & E1 & _ & E2). by rw /confined E1 E2.
  - intros _ _ r ws payload Hc Hm ws' p' so Hin Hso Hp. simpl in Hin, Hso.
    apply elem_of_app in Hin as [Hin|Hin]; [by eapply Hc|].
    apply list_elem_of_singleton in Hin as [= -> ->]. by eapply may_send_provisional.
Qed.

(** However the server runs, every frame sent to a socket whose connection was
    granted no device is a reply to its registration or a power command: no job, no
    acknowledgement and no reconciliation request reaches it, whichever task sends. *)
Theorem provisional_sockets_confined (W : world) s s' :
  others_step W -> others_confined W -> saved (canon s) = None -> reachable (data (canon s)) ->
  confined (memory s) -> rtc server_step s s' -> confined (memory s').
Proof.
  intros Ho Hc Hs Hr Hm Hrun.
  eapply (server_steps_keep _ 0 s s' (memory_invariant Ho (data (canon s)) _ (confined_preserved W Hc)) Hrun).
  by split; [split_and!|].
Qed.
Lemma provisional_sockets_confined_witness :
  confined (memory (handle (AdminFrame 2 8 [(u "type", JStr (u "PUSH_FILES")); (u "job_id", JStr (u "job-1"))])
                      sample_live).2).
Proof.
  apply (provisional_sockets_confined quiet_world sample_live _ quiet_steps); [|done|apply sample_reachable| |].
  - by intros n r.
  - intros ws payload so Hin. by apply elem_of_nil in Hin.
  - apply rtc_once. by eexists.
Defined.
