(* ===== verification/Dialogue.v ===== *)
(** * What the handlers answer

    The answer of a command is delivered once, the frames of a socket that lost its
    device change nothing, and a job is created for devices that can take it. *)

From S2P Require Import Prelude PyStr Json PushJobs Db Store Manager Steps Lifecycle Queue.
From S2P Require Import Policy Transfers Live Scheduler Runtime Api Discipline Serving.
Open Scope Z_scope.

(** ** Answers to a command *)

(** A command's answer is delivered exactly when its dispatch still waits for it, it
    completes that wait and no other, and a second answer finds nobody: whatever a
    client repeats, the dispatch acts on its first answer. *)
Theorem answer_delivered_once job_id device_id n outcome payload s :
  let key := (job_id, device_id, n) in
  let waits := exists f, _accept_waiters (memory s) !! key = Some f /\ accept_state (memory s) f = Pending in
  let answered := command_response job_id device_id n outcome payload s in
  (waits <-> answered.1 = Ret true) /\ (~ waits -> answered = (Ret false, s)) /\
  (forall f, waits -> _accept_waiters (memory s) !! key = Some f ->
     accept_state (memory answered.2) f = Completed (outcome, payload)) /\
  (forall f, _accept_waiters (memory s) !! key <> Some f ->
     accept_state (memory answered.2) f = accept_state (memory s) f) /\
  forall outcome' payload', command_response job_id device_id n outcome' payload' answered.2 = (Ret false, answered.2).
Proof.
  intros key waits answered. subst answered waits. rw /command_response !look_then. change (id (memory s)) with (memory s).
  fold key. destruct (_accept_waiters (memory s) !! key) as [f|] eqn:Ef.
  2:{ split_and!; try done; [split; [intros (f & ? & _); congruence|done]|]. intros. rw look_then /id Ef. done. }
  destruct (accept_state (memory s) f) as [|a|] eqn:Es; cbn [future_done].
  2,3: split_and!; try done;
    [split; [intros (g & [= <-] & ?); congruence|done] | intros g (g' & [= <-] & ?); congruence
    |intros; by rw look_then /id Ef Es].
  rw change_then. split_and!.
  - split; [done|]. intros _. by exists f.
  - intros Hn. destruct Hn. by exists f.
  - intros g _ [= <-]. by rw /accept_state /= lookup_insert_eq.
  - intros g Hg. rw /accept_state /= lookup_insert_ne; [done|congruence].
  - intros. rw look_then /id /= Ef. rw /accept_state /= lookup_insert_eq. done.
Qed.

(** ** Frames of a socket that lost its device *)

(** A frame of a socket whose device has another owner, or whose session is gone,
    changes nothing, whatever it says: no table, no waiter, no frame sent.  Only what
    the other tasks do while it waits for the device's lock happens. *)
Theorem stale_frames_do_nothing (W : world) ws device_id payload s :
  current_owner (memory (others s)) device_id ws = None ->
  (handle_device_message ws (Some device_id) payload s).2 = s \/
  (handle_device_message ws (Some device_id) payload s).2 = others s.
Proof.
  intros Hn. rw /handle_device_message. destruct device_id as [|c device_id]; [by left|].
  rw /in_set. destruct (negb (hashable _)); [left; by rw raise_then|]. rw ret_then. cbv zeta.
  destruct (existsb _ job_v1_types || _ || _) eqn:E; [|by left].
  right. rw pause_then. destruct (cancelled_at _); [done|]. by rw look_then Hn.
Qed.
Lemma stale_frames_do_nothing_witness :
  let frame := [(u "type", JStr (u "PUSH_FILES_RESULT")); (u "job_id", JStr (u "job-1"));
                (u "attempt", JInt 1); (u "status", JStr (u "success"))] in
  let s := Live (Conn claimed_db None) sample_ram 0 0 in
  (@handle_device_message quiet_world 8 (Some (u "headset-1")) frame s).2 = s \/
  (@handle_device_message quiet_world 8 (Some (u "headset-1")) frame s).2 = @others quiet_world s.
Proof. apply (stale_frames_do_nothing quiet_world). vm_compute. reflexivity. Defined.

(** ** The creation of a job *)

(** A device that can take a job: it is not retired, not a legacy device, its live
    session owns its connection and may be commanded, and it speaks a protocol that
    the server accepts. *)
Definition takes_jobs (W : world) (r : ram) (device_id : pystr) : Prop :=
  is_true (get (u "retired") (default [] (device_registry r !! device_id))) = false /\
  eq_str (get (u "identity_kind") (known_fields r device_id)) (u "legacy") = false /\
  exists s, sessions r !! device_id = Some s /\ dispatchable r device_id s = true /\
    (CAP_PUSH_JOB_ID_V1 ∈ se_capabilities s \/ allow_legacy = true).

Lemma target_protocol_takes (W : world) r device_id p :
  target_protocol r device_id = Ret p -> takes_jobs W r device_id.
Proof.
  rw /target_protocol. destruct (is_true _) eqn:E1; [done|]. destruct (eq_str _ _) eqn:E2; [done|].
  destruct (_dispatch_sessions r !! device_id) as [s|] eqn:E3; [|done]. intros H.
  apply map_lookup_filter_Some in E3 as [Hs Hd]. split_and!; [done..|]. exists s. split_and!; [done..|].
  case_bool_decide; [by left|]. destruct allow_legacy; [by right|done].
Qed.
Lemma target_protocols_take (W : world) r targets ps :
  target_protocols r targets = Ret ps -> Forall (takes_jobs W r) targets.
Proof.
  induction targets as [|v targets IH] in ps |- *; [constructor|]. simpl.
  destruct (target_protocol r v) as [p|] eqn:E; [|done]. simpl.
  destruct (target_protocols r targets) as [ps'|]; [|done]. intros _.
  constructor; [by eapply target_protocol_takes|by eapply IH].
Qed.

(** A job is created ([201]) only within the server's limits of files and bytes and
    only when, at the moment the targets are looked up, every one of them can take it;
    otherwise the answer is the existing job's ([200]) or an error. *)
Theorem created_for_capable_devices (W : world) fresh timeout canonical s snap s' :
  create_canonical fresh timeout canonical s = (Ret (201, snap), s') ->
  let looked_up := (call (fun _ => find_idempotent_job (client_request_id canonical) (fingerprint canonical)) s).2 in
  declared_file_count (source canonical) <= MAX_BUNDLE_ENTRIES /\
  declared_total_bytes (source canonical) <= MAX_BUNDLE_SIZE /\
  Forall (takes_jobs W (memory looked_up)) (target_devices canonical).
Proof.
  rw /create_canonical. intros (existing & s1 & E1 & H)%task_bind_ret. rw E1. cbv zeta. cbn [snd].
  destruct existing; [done|]. destruct (_ <? _) eqn:Hc; [done|]. destruct (_ <? declared_total_bytes _) eqn:Hb; [done|].
  rw look_then in H. apply task_bind_ret in H as (ps & s2 & Hps & _).
  destruct (target_protocols _ _) as [ps'|] eqn:E; [|done].
  split_and!; [lia..|]. exact (target_protocols_take W _ _ _ E).
Qed.
Lemma created_for_capable_devices_witness :
  exists snap s',
    let ask := CanonicalCreateRequest (u "request-9") [u "headset-1"] PUSH (u "/sdcard/show")
                 (CanonicalSource (u "show") 1 10) (u "fingerprint-9") in
    @create_canonical quiet_world (u "job-9") 600 ask sample_live = (Ret (201, snap), s') /\
    Forall (takes_jobs quiet_world sample_ram) [u "headset-1"].
Proof.
  set (ask := CanonicalCreateRequest (u "request-9") [u "headset-1"] PUSH (u "/sdcard/show")
                 (CanonicalSource (u "show") 1 10) (u "fingerprint-9")).
  destruct (@create_canonical quiet_world (u "job-9") 600 ask sample_live) as [[[n snap]|e] s'] eqn:E.
  - exists snap, s'. assert (n = 201) as ->.
    { apply (f_equal (fun x => match x.1 with Ret (n, _) => n | Raise _ => 0 end)) in E. vm_compute in E. congruence. }
    split; [exact E|]. apply (created_for_capable_devices quiet_world _ _ _ _ _ _ E).
  - exfalso. apply (f_equal (fun x => match x.1 with Ret _ => true | Raise _ => false end)) in E.
    vm_compute in E. discriminate E.
Defined.
