(* ===== verification/Dispatching.v ===== *)
(** * The scheduler's loops

    The loop that claims assignments ends, and the recovery of a dispatch that failed
    unexpectedly leaves its assignment queued or under reconciliation: total
    correctness, in worlds whose other tasks leave the tables alone or only take
    work from the queue. *)

From S2P Require Import Prelude PyStr Json PushJobs Domain Db Store Tx Manager Protocol Safety Steps Lifecycle Queue.
From S2P Require Import Policy Transfers Live Scheduler Runtime Api Discipline Serving.
From stdpp Require Import relations.
Open Scope Z_scope.

(** ** Total correctness of tasks *)

Definition returns {A} (m : Task A) (Q : A -> live -> Prop) (s : live) : Prop :=
  exists a s', m s = (Ret a, s') /\ Q a s'.

Section Rules.
Context {A B : Type}.

Lemma returns_ret (a : A) Q s : Q a s -> returns (mret a) Q s.
Proof. by exists a, s. Qed.
Lemma returns_bind (m : Task B) (f : B -> Task A) Q s :
  returns m (fun b s1 => returns (f b) Q s1) s -> returns (m ≫= f) Q s.
Proof. intros (b & s1 & E & a & s' & Ef & HQ). exists a, s'. by rw /mbind /M_bind E Ef. Qed.
Lemma returns_look (f : ram -> A) Q s : Q (f (memory s)) s -> returns (look f) Q s.
Proof. by eexists _, _. Qed.
Lemma returns_change f (Q : unit -> live -> Prop) s : Q tt (change f s).2 -> returns (change f) Q s.
Proof. by eexists _, _. Qed.
Lemma returns_or_fail e (o : option A) a (Q : A -> live -> Prop) s : o = Some a -> Q a s -> returns (or_fail e o) Q s.
Proof. intros -> ?. by eexists _, _. Qed.
Lemma returns_except p (m : Task A) h Q s : returns m Q s -> returns (except_on p m h) Q s.
Proof. intros (a & s' & E & HQ). exists a, s'. by rw /except_on /try_except E. Qed.
(** A task whose exceptions are handled by doing nothing. *)
Lemma returns_tolerated p (m : Task unit) (Q : unit -> live -> Prop) s :
  (forall o s', m s = (o, s') -> Q tt s' /\ match o with Ret _ => True | Raise e => p e = true end) ->
  returns (except_on p m (fun _ => mret tt)) Q s.
Proof.
  intros H. rw /returns /except_on /try_except. destruct (m s) as [[[]|e] s'] eqn:E;
    destruct (H _ _ eq_refl) as [HQ He]; [by exists tt, s'|]. rw He. by exists tt, s'.
Qed.
Lemma returns_mono (m : Task A) (P Q : A -> live -> Prop) s :
  returns m P s -> (forall a s', P a s' -> Q a s') -> returns m Q s.
Proof. intros (a & s' & E & HP) H. exists a, s'. auto. Qed.
End Rules.

(** Nothing is cancelled. *)
Definition uncancelled (W : world) : Prop := forall n, cancelled_at n = None.

Section Calls.
Context {W : world} (Hn : uncancelled W).

(** A call that succeeds on the tables it finds. *)
Lemma returns_call {A} (op : Z -> Op A) (Q : A -> live -> Prop) s :
  (forall n, exists a d', op n (canon (others s)) = (Ret a, Conn d' None) /\
     forall s1, canon s1 = Conn d' None -> Q a (others s1)) -> returns (call op) Q s.
Proof.
  intros H. rw /returns /call (Hn (awaits s)). destruct (H (clock (reads (others s)))) as (a & d' & E & HQ).
  rw E. eexists _, _. split; [done|]. by apply HQ.
Qed.
Lemma returns_now (Q : Z -> live -> Prop) s :
  (forall n s', canon s' = canon s -> memory s' = memory s -> Q n s') -> returns now_ms Q s.
Proof. intros H. eexists _, _. split; [done|]. by apply H. Qed.
End Calls.

(** ** The claiming loop *)

Definition queued_rows (d : db) : gmap (pystr * pystr) device_row :=
  filter (fun kr => d_state kr.2 = QUEUED) (assignments d).
Definition queued_count (d : db) : nat := size (queued_rows d).

Lemma claim_lowers_count d d' k r now :
  assignments d !! k = Some r -> d_state r = QUEUED ->
  assignments d' = <[k := claim_row now r]> (assignments d) -> queued_count d = S (queued_count d').
Proof.
  intros Hr Hq Ha. rw /queued_count /queued_rows Ha.
  rw map_filter_insert_False; [|done]. rw map_filter_delete map_size_delete.
  assert (filter (fun kr => d_state kr.2 = QUEUED) (assignments d) !! k = Some r) as Hk
    by by apply map_lookup_filter_Some.
  rw Hk. assert (size (filter (fun kr : pystr * pystr * device_row => d_state kr.2 = QUEUED) (assignments d)) <> 0%nat).
  { intros E%map_size_empty_iff. rw E in Hk. by rw lookup_empty in Hk. }
  lia.
Qed.

(** The claim, on reachable tables, with its effect on the queue. *)
Lemma claim_progress d online now :
  reachable d ->
  (exists a d', claim_next online now (Conn d None) = (Ret (Some a), Conn d' None) /\
     queued_count d = S (queued_count d')) \/
  claim_next online now (Conn d None) = (Ret None, Conn d None).
Proof.
  intros Hi%reachable_invariant. destruct (decide (online = ∅)) as [->|Ho]; [by right|].
  destruct (next_claim d online) as [[k r]|] eqn:Hn.
  - left. destruct (next_claim_some _ _ _ _ Hn) as (Hr & He & _).
    destruct (after_claim_snapshot d k r now Hr) as [snap Hsnap]; [apply Hi|].
    eexists _, (after_claim k now d). split; [by apply claim_eval|].
    apply (claim_lowers_count d _ k r now Hr); [|by apply after_claim_assignments].
    destruct k. by apply eligible_spec in He as [? _].
  - right. rw /claim_next. case_bool_decide; [done|]. erewrite eval_bind; [|reflexivity].
    rw /try_except /claim_body. evals_select. by rw Hn.
Qed.

(** The other tasks put nothing into the queue. *)
Definition others_claim (W : world) : Prop :=
  forall n d, reachable d -> (queued_count (others_tables n d) <= queued_count d)%nat.

(** The scheduler's inner loop ends: with nothing added to the queue it makes at most
    one claim per queued assignment and then finds no more work; it never fails on the
    way, and [fuel] above the number of queued assignments is enough. *)
Theorem claims_end (W : world) fuel s :
  uncancelled W -> others_step W -> others_claim W ->
  saved (canon s) = None -> reachable (data (canon s)) -> (queued_count (data (canon s)) < fuel)%nat ->
  returns (_run fuel) (fun claims _ =>
    exists l, claims = Some l /\ (length l <= queued_count (data (canon s)))%nat) s.
Proof.
  intros Hn Hs Hc. induction fuel as [|fuel IH] in s |- *; intros Hsv Hr Hf; [lia|].
  cbn [_run]. apply returns_bind, returns_look, returns_bind, returns_except, returns_bind.
  set (online := dom (_dispatch_sessions (memory s))). set (d := others_tables (awaits s) (data (canon s))).
  assert (canon (others s) = Conn d None) as Hd by by rw /others /= Hsv.
  assert (reachable d) as Hrd by (unfold reachable in *; etrans; [done|by apply Hs]).
  pose proof (Hc (awaits s) _ Hr) as Hle. fold d in Hle.
  apply (returns_call Hn). intros n. rw Hd.
  destruct (claim_progress d online n Hrd) as [(a & d' & E & Hlow)|E].
  - exists (Some a), d'. split; [done|]. intros s1 Hs1. apply returns_ret, returns_bind.
    set (s2 := others s1). set (d2 := others_tables (awaits s1) d').
    assert (canon s2 = Conn d2 None) as Hd2 by by rw /s2 /others /= Hs1.
    assert (reachable d') as Hrd'.
    { eapply rtc_r; [exact Hrd|]. exists (ClaimNext online n), (Ret tt). split; [done|].
      cbn [exec]. by rw /run /mbind /M_bind E. }
    assert (reachable d2) as Hr2 by (unfold reachable in *; etrans; [done|by apply Hs]).
    pose proof (Hc (awaits s1) _ Hrd') as Hle2. fold d2 in Hle2.
    eapply returns_mono; [apply IH; rw Hd2; [done..|simpl; lia]|].
    intros claims s3 (l & -> & Hl). apply returns_ret. exists (a :: l). split; [done|].
    rw Hd2 in Hl. simpl in *. lia.
  - exists None, d. split; [done|]. intros s1 Hs1. apply returns_ret, returns_ret. exists []. split; [done|]. simpl. lia.
Qed.
Lemma quiet_claims : others_claim quiet_world.
Proof. intros n d _. reflexivity. Qed.
Lemma quiet_uncancelled : uncancelled quiet_world.
Proof. intros n. reflexivity. Qed.
Lemma queued_twice : (queued_count (data (canon sample_live)) < 3)%nat.
Proof. apply Nat.ltb_lt. vm_compute. reflexivity. Qed.
Lemma claims_end_witness :
  returns (@_run quiet_world 3) (fun claims _ =>
    exists l, claims = Some l /\ (length l <= queued_count (data (canon sample_live)))%nat) sample_live.
Proof.
  exact (claims_end quiet_world 3 sample_live quiet_uncancelled quiet_steps quiet_claims eq_refl
    sample_reachable queued_twice).
Defined.

(** ** Transitions that succeed *)

(** The tables after a transition of one device. *)
Definition after_transition (id v : pystr) (target : device_state) (fields : list assignment) (now : Z) (d : db) : db :=
  rederive_db id now (set_job id (bump_job now) (set_device (id, v) (transitioned target fields now) d)).

Lemma after_transition_row id v target fields now d r :
  assignments d !! (id, v) = Some r ->
  assignments (after_transition id v target fields now d) !! (id, v) = Some (transitioned target fields now r).
Proof. intros Hr. rw /after_transition /rederive_db. repeat case_match; simpl; by rw lookup_alter_eq Hr. Qed.

Lemma transitioned_state target fields now r :
  forallb allowed_column fields = true -> existsb is_terminal_at fields = false ->
  d_state (transitioned target fields now r) = target.
Proof. intros Ha Ht. by destruct (transitioned_fields target fields now r Ha Ht) as (_ & ? & _). Qed.

Section Transition.
Context (d : db) (id v : pystr) (r : device_row) (l : list device_state) (target : device_state)
  (fields : list assignment) (now : Z).
Context (Hi : invariant d) (Hr : assignments d !! (id, v) = Some r) (Hlive : ~ terminal_row r)
  (Hl : d_state r ∈ l) (Hv : validate_device_transition (d_state r) target = Ret tt)
  (Hw : target <> WAITING_TRANSFER) (Hact : target ∈ ACTIVE_DEVICE_STATES -> active r)
  (Hf : forallb allowed_column fields = true) (Ht : existsb is_terminal_at fields = false).

Lemma transition_constraints : constraints (set_device (id, v) (transitioned target fields now) d).
Proof.
  destruct Hi as [Hc _]. apply constraints_set_device; [| |done].
  - intros r0 _. destruct (transitioned_fields target fields now r0 Hf Ht) as ([] & _). by split.
  - intros r0 id' r' Hr0 Ha Hr' Ha'. rw Hr in Hr0. injection Hr0 as <-.
    rw /active (proj1 (proj2 (transitioned_fields target fields now r Hf Ht))) in Ha.
    pose proof (c_active_index _ Hc _ _ Hr _ _ Hr') as HU. rw /active_key !bool_decide_eq_true_2 // in HU; [|by apply Hact].
    by assert ((id, v) = (id', v)) as [= ->] by by apply HU; [eexists|].
Qed.

Lemma transition_succeeds :
  exists snap, transition_device id v (Some l) target fields false now (Conn d None)
    = (Ret snap, Conn (after_transition id v target fields now d) None) /\
    snapshot_of (after_transition id v target fields now d) id = Some snap.
Proof.
  destruct Hi as [Hc Hwf]. pose proof transition_constraints as Hc1.
  set (d1 := set_device (id, v) (transitioned target fields now) d) in *.
  destruct (c_assignment_job _ Hc _ _ Hr) as [j Hj]. cbn [fst] in Hj.
  assert (constraints (set_job id (bump_job now) d1)) as Hc2 by by apply constraints_set_job.
  assert (wf {[id]} (set_job id (bump_job now) d1)) as Hw2.
  { apply wf_bump. eapply (wf_rows ∅ {[id]} d id (alter (transitioned target fields now) (id, v) (assignments d)));
      [done| |set_solver..]. eapply rows_step_alter; [done|]. right.
    by apply (transition_row_step d (id, v)). }
  assert (jobs (set_job id (bump_job now) d1) !! id = Some (bump_job now j)) as Hj2.
  { rw lookup_set_job decide_True //. change (jobs d1) with (jobs d). by rw Hj. }
  assert (exists snap, snapshot_of (after_transition id v target fields now d) id = Some snap) as [snap Hsnap].
  { assert (is_Some (jobs (after_transition id v target fields now d) !! id)) as [j3 Hj3].
    { rw /after_transition /rederive_db. repeat case_match; rw ?set_job_dom; by apply (c_assignment_job _ Hc _ _ Hr). }
    rw /snapshot_of Hj3 /=. by eexists. }
  exists snap. split; [|done]. rw /transition_device Hf. erewrite eval_bind; [|reflexivity].
  rw /transaction. erewrite eval_bind; [|reflexivity]. rw /try_reraise. evals_select. rw Hr.
  erewrite eval_bind; [|reflexivity]. cbv zeta. rw andb_false_r. rw bool_decide_eq_true_2 //.
  erewrite eval_bind; [|reflexivity]. rw Hv. erewrite eval_bind; [|reflexivity].
  erewrite eval_bind; [|apply write_eval, Hc1]. rw /finish_job.
  erewrite eval_bind; [|apply write_eval, Hc2]. erewrite eval_bind; [|by eapply rederive_eval].
  change (rederive_db id now (set_job id (bump_job now) d1)) with (after_transition id v target fields now d).
  erewrite eval_bind; [|rw /_snapshot; evals_select; rw Hsnap; reflexivity]. reflexivity.
Qed.
End Transition.

(** ** The recovery of a failed dispatch *)

(** The other tasks leave the tables alone; a lost send is a connection error or a timeout. *)
Definition quiet_tables (W : world) : Prop := forall n d, others_tables n d = d.
Definition faulty_connection (e : failure) : bool := connection_error e || timeout_error e.
Definition sends_fail_softly (W : world) : Prop := forall n e, lost_send n = Some e -> faulty_connection e = true.

Lemma dict_get_some {V} (v : pystr) (x : V) (m : list (pystr * V)) : (v, x) ∈ m -> is_Some (dict_get v m).
Proof.
  induction m as [|[k y] m IH]; [by intros ?%elem_of_nil|]. simpl. case_bool_decide; [by eexists|].
  intros [[= -> ->]|H1]%elem_of_cons; [done|by apply IH].
Qed.
Lemma device_of_some d id v r snap :
  snapshot_of d id = Some snap -> assignments d !! (id, v) = Some r -> is_Some (device_of snap v).
Proof.
  rw /snapshot_of. destruct (jobs d !! id) as [j|]; [|done]. intros [= <-] Hr. rw /device_of /=.
  apply (dict_get_some v (device_snapshot_of d id v r)), list_elem_of_fmap. exists ((id, v), r). split; [done|].
  rw /job_assignments /order_by. rw merge_sort_Permutation. apply list_elem_of_filter. split; [done|].
  by apply elem_of_map_to_list.
Qed.

Lemma exists_snapshot d id j : jobs d !! id = Some j -> exists snap, snapshot_of d id = Some snap.
Proof. intros Hj. rw /snapshot_of Hj /=. by eexists. Qed.

Section Recovery.
Context {W : world} (Hn : uncancelled W) (Hq : quiet_tables W) (Hsoft : sends_fail_softly W).

Lemma quiet_others s : canon (others s) = canon s.
Proof. rw /others /= Hq. by destruct (canon s). Qed.
Lemma quiet_call {A} (op : Z -> Op A) d (Q : A -> live -> Prop) s :
  canon s = Conn d None ->
  (forall n, exists a d', op n (Conn d None) = (Ret a, Conn d' None) /\
     forall s', canon s' = Conn d' None -> Q a s') -> returns (call op) Q s.
Proof.
  intros Hd H. apply (returns_call Hn). intros n. rw quiet_others Hd. destruct (H n) as (a & d' & E & HQ).
  exists a, d'. split; [done|]. intros s1 Hs1. apply HQ. by rw quiet_others.
Qed.
Lemma returns_publish snap (Q : unit -> live -> Prop) s :
  (forall s', canon s' = canon s -> Q tt s') -> returns (publish snap) Q s.
Proof.
  intros H. rw /returns /publish. rw look_then.
  destruct (_ <=? _); eexists tt, _; (split; [done|by apply H]).
Qed.

Lemma quiet_pause_then {B} (f : unit -> Task B) s : (pause ≫= f) s = f tt (others s).
Proof. by rw pause_then Hn. Qed.
Lemma quiet_send ws payload s o s' :
  send ws payload s = (o, s') -> canon s' = canon s /\
  match o with Ret _ => True | Raise e => faulty_connection e = true end.
Proof.
  rw /send quiet_pause_then look_then. destruct (negb _); [intros [= <- <-]; by rw quiet_others|].
  rw gets_then. destruct (lost_send _) as [e|] eqn:E.
  - rw quiet_pause_then. intros [= <- <-]. rw !quiet_others. split; [done|]. by eapply Hsoft.
  - rw change_then /pause Hn. intros [= <- <-]. rw quiet_others. exact (conj (quiet_others s) I).
Qed.
Lemma quiet_send_reconcile sess snap v s o s' :
  is_Some (device_of snap v) -> send_reconcile sess snap v s = (o, s') -> canon s' = canon s /\
  match o with Ret _ => True | Raise e => faulty_connection e = true end.
Proof.
  intros [ds Hds]. rw /send_reconcile Hds ret_then /send_exact_reconcile.
  change (if false then mret tt else pause) with pause. rw quiet_pause_then /live_session look_then.
  destruct (negb _); [intros [= <- <-]; by rw quiet_others|].
  intros [Hs Ho]%quiet_send. split; [by rw Hs quiet_others|done].
Qed.

Lemma sent_reconciles s : s ∈ SENT_STATES -> validate_device_transition s RECONCILING = Ret tt.
Proof. rw /SENT_STATES. destruct s; (done || set_solver). Qed.
Lemma sent_active s : s ∈ SENT_STATES -> s ∈ ACTIVE_DEVICE_STATES.
Proof. rw /SENT_STATES /ACTIVE_DEVICE_STATES. destruct s; set_solver. Qed.

(** Where the recovery leaves an assignment. *)
Definition recovered_state (s : device_state) : device_state :=
  if bool_decide (s = WAITING_TRANSFER) then QUEUED
  else if bool_decide (s ∈ SENT_STATES) then RECONCILING else s.
Definition recovered (id v : pystr) (r : device_row) (s : live) : Prop :=
  saved (canon s) = None /\ exists r', assignments (data (canon s)) !! (id, v) = Some r' /\
    d_state r' = recovered_state (d_state r) /\
    (d_state r ∈ SENT_STATES -> is_Some (d_reconciliation_deadline r')).

(** The session is told to report, whether or not the message arrives. *)
Lemma told_to_report v (p : protocol_mode) snap d (Q : unit -> live -> Prop) s :
  canon s = Conn d None -> is_Some (device_of snap v) -> (forall s', canon s' = Conn d None -> Q tt s') ->
  returns (s0 ← live_session v;
           match s0 with
           | Some s0 =>
               if bool_decide (p = JOB_V1) then
                 except_on (fun e => connection_error e || timeout_error e)
                   (send_reconcile s0 snap v) (fun _ => mret tt)
               else mret tt
           | None => mret tt
           end) Q s.
Proof.
  intros Hs Hdev HQ. apply returns_bind, returns_look. destruct (_ !! v) as [s0|]; [|by apply returns_ret, HQ].
  case_bool_decide; [|by apply returns_ret, HQ].
  apply returns_tolerated. intros o s' [Hc Ho]%quiet_send_reconcile; [|done].
  split; [apply HQ; by rw Hc|by destruct o].
Qed.

(** A transition made by the recovery, and its publication. *)
Lemma recovering_transition d id v r target fields (Q : snapshot -> live -> Prop) s :
  canon s = Conn d None -> invariant d -> assignments d !! (id, v) = Some r -> ~ terminal_row r ->
  validate_device_transition (d_state r) target = Ret tt -> target <> WAITING_TRANSFER ->
  (target ∈ ACTIVE_DEVICE_STATES -> active r) ->
  forallb allowed_column fields = true -> existsb is_terminal_at fields = false ->
  (forall now snap s', canon s' = Conn (after_transition id v target fields now d) None ->
     is_Some (device_of snap v) -> Q snap s') ->
  returns (call (transition_device id v (Some [d_state r]) target fields false)) Q s.
Proof.
  intros Hs Hi Hr Hlive Hv Hw Hact Hf Ht HQ. eapply (quiet_call _ d); [done|]. intros n.
  destruct (transition_succeeds d id v r [d_state r] target fields n) as (snap & E & Hsnap);
    try done; [by left|].
  eexists _, _. split; [exact E|]. intros s' Hs'. eapply HQ; [done|].
  eapply device_of_some; [done|by apply after_transition_row].
Qed.

Lemma recover_once_spec d id v r j e s :
  canon s = Conn d None -> invariant d -> assignments d !! (id, v) = Some r -> jobs d !! id = Some j ->
  returns (recover_once id v (d_attempt r) e) (fun _ => recovered id v r) s.
Proof.
  intros Hs Hi Hr Hj. rw /recover_once. apply returns_bind, (quiet_call _ d); [done|]. intros n.
  exists (Some (r, j)), d. split; [by rw /assignment_of /select /gets /= Hr Hj|]. intros s1 Hs1.
  rw Z.eqb_refl. change (negb true) with false. cbv iota zeta.
  destruct (decide (d_state r = WAITING_TRANSFER)) as [Ew|Ew].
  { rw bool_decide_eq_true_2 //. apply returns_bind. rw -{1}Ew.
    apply (recovering_transition d id v r); try done.
    - rw /terminal_row Ew. decided.
    - by rw Ew.
    - intros Ha. exfalso. revert Ha. decided.
    - intros now snap s2 Hs2 _. apply returns_publish. intros s3 Hs3. rw /recovered Hs3 Hs2. split; [done|].
      eexists. split; [by apply after_transition_row|]. split; [etrans; [by apply transitioned_state|]; by rw Ew|].
      rw Ew. intros Hin. exfalso. revert Hin. decided. }
  rw bool_decide_eq_false_2 //. destruct (decide (d_state r ∈ RECONCILING :: SENT_STATES)) as [Ein|Ein].
  2:{ rw bool_decide_eq_false_2 //. apply returns_ret. rw /recovered Hs1. split; [done|]. exists r. split; [done|].
      assert (d_state r ∉ SENT_STATES) as Hns by set_solver. rw /recovered_state !bool_decide_eq_false_2 //. }
  rw (bool_decide_eq_true_2 (_ ∈ _)) //. apply returns_bind.
  destruct (decide (d_state r = RECONCILING)) as [Er|Er].
  - rw (bool_decide_eq_true_2 (_ = _)) //. apply (quiet_call _ d); [done|]. intros n1.
    destruct (exists_snapshot d id j Hj) as [snap Hsnap]. exists snap, d.
    split; [by rw /get_snapshot /_snapshot; evals_select; rw Hsnap|]. intros s2 Hs2.
    apply returns_bind, returns_publish. intros s3 Hs3. eapply told_to_report; [by rw Hs3| |].
    + by eapply device_of_some.
    + intros s4 Hs4. rw /recovered Hs4. split; [done|]. exists r. split; [done|]. rw Er. split; [done|].
      intros Hin. exfalso. revert Hin. decided.
  - rw (bool_decide_eq_false_2 (_ = RECONCILING)) //. assert (d_state r ∈ SENT_STATES) as Hsent by set_solver.
    apply returns_bind, returns_now. intros n1 s2 Hs2 _. rw /mark_reconciling.
    apply (recovering_transition d id v r); try done; [by rw Hs2|by apply sent_not_terminal|by apply sent_reconciles|
      intros _; by apply sent_active|].
    intros now snap s3 Hs3 Hdev. apply returns_bind, returns_publish. intros s4 Hs4.
    eapply told_to_report; [rw Hs4; exact Hs3|done|]. intros s5 Hs5. rw /recovered Hs5. split; [done|].
    eexists. split; [by apply after_transition_row|]. split; [|by eexists]. etrans; [by apply transitioned_state|].
    rw /recovered_state bool_decide_eq_false_2 // bool_decide_eq_true_2 //.
Qed.

End Recovery.
Lemma quiet_world_tables : quiet_tables quiet_world.
Proof. intros n d. reflexivity. Qed.
Lemma quiet_world_sends : sends_fail_softly quiet_world.
Proof. intros n e. discriminate. Qed.
