(* ===== verification/Paths.v ===== *)
(** * Names and paths of uploads (server.py, integrity.py)

    The pure checks of what administrators and browsers name: paths of bundle entries,
    destinations on a device, file names, OS metadata, and what names a bundle. *)

From S2P Require Import Prelude PyStr Text Json PushJobs Requests.

(** ** Names *)

(** [re.sub(r"[^A-Za-z0-9._-]", "_", name)]. *)
Definition safe_char (c : N) : bool :=
  ((65 <=? c) && (c <=? 90) || (97 <=? c) && (c <=? 122) || (48 <=? c) && (c <=? 57)
   || (c =? 46) || (c =? 95) || (c =? 45))%N.
Definition underscored (name : pystr) : pystr := (fun c => if safe_char c then c else 95%N) <$> name.
(** [.strip("._-")]. *)
Definition strip_marks (name : pystr) : pystr := strip_chars [46; 95; 45]%N name.

(** [Path(text).name] on POSIX. *)
Definition path_name (text : pystr) : pystr :=
  default [] (last (filter kept (split_on slash text))).

Definition sanitize_apk_filename (filename : option pystr) : option pystr :=
  match filename with
  | None | Some [] => None
  | Some filename =>
      let name := strip (path_name filename) in
      if negb (endswith (lower name) (u ".apk")) then None
      else
        let safe_name := underscored name in
        if bool_decide (safe_name ∈ [[]; u ".apk"]) then None else Some safe_name
  end.

(** ** Paths of bundle entries *)

Fixpoint safe_segments (segments : list pystr) : option (list pystr) :=
  match segments with
  | [] => Some []
  | seg :: rest =>
      let seg := strip seg in
      if streq seg [] || streq seg dot then safe_segments rest
      else if streq seg dotdot then None
      else cons seg <$> safe_segments rest
  end.

Definition sanitize_relpath (raw : option pystr) : option pystr :=
  match raw with
  | None | Some [] => None
  | Some raw =>
      let text := replace_char backslash slash raw in
      if bool_decide (0%N ∈ text) then None
      else
        match safe_segments (split_on slash text) with
        | None | Some [] => None
        | Some parts => Some (join_with slash parts)
        end
  end.

(** [path.resolve()] of an absolute path without links, as its segments. *)
Definition resolve (segments : list pystr) : list pystr :=
  foldl (fun acc s => if streq s [] || streq s dot then acc
                      else if streq s dotdot then removelast acc else acc ++ [s]) [] segments.

(** ** Destinations on a device *)

Definition SHARED_STORAGE_PREFIXES : list pystr := [u "/sdcard/"; u "/storage/emulated/0/"].
Definition PROTECTED_TOPLEVEL_DIRS : list pystr :=
  [u "android"; u "download"; u "downloads"; u "dcim"; u "pictures"; u "movies"; u "music";
   u "documents"; u "alarms"; u "notifications"; u "podcasts"; u "ringtones"].

(** An error message, or [None] for a destination that is allowed. *)
Definition validate_dest_path (dest : json) : option pystr :=
  match dest with
  | JStr dest =>
      if bool_decide (strip dest = []) then Some (u "Destination path is required")
      else
        let text := strip dest in
        if bool_decide (0%N ∈ text) then Some (u "Destination path contains an invalid character")
        else if negb (startswith text (u "/")) then Some (u "Destination must be an absolute path")
        else if bool_decide (dotdot ∈ split_on slash text)
        then Some (u "Destination path must not contain '..'")
        else
          let with_slash := rstrip_chars [slash] (normpath text) ++ u "/" in
          match List.find (startswith with_slash) SHARED_STORAGE_PREFIXES with
          | None => Some (u "Destination must be under shared storage (/sdcard or /storage/emulated/0)")
          | Some prefix =>
              let remainder := strip_chars [slash] (drop (length prefix) with_slash) in
              if bool_decide (remainder = [])
              then Some (u "Destination must be a subdirectory, not the shared-storage root")
              else
                let first_segment := hd [] (split_on slash remainder) in
                if bool_decide (lower first_segment ∈ PROTECTED_TOPLEVEL_DIRS)
                then Some (u "Destination must not be inside the protected '" ++ first_segment ++ u "' directory")
                else None
          end
  | _ => Some (u "Destination path is required")
  end.

(** A directory path of [VERIFY_DIR]. *)
Definition is_syntactically_safe_verify_path (path : pystr) : bool :=
  startswith path (u "/") &&
  negb (bool_decide (dotdot ∈ filter (fun p => p <> []) (split_on slash path))).

(** ** The bundle of an upload *)

Definition first_segment (path : pystr) : pystr := (split_once slash path).1.

Definition strip_common_root (relpaths : list pystr) : option pystr * list pystr :=
  if bool_decide (relpaths = []) || existsb (fun p => negb (bool_decide (slash ∈ p))) relpaths
  then (None, relpaths)
  else
    match remove_dups (first_segment <$> relpaths) with
    | [root] => (Some root, (fun p => default [] (split_once slash p).2) <$> relpaths)
    | _ => (None, relpaths)
    end.

Definition bundle_basename (relpaths : list pystr) : pystr :=
  let raw :=
    match relpaths with
    | [p] => if bool_decide (slash ∈ p) then first_segment p
             else let stem := (stem_suffix (path_name p)).1 in
                  if bool_decide (stem = []) then u "bundle" else stem
    | _ => match remove_dups (first_segment <$> relpaths) with [root] => root | _ => u "bundle" end
    end in
  if bool_decide (relpaths = []) then u "bundle"
  else
    let safe := strip_marks (underscored raw) in
    if bool_decide (safe = []) then u "bundle" else safe.

(** ** OS metadata *)

Definition EXCLUDED_NAMES : list pystr :=
  [u ".ds_store"; u "thumbs.db"; u "ehthumbs.db"; u "desktop.ini"; u ".directory"; u ".apdisk"; u ".volumeicon.icns"].
Definition EXCLUDED_DIRS : list pystr :=
  [u ".spotlight-v100"; u ".trashes"; u ".fseventsd"; u ".temporaryitems"; u ".documentrevisions-v100";
   u "__macosx"; u "$recycle.bin"].

Definition metadata_segment (seg : pystr) : bool :=
  let low := lower seg in
  bool_decide (low ∈ EXCLUDED_NAMES) || bool_decide (low ∈ EXCLUDED_DIRS)
  || startswith low (u "._") || startswith low (u ".trash-").
Definition is_os_metadata (relpath : pystr) : bool := existsb metadata_segment (split_on slash relpath).

(** ** What a bundle entry can be *)

(** A path segment of an archive: a plain name without blanks around it. *)
Definition entry_segment (s : pystr) : Prop := plain_component s /\ strip s = s.

Lemma safe_segments_spec segs parts :
  Forall (fun s => (slash ∉ s) /\ (backslash ∉ s) /\ (0%N ∉ s)) segs -> safe_segments segs = Some parts ->
  Forall entry_segment parts.
Proof.
  induction segs as [|seg segs IH] in parts |- *; simpl; [by intros _ [= <-]|].
  intros [(Hs & Hb & H0) Hsegs]%Forall_cons_1. destruct (streq (strip seg) [] || _) eqn:E1; [by apply IH|].
  destruct (streq (strip seg) dotdot) eqn:E2; [done|].
  intros (rest & Hrest & ->)%fmap_Some. constructor; [|by apply IH].
  apply orb_false_iff in E1 as [En%bool_decide_eq_false_1 Ed%bool_decide_eq_false_1].
  apply bool_decide_eq_false_1 in E2. split; [|apply strip_idem].
  split_and!; [done..| | |]; by intros ?%strip_by_subset.
Qed.

Lemma safe_segments_fixed parts : Forall entry_segment parts -> safe_segments parts = Some parts.
Proof.
  induction 1 as [|s parts [(Hn & Hd & Hdd & _) Hs] _ IH]; [done|]. simpl. rw Hs IH.
  assert (streq s [] = false) as -> by by apply bool_decide_eq_false_2.
  assert (streq s dot = false) as -> by by apply bool_decide_eq_false_2.
  by assert (streq s dotdot = false) as -> by by apply bool_decide_eq_false_2.
Qed.

Lemma entry_chars parts x :
  Forall entry_segment parts -> x <> slash -> (forall s, entry_segment s -> x ∉ s) -> x ∉ join_with slash parts.
Proof.
  intros Hp Hx Hs [?|(p & Hin & Hxp)]%join_chars; [done|]. rw Forall_forall in Hp. by eapply Hs, Hxp; apply Hp.
Qed.

Lemma entry_spec raw p :
  sanitize_relpath raw = Some p ->
  (exists parts, parts <> [] /\ p = join_with slash parts /\ split_on slash p = parts /\ Forall entry_segment parts) /\
  sanitize_relpath (Some p) = Some p.
Proof.
  intros H. assert (exists parts, parts <> [] /\ p = join_with slash parts /\ Forall entry_segment parts)
    as (parts & Hn & -> & Hp).
  { destruct raw as [[|c raw]|]; [done| |done]. rw /sanitize_relpath in H.
    set (text := replace_char _ _ _) in H. cbv zeta in H. case_bool_decide as H0; [done|].
    destruct (safe_segments _) as [[|part parts]|] eqn:E; [done| |done]. injection H as <-.
    exists (part :: parts). split_and!; [done..|]. eapply safe_segments_spec, E. apply Forall_forall. intros s Hs.
    pose proof (split_on_pieces slash text) as Hpieces. rw Forall_forall in Hpieces.
    split_and!; [by apply Hpieces|intros Hx|intros Hx]; eapply split_on_chars in Hx; [|done| |done]; [|done].
    by eapply replace_gone, Hx. }
  assert (Forall (fun s => slash ∉ s) parts) as Hslash.
  { eapply Forall_impl; [exact Hp|]. by intros s [(? & ? & ? & ? & ? & ?) _]. }
  split; [exists parts; split_and!; [done..|by apply split_join|done]|].
  assert (join_with slash parts <> []) as Hne.
  { intros E%join_empty; [done|]. eapply Forall_impl; [exact Hp|]. by intros s [? _]. }
  rw /sanitize_relpath. destruct (join_with slash parts) as [|c s] eqn:E; [done|]. rw -E.
  rw replace_id; [|apply entry_chars; [done..|]; by intros s' [(? & ? & ? & ? & ? & ?) _]].
  cbv zeta. rw bool_decide_eq_false_2; [|apply entry_chars; [done..|]; by intros s' [(? & ? & ? & ? & ? & ?) _]].
  rw split_join // safe_segments_fixed //. by destruct parts.
Qed.

(** A bundle entry never leaves the directory it is unpacked into: an accepted path
    is a sequence of names joined by slashes, at least one, none of which is empty, the
    directory itself or its parent, or holds a separator or NUL; and an accepted path
    is accepted again as it is, so that two entries are one file only when their paths
    are equal. *)
Theorem entry_stays_inside raw p :
  sanitize_relpath raw = Some p ->
  (exists parts, parts <> [] /\ p = join_with slash parts /\ split_on slash p = parts /\ Forall entry_segment parts) /\
  sanitize_relpath (Some p) = Some p.
Proof. apply entry_spec. Qed.
Lemma entry_stays_inside_witness :
  exists parts, sanitize_relpath (Some (u "./show\videos//a .mp4")) = Some (join_with slash parts) /\
    parts = [u "show"; u "videos"; u "a .mp4"] /\ Forall entry_segment parts.
Proof.
  exists [u "show"; u "videos"; u "a .mp4"]. split; [vm_compute; reflexivity|]. split; [reflexivity|].
  destruct (entry_stays_inside (Some (u "./show\videos//a .mp4")) (u "show/videos/a .mp4"))
    as [(parts & _ & _ & Hs & Hp) _]; [vm_compute; reflexivity|].
  assert (parts = [u "show"; u "videos"; u "a .mp4"]) as <- by (rewrite <- Hs; vm_compute; reflexivity). exact Hp.
Defined.

(** ** The two checks of a destination *)

Definition alias_prefix (alias : pystr) : pystr := alias ++ [slash].

Lemma slash_strip x : strip_chars [slash] (slash :: x) = strip_chars [slash] x.
Proof. reflexivity. Qed.
Lemma strip_slash x : strip_chars [slash] (x ++ [slash]) = strip_chars [slash] x.
Proof.
  rw /strip_chars /strip_by. set (p := fun c => bool_decide (c ∈ [slash])).
  assert (rstrip_by p (lstrip_by p x ++ [slash]) = rstrip_by p (lstrip_by p x)) as Hr.
  { rw /rstrip_by reverse_app. reflexivity. }
  rw -Hr. destruct (lstrip_by_spec p x) as (b & Hx & Hb & Hh).
  assert (lstrip_by p (x ++ [slash]) = lstrip_by p (lstrip_by p x ++ [slash])) as ->.
  { clear Hr. rw {1}Hx -app_assoc. clear Hx. induction Hb as [|c b Hc _ IH]; [done|]. simpl. by rw Hc. }
  destruct (lstrip_by p x) as [|c y]; [reflexivity|]. simpl. by rw (Hh c eq_refl).
Qed.

Lemma first_segment_hd x : hd [] (split_on slash x) = first_segment x.
Proof.
  rw /first_segment. induction x as [|c x IH]; [done|]. simpl.
  destruct (c =? slash)%N; [done|]. destruct (split_on slash x) as [|p ps] eqn:E; [by apply split_on_nonempty in E|].
  simpl in IH. subst p. by destruct (split_once slash x).
Qed.

(** The prefix of a directory below an alias. *)
Lemma below_prefix normalized alias :
  startswith (normalized ++ [slash]) (alias_prefix alias) =
  streq normalized alias || startswith normalized (alias_prefix alias).
Proof.
  apply eq_true_iff_eq. rw orb_true_iff streq_spec !startswith_spec /alias_prefix. split.
  - intros [t Ht]. destruct t as [|x t _] using rev_ind.
    + left. rw app_nil_r in Ht. by apply app_inj_tail in Ht as [? _].
    + right. exists t. rw app_assoc in Ht. by apply app_inj_tail in Ht as [? _].
  - intros [->|[t ->]]; [exists []; by rw app_nil_r|]. exists (t ++ [slash]). by rw !app_assoc.
Qed.

Lemma prefixes_are_aliases : SHARED_STORAGE_PREFIXES = alias_prefix <$> storage_aliases.
Proof. reflexivity. Qed.
Lemma find_prefix normalized l :
  List.find (startswith (normalized ++ [slash])) (alias_prefix <$> l) =
  alias_prefix <$> List.find (fun a => streq normalized a || startswith normalized (a ++ u "/")) l.
Proof.
  induction l as [|a l IH]; [done|]. cbn [fmap list_fmap List.find]. rw below_prefix IH.
  change (a ++ u "/") with (alias_prefix a). by destruct (_ || _).
Qed.
Lemma same_remainder normalized alias :
  streq normalized alias || startswith normalized (alias ++ u "/") = true ->
  strip_chars [slash] (drop (length (alias_prefix alias)) (normalized ++ [slash])) =
  strip_chars [slash] (drop (length alias) normalized).
Proof.
  rw orb_true_iff streq_spec startswith_spec /alias_prefix. intros [->|[t ->]].
  - rw drop_all. by rw drop_all.
  - change (u "/") with [slash].
    assert (((alias ++ [slash]) ++ t) ++ [slash] = (alias ++ [slash]) ++ t ++ [slash]) as -> by by rw app_assoc.
    assert ((alias ++ [slash]) ++ t = alias ++ slash :: t) as -> by by rw -app_assoc.
    rw !drop_app_length slash_strip. apply strip_slash.
Qed.

Lemma rstrip_id x : (forall c, last x = Some c -> c <> slash) -> rstrip_chars [slash] x = x.
Proof.
  intros H. rw /rstrip_chars /rstrip_by lstrip_by_id ?reverse_involutive //.
  intros c Hc. rw head_reverse in Hc. apply bool_decide_eq_false_2. intros ->%list_elem_of_singleton. by apply (H slash).
Qed.
Lemma last_slashes k cs :
  cs <> [] -> Forall (fun p => p <> [] /\ slash ∉ p) cs ->
  forall c, last (replicate k slash ++ join_with slash cs) = Some c -> c <> slash.
Proof.
  intros Hn Hcs c. rw last_app. destruct (last (join_with slash cs)) as [y|] eqn:E.
  - intros [= <-]. by eapply join_last.
  - apply last_None in E. destruct cs as [|[|d p] cs]; [done|by apply Forall_cons_1 in Hcs as [[? _] _]|by destruct cs].
Qed.

(** The job API and the console's older requests hold a destination to the same rule:
    a path without backslashes is accepted by one exactly when it is accepted by the
    other. *)
Theorem destination_checks_agree dest :
  backslash ∉ dest ->
  (validate_dest_path (JStr dest) = None <-> exists d, canonical_destination (JStr dest) = Ret d).
Proof.
  intros Hb. rw /validate_dest_path /canonical_destination.
  assert (backslash ∉ strip dest) as Hbs by by intros ?%strip_by_subset.
  rw (replace_id backslash slash _ Hbs). case_bool_decide; [split; [done|by intros [? ?]]|]. cbv zeta.
  case_bool_decide; [split; [done|by intros [? ?]]|].
  destruct (startswith (strip dest) (u "/")) eqn:Hs; [|split; [done|by intros [? ?]]].
  cbn [negb]. case_bool_decide as Hd; [split; [done|by intros [? ?]]|].
  destruct (normpath_absolute (strip dest) Hd Hs) as (k & Hk & ->).
  set (cs := filter kept (split_on slash (strip dest))).
  assert (Forall (fun p => p <> [] /\ slash ∉ p) cs) as Hcs.
  { apply Forall_forall. intros p [[Hn _] Hp]%list_elem_of_filter. split; [done|].
    pose proof (split_on_pieces slash (strip dest)) as Hpieces. rw Forall_forall in Hpieces. by apply Hpieces. }
  destruct (decide (cs = [])) as [->|Hn].
  { assert (k = 1 \/ k = 2)%nat as [->| ->] by naive_solver; (split; [intros [=]|by intros [? ?]]). }
  rw rstrip_id; [|by apply last_slashes]. set (normalized := replicate k slash ++ join_with slash cs).
  change (u "/") with [slash] at 1. rw prefixes_are_aliases find_prefix.
  destruct (List.find _ storage_aliases) as [alias|] eqn:E; [|split; [done|by intros [? ?]]].
  apply List.find_some in E as [_ E]. cbn [fmap option_fmap option_map]. rw same_remainder //.
  case_bool_decide; [split; [done|by intros [? ?]]|]. rw first_segment_hd.
  change PROTECTED_TOPLEVEL_DIRS with protected_dirs. rw /first_segment.
  case_bool_decide; [split; [done|by intros [? ?]]|]. split; [by eexists|done].
Qed.
Lemma destination_checks_agree_witness :
  validate_dest_path (JStr (u "/storage/emulated/0/Show/")) = None /\
  exists d, canonical_destination (JStr (u "/storage/emulated/0/Show/")) = Ret d.
Proof.
  split; [vm_compute; reflexivity|]. apply destination_checks_agree; [|vm_compute; reflexivity].
  apply (bool_decide_eq_false_1 _). vm_compute. reflexivity.
Defined.
