(* ===== verification/Upload.v ===== *)
(** * The upload of a bundle (push_runtime.py)

    [PushRuntime.upload_handler]: the parts of the request are checked and written one
    by one, the files are packaged, the artifact is published; whatever fails is
    recorded.  The request and the file system are the environment's: what a read
    gives, which file operation raises, the archive's size and digest. *)

From S2P Require Import Prelude PyStr Json PushJobs Db Store Manager Requests Policy Transfers Live.
From S2P Require Import Scheduler Runtime Api Paths.
Open Scope Z_scope.

(** ** The request *)

(** A part of the request; a read of it gives the length of a chunk that is not empty, or raises. *)
Record part := Part {
  part_name : option pystr;
  part_filename : option pystr;
  part_chunks : list (outcome failure Z);
}.
(** [reader.next()] until there is no part. *)
Abbreviation reader := (list (outcome failure part)).

(** [seen], [actual_count] and [actual_bytes]. *)
Record received := Received { seen : list pystr; actual_count : Z; actual_bytes : Z }.

Inductive reply :=
  | Accepted (ready : snapshot)
  | Refused (status : Z) (error : pystr)
  | NotFound.

(** ** Packaging *)

(** The directory below the upload that is archived, when the entries share one. *)
Definition content_root (paths : list pystr) : option pystr :=
  if bool_decide ((strip_common_root paths).2 = paths) then None
  else first_segment <$> head paths.

Definition display_name (source_label : pystr) : pystr :=
  let stripped := strip_marks (underscored source_label) in
  let safe := if bool_decide (stripped = []) then u "bundle" else stripped in
  if endswith (lower safe) (u ".zip") then safe else safe ++ u ".zip".

Section Upload.
Context {W : world}.

(** [artifact_uuid] is the text of the [uuid4()] of the artifact; [archive] gives the size
    and the digest of the archive of a directory. *)
Context (artifact_uuid : pystr) (archive : option pystr -> Z * pystr).

Definition _package_and_publish (source_label : pystr) (paths : list pystr) : Task artifact :=
  to_thread ;;
  let identity := archive (content_root paths) in
  mret (Artifact artifact_uuid (artifact_uuid ++ u ".zip") (display_name source_label)
          identity.1 identity.2 (Z.of_nat (length paths))).

(** ** Receiving the parts *)

(** [while await part.read_chunk(): pass]; the last read is empty. *)
Fixpoint skip_chunks (chunks : list (outcome failure Z)) : Task unit :=
  match chunks with
  | [] => pause
  | c :: rest => pause ;; from_outcome c ;; skip_chunks rest
  end.

Fixpoint store_chunks (chunks : list (outcome failure Z)) (total : Z) : Task Z :=
  match chunks with
  | [] => pause ;; mret total
  | c :: rest =>
      pause ;;
      n ← from_outcome c;
      let total := total + n in
      if MAX_BUNDLE_SIZE <? total then raise (refused (u "upload exceeds the byte limit"))
      else to_thread ;; store_chunks rest total
  end.

(** The file is opened, written, flushed and, in any case, closed. *)
Definition store_file (chunks : list (outcome failure Z)) (total : Z) : Task Z :=
  to_thread ;;
  finally (total ← store_chunks chunks total; to_thread ;; mret total) to_thread.

Definition receive_part (st : received) (p : part) : Task received :=
  if negb (bool_decide (part_name p = Some (u "files"))) then skip_chunks (part_chunks p) ;; mret st
  else
    relative ← or_fail (refused (u "unsafe uploaded path")) (sanitize_relpath (part_filename p));
    if is_os_metadata relative then skip_chunks (part_chunks p) ;; mret st
    else if bool_decide (relative ∈ seen st)
    then raise (refused (u "duplicate uploaded path: " ++ relative))
    else if MAX_BUNDLE_ENTRIES <? actual_count st + 1
    then raise (refused (u "upload exceeds the entry limit"))
    else
      total ← store_file (part_chunks p) (actual_bytes st);
      mret (Received (seen st ++ [relative]) (actual_count st + 1) total).

Fixpoint receive (parts : reader) (st : received) : Task received :=
  match parts with
  | [] => pause ;; mret st
  | p :: rest =>
      pause ;;
      p ← from_outcome p;
      st ← receive_part st p;
      receive rest st
  end.

(** ** The handler *)

Definition receive_upload (job_id : pystr) (multipart : outcome failure reader) : Task (snapshot * received) :=
  snap ← call (start_upload job_id);
  publish snap ;;
  pause ;;
  parts ← from_outcome multipart;
  to_thread ;;
  st ← receive parts (Received [] 0 0);
  if actual_count st =? 0 then raise (refused (u "upload contains no content files"))
  else
    started ← now_ms;
    snap ← call (mark_packaging job_id (actual_count st) (actual_bytes st) started);
    mret (snap, st).

Definition package (job_id : pystr) (snap : snapshot) (st : received) : Task snapshot :=
  publish snap ;;
  artifact ← _package_and_publish (s_source_label snap) (sorted_strs (seen st));
  ready ← call (publish_artifact job_id artifact);
  publish ready ;;
  pause ;;
  mret ready.

(** The clauses of the handler's [try]; removing the work files is an await whose failure
    is logged. *)
Definition upload_failed (job_id : pystr) (packaging : bool) (e : failure) : Task reply :=
  match e with
  | Cancelled =>
      _record_upload_failure job_id J_INTERRUPTED (u "upload_interrupted")
        (u "Upload request was cancelled before immutable publication") ;;
      pause ;;
      raise Cancelled
  | Database (StoreNotFound _) => mret NotFound
  | Database (UploadDeadlineExpired snap) =>
      publish snap ;; pause ;; wake_scheduler ;; mret (Refused 409 (str_of_failure e))
  | Database (StoreConflict _) => mret (Refused 409 (str_of_failure e))
  | _ =>
      _record_upload_failure job_id (if packaging then J_FAILED else J_INTERRUPTED)
        (if packaging then u "packaging_failed" else u "upload_interrupted") (str_of_failure e) ;;
      pause ;;
      mret (Refused (match e with Database (JobError _) | Database (ValueError _) => 422 | _ => 500 end)
              (str_of_failure e))
  end.

Definition upload_handler (job_id : pystr) (multipart : outcome failure reader) : Task reply :=
  arrived ← try_except (r ← receive_upload job_id multipart; mret (Ret r))
              (fun e => Some (r ← upload_failed job_id false e; mret (Raise r)));
  match arrived : outcome reply (snapshot * received) with
  | Raise r => mret r
  | Ret (snap, st) =>
      try_except (ready ← package job_id snap st; mret (Accepted ready))
        (fun e => Some (upload_failed job_id true e))
  end.
End Upload.

(** ** What is packaged *)

Definition entry (p : pystr) : Prop :=
  is_os_metadata p = false /\ exists parts, parts <> [] /\ p = join_with slash parts /\ Forall entry_segment parts.
Record within_limits (st : received) : Prop := WithinLimits {
  wl_count : actual_count st = Z.of_nat (length (seen st)) /\ actual_count st <= MAX_BUNDLE_ENTRIES;
  wl_bytes : actual_bytes st <= MAX_BUNDLE_SIZE;
  wl_distinct : NoDup (seen st);
  wl_entries : Forall entry (seen st);
}.

Section Limits.
Context {W : world}.

Lemma from_outcome_ret {A} (o : outcome failure A) s a s' : from_outcome o s = (Ret a, s') -> o = Ret a /\ s' = s.
Proof. destruct o; [by intros [= -> ->]|done]. Qed.

Lemma finally_ret {A} (m : Task A) c s a s' : finally m c s = (Ret a, s') -> exists s1, m s = (Ret a, s1).
Proof. rw /finally. destruct (m s) as [o s1]. destruct (c s1) as [[[]|e] s2]; [|done]. intros [= -> ->]. by exists s1. Qed.

Lemma stored_bytes chunks total s n s' :
  store_chunks chunks total s = (Ret n, s') -> total <= MAX_BUNDLE_SIZE -> n <= MAX_BUNDLE_SIZE.
Proof.
  induction chunks as [|c chunks IH] in total, s |- *; cbn [store_chunks].
  - by intros ([] & s1 & _ & [= -> ->])%task_bind_ret.
  - intros ([] & s1 & _ & (k & s2 & _ & H)%task_bind_ret)%task_bind_ret. cbv zeta in H.
    destruct (_ <? _) eqn:E; [done|]. apply task_bind_ret in H as ([] & s3 & _ & H). intros _.
    apply (IH _ _ H). lia.
Qed.

Lemma stored_file chunks total s n s' :
  store_file chunks total s = (Ret n, s') -> total <= MAX_BUNDLE_SIZE -> n <= MAX_BUNDLE_SIZE.
Proof.
  rw /store_file. intros ([] & s1 & _ & (s2 & H)%finally_ret)%task_bind_ret Ht.
  apply task_bind_ret in H as (k & s3 & Hk & H). apply task_bind_ret in H as ([] & s4 & _ & [= -> _]).
  by eapply stored_bytes.
Qed.

Lemma part_received st p s st' s' :
  receive_part st p s = (Ret st', s') -> within_limits st -> within_limits st'.
Proof.
  rw /receive_part. destruct (negb _).
  { by intros ([] & s1 & _ & [= -> ->])%task_bind_ret. }
  intros (relative & s1 & [Hrel ->]%or_fail_ret & H)%task_bind_ret Hst.
  destruct (is_os_metadata relative) eqn:Hm.
  { by apply task_bind_ret in H as ([] & s2 & _ & [= <- _]). }
  case_bool_decide as Hseen; [done|]. destruct (_ <? _) eqn:Hc; [done|].
  apply task_bind_ret in H as (total & s2 & Ht & [= <- _]).
  destruct Hst as [[Hn Hmax] Hb Hd He]. split; simpl.
  - rw length_app /=. split; lia.
  - by eapply stored_file.
  - apply NoDup_app. split_and!; [done| |apply NoDup_singleton]. by intros x Hx ->%list_elem_of_singleton.
  - apply Forall_app. split; [done|]. constructor; [|constructor]. split; [done|].
    apply entry_spec in Hrel as [(parts & ? & ? & _ & ?) _]. by exists parts.
Qed.

Lemma all_received parts st s st' s' :
  receive parts st s = (Ret st', s') -> within_limits st -> within_limits st'.
Proof.
  induction parts as [|p parts IH] in st, s |- *; cbn [receive].
  - by intros ([] & s1 & _ & [= -> ->])%task_bind_ret.
  - intros ([] & s1 & _ & (p' & s2 & _ & (st1 & s3 & H1 & H)%task_bind_ret)%task_bind_ret)%task_bind_ret Hst.
    eapply IH; [exact H|]. by eapply part_received.
Qed.

Lemma nothing_received : within_limits (Received [] 0 0).
Proof. split; [split; done|done|constructor|constructor]. Qed.

Lemma upload_limits job_id multipart s snap st s' :
  receive_upload job_id multipart s = (Ret (snap, st), s') -> within_limits st /\ 0 < actual_count st.
Proof.
  rw /receive_upload. intros (snap0 & s1 & _ & H)%task_bind_ret.
  apply task_bind_ret in H as ([] & s2 & _ & H). apply task_bind_ret in H as ([] & s3 & _ & H).
  apply task_bind_ret in H as (parts & s4 & _ & H). apply task_bind_ret in H as ([] & s5 & _ & H).
  apply task_bind_ret in H as (st1 & s6 & Hst & H). destruct (_ =? 0) eqn:E; [done|].
  apply task_bind_ret in H as (n & s7 & _ & H). apply task_bind_ret in H as (snap1 & s8 & _ & [= _ <- _]).
  pose proof (all_received _ _ _ _ _ Hst nothing_received) as Hw. split; [done|]. destruct (wl_count _ Hw). lia.
Qed.

Lemma failed_not_accepted job_id packaging e ready s s' :
  upload_failed job_id packaging e s = (Ret (Accepted ready), s') -> False.
Proof.
  assert (forall A (m : Task A) st msg (t : live), (m ;; pause ;; mret (Refused st msg)) t = (Ret (Accepted ready), s') -> False)
    as Hrefused.
  { intros A m st msg t H. by repeat (apply task_bind_ret in H as (? & ? & _ & H)). }
  rw /upload_failed. destruct e as [[]| | | | | | | | | |]; intros H; try done; try (by eapply Hrefused, H);
    by repeat (apply task_bind_ret in H as (? & ? & _ & H)).
Qed.
End Limits.
