(* ===== verification/Uploads.v ===== *)
(** * An upload always ends

    Once an upload begins, its job is ready, interrupted or failed when the handler
    answers, whatever the request holds and whichever file operation fails: no job is
    left uploading or packaging. *)

From S2P Require Import Prelude PyStr Json PushJobs Domain Db Store Tx Manager Protocol Safety Steps Lifecycle Queue.
From S2P Require Import Policy Transfers Live Scheduler Runtime Api Discipline Serving Dispatching Paths Upload.
From stdpp Require Import relations.
Open Scope Z_scope.

(** ** The operations of an upload *)

(** The job's row is in the state. *)
Definition job_at (d : db) (id : pystr) (s : job_state) : Prop := exists j, jobs d !! id = Some j /\ j_state j = s.

Lemma set_job_at d id f j s : jobs d !! id = Some j -> j_state (f j) = s -> job_at (set_job id f d) id s.
Proof. intros Hj Hs. exists (f j). by rw lookup_set_job decide_True // Hj. Qed.
Lemma snapshot_at d id s : job_at d id s -> exists snap, snapshot_of d id = Some snap.
Proof. intros (j & Hj & _). by eapply exists_snapshot. Qed.
Lemma snapshot_eval d id snap c : snapshot_of d id = Some snap -> _snapshot id (Conn d c) = (Ret snap, Conn d c).
Proof. intros H. rw /_snapshot. evals_select. by rw H. Qed.

(** The update a transaction ends with. *)
Lemma last_update d d0 id f j :
  constraints d -> jobs d !! id = Some j ->
  (forall j, j_client_request_id (f j) = j_client_request_id j /\ j_artifact_id (f j) = j_artifact_id j) ->
  constraints (set_job id f d) /\
  exists snap, (update_job id f ;; snap ← _snapshot id; _commit ;; mret snap) (Conn d (Some d0))
    = (Ret snap, Conn (set_job id f d) None).
Proof.
  intros Hc Hj Hf. assert (constraints (set_job id f d)) as Hc' by by apply constraints_set_job.
  split; [done|]. destruct (snapshot_at (set_job id f d) id (j_state (f j))) as [snap Hs]; [by eapply set_job_at|].
  exists snap. erewrite eval_bind; [|apply write_eval, Hc'].
  erewrite eval_bind; [|apply snapshot_eval, Hs]. reflexivity.
Qed.

Section Operations.
Context (d : db) (id : pystr) (j : job_row).
Context (Hc : constraints d) (Hj : jobs d !! id = Some j).

(** The beginning of a transaction on the job's row. *)
Lemma on_row {A} (k : job_row -> Op A) :
  transaction (row ← select (fun d => jobs d !! id); row ← or_raise (StoreNotFound id) row; k row) (Conn d None)
  = try_reraise (k j) _rollback (Conn d (Some d)).
Proof.
  rw /transaction. erewrite eval_bind; [|reflexivity]. rw /try_reraise. evals_select. rw Hj.
  by erewrite eval_bind; [|reflexivity].
Qed.

Lemma start_upload_from_created now :
  j_state j = J_CREATED ->
  exists d', constraints d' /\
    ((exists snap, start_upload id now (Conn d None) = (Ret snap, Conn d' None) /\ job_at d' id J_UPLOADING) \/
     (exists snap, start_upload id now (Conn d None) = (Raise (UploadDeadlineExpired snap), Conn d' None) /\
        job_at d' id J_INTERRUPTED)).
Proof.
  intros Hs. rw /start_upload on_row /try_reraise. rw Hs bool_decide_eq_true_2 //.
  erewrite eval_bind; [|reflexivity]. destruct (j_create_expires_at j <=? now).
  - destruct (last_update d d id (upload_not_started now) j) as [Hc' _]; [done..|].
    assert (job_at (set_job id (upload_not_started now) d) id J_INTERRUPTED) as Hat by by eapply set_job_at.
    destruct (snapshot_at _ _ _ Hat) as [snap Hsnap].
    eexists. split; [exact Hc'|]. right. exists snap. split; [|done].
    erewrite eval_bind; [|apply write_eval, Hc']. erewrite eval_bind; [|apply snapshot_eval, Hsnap]. reflexivity.
  - set (f := fun j => j <| j_state := J_UPLOADING |> <| j_revision := _ |> <| j_upload_started_at := _ |> <| j_updated_at := _ |>).
    destruct (last_update d d id f j) as [Hc' [snap E]]; [done..|]. exists (set_job id f d). split; [done|]. left.
    exists snap. rw E. split; [done|]. by eapply set_job_at.
Qed.

Lemma packaging_from_uploading count bytes started now :
  j_state j = J_UPLOADING ->
  exists d' snap, constraints d' /\ mark_packaging id count bytes started now (Conn d None) = (Ret snap, Conn d' None) /\
    job_at d' id J_PACKAGING.
Proof.
  intros Hs. rw /mark_packaging /_simple_job_transition on_row /try_reraise. cbv zeta. rw Hs.
  rw bool_decide_eq_true_2 //. erewrite eval_bind; [|reflexivity]. erewrite eval_bind; [|reflexivity].
  destruct (last_update d d id (fun j => j <| j_state := J_PACKAGING |> <| j_revision := j_revision j + 1 |>
    <| j_updated_at := now |> <| j_actual_file_count := Some count |> <| j_actual_total_bytes := Some bytes |>
    <| j_packaging_started_at := Some started |>) j) as [Hc' [snap E]]; [done..|].
  eexists _, snap. split; [exact Hc'|]. split; [by rw E|]. by eapply set_job_at.
Qed.

Lemma failure_recorded s code detail now :
  (s = J_INTERRUPTED /\ j_state j = J_UPLOADING) \/ (s = J_FAILED /\ j_state j = J_PACKAGING) ->
  exists d' snap, fail_pre_dispatch id s code detail now (Conn d None) = (Ret snap, Conn d' None) /\ job_at d' id s.
Proof.
  intros Hs. rw /fail_pre_dispatch. rw bool_decide_eq_true_2; [|by destruct Hs as [[-> _]|[-> _]]; decided].
  erewrite eval_bind; [|reflexivity]. rw on_row /try_reraise.
  assert (validate_job_transition (j_state j) s = Ret tt) as -> by by destruct Hs as [[-> ->]|[-> ->]].
  erewrite eval_bind; [|reflexivity].
  destruct (last_update d d id (fun j => j <| j_state := s |> <| j_revision := j_revision j + 1 |> <| j_updated_at := now |>
    <| j_terminal_at := Some now |> <| j_failure_code := Some code |> <| j_failure_detail := Some detail |>) j)
    as [Hc' [snap E]]; [done..|].
  eexists _, snap. split; [by rw E|]. by eapply set_job_at.
Qed.

Lemma insert_artifact_eval a row c :
  insert_artifact a row (Conn d c) = (Raise IntegrityError, Conn d c) \/
  insert_artifact a row (Conn d c) = (Ret tt, Conn (d <| artifacts := <[a := row]> (artifacts d) |>) c).
Proof.
  rw /insert_artifact. evals_select. destruct (negb _); [|by left].
  erewrite eval_bind; [|reflexivity]. rw /write /=. case_bool_decide; [by right|by left].
Qed.

(** The publication of the artifact succeeds, or its identity is taken. *)
Lemma publish_from_packaging a now :
  j_state j = J_PACKAGING ->
  (exists d' snap, publish_artifact id a now (Conn d None) = (Ret snap, Conn d' None) /\ job_at d' id J_READY) \/
  publish_artifact id a now (Conn d None) = (Raise IntegrityError, Conn d None).
Proof.
  intros Hs. destruct (publish_artifact id a now (Conn d None)) as [o c] eqn:E. symmetry in E.
  rw /publish_artifact on_row /try_reraise in E. rw Hs bool_decide_eq_true_2 // in E.
  erewrite eval_bind in E; [|reflexivity].
  destruct (insert_artifact_eval (artifact_id a) (ArtifactRow (storage_name a) (display_filename a) (byte_size a)
    (sha256 a) (entry_count a) now) (Some d)) as [Ei|Ei].
  { right. rw {1}/mbind /M_bind Ei in E. exact E. }
  erewrite eval_bind in E; [|exact Ei]. set (d1 := d <| artifacts := _ |>) in E.
  set (f := fun j : job_row => j <| j_state := J_READY |> <| j_artifact_id := _ |> <| j_ready_at := _ |>
    <| j_revision := _ |> <| j_updated_at := _ |>) in E.
  destruct (decide (constraints (set_job id f d1))) as [Hc'|Hn].
  - left. assert (job_at (set_job id f d1) id J_READY) as Hat by by eapply (set_job_at d1 id f j).
    destruct (snapshot_at _ _ _ Hat) as [snap Hsnap]. exists (set_job id f d1), snap.
    erewrite eval_bind in E; [|apply write_eval, Hc']. erewrite eval_bind in E; [|apply snapshot_eval, Hsnap]. by split.
  - right. rw {1}/mbind /M_bind {1}/update_job {1}/write in E. cbn [data] in E.
    change (d1 <| jobs := alter f id (jobs d1) |>) with (set_job id f d1) in E. rw bool_decide_eq_false_2 // in E.
Qed.
End Operations.

(** ** The handler *)

(** An exception that is neither a cancellation nor an answer of the store. *)
Definition input_error (e : failure) : bool := is_exception e && negb (store_conflict e || store_not_found e).
Definition input_errors_only {A} (o : outcome failure A) : Prop :=
  match o with Ret _ => True | Raise e => input_error e = true end.
(** What reading the request can raise. *)
Definition readable (multipart : outcome failure reader) : Prop :=
  input_errors_only multipart /\
  forall parts, multipart = Ret parts -> Forall (fun o => input_errors_only o /\
    forall p, o = Ret p -> Forall input_errors_only (part_chunks p)) parts.

(** How a task ends: its answer or exception, and the state. *)
Definition ends {A} (m : Task A) (P : outcome failure A -> live -> Prop) (s : live) : Prop := P (m s).1 (m s).2.

Lemma ends_bind {A B} (m : Task A) (f : A -> Task B) P s :
  ends m (fun o s1 => match o with Ret a => ends (f a) P s1 | Raise e => P (Raise e) s1 end) s -> ends (m ≫= f) P s.
Proof. rw /ends /mbind /M_bind. by destruct (m s) as [[a|e] s1]. Qed.
Lemma ends_ret {A} (a : A) (P : outcome failure A -> live -> Prop) s : P (Ret a) s -> ends (mret a) P s.
Proof. done. Qed.
Lemma ends_try_except {A} (m : Task A) h P s :
  ends m (fun o s1 => match o with
                      | Ret a => P (Ret a) s1
                      | Raise e => match h e with Some h' => ends h' P s1 | None => P (Raise e) s1 end
                      end) s -> ends (try_except m h) P s.
Proof. rw /ends /try_except. destruct (m s) as [[a|e] s1]; [done|]. simpl. by destruct (h e). Qed.
Lemma ends_finally {A} (m : Task A) c P s :
  ends m (fun o s1 => ends c (fun oc s2 => match oc with Ret _ => P o s2 | Raise e => P (Raise e) s2 end) s1) s ->
  ends (finally m c) P s.
Proof. rw /ends /finally. destruct (m s) as [o s1]. simpl. by destruct (c s1) as [[[]|e] s2]. Qed.
Lemma ends_mono {A} (m : Task A) (P Q : outcome failure A -> live -> Prop) s :
  ends m P s -> (forall o s', P o s' -> Q o s') -> ends m Q s.
Proof. intros H HPQ. by apply HPQ. Qed.

Section Handler.
Context {W : world} (Hn : uncancelled W) (Hq : quiet_tables W)
  (Hdisk : forall n e, disk_error n = Some e -> input_error e = true).

(** A task that leaves the tables alone and raises input errors only. *)
Definition inert {A} (m : Task A) : Prop :=
  forall s, ends m (fun o s' => canon s' = canon s /\ input_errors_only o) s.

Lemma inert_bind {A B} (m : Task A) (f : A -> Task B) : inert m -> (forall a, inert (f a)) -> inert (m ≫= f).
Proof.
  intros Hm Hf s. apply ends_bind. eapply ends_mono; [apply Hm|]. intros [a|e] s1 [Hc He]; [|done].
  eapply ends_mono; [apply Hf|]. intros o s2 [Hc2 Ho]. by rw Hc2.
Qed.
Lemma inert_ret {A} (a : A) : inert (mret a).
Proof. by intros s. Qed.
Lemma inert_raise {A} e : input_error e = true -> inert (raise e : Task A).
Proof. by intros He s. Qed.
Lemma inert_from {A} (o : outcome failure A) : input_errors_only o -> inert (from_outcome o).
Proof. destruct o; [intros _; apply inert_ret|apply inert_raise]. Qed.
Lemma inert_from_bind {A B} (o : outcome failure A) (f : A -> Task B) :
  input_errors_only o -> (forall a, o = Ret a -> inert (f a)) -> inert (from_outcome o ≫= f).
Proof. destruct o as [a|e]; [intros _ H s; by apply (H a)|by intros H _ s]. Qed.
Lemma inert_pause : inert pause.
Proof. intros s. rw /ends /pause Hn. split; [exact (quiet_others Hq s)|done]. Qed.
Lemma inert_to_thread : inert to_thread.
Proof.
  intros s. rw /to_thread /ends gets_then (quiet_pause_then Hn). destruct (disk_error (awaits s)) as [e|] eqn:E.
  - split; [exact (quiet_others Hq s)|by eapply Hdisk].
  - split; [exact (quiet_others Hq s)|done].
Qed.
Lemma inert_finally {A} (m : Task A) c : inert m -> inert c -> inert (finally m c).
Proof.
  intros Hm Hc s. apply ends_finally. eapply ends_mono; [apply Hm|]. intros o s1 [H1 Ho].
  eapply ends_mono; [apply Hc|]. intros oc s2 [H2 Hoc]. rw H2. by destruct oc.
Qed.
Lemma inert_publish snap : inert (publish snap).
Proof. intros s. rw /ends /publish look_then. by destruct (_ <=? _). Qed.
Lemma inert_wake : inert wake_scheduler.
Proof. intros s. rw /ends /wake_scheduler look_then. by destruct (has_scheduler _). Qed.

Ltac inert_step := first
  [ apply inert_ret | apply inert_pause | apply inert_to_thread | apply inert_publish | apply inert_wake
  | apply inert_finally | apply inert_bind; [|intros ?] | (apply inert_raise; reflexivity) | (apply inert_from; done) ].

Lemma inert_skip chunks : Forall input_errors_only chunks -> inert (skip_chunks chunks).
Proof. induction 1 as [|c chunks Hc _ IH]; cbn [skip_chunks]; repeat inert_step. exact IH. Qed.
Lemma inert_store chunks total : Forall input_errors_only chunks -> inert (store_chunks chunks total).
Proof.
  intros H. induction H as [|c chunks Hc _ IH] in total |- *; cbn [store_chunks]; repeat inert_step.
  cbv zeta. destruct (_ <? _); repeat inert_step. apply IH.
Qed.
Lemma inert_part st p : Forall input_errors_only (part_chunks p) -> inert (receive_part st p).
Proof.
  intros Hp. rw /receive_part. destruct (negb _); [repeat inert_step; by apply inert_skip|].
  apply inert_bind; [destruct (sanitize_relpath _); repeat inert_step|intros relative].
  destruct (is_os_metadata _); [repeat inert_step; by apply inert_skip|].
  case_bool_decide; [repeat inert_step|]. destruct (_ <? _); [repeat inert_step|].
  rw /store_file. repeat inert_step. by apply inert_store.
Qed.
Lemma inert_receive parts st :
  Forall (fun o => input_errors_only o /\ forall p, o = Ret p -> Forall input_errors_only (part_chunks p)) parts ->
  inert (receive parts st).
Proof.
  intros H. induction H as [|o parts [Ho Hp] _ IH] in st |- *; cbn [receive].
  - repeat inert_step.
  - apply inert_bind; [apply inert_pause|intros _]. apply inert_from_bind; [done|]. intros p Hop.
    apply inert_bind; [by apply inert_part, Hp|done].
Qed.

(** *** The record of a failure *)

Definition tables (d : db) (s : live) : Prop := canon s = Conn d None.

Lemma ends_inert {A} (m : Task A) d (P : outcome failure A -> live -> Prop) s :
  inert m -> tables d s -> (forall o s', tables d s' -> input_errors_only o -> P o s') -> ends m P s.
Proof. intros Hm Hd HP. eapply ends_mono; [apply Hm|]. intros o s' [Hc Ho]. apply HP; [by rw /tables Hc|done]. Qed.
Lemma ends_call {A} (op : Z -> Op A) d (P : outcome failure A -> live -> Prop) s :
  tables d s ->
  (forall n s', match op n (Conn d None) with
                | (Ret a, t) => canon s' = t -> P (Ret a) s'
                | (Raise e, t) => canon s' = t -> P (Raise (Database e)) s'
                end) -> ends (call op) P s.
Proof.
  intros Hd HP. rw /ends /call Hn. rw (quiet_others Hq) Hd. specialize (HP (clock (reads (others s)))).
  destruct (op _ (Conn d None)) as [[a|e] t]; apply HP; by rw (quiet_others Hq).
Qed.

Lemma ends_publish snap d (P : outcome failure unit -> live -> Prop) s :
  tables d s -> (forall s', tables d s' -> P (Ret tt) s') -> ends (publish snap) P s.
Proof. intros Hd HP. rw /ends /publish look_then. by destruct (_ <=? _); apply HP. Qed.
Lemma ends_wake d (P : outcome failure unit -> live -> Prop) s :
  tables d s -> (forall s', tables d s' -> P (Ret tt) s') -> ends wake_scheduler P s.
Proof. intros Hd HP. rw /ends /wake_scheduler look_then. by destruct (has_scheduler _); apply HP. Qed.
Lemma ends_pause d (P : outcome failure unit -> live -> Prop) s :
  tables d s -> (forall s', tables d s' -> P (Ret tt) s') -> ends pause P s.
Proof. intros Hd HP. rw /ends /pause Hn. apply HP. by rw /tables (quiet_others Hq). Qed.

Lemma failure_settles id s code detail d j (P : outcome failure unit -> live -> Prop) st :
  tables d st -> constraints d -> jobs d !! id = Some j ->
  (s = J_INTERRUPTED /\ j_state j = J_UPLOADING) \/ (s = J_FAILED /\ j_state j = J_PACKAGING) ->
  (forall d' s', tables d' s' -> job_at d' id s -> P (Ret tt) s') ->
  ends (_record_upload_failure id s code detail) P st.
Proof.
  intros Hd Hc Hj Hs HP. rw /_record_upload_failure. apply ends_finally, ends_try_except, ends_bind.
  eapply ends_call; [exact Hd|]. intros n s1.
  destruct (failure_recorded d id j Hc Hj s code (take MAX_FAILURE_DETAIL detail) n Hs) as (d' & snap & E & Hat).
  rw E. intros Hs1. eapply ends_publish; [exact Hs1|]. intros s2 Hs2.
  eapply ends_wake; [exact Hs2|]. intros s3 Hs3. by apply (HP d').
Qed.

(** An input error during the upload is recorded and answered. *)
Lemma error_settles id (packaging : bool) e d j (P : outcome failure reply -> live -> Prop) st :
  tables d st -> constraints d -> jobs d !! id = Some j -> input_error e = true ->
  j_state j = (if packaging then J_PACKAGING else J_UPLOADING) ->
  (forall d' s' status msg, tables d' s' -> job_at d' id (if packaging then J_FAILED else J_INTERRUPTED) ->
     P (Ret (Refused status msg)) s') ->
  ends (upload_failed id packaging e) P st.
Proof.
  intros Hd Hc Hj He Hs HP.
  assert (forall code detail status msg, ends
    (_record_upload_failure id (if packaging then J_FAILED else J_INTERRUPTED) code detail ;; pause ;;
     mret (Refused status msg)) P st) as Hrec.
  { intros code detail status msg. apply ends_bind. eapply failure_settles; [done..| |].
    - destruct packaging; [by right|by left].
    - intros d' s1 Hs1 Hat. apply ends_bind. eapply ends_pause; [exact Hs1|]. intros s2 Hs2.
      by apply (HP d'). }
  rw /upload_failed. destruct e as [[]| | | | | | | | | |]; try done; apply Hrec.
Qed.

(** *** The two phases *)

Lemma reception_ends id multipart d j (P : outcome failure (snapshot * received) -> live -> Prop) s :
  readable multipart -> tables d s -> constraints d -> jobs d !! id = Some j -> j_state j = J_CREATED ->
  (forall d' s' r, tables d' s' -> constraints d' -> job_at d' id J_PACKAGING -> P (Ret r) s') ->
  (forall d' s' snap, tables d' s' -> job_at d' id J_INTERRUPTED -> P (Raise (Database (UploadDeadlineExpired snap))) s') ->
  (forall d' s' e, tables d' s' -> constraints d' -> job_at d' id J_UPLOADING -> input_error e = true -> P (Raise e) s') ->
  ends (receive_upload id multipart) P s.
Proof.
  intros [Hm Hparts] Hd Hc Hj Hs HP Hexp Herr. rw /receive_upload. apply ends_bind. eapply ends_call; [exact Hd|].
  intros n s1. destruct (start_upload_from_created d id j Hc Hj n Hs) as (d1 & Hc1 & [(snap & -> & Hat)|(snap & -> & Hat)]);
    intros Hs1; [|by apply (Hexp d1)].
  apply ends_bind. eapply ends_publish; [exact Hs1|]. intros s2 Hs2.
  apply ends_bind. eapply ends_pause; [exact Hs2|]. intros s3 Hs3.
  destruct multipart as [parts|e]; [|by apply (Herr d1)]. cbn [from_outcome].
  apply ends_bind, ends_ret. cbv beta iota.
  apply ends_bind. eapply ends_inert; [apply inert_to_thread|exact Hs3|]. intros [[]|e] s4 Hs4 He; [|by apply (Herr d1)].
  apply ends_bind. eapply ends_inert; [by apply inert_receive, Hparts|exact Hs4|].
  intros [st|e] s5 Hs5 He5; [|by apply (Herr d1)]. destruct (actual_count st =? 0); [by apply (Herr d1)|].
  apply ends_bind. change (tables d1 (now_ms s5).2) in Hs5. apply ends_bind. eapply ends_call; [exact Hs5|]. intros n2 s6.
  destruct Hat as (j1 & Hj1 & Hat).
  destruct (packaging_from_uploading d1 id j1 Hc1 Hj1 (actual_count st) (actual_bytes st) (clock (reads s5)) n2 Hat)
    as (d2 & snap2 & Hc2 & E & Hat2). rw E. intros Hs6. by apply (HP d2).
Qed.

Lemma packaging_ends artifact_uuid archive id snap st d j (P : outcome failure snapshot -> live -> Prop) s :
  tables d s -> constraints d -> jobs d !! id = Some j -> j_state j = J_PACKAGING ->
  (forall d' s' r, tables d' s' -> job_at d' id J_READY -> P (Ret r) s') ->
  (forall s' e, tables d s' -> input_error e = true -> P (Raise e) s') ->
  ends (package artifact_uuid archive id snap st) P s.
Proof.
  intros Hd Hc Hj Hs HP Herr. rw /package. apply ends_bind. eapply ends_publish; [exact Hd|]. intros s1 Hs1.
  apply ends_bind. rw /_package_and_publish. apply ends_bind.
  eapply ends_inert; [apply inert_to_thread|exact Hs1|]. intros [[]|e] s2 Hs2 He; [|by apply Herr].
  apply ends_ret, ends_bind. eapply ends_call; [exact Hs2|]. intros n s3.
  cbv zeta. match goal with |- context [publish_artifact id ?x n] => set (a := x) end.
  destruct (publish_from_packaging d id j Hj a n Hs) as [(d' & ready & -> & Hat)| ->]; intros Hs3; [|by apply Herr].
  apply ends_bind. eapply ends_publish; [exact Hs3|]. intros s4 Hs4.
  apply ends_bind. eapply ends_pause; [exact Hs4|]. intros s5 Hs5. apply ends_ret. by apply (HP d').
Qed.
End Handler.

(** The states an upload can end in. *)
Definition settled_upload (r : reply) (d : db) (id : pystr) : Prop :=
  match r with
  | Accepted _ => job_at d id J_READY
  | _ => job_at d id J_INTERRUPTED \/ job_at d id J_FAILED
  end.


(** A job is created and its bundle uploaded: a folder with a file, and what the system of
    the administrator's computer left in it. *)
Definition created_db : db := run_all (take 1 upload_calls) initial_db.
Definition sample_upload : outcome failure reader :=
  Ret [Ret (Part (Some (u "files")) (Some (u "show\clip.mp4")) [Ret 6; Ret 4]);
       Ret (Part (Some (u "files")) (Some (u "show/.DS_Store")) [Ret 3]);
       Ret (Part (Some (u "note")) None [])].
Definition sample_archive : option pystr -> Z * pystr := fun _ => (128, u "digest").
Definition created_live : live := Live (Conn created_db None) sample_ram 0 0.
Abbreviation sample_handler :=
  (@upload_handler quiet_world (u "artifact-1") sample_archive (u "job-1") sample_upload created_live).

Lemma reachable_created_db : reachable created_db.
Proof. apply run_all_steps; [apply initial_invariant|]. by repeat split. Qed.
Lemma sample_readable : readable sample_upload.
Proof.
  split; [done|]. intros parts [= <-]. apply Forall_forall. intros o Ho.
  repeat (apply elem_of_cons in Ho as [->|Ho]; [split; [done|]; intros p [= <-]; repeat constructor|]).
  by apply elem_of_nil in Ho.
Qed.
Lemma quiet_disk : forall n e, @disk_error quiet_world n = Some e -> input_error e = true.
Proof. intros n e. discriminate. Qed.


(** C39: What an accepted upload packages is within the server's limits: at least one file
    and at most [MAX_BUNDLE_ENTRIES], at most [MAX_BUNDLE_SIZE] bytes, under paths that
    are pairwise different, stay inside the upload's directory and name no OS metadata,
    whatever the request says and whatever the other tasks and the file system do. *)
Theorem accepted_uploads_are_bounded (W : world) artifact_uuid archive job_id multipart s ready s' :
  upload_handler artifact_uuid archive job_id multipart s = (Ret (Accepted ready), s') ->
  exists snap st s1, receive_upload job_id multipart s = (Ret (snap, st), s1) /\
    within_limits st /\ 0 < actual_count st.
Proof.
  rw /upload_handler. intros (arrived & s1 & Ha & H)%task_bind_ret. destruct arrived as [[snap st]|r].
  - exists snap, st. rw /try_except in Ha.
    destruct ((r ← receive_upload job_id multipart; mret (Ret r)) s) as [[o|e] s2] eqn:E.
    + injection Ha as -> ->. apply task_bind_ret in E as (r & s3 & Hr & [= -> ->]).
      exists s1. split; [done|]. by eapply upload_limits.
    + apply task_bind_ret in Ha as (r & s3 & _ & [=]).
  - injection H as -> ->. rw /try_except in Ha. exfalso.
    destruct ((r ← receive_upload job_id multipart; mret (Ret r)) s) as [[o|e] s2] eqn:E.
    + injection Ha as -> ->. by apply task_bind_ret in E as (r & s3 & Hr & [=]).
    + apply task_bind_ret in Ha as (r & s3 & Hf & [= ->]).
      by eapply failed_not_accepted.
Qed.
Lemma accepted_uploads_are_bounded_witness :
  exists ready s', sample_handler = (Ret (Accepted ready), s') /\
    exists snap st s1, @receive_upload quiet_world (u "job-1") sample_upload created_live = (Ret (snap, st), s1) /\
      within_limits st /\ 0 < actual_count st.
Proof.
  destruct sample_handler as [[[ready| |]|e] s'] eqn:E.
  1: exists ready, s'; split; [reflexivity|]; exact (accepted_uploads_are_bounded quiet_world _ _ _ _ _ _ _ E).
  all: exfalso; apply (f_equal (fun x => match x.1 with Ret (Accepted _) => true | _ => false end)) in E;
    vm_compute in E; discriminate E.
Defined.
