(* ===== verification/Consoles.v ===== *)
(** * The consoles' sockets (server.py)

    [_broadcast_admin_message] sends a message to all consoles at once: one [send_one] task
    per console, which takes the console's lock, looks whether the console is still
    connected, and sends under a time-out.  Many broadcasts, the handlers of the consoles
    ([admin_ws_handler]) and the runtime ([_close_failed_admin_socket]) share
    [admin_connections] and [_admin_send_locks].  A step is what one task does between two
    awaits; Fleet.v sees a broadcast as one message to all.

    An [asyncio.Lock] serves its waiters in the order of their requests, and tasks that
    [gather] creates start in the order of their creation.  The tasks of a fan-out are
    shielded: they are not cancelled. *)

From stdpp Require Import relations.
From S2P Require Import Prelude PyStr Json.
Open Scope Z_scope.

(** ** State *)

(** A [send_one] task: its console, the message, the fan-out that waits for it. *)
Record send_one := SendOne { to : N; message : json; fan : nat }.
(** A lock: the tasks that asked for it; [locked] when the first of them has it. *)
Record lock := Lock { locked : bool; waiters : list send_one }.
(** The task that broadcasts waits for the fan-out; when it is cancelled it waits again
    and raises afterwards. *)
Inductive caller := Awaiting | AwaitingCancelled | Returned | RaisedCancelled.
Record fanout := Fanout { f_message : json; f_consoles : list N; f_caller : caller }.

(** What [admin_ws_handler] sends first, by number, and the broadcasts. *)
Inductive said := Greeting (n : nat) | News (m : json).
(** The handler has sent [n] of its greetings, reads frames, or has ended. *)
Inductive stage := Greets (n : nat) | Reads | Ended.

Record hall := Hall {
  admin_connections : gset N;
  _admin_send_locks : gmap N nat;
  locks : list lock;
  created : list send_one;
  closing : list send_one;
  fanouts : list fanout;
  handlers : gmap N stage;
  log : list (N * said);
}.
#[export] Instance eta_lock : Settable lock := fun r => Lock (locked r) (waiters r).
#[export] Instance eta_fanout : Settable fanout := fun r => Fanout (f_message r) (f_consoles r) (f_caller r).
#[export] Instance eta_hall : Settable hall := fun r =>
  Hall (admin_connections r) (_admin_send_locks r) (locks r) (created r) (closing r) (fanouts r) (handlers r) (log r).

Definition empty_hall : hall := Hall ∅ ∅ [] [] [] [] ∅ [].

(** ** The fan-out *)

(** [admin_connections.discard(ws)], [_admin_send_locks.pop(ws, None)]. *)
Definition drop_console (ws : N) (h : hall) : hall :=
  h <| admin_connections := admin_connections h ∖ {[ws]} |>
    <| _admin_send_locks := delete ws (_admin_send_locks h) |>.
Definition say (ws : N) (what : said) (h : hall) : hall := h <| log := log h ++ [(ws, what)] |>.

(** [tuple(admin_connections)] lists the set in an order of its own; without a console
    nothing is created. *)
Definition _broadcast_admin_message (connections : list N) (m : json) (h : hall) : option hall :=
  if negb (bool_decide (connections ≡ₚ elements (admin_connections h))) then None
  else match connections with
       | [] => Some h
       | _ =>
           let n := length (fanouts h) in
           Some (h <| created := created h ++ ((fun ws => SendOne ws m n) <$> connections) |>
                   <| fanouts := fanouts h ++ [Fanout m connections Awaiting] |>)
       end.

(** The next task starts: [setdefault(ws, asyncio.Lock())], and it asks for the lock. *)
Definition start_task (h : hall) : option hall :=
  match created h with
  | [] => None
  | s :: rest =>
      let h := h <| created := rest |> in
      match _admin_send_locks h !! to s with
      | Some l => Some (h <| locks := alter (fun k => k <| waiters := waiters k ++ [s] |>) l (locks h) |>)
      | None =>
          Some (h <| _admin_send_locks := <[to s := length (locks h)]> (_admin_send_locks h) |>
                  <| locks := locks h ++ [Lock false [s]] |>)
      end
  end.

(** The first waiter gets the lock: the console is gone, or the send begins. *)
Definition enter_lock (l : nat) (h : hall) : option hall :=
  match locks h !! l with
  | Some (Lock false (s :: rest)) =>
      Some (h <| locks := <[l := if bool_decide (to s ∈ admin_connections h) then Lock true (s :: rest)
                                 else Lock false rest]> (locks h) |>)
  | _ => None
  end.

(** The send ends well, or raises, or takes too long, whether the frame has left or not;
    then the lock is released, the console is dropped and its socket is closed. *)
Inductive send_end := Arrives | Fails (arrived : bool).
Definition end_send (l : nat) (e : send_end) (h : hall) : option hall :=
  match locks h !! l with
  | Some (Lock true (s :: rest)) =>
      let h := h <| locks := <[l := Lock false rest]> (locks h) |> in
      Some match e with
           | Arrives => say (to s) (News (message s)) h
           | Fails arrived =>
               let h := if arrived : bool then say (to s) (News (message s)) h else h in
               drop_console (to s) h <| closing := closing h ++ [s] |>
           end
  | _ => None
  end.
(** [ws.close] ends, its exceptions are logged. *)
Definition end_close (i : nat) (h : hall) : option hall :=
  match closing h !! i with
  | Some _ => Some (h <| closing := list_delete i (closing h) |>)
  | None => None
  end.

(** The tasks of a fan-out that are not done. *)
Definition unfinished (h : hall) : list send_one := created h ++ flat_map waiters (locks h) ++ closing h.
Definition fan_done (n : nat) (h : hall) : bool := forallb (fun s => negb (Nat.eqb (fan s) n)) (unfinished h).

(** [await asyncio.shield(fanout)] ends, or its task is cancelled; a second cancellation is
    not caught. *)
Definition resume_caller (n : nat) (h : hall) : option hall :=
  if negb (fan_done n h) then None
  else match fanouts h !! n with
       | Some (Fanout m c Awaiting) => Some (h <| fanouts := <[n := Fanout m c Returned]> (fanouts h) |>)
       | Some (Fanout m c AwaitingCancelled) => Some (h <| fanouts := <[n := Fanout m c RaisedCancelled]> (fanouts h) |>)
       | _ => None
       end.
Definition cancel_caller (n : nat) (h : hall) : option hall :=
  match fanouts h !! n with
  | Some (Fanout m c Awaiting) => Some (h <| fanouts := <[n := Fanout m c AwaitingCancelled]> (fanouts h) |>)
  | Some (Fanout m c AwaitingCancelled) => Some (h <| fanouts := <[n := Fanout m c RaisedCancelled]> (fanouts h) |>)
  | _ => None
  end.

(** ** [admin_ws_handler] *)

(** A socket is a new object for each request. *)
Definition connect (ws : N) (h : hall) : option hall :=
  match handlers h !! ws with
  | None => Some (h <| admin_connections := {[ws]} ∪ admin_connections h |> <| handlers := <[ws := Greets 0]> (handlers h) |>)
  | Some _ => None
  end.

(** SERVER_INFO, the client APK, the device list, the provisional connections, the groups.
    [ConnectionResetError] is handled; another exception leaves the handler, whose
    [try ... finally] has not begun. *)
Definition greetings : nat := 5.
Inductive greeting_end := Sent | Reset | Raises.
Definition greet (ws : N) (e : greeting_end) (h : hall) : option hall :=
  match handlers h !! ws with
  | Some (Greets n) =>
      Some match e with
           | Sent =>
               say ws (Greeting n) h <| handlers :=
                 <[ws := if bool_decide (S n < greetings)%nat then Greets (S n) else Reads]> (handlers h) |>
           | Reset => drop_console ws (h <| handlers := <[ws := Ended]> (handlers h) |>)
           | Raises => h <| handlers := <[ws := Ended]> (handlers h) |>
           end
  | _ => None
  end.

(** The frames end, or a frame's handler raises: the [finally] clause. *)
Definition leave (ws : N) (h : hall) : option hall :=
  match handlers h !! ws with
  | Some Reads => Some (drop_console ws (h <| handlers := <[ws := Ended]> (handlers h) |>))
  | _ => None
  end.

(** ** Runs *)

Inductive event :=
  | Broadcast (connections : list N) (m : json)
  | TaskStarts
  | LockGranted (l : nat)
  | SendEnds (l : nat) (e : send_end)
  | CloseEnds (i : nat)
  | CallerResumes (n : nat)
  | CallerCancelled (n : nat)
  | Connects (ws : N)
  | Greeted (ws : N) (e : greeting_end)
  | Leaves (ws : N)
  | RuntimeCloses (ws : N).

Definition occurs (e : event) (h : hall) : option hall :=
  match e with
  | Broadcast connections m => _broadcast_admin_message connections m h
  | TaskStarts => start_task h
  | LockGranted l => enter_lock l h
  | SendEnds l e => end_send l e h
  | CloseEnds i => end_close i h
  | CallerResumes n => resume_caller n h
  | CallerCancelled n => cancel_caller n h
  | Connects ws => connect ws h
  | Greeted ws e => greet ws e h
  | Leaves ws => leave ws h
  | RuntimeCloses ws => Some (drop_console ws h)
  end.
Fixpoint plays (es : list event) (h : hall) : option hall :=
  match es with
  | [] => Some h
  | e :: es => h ← occurs e h; plays es h
  end.

Definition step (h h' : hall) : Prop := exists e, occurs e h = Some h'.
Definition hall_reachable (h : hall) : Prop := rtc step empty_hall h.

(** What the tasks of fan-outs and their callers do by themselves. *)
Definition own_work (e : event) : bool :=
  match e with
  | TaskStarts | LockGranted _ | SendEnds _ _ | CloseEnds _ | CallerResumes _ => true
  | _ => false
  end.
Definition fan_work (h h' : hall) : Prop := exists e, own_work e = true /\ occurs e h = Some h'.

(** The broadcasts a console has heard, and those made while it was connected. *)
Definition news_for (ws : N) (entry : N * said) : option json :=
  match entry with (x, News m) => if N.eqb x ws then Some m else None | _ => None end.
Definition heard (ws : N) (h : hall) : list json := omap (news_for ws) (log h).
Definition includes (ws : N) (f : fanout) : option json :=
  if bool_decide (ws ∈ f_consoles f) then Some (f_message f) else None.
Definition meant (ws : N) (h : hall) : list json := omap (includes ws) (fanouts h).

(** ** The order of broadcasts *)

Definition queue_of (l : nat) (h : hall) : list send_one :=
  match locks h !! l with Some k => waiters k | None => [] end.
Definition line (ws : N) (h : hall) : list send_one :=
  match _admin_send_locks h !! ws with Some l => queue_of l h | None => [] end.
Definition coming (ws : N) (h : hall) : list send_one := filter (fun s => to s = ws) (created h).
(** Its next waiter holds the lock. *)
Definition sending (l : nat) (s : send_one) (h : hall) : Prop :=
  exists q, locks h !! l = Some (Lock true (s :: q)).

(** A connected console has heard the broadcasts meant for it but those that wait in its
    one lock and those that have not started; what is being sent comes next. *)
Record hall_ok (h : hall) : Prop := {
  ok_index : forall ws l, _admin_send_locks h !! ws = Some l -> (l < length (locks h))%nat;
  ok_own : forall ws l s, _admin_send_locks h !! ws = Some l -> s ∈ queue_of l h -> to s = ws;
  ok_inj : forall ws ws' l, _admin_send_locks h !! ws = Some l -> _admin_send_locks h !! ws' = Some l -> ws = ws';
  ok_place : forall l s, s ∈ queue_of l h -> to s ∈ admin_connections h -> _admin_send_locks h !! to s = Some l;
  ok_hears : forall ws, ws ∈ admin_connections h ->
    heard ws h ++ (message <$> line ws h ++ coming ws h) = meant ws h;
  ok_sending : forall l s, sending l s h -> heard (to s) h ++ [message s] `prefix_of` meant (to s) h;
  ok_one : forall l l' s s', sending l s h -> sending l' s' h -> to s = to s' -> l = l';
  ok_prefix : forall ws, heard ws h `prefix_of` meant ws h;
  ok_locked : forall l, locks h !! l <> Some (Lock true []);
  ok_seen : forall s, s ∈ created h \/ (exists l, s ∈ queue_of l h) -> is_Some (handlers h !! to s);
  ok_fresh : forall ws, handlers h !! ws = None ->
    (ws ∉ admin_connections h) /\ _admin_send_locks h !! ws = None /\ heard ws h = [] /\ meant ws h = [];
}.

Lemma hall_ok_empty : hall_ok empty_hall.
Proof.
  split; try done; simpl.
  - by intros ? ? [].
  - by intros ? ? ? ? ? [].
  - intros s [?%elem_of_nil|[? ?%elem_of_nil]]; done.
Qed.

Lemma sending_queue l s h : sending l s h -> s ∈ queue_of l h.
Proof. intros [q E]. rw /queue_of E. left. Qed.
Lemma fresh_coming ws h : hall_ok h -> handlers h !! ws = None -> coming ws h = [].
Proof.
  intros Hok Hn. unfold coming. destruct (filter _ _) as [|s r] eqn:E; [done|].
  assert (s ∈ filter (fun s => to s = ws) (created h)) as [Ht Hs]%list_elem_of_filter by (rw E; left).
  destruct (ok_seen h Hok s (or_introl Hs)) as [x Hx]. congruence.
Qed.

(** Dropping a console forgets the only lock it would be served by. *)
Lemma dropped_ok ws h : hall_ok h -> hall_ok (drop_console ws h).
Proof.
  intros [Hi Ho Hj Hp Hh Hs H1 Hx Hl Hn Hf]. split; try done; simpl.
  - intros x l [_ E]%lookup_delete_Some. by eapply Hi.
  - intros x l s [_ E]%lookup_delete_Some. by apply Ho.
  - intros x y l [_ E]%lookup_delete_Some [_ E']%lookup_delete_Some. by eapply Hj.
  - intros l s Hs' [Hc Hd]%elem_of_difference. rw lookup_delete_ne; [by apply Hp|set_solver].
  - intros x [Hc Hd]%elem_of_difference. etrans; [|exact (Hh x Hc)]. unfold line. simpl. rw lookup_delete_ne; [done|set_solver].
  - intros x (Hc & Ha & Hr)%Hf. split_and!; [|  |by destruct Hr..]; [by intros [? _]%elem_of_difference|]. rw lookup_delete. by case_decide.
Qed.
Lemma handlers_ok hs h : hall_ok h -> (forall x, is_Some (handlers h !! x) -> is_Some (hs !! x)) ->
  hall_ok (h <| handlers := hs |>).
Proof.
  intros [Hi Ho Hj Hp Hh Hs H1 Hx Hl Hn Hf] Hm. split; try done; simpl; [by intros s ?%Hn%Hm|].
  intros ws Hws. apply Hf. destruct (handlers h !! ws) eqn:E; [|done].
  destruct (Hm ws) as [x Hx']; [by rw E|]. congruence.
Qed.
Lemma stage_ok ws v st h : hall_ok h -> handlers h !! ws = Some v -> hall_ok (h <| handlers := <[ws := st]> (handlers h) |>).
Proof. intros Hok Hv. apply handlers_ok; [done|]. intros x Hx. rw lookup_insert. by case_decide. Qed.
Lemma greeting_ok ws n h : hall_ok h -> hall_ok (say ws (Greeting n) h).
Proof.
  intros [Hi Ho Hj Hp Hh Hs H1 Hx Hl Hn Hf].
  assert (forall x, heard x (say ws (Greeting n) h) = heard x h) as E.
  { intros x. unfold heard. simpl. by rw omap_app app_nil_r. }
  split; [exact Hi|exact Ho|exact Hj|exact Hp| | |exact H1| |exact Hl|exact Hn|].
  - intros x Hc. rw E. by apply Hh.
  - intros l s Hls. rw E. by apply Hs with l.
  - intros x. rw E. apply Hx.
  - intros x Hc. rw E. by apply Hf.
Qed.

(** A broadcast creates one task for every connected console. *)
Lemma filter_fan ws l m n : NoDup l ->
  filter (fun s => to s = ws) ((fun x => SendOne x m n) <$> l) = if bool_decide (ws ∈ l) then [SendOne ws m n] else [].
Proof.
  induction 1 as [|x l Hx Hl IH]; [done|]. csimpl. rw filter_cons /= IH.
  destruct (decide (x = ws)) as [->|Hd].
  - rw bool_decide_eq_false_2 // bool_decide_eq_true_2 //. left.
  - apply f_equal with (f := fun b : bool => if b then _ else _), bool_decide_ext.
    rw elem_of_cons. split; [by right|]. by intros [->|?].
Qed.
Lemma broadcast_ok connections m h h' : hall_ok h -> _broadcast_admin_message connections m h = Some h' -> hall_ok h'.
Proof.
  intros Hok. rw /_broadcast_admin_message. case_bool_decide as Hp; [simpl|done].
  destruct (decide (connections = [])) as [->|Hne]; [by intros [= <-]|].
  assert (forall x, x ∈ connections <-> x ∈ admin_connections h) as Hin by (intros x; rw Hp; apply elem_of_elements).
  assert (NoDup connections) as Hnd by (rw Hp; apply NoDup_elements).
  intros E. replace h' with (h <| created := created h ++ ((fun ws => SendOne ws m (length (fanouts h))) <$> connections) |>
                              <| fanouts := fanouts h ++ [Fanout m connections Awaiting] |>) by (by destruct connections; injection E).
  destruct Hok as [Hi Ho Hj Hpl Hh Hs H1 Hx Hl Hn Hf].
  set (h1 := _ <| fanouts := _ |>).
  assert (forall x, meant x h1 = meant x h ++ if bool_decide (x ∈ connections) then [m] else []) as Em.
  { intros x. unfold meant. subst h1. simpl. rw omap_app /= /includes /=. by case_bool_decide. }
  assert (forall x, coming x h1 = coming x h ++ if bool_decide (x ∈ connections) then [SendOne x m (length (fanouts h))] else []) as Ec.
  { intros x. unfold coming. subst h1. simpl. rw filter_app filter_fan //. }
  split; [exact Hi|exact Ho|exact Hj|exact Hpl| | |exact H1| |exact Hl| |].
  - intros x Hc. rw Em Ec. rw bool_decide_eq_true_2; [|by apply Hin].
    change (heard x h1) with (heard x h). change (line x h1) with (line x h).
    rw -(Hh x Hc) !app_assoc !fmap_app !app_assoc. done.
  - intros l s Hls. rw Em. apply prefix_app_r. by apply Hs with l.
  - intros x. rw Em. apply prefix_app_r, Hx.
  - intros s [Hs'|Hq]; [|by apply Hn; right].
    apply elem_of_app in Hs' as [Hs'|(x & -> & Hc)%list_elem_of_fmap]; [by apply Hn; left|]. simpl.
    destruct (handlers h !! x) eqn:Ex; [by eexists|]. apply Hf in Ex as [Ex ?]. by apply Hin in Hc.
  - intros x Hc. destruct (Hf x Hc) as (Hd & Ha & Hr & Hm). split_and!; [done..|].
    rw Em Hm bool_decide_eq_false_2 //. by rw Hin.
Qed.

(** A caller's wait changes nothing for the consoles. *)
Lemma meant_caller ws n (l : list fanout) m c a b : l !! n = Some (Fanout m c a) ->
  omap (includes ws) (<[n := Fanout m c b]> l) = omap (includes ws) l.
Proof.
  induction l as [|f l IH] in n |- *; [done|]. destruct n as [|n]; [by intros [= ->]|].
  intros Hl. change (<[S n := Fanout m c b]> (f :: l)) with (f :: <[n := Fanout m c b]> l). csimpl. by rw (IH n Hl).
Qed.
Lemma caller_ok n m c a b h : hall_ok h -> fanouts h !! n = Some (Fanout m c a) ->
  hall_ok (h <| fanouts := <[n := Fanout m c b]> (fanouts h) |>).
Proof.
  intros [Hi Ho Hj Hpl Hh Hs H1 Hx Hl Hn Hf] En. set (h1 := _ <| fanouts := _ |>).
  assert (forall x, meant x h1 = meant x h) as Em by (intros x; by apply meant_caller with a).
  split; [exact Hi|exact Ho|exact Hj|exact Hpl| | |exact H1| |exact Hl|exact Hn|].
  - intros x Hc. rw Em. by apply Hh.
  - intros l s Hls. rw Em. by apply Hs with l.
  - intros x. rw Em. apply Hx.
  - intros x Hc. rw Em. by apply Hf.
Qed.
Lemma resume_ok n h h' : hall_ok h -> resume_caller n h = Some h' -> hall_ok h'.
Proof.
  intros Hok. rw /resume_caller. destruct (fan_done n h); [|done]. simpl.
  destruct (fanouts h !! n) as [[m c []]|] eqn:E; intros [= <-]; by eapply caller_ok.
Qed.
Lemma cancel_ok n h h' : hall_ok h -> cancel_caller n h = Some h' -> hall_ok h'.
Proof.
  intros Hok. rw /cancel_caller.
  destruct (fanouts h !! n) as [[m c []]|] eqn:E; intros [= <-]; by eapply caller_ok.
Qed.
Lemma connect_ok ws h h' : hall_ok h -> connect ws h = Some h' -> hall_ok h'.
Proof.
  intros Hok. rw /connect. destruct (handlers h !! ws) eqn:E; [done|]. intros [= <-].
  pose proof (fresh_coming ws h Hok E) as Ec.
  assert (forall l s, s ∈ queue_of l h -> to s <> ws) as Hq.
  { intros l s Hs Hw. destruct (ok_seen h Hok s) as [x Hx]; [right; by exists l|]. congruence. }
  destruct Hok as [Hi Ho Hj Hpl Hh Hs H1 Hx Hl Hn Hf]. destruct (Hf ws E) as (Hc & Ha & Hr & Hm).
  split; [exact Hi|exact Ho|exact Hj| | |exact Hs|exact H1|exact Hx|exact Hl| |]; simpl.
  - intros l s Hl' [?%elem_of_singleton|Hin]%elem_of_union; [by apply Hq in Hl'|by apply Hpl].
  - intros x [->%elem_of_singleton|Hin]%elem_of_union; [|by apply Hh].
    change (heard ws h ++ (message <$> line ws h ++ coming ws h) = meant ws h). by rw Hr Hm Ec /line Ha.
  - intros s Hs'. rw lookup_insert. case_decide; [by eexists|]. by apply Hn.
  - intros x. rw lookup_insert. case_decide as Ex; [done|]. intros (? & ? & ? & ?)%Hf. split_and!; [by intros [?%elem_of_singleton|?]%elem_of_union|done..].
Qed.

(** A task that starts is the last in the console's line. *)
Lemma queue_alter s l l' h : (l < length (locks h))%nat ->
  queue_of l' (h <| locks := alter (fun k => k <| waiters := waiters k ++ [s] |>) l (locks h) |>) =
  if bool_decide (l' = l) then queue_of l h ++ [s] else queue_of l' h.
Proof.
  intros [k Ek]%lookup_lt_is_Some. rw /queue_of /=. case_bool_decide as E.
  - rw E list_lookup_alter_eq. by rw Ek.
  - by rw list_lookup_alter_ne.
Qed.
Lemma queue_snoc s l h : queue_of l (h <| locks := locks h ++ [Lock false [s]] |>) =
  if bool_decide (l = length (locks h)) then [s] else queue_of l h.
Proof.
  rw /queue_of /=. case_bool_decide as E; [by rw E list_lookup_middle|].
  destruct (decide (l < length (locks h)))%nat as [Hl|Hl]; [by rw lookup_app_l|].
  rw !lookup_ge_None_2 //; rw ?length_app /=; lia.
Qed.

(** The task [s] has joined lock [l]. *)
Record joined (s : send_one) (l : nat) (rest : list send_one) (h h' : hall) : Prop := {
  j_created : created h = s :: rest /\ created h' = rest;
  j_here : _admin_send_locks h' !! to s = Some l;
  j_before : forall l', _admin_send_locks h !! to s = Some l' -> l' = l;
  j_there : forall x, x <> to s -> _admin_send_locks h' !! x = _admin_send_locks h !! x;
  j_alone : forall x, _admin_send_locks h !! x = Some l -> x = to s;
  j_line : line (to s) h = queue_of l h;
  j_queue : forall l', queue_of l' h' = if bool_decide (l' = l) then queue_of l h ++ [s] else queue_of l' h;
  j_index : (l < length (locks h'))%nat /\ (length (locks h) <= length (locks h'))%nat;
  j_sending : forall l' s', sending l' s' h' -> sending l' s' h;
  j_locked : forall l', locks h' !! l' <> Some (Lock true []);
  j_own : forall s', s' ∈ queue_of l h -> to s' = to s;
  j_rest : admin_connections h' = admin_connections h /\ fanouts h' = fanouts h /\ handlers h' = handlers h /\ log h' = log h;
}.
Lemma start_joined h h' : hall_ok h -> start_task h = Some h' -> exists s l rest, joined s l rest h h'.
Proof.
  intros Hok. rw /start_task. destruct (created h) as [|s rest] eqn:Ec; [done|]. simpl.
  destruct (_admin_send_locks h !! to s) as [l|] eqn:Es; intros [= <-]; destruct Hok as [Hi Ho Hj Hpl Hh Hs H1 Hx Hl Hn Hf].
  - exists s, l, rest. split; try done; simpl.
    + intros l' El. congruence.
    + intros x Ex. by apply Hj with l.
    + by rw /line Es.
    + intros l'. apply (queue_alter s l l' h), (Hi _ _ Es).
    + rw length_alter. split; [by eapply Hi|done].
    + intros l' s' [q E]. simpl in E. destruct (decide (l' = l)) as [->|Hd]; [|rw list_lookup_alter_ne // in E; by exists q].
      rw list_lookup_alter_eq in E. destruct (locks h !! l) as [[[] [|s2 w]]|] eqn:El; try done; [by apply Hl in El|].
      injection E as -> <-. rw /sending El. by eexists.
    + intros l' E. destruct (decide (l' = l)) as [->|Hd]; [|rw list_lookup_alter_ne // in E; by apply Hl in E].
      rw list_lookup_alter_eq in E. destruct (locks h !! l) as [[b w]|]; [|done]. injection E as _ Hw. by apply app_nil in Hw as [_ ?].
    + intros s' Hs'. by apply Ho with l.
  - exists s, (length (locks h)), rest. split; try done; simpl.
    + by rw lookup_insert_eq.
    + intros l' El. congruence.
    + intros x Hne. by rw lookup_insert_ne.
    + intros x Ex%Hi. lia.
    + rw /line Es /queue_of lookup_ge_None_2 //.
    + intros l'. etrans; [apply (queue_snoc s l' h)|]. case_bool_decide; [|done]. by rw /queue_of lookup_ge_None_2.
    + rw length_app /=. lia.
    + intros l' s' [q E]. simpl in E. apply lookup_snoc_Some in E as [[? E]|[? E]]; [by exists q|done].
    + intros l' [[? E]|[? E]]%lookup_snoc_Some; [by apply Hl in E|done].
    + intros s'. rw /queue_of lookup_ge_None_2 //. by intros ?%elem_of_nil.
Qed.
Lemma joined_ok s l rest h h' : hall_ok h -> joined s l rest h h' -> hall_ok h'.
Proof.
  intros [Hi Ho Hj Hpl Hh Hs H1 Hx Hl Hn Hf] [[Ec Ec'] Eh Eb Et Ea El Eq [Hlen Hgrow] Es Elk Eo (Econ & Ef & Ehs & Elog)].
  assert (forall x, heard x h' = heard x h) as Ehd by (intros x; by rw /heard Elog).
  assert (forall x, meant x h' = meant x h) as Em by (intros x; by rw /meant Ef).
  assert (forall x l0, _admin_send_locks h' !! x = Some l0 ->
            (x = to s /\ l0 = l) \/ (x <> to s /\ l0 <> l /\ _admin_send_locks h !! x = Some l0)) as Hcase.
  { intros x l0 Hxl. destruct (decide (x = to s)) as [->|Hd]; [left; split; congruence|]. right.
    rw Et // in Hxl. split_and!; [done| |done]. intros ->. by apply Hd, Ea. }
  split.
  - intros x l0 [[-> ->]|(_ & _ & E%Hi)]%Hcase; lia.
  - intros x l0 s' E. rw Eq. apply Hcase in E as [[-> ->]|(_ & Hd & E)].
    + rw bool_decide_eq_true_2 //. by intros [?%Eo| ->%list_elem_of_singleton]%elem_of_app.
    + rw bool_decide_eq_false_2 //. by apply Ho.
  - intros x y l0 [[-> ->]|(_ & Hd & E)]%Hcase [[-> E']|(_ & Hd' & E')]%Hcase; try done. by eapply Hj.
  - intros l0 s'. rw Eq Econ. case_bool_decide as E0.
    + intros [Hin%Eo| ->%list_elem_of_singleton]%elem_of_app _; by rw E0 ?Hin Eh.
    + intros Hin Hc. pose proof (Hpl l0 s' Hin Hc) as E. destruct (decide (to s' = to s)) as [Ht|Hd]; [|by rw Et].
      rw Ht in E. by apply Eb in E.
  - intros x Hc. rw Ehd Em. rw Econ in Hc. etrans; [|exact (Hh x Hc)]. f_equal. f_equal. unfold coming. rw Ec Ec' filter_cons.
    destruct (decide (to s = x)) as [<-|Hd].
    + rw El {1}/line Eh Eq bool_decide_eq_true_2 // -app_assoc //.
    + rw /line Et //. destruct (_admin_send_locks h !! x) as [l0|] eqn:E; [|done].
      rw Eq bool_decide_eq_false_2 //. intros ->. by apply Ea in E.
  - intros l0 s' Hls. rw Ehd Em. by eapply Hs, Es.
  - intros l0 l1 s0 s1 ?%Es ?%Es. by eapply H1.
  - intros x. rw Ehd Em. apply Hx.
  - done.
  - intros s'. rw Ehs. intros [Hin|[l0 Hin]]; [apply Hn; left; rw Ec; rw Ec' in Hin; by right|].
    rw Eq in Hin. case_bool_decide; [|by apply Hn; right; eexists].
    apply elem_of_app in Hin as [Hin| ->%list_elem_of_singleton]; apply Hn; [by right; eexists|left; rw Ec; left].
  - intros x. rw Ehs Econ Ehd Em. intros Hx'. destruct (Hf x Hx') as (? & Hnone & ? & ?). split_and!; try done.
    destruct (decide (x = to s)) as [->|Hd]; [|by rw Et]. exfalso.
    destruct (Hn s) as [? ?]; [left; rw Ec; left|congruence].
Qed.

(** The first waiter leaves the line. *)
Lemma queue_popped l k k' l' h : locks h !! l = Some k ->
  queue_of l' (h <| locks := <[l := k']> (locks h) |>) = if bool_decide (l' = l) then waiters k' else queue_of l' h.
Proof.
  intros E. rw /queue_of /=. case_bool_decide as Hd.
  - rw Hd list_lookup_insert_eq //. by eapply lookup_lt_Some.
  - by rw list_lookup_insert_ne.
Qed.
Definition popped (l : nat) (rest : list send_one) (h : hall) : hall := h <| locks := <[l := Lock false rest]> (locks h) |>.
Lemma sending_popped l rest l' s h : is_Some (locks h !! l) -> sending l' s (popped l rest h) -> l' <> l /\ sending l' s h.
Proof.
  intros [k Ek] [q E]. simpl in E. destruct (decide (l' = l)) as [->|Hd].
  - rw list_lookup_insert_eq in E; [done|by eapply lookup_lt_Some].
  - rw list_lookup_insert_ne // in E. split; [done|by exists q].
Qed.
Lemma locked_insert l b w h : hall_ok h -> (b = true -> w <> []) ->
  forall l', <[l := Lock b w]> (locks h) !! l' <> Some (Lock true []).
Proof.
  intros Hok Hb l' [(-> & E & _)|[_ E]]%list_lookup_insert_Some; [|by apply (ok_locked h Hok) in E].
  injection E as -> ->. by apply Hb.
Qed.
Lemma line_elsewhere x l s k' h : hall_ok h -> s ∈ queue_of l h -> x <> to s ->
  line x (h <| locks := <[l := k']> (locks h) |>) = line x h.
Proof.
  intros Hok Hs Hd. rw /line /=. destruct (_admin_send_locks h !! x) as [l0|] eqn:E; [|done].
  assert (l0 <> l) as Hl by (intros ->; by rw (ok_own h Hok x l s E Hs) in Hd).
  by rw /queue_of /= list_lookup_insert_ne.
Qed.
Lemma popped_queue l s rest b h l' s' : locks h !! l = Some (Lock b (s :: rest)) ->
  s' ∈ queue_of l' (popped l rest h) -> s' ∈ queue_of l' h.
Proof.
  intros E. rw (queue_popped l _ _ l' h E) /=. case_bool_decide as Hd; [|done]. intros Hin. rw Hd /queue_of E. by right.
Qed.

(** A waiter whose console is gone gives the lock back. *)
Lemma popped_ok l s rest b h : hall_ok h -> locks h !! l = Some (Lock b (s :: rest)) -> to s ∉ admin_connections h ->
  hall_ok (popped l rest h).
Proof.
  intros Hok E Hgone. assert (s ∈ queue_of l h) as Hin by (rw /queue_of E; left).
  pose proof (fun x => line_elsewhere x l s (Lock false rest) h Hok Hin) as Eline.
  pose proof (fun l' s' => popped_queue l s rest b h l' s' E) as Hq.
  pose proof (fun l' s' => sending_popped l rest l' s' h (ex_intro _ _ E)) as Hsend.
  pose proof (locked_insert l false rest h Hok) as Hlk.
  destruct Hok as [Hi Ho Hj Hpl Hh Hs H1 Hx Hl Hn Hf].
  split; try done.
  - intros x l0 Hl0. rw /= length_insert. by apply Hi in Hl0.
  - intros x l0 s' Hl0 Hin'%Hq. by eapply Ho.
  - intros l0 s' Hin'%Hq. by apply Hpl.
  - intros x Hc. etrans; [|exact (Hh x Hc)]. f_equal. f_equal. rw /popped Eline //. by intros ->.
  - intros l0 s' [_ H0]%Hsend. by apply Hs with l0.
  - intros l0 l1 s0 s1 [_ H0]%Hsend [_ H0']%Hsend. by eapply H1.
  - by apply Hlk.
  - intros s' [Hin'|[l0 Hin'%Hq]]; apply Hn; [by left|right; by exists l0].
Qed.

(** The next broadcast of the line arrives. *)
Lemma arrived_ok l s rest h : hall_ok h -> locks h !! l = Some (Lock true (s :: rest)) ->
  hall_ok (say (to s) (News (message s)) (popped l rest h)).
Proof.
  intros Hok E. assert (s ∈ queue_of l h) as Hin by (rw /queue_of E; left).
  pose proof (fun x => line_elsewhere x l s (Lock false rest) h Hok Hin) as Eline.
  pose proof (fun l' s' => popped_queue l s rest true h l' s' E) as Hq.
  pose proof (fun l' s' => sending_popped l rest l' s' h (ex_intro _ _ E)) as Hsend.
  pose proof (locked_insert l false rest h Hok) as Hlk.
  assert (sending l s h) as Hthis by (by exists rest).
  destruct Hok as [Hi Ho Hj Hpl Hh Hs H1 Hx Hl Hn Hf].
  set (h1 := say _ _ _).
  assert (forall x, heard x h1 = heard x h ++ if N.eqb (to s) x then [message s] else []) as Ehd.
  { intros x. rw /heard /= omap_app /=. by destruct (to s =? x)%N. }
  split; try done.
  - intros x l0 Hl0. rw /= length_insert. by apply Hi in Hl0.
  - intros x l0 s' Hl0 Hin'%Hq. by eapply Ho.
  - intros l0 s' Hin'%Hq. by apply Hpl.
  - intros x Hc. rw Ehd. etrans; [|exact (Hh x Hc)]. destruct (N.eqb_spec (to s) x) as [<-|Hd].
    + change (coming (to s) h1) with (coming (to s) h). rw /line /= (Hpl l s Hin Hc).
      change (queue_of l h1) with (queue_of l (popped l rest h)). rw (queue_popped l _ _ l h E) bool_decide_eq_true_2 //.
      rw /queue_of E /= -app_assoc //.
    + rw app_nil_r. f_equal. f_equal. change (line x h1) with (line x (popped l rest h)). rw /popped Eline //.
  - intros l0 s' [Hd H0]%Hsend. rw Ehd. destruct (N.eqb_spec (to s) (to s')) as [Ht|Ht].
    + by apply (H1 l l0 s s' Hthis H0) in Ht as <-.
    + rw app_nil_r. by apply Hs with l0.
  - intros l0 l1 s0 s1 [_ H0]%Hsend [_ H0']%Hsend. by eapply H1.
  - intros x. rw Ehd. destruct (N.eqb_spec (to s) x) as [<-|Ht]; [by apply Hs with l|]. rw app_nil_r. apply Hx.
  - by apply Hlk.
  - intros s' [Hin'|[l0 Hin'%Hq]]; apply Hn; [by left|right; by exists l0].
  - intros x Hno. rw Ehd. destruct (N.eqb_spec (to s) x) as [<-|Ht]; [|rw app_nil_r; by apply Hf].
    exfalso. destruct (Hn s) as [? ?]; [right; by exists l|]. simpl in Hno. congruence.
Qed.
Lemma enter_ok l h h' : hall_ok h -> enter_lock l h = Some h' -> hall_ok h'.
Proof.
  intros Hok. rw /enter_lock. destruct (locks h !! l) as [[[] [|s rest]]|] eqn:E; try done. intros [= <-].
  case_bool_decide as Hc; [|by eapply popped_ok].
  assert (s ∈ queue_of l h) as Hin by (rw /queue_of E; left).
  assert (forall l', queue_of l' (h <| locks := <[l := Lock true (s :: rest)]> (locks h) |>) = queue_of l' h) as Eq.
  { intros l'. rw (queue_popped l _ _ l' h E). case_bool_decide as Hd; [|done]. by rw Hd /queue_of E. }
  pose proof (locked_insert l true (s :: rest) h Hok) as Hlk.
  pose proof (ok_place h Hok l s Hin Hc) as Hpl0.
  assert (forall l' s', sending l' s' (h <| locks := <[l := Lock true (s :: rest)]> (locks h) |>) ->
            (l' = l /\ s' = s) \/ sending l' s' h) as Hsend.
  { intros l' s' [q [(-> & Eq' & _)|[_ Hq]]%list_lookup_insert_Some]; [left; split; congruence|right; by exists q]. }
  destruct Hok as [Hi Ho Hj Hpl Hh Hs H1 Hx Hl Hn Hf].
  split; try done.
  - intros x l0 Hl0. rw /= length_insert. by apply Hi in Hl0.
  - intros x l0 s' Hl0. rw Eq. by eapply Ho.
  - intros l0 s'. rw Eq. apply Hpl.
  - intros x Hx'. etrans; [|exact (Hh x Hx')]. f_equal. f_equal. f_equal. rw /line /=.
    destruct (_admin_send_locks h !! x); [|done]. apply Eq.
  - intros l0 s' [[-> ->]|H0]%Hsend; [|by apply Hs with l0].
    change (heard (to s) h ++ [message s] `prefix_of` meant (to s) h). rw -(Hh (to s) Hc) /line Hpl0 /queue_of E /=.
    exists (message <$> rest ++ coming (to s) h). by rw -app_assoc.
  - intros l0 l1 s0 s1 [[-> ->]|H0]%Hsend [[-> ->]|H0']%Hsend Ht; [done| | |by eapply H1].
    + apply sending_queue in H0'. rw Ht in Hc, Hpl0. apply Hpl in H0'; [congruence|done].
    + apply sending_queue in H0. rw -Ht in Hc, Hpl0. apply Hpl in H0; [congruence|done].
  - by apply Hlk.
  - intros s' [Hin'|[l0 Hin']]; [by apply Hn; left|]. rw Eq in Hin'. apply Hn. right. by exists l0.
Qed.
Lemma closing_ok c h : hall_ok h -> hall_ok (h <| closing := c |>).
Proof. by intros [Hi Ho Hj Hpl Hh Hs H1 Hx Hl Hn Hf]; split. Qed.
Lemma end_send_ok l e h h' : hall_ok h -> end_send l e h = Some h' -> hall_ok h'.
Proof.
  intros Hok. rw /end_send. destruct (locks h !! l) as [[[] [|s rest]]|] eqn:E; try done. intros [= <-].
  destruct e as [|arrived]; [by apply arrived_ok|].
  assert (hall_ok (drop_console (to s) h)) as Hd by by apply dropped_ok.
  destruct arrived.
  - refine (closing_ok (closing h ++ [s]) (say (to s) (News (message s)) (popped l rest (drop_console (to s) h))) _).
    by apply arrived_ok.
  - refine (closing_ok (closing h ++ [s]) (popped l rest (drop_console (to s) h)) _).
    apply (popped_ok l s rest true); [done..|]. by intros [_ ?%not_elem_of_singleton]%elem_of_difference.
Qed.

Lemma occurs_ok e h h' : hall_ok h -> occurs e h = Some h' -> hall_ok h'.
Proof.
  intros Hok. destruct e as [| | | |i| | | |ws e|ws|ws]; simpl; eauto using broadcast_ok, enter_ok, end_send_ok, resume_ok, cancel_ok, connect_ok.
  - intros (s & l & rest & Hj)%start_joined; [|done]. by eapply joined_ok.
  - rw /end_close. destruct (closing h !! i); [|done]. intros [= <-]. by apply closing_ok.
  - rw /greet. destruct (handlers h !! ws) as [[n| |]|] eqn:E; try done. intros [= <-].
    destruct e; [|apply dropped_ok|]; try (by eapply stage_ok).
    apply (stage_ok ws (Greets n) _ (say ws (Greeting n) h)); [by apply greeting_ok|done].
  - rw /leave. destruct (handlers h !! ws) as [[n| |]|] eqn:E; try done. intros [= <-]. apply dropped_ok. by eapply stage_ok.
  - intros [= <-]. by apply dropped_ok.
Qed.
Lemma reachable_ok h : hall_reachable h -> hall_ok h.
Proof.
  apply (rtc_ind_r hall_ok empty_hall); [apply hall_ok_empty|].
  intros h1 h2 _ [e E] Hok. by eapply occurs_ok.
Qed.
Lemma plays_reachable es h h' : hall_reachable h -> plays es h = Some h' -> hall_reachable h'.
Proof.
  induction es as [|e es IH] in h |- *; simpl; [by intros ? [= <-]|].
  intros Hr. destruct (occurs e h) as [h1|] eqn:E; [|done]. apply IH. eapply rtc_r; [done|by exists e].
Qed.

Lemma queue_unfinished l s h : s ∈ queue_of l h -> s ∈ unfinished h.
Proof.
  rw /queue_of. destruct (locks h !! l) as [k|] eqn:E; [|by intros ?%elem_of_nil]. intros Hs.
  rw /unfinished elem_of_app elem_of_app. right; left. apply list_elem_of_In, in_flat_map. exists k.
  split; apply list_elem_of_In; [by eapply list_elem_of_lookup_2|done].
Qed.

(** C21: A console hears the broadcasts that are made while it is connected in the order in
    which they are made, each of them once and without a gap, whatever the sends, the
    time-outs, the handlers and the cancellations do; and a console that is still connected
    when no task is left for it has heard them all. *)
Theorem consoles_hear_broadcasts_in_order h ws : hall_reachable h ->
  heard ws h `prefix_of` meant ws h /\
  (ws ∈ admin_connections h -> Forall (fun s => to s <> ws) (unfinished h) -> heard ws h = meant ws h).
Proof.
  intros Hok%reachable_ok. split; [by apply ok_prefix|]. intros Hc Hn.
  rw -(ok_hears h Hok ws Hc). rw Forall_forall in Hn.
  assert (coming ws h = []) as ->.
  { rw /coming. destruct (filter _ _) as [|s r] eqn:E; [done|].
    assert (s ∈ filter (fun s => to s = ws) (created h)) as [Ht Hs]%list_elem_of_filter by (rw E; left).
    destruct (Hn s); [|done]. rw /unfinished elem_of_app. by left. }
  rw /line. destruct (_admin_send_locks h !! ws) as [l|] eqn:E; [|by rw /= app_nil_r].
  destruct (queue_of l h) as [|s r] eqn:Eq; [by rw /= app_nil_r|].
  assert (s ∈ queue_of l h) as Hs by (rw Eq; left).
  destruct (Hn s); [by eapply queue_unfinished|by eapply ok_own].
Qed.

(** Two consoles: the second broadcast starts before the first has left for both, and the
    send to the second console fails. *)
Definition news (n : Z) : json := JInt n.
Definition two_consoles : list event :=
  [Connects 1; Connects 2; Greeted 1 Sent; Broadcast [1; 2]%N (news 10); TaskStarts; TaskStarts; Broadcast [2; 1]%N (news 11);
   LockGranted 0; LockGranted 1; TaskStarts; TaskStarts; SendEnds 1 (Fails true); LockGranted 1; SendEnds 0 Arrives;
   LockGranted 0; SendEnds 0 Arrives; CallerResumes 1; CloseEnds 0; CallerCancelled 0; CallerResumes 0].
Definition after_two : hall := default empty_hall (plays two_consoles empty_hall).
Lemma two_consoles_reachable : hall_reachable after_two.
Proof. by apply (plays_reachable two_consoles empty_hall); [constructor|vm_compute]. Qed.
Lemma consoles_hear_broadcasts_in_order_witness :
  heard 1 after_two = [news 10; news 11] /\ heard 2 after_two = [news 10] /\ meant 2 after_two = [news 10; news 11] /\
  heard 1 after_two = meant 1 after_two.
Proof.
  split_and!; [by vm_compute..|].
  apply (consoles_hear_broadcasts_in_order after_two 1 two_consoles_reachable).
  - apply (bool_decide_eq_true_1 (1%N ∈ admin_connections after_two)). by vm_compute.
  - apply (bool_decide_eq_true_1 (Forall (fun s => to s <> 1%N) (unfinished after_two))). by vm_compute.
Defined.

(** ** Fan-outs end *)

Definition lock_work (k : lock) : nat := (3 * length (waiters k) - if locked k then 1 else 0)%nat.
Definition caller_waits (f : fanout) : bool := match f_caller f with Awaiting | AwaitingCancelled => true | _ => false end.
(** The steps the tasks and their callers have left at most. *)
Definition work_left (h : hall) : nat :=
  (4 * length (created h) + sum_list_with lock_work (locks h) + length (closing h) +
   sum_list_with (fun f => if caller_waits f then 1 else 0) (fanouts h))%nat.

Lemma sum_alter {A} (f : A -> nat) g l i x : l !! i = Some x ->
  (f x + sum_list_with f (alter g i l) = f (g x) + sum_list_with f l)%nat.
Proof.
  induction l as [|a l IH] in i |- *; [done|]. destruct i as [|i].
  - intros [= ->]. change (alter g 0%nat (x :: l)) with (g x :: l). simpl. lia.
  - intros Hi. specialize (IH i Hi). change (alter g (S i) (a :: l)) with (a :: alter g i l). simpl. lia.
Qed.
Lemma sum_insert {A} (f : A -> nat) l i x y : l !! i = Some x ->
  (f x + sum_list_with f (<[i := y]> l) = f y + sum_list_with f l)%nat.
Proof. rw list_insert_alter. apply sum_alter. Qed.

Lemma work_shortens e h h' : hall_ok h -> own_work e = true -> occurs e h = Some h' -> (work_left h' < work_left h)%nat.
Proof.
  intros Hok He. destruct e as [| |l|l e|i|n| | | | |]; try done; simpl.
  - rw /start_task /work_left. destruct (created h) as [|s rest]; [done|]. simpl.
    destruct (_admin_send_locks h !! to s) as [l|] eqn:Es; intros [= <-]; simpl.
    + destruct (lookup_lt_is_Some_2 (locks h) l) as [k Ek]; [by eapply ok_index|].
      pose proof (sum_alter lock_work (fun k => k <| waiters := waiters k ++ [s] |>) _ _ _ Ek) as E.
      assert (lock_work (k <| waiters := waiters k ++ [s] |>) <= 3 + lock_work k)%nat.
      * rw /lock_work /= length_app /=. destruct (locked k); lia.
      * change (alter _ l (locks h)) with (alter (fun k => k <| waiters := waiters k ++ [s] |>) l (locks h)). lia.
    + rw sum_list_with_app /=. rw /lock_work /=. lia.
  - rw /enter_lock /work_left. destruct (locks h !! l) as [[[] [|s rest]]|] eqn:El; try done. intros [= <-]. simpl.
    match goal with |- context [<[l := ?k']> _] => pose proof (sum_insert lock_work _ _ _ k' El) as E;
      assert (lock_work k' < lock_work (Lock false (s :: rest)))%nat end; [|lia].
    case_bool_decide; rw /lock_work /=; lia.
  - rw /end_send /work_left. destruct (locks h !! l) as [[[] [|s rest]]|] eqn:El; try done. intros [= <-].
    pose proof (sum_insert lock_work _ _ _ (Lock false rest) El) as E.
    assert (lock_work (Lock false rest) + 2 = lock_work (Lock true (s :: rest)))%nat by (rw /lock_work /=; lia).
    destruct e as [|[]]; simpl; rw ?length_app /=; lia.
  - rw /end_close /work_left. destruct (closing h !! i) as [s|] eqn:Ei; [|done]. intros [= <-]. simpl.
    rw length_delete; [|by eexists]. apply lookup_lt_Some in Ei. lia.
  - rw /resume_caller /work_left. destruct (fan_done n h); [|done]. simpl.
    destruct (fanouts h !! n) as [[m c []]|] eqn:Ef; intros [= <-]; simpl;
      match goal with |- context [<[n := ?f']> _] =>
        pose proof (sum_insert (fun f => if caller_waits f then 1 else 0)%nat _ _ _ f' Ef) as E end; simpl in E; lia.
Qed.

Lemma locks_idle ls : Forall (fun k => waiters k = []) ls -> flat_map waiters ls = [] /\ sum_list_with lock_work ls = 0%nat.
Proof.
  induction 1 as [|k ks Hk _ [IH IH']]; [done|]. rw /= Hk IH IH' /lock_work Hk. by destruct (locked k).
Qed.
Lemma callers_wait fs : (0 < sum_list_with (fun f => if caller_waits f then 1 else 0) fs)%nat ->
  exists n f, fs !! n = Some f /\ caller_waits f = true.
Proof.
  induction fs as [|f fs IH]; simpl; [lia|]. destruct (caller_waits f) eqn:E; [by exists 0%nat, f|].
  intros (n & g & Hg)%IH. by exists (S n), g.
Qed.

(** While something is left to do, some task can do it. *)
Lemma work_goes_on h : hall_ok h -> (0 < work_left h)%nat -> exists h', fan_work h h'.
Proof.
  intros Hok Hw. destruct (created h) as [|s rest] eqn:Ec.
  2: { destruct (start_task h) as [h'|] eqn:E; [exists h', TaskStarts; by rw /= E|].
       rw /start_task Ec /= in E. by destruct (_admin_send_locks h !! to s). }
  destruct (list_find (fun k => waiters k <> []) (locks h)) as [[l k]|] eqn:El.
  { apply list_find_Some in El as (El & Hk & _). destruct k as [b [|s rest]]; [done|]. destruct b.
    - eexists _, (SendEnds l Arrives). by rw /= /end_send El.
    - eexists _, (LockGranted l). by rw /= /enter_lock El. }
  destruct (closing h) as [|s rest] eqn:Ecl; [|eexists _, (CloseEnds 0); by rw /= /end_close Ecl].
  assert (Forall (fun k => waiters k = []) (locks h)) as Hempty.
  { apply Forall_lookup_2. intros l k Hk. apply list_find_None in El. rw Forall_forall in El.
    destruct (decide (waiters k = [])); [done|]. by destruct (El k); [eapply list_elem_of_lookup_2|]. }
  assert (unfinished h = []) as Hun.
  { by rw /unfinished Ec Ecl app_nil_r /= (proj1 (locks_idle _ Hempty)). }
  pose proof (proj2 (locks_idle _ Hempty)) as Hz.
  rw /work_left Ec Ecl Hz /= in Hw.
  apply callers_wait in Hw as (n & [m c []] & Ef & Hf); try done;
    eexists _, (CallerResumes n); (split; [done|]); by rw /= /resume_caller /fan_done Hun /= Ef.
Qed.
Lemma no_work_left h : work_left h = 0%nat -> unfinished h = [] /\ Forall (fun f => caller_waits f = false) (fanouts h).
Proof.
  rw /work_left /unfinished. intros Hz. destruct (created h); [|simpl in Hz; lia].
  destruct (closing h); [|simpl in Hz; lia]. simpl in *. rw app_nil_r. split.
  - assert (sum_list_with lock_work (locks h) = 0)%nat as Hl by lia. clear Hz.
    induction (locks h) as [|[b w] ks IH]; [done|]. simpl in *. destruct w as [|s w]; [|rw /lock_work /= in Hl; destruct b; lia].
    apply IH. lia.
  - induction (fanouts h) as [|f fs IH]; [constructor|]. simpl in Hz. destruct (caller_waits f) eqn:E; [lia|].
    constructor; [done|]. apply IH. lia.
Qed.
Lemma work_ok h h' : hall_ok h -> fan_work h h' -> hall_ok h' /\ (work_left h' < work_left h)%nat.
Proof. intros Hok (e & He & E). split; [by eapply occurs_ok|by eapply work_shortens]. Qed.


(** ** Where the code leaves something behind *)

(** A console leaves between the creation of its task and the task's start: [setdefault]
    makes a lock that nothing removes again. *)
Lemma lock_outlives_console :
  let h := default empty_hall (plays [Connects 1; Broadcast [1]%N (news 10); Greeted 1 Reset; TaskStarts; LockGranted 0;
                                      CallerResumes 0] empty_hall) in
  handlers h !! 1%N = Some Ended /\ work_left h = 0%nat /\ _admin_send_locks h !! 1%N = Some 0%nat.
Proof. by vm_compute. Qed.

(** An exception other than a lost connection while a console is greeted ends its handler
    and leaves it among the consoles. *)
Lemma failed_greeting_stays :
  let h := default empty_hall (plays [Connects 1; Greeted 1 Raises] empty_hall) in
  handlers h !! 1%N = Some Ended /\ 1%N ∈ admin_connections h.
Proof. split; [done|]. apply (bool_decide_eq_true_1 (1%N ∈ admin_connections _)). by vm_compute. Qed.
