(* ===== verification/Fleet.v ===== *)
(** * The memory of the control server (server.py)

    The dictionaries of server.py that its console and device handlers share, and the
    effects of those handlers: Python's operations on values whose type a peer chooses,
    sends, broadcasts and the persistence of the registry.  As in [Live] a handler runs
    alone between two awaits, and what the others do at an await is the environment's
    choice. *)

From S2P Require Import Prelude PyStr Json.
From Stdlib Require Import QArith.
Open Scope Z_scope.

(** ** Python values *)

(** [bool(v)]. *)
Definition truthy (v : json) : bool :=
  match v with
  | JNull => false
  | JBool b => b
  | JInt n => negb (n =? 0)
  | JFloat (PFin q) => negb (Qeq_bool q 0)
  | JFloat _ => true
  | JStr s => match s with [] => false | _ => true end
  | JArr l => match l with [] => false | _ => true end
  | JObj o => match o with [] => false | _ => true end
  end.

(** The number a value counts as in [==]. *)
Definition num_of (v : json) : option pyfloat :=
  match v with
  | JBool b => Some (PFin (inject_Z (if b then 1 else 0)))
  | JInt n => Some (PFin (inject_Z n))
  | JFloat f => Some f
  | _ => None
  end.
Definition num_eq (x y : pyfloat) : bool :=
  match x, y with
  | PFin p, PFin q => Qeq_bool p q
  | PInf a, PInf b => Bool.eqb a b
  | _, _ => false
  end.

(** [a == b]: numbers by value, lists in order, dicts by their items. *)
Fixpoint py_eq (a b : json) {struct a} : bool :=
  match a, b with
  | JNull, JNull => true
  | JStr s, JStr t => streq s t
  | JArr l, JArr k =>
      (fix go (l k : list json) : bool :=
         match l, k with
         | [], [] => true
         | x :: l', y :: k' => py_eq x y && go l' k'
         | _, _ => false
         end) l k
  | JObj o, JObj p =>
      (length o =? length p)%nat &&
      (fix go (o : list (pystr * json)) : bool :=
         match o with
         | [] => true
         | (key, x) :: o' => match assoc_get key p with Some y => py_eq x y | None => false end && go o'
         end) o
  | _, _ => match num_of a, num_of b with Some x, Some y => num_eq x y | _, _ => false end
  end.

(** [v in l]; lists and dicts are not hashable. *)
Definition py_in (v : json) (l : list json) : bool := existsb (fun x => py_eq x v) l.
Definition is_hashable (v : json) : bool := match v with JArr _ | JObj _ => false | _ => true end.

(** [l.remove(v)] takes the first equal element out. *)
Fixpoint py_remove (v : json) (l : list json) : list json :=
  match l with
  | [] => []
  | x :: l' => if py_eq x v then l' else x :: py_remove v l'
  end.

(** Ordered dicts: [d.get(k)], [d[k] = v] on an entry that keeps its place, [d.pop(k)]. *)
Section Dicts.
Context {K V : Type} (eqb : K -> K -> bool).

Fixpoint lookup_by (k : K) (m : list (K * V)) : option V :=
  match m with
  | [] => None
  | (k', v) :: m' => if eqb k' k then Some v else lookup_by k m'
  end.
Fixpoint store_by (k : K) (v : V) (m : list (K * V)) : list (K * V) :=
  match m with
  | [] => [(k, v)]
  | (k', v') :: m' => if eqb k' k then (k', v) :: m' else (k', v') :: store_by k v m'
  end.
Fixpoint remove_by (k : K) (m : list (K * V)) : list (K * V) :=
  match m with
  | [] => []
  | (k', v') :: m' => if eqb k' k then m' else (k', v') :: remove_by k m'
  end.
End Dicts.

(** ** The shared dictionaries *)

(** An entry of [devices]: its socket and the rest of the dict.  One object per
    registration, so that the socket tells entries of a device apart. *)
Record online := Online { o_ws : N; o_fields : list (pystr * json) }.

(** An entry of [pending_self_updates]: which object it is, its phase and the fields that
    are read. *)
Inductive phase := Updating | Verifying.
Record self_update := SelfUpdate {
  su_object : N;
  su_phase : phase;
  su_correlation_id : pystr;
  su_target_version_code : Z;
  su_apk_filename : json;
  su_package_name : json;
  su_expected_full_sha256 : json;
  su_identity_kind : pystr;
  su_timeout_task : option N;
}.
#[export] Instance eta_self_update : Settable self_update := fun e =>
  SelfUpdate (su_object e) (su_phase e) (su_correlation_id e) (su_target_version_code e) (su_apk_filename e) (su_package_name e)
    (su_expected_full_sha256 e) (su_identity_kind e) (su_timeout_task e).

Record retire := Retire { re_correlation_id : pystr; re_timeout_task : option N }.
#[export] Instance eta_retire : Settable retire := fun e => Retire (re_correlation_id e) (re_timeout_task e).

(** A timer: the coroutine that sleeps in it, for a device and a correlation ID. *)
Inductive timer_kind := UpdateTimeout | VerifyTimeout | RetireTimeout.
Record timer := Timer { ti_kind : timer_kind; ti_device : pystr; ti_correlation_id : pystr }.

(** REGISTRY_PATH, as [json.loads(REGISTRY_PATH.read_text(encoding="utf-8"))] finds it. *)
Inductive registry_file :=
  | FileMissing
  | FileUnreadable
  | FileNotUtf8
  | FileJson (v : json).

Abbreviation record := (list (pystr * json)).

Record fleet := FleetState {
  devices : list (pystr * online);
  provisional_connections : list (N * record);
  device_registry : list (json * record);
  device_groups : list (pystr * list json);
  pending_self_updates : list (pystr * self_update);
  pending_retires : list (pystr * retire);
  last_install_dispatch : list (pystr * json);
  timers : gmap N timer;
  next_timer : N;
  registry_path : registry_file;
}.
#[export] Instance eta_fleet : Settable fleet := fun s =>
  FleetState (devices s) (provisional_connections s) (device_registry s) (device_groups s) (pending_self_updates s) (pending_retires s)
    (last_install_dispatch s) (timers s) (next_timer s) (registry_path s).

(** ** Handlers *)

Inductive fault :=
  | AttributeError
  | TypeError
  | ValueError
  | OverflowError
  | UnicodeEncodeError
  | UnicodeDecodeError
  | KeyError
  | CommandNotAllowed
  | ConnectionReset
  | OtherError
  | Cancelled.

Inductive peer := TheAdmin | AllAdmins | DeviceSocket (ws : N).

(** The environment: the other tasks, the awaits at which this one is cancelled, the
    sends that fail, the writes of the registry that raise [OSError], the clock
    ([time.time()]), [float.__repr__], [str.lower] and
    [uuid.uuid4().hex], the texts of exceptions, and the time-outs in seconds. *)
Class host := Host {
  others : nat -> fleet -> fleet;
  cancelled : nat -> bool;
  lost : nat -> option fault;
  write_error : nat -> bool;
  clock : nat -> pyfloat;
  float_repr : pyfloat -> pystr;
  lower_of : pystr -> pystr;
  uuid4_hex : nat -> pystr;
  fault_text : fault -> pystr;
  retire_timeout_s : Z;
  self_update_timeout_s : Z;
  self_update_verify_timeout_s : Z;
}.

(** The dictionaries, the awaits so far, and what has been sent. *)
Record desk := Desk { memory : fleet; turns : nat; sent : list (peer * json) }.
#[export] Instance eta_desk : Settable desk := fun s => Desk (memory s) (turns s) (sent s).

Abbreviation Handler := (M desk fault).

Definition look {A} (f : fleet -> A) : Handler A := gets (fun s => f (memory s)).
Definition change (f : fleet -> fleet) : Handler unit := modify (fun s => s <| memory := f (memory s) |>).
Definition or_raise {A} (e : fault) (o : option A) : Handler A :=
  match o with Some a => mret a | None => raise e end.

Section Effects.
Context {H : host}.

(** An await. *)
Definition pause : Handler unit := fun s =>
  (if cancelled (turns s) then Raise Cancelled else Ret tt,
   s <| memory := others (turns s) (memory s) |> <| turns := S (turns s) |>).

(** [await ws.send_str(json.dumps(payload))]: a frame that is lost raises. *)
Definition send (to : peer) (payload : list (pystr * json)) : Handler unit :=
  n ← gets turns;
  match lost n with
  | Some e => pause ;; raise e
  | None => modify (fun s => s <| sent := sent s ++ [(to, JObj payload)] |>) ;; pause
  end.

(** [_broadcast_admin_message] as its caller sees it: one message to all consoles, and a
    wait; the tasks that bring it to them are Consoles.v. *)
Definition broadcast (message : json) : Handler unit :=
  modify (fun s => s <| sent := sent s ++ [(AllAdmins, message)] |>) ;; pause.

Definition time_time : Handler json := gets (fun s => JFloat (clock (turns s))).
End Effects.

Definition field (name : string) (v : json) : pystr * json := (u name, v).
Definition error_reply {H : host} (text : pystr) : Handler unit :=
  send TheAdmin [field "type" (JStr (u "ERROR")); field "message" (JStr text)].
Arguments field name%_string v.

(** ** What the dicts satisfy *)

Lemma streq_refl s : streq s s = true.
Proof. by apply bool_decide_eq_true_2. Qed.
Lemma streq_eq s t : streq s t = true -> s = t.
Proof. by intros ?%bool_decide_eq_true_1. Qed.

(** Dicts whose keys are strings, and lists of strings. *)
Section StringKeys.
Context {V : Type}.
Implicit Types (m : list (pystr * V)).

Lemma lookup_store k v m k' :
  lookup_by streq k' (store_by streq k v m) = if streq k k' then Some v else lookup_by streq k' m.
Proof.
  induction m as [|[k2 v2] m IH]; simpl; [done|].
  destruct (streq k2 k) eqn:E; simpl.
  - apply streq_eq in E as ->. by destruct (streq k k').
  - rw IH. destruct (streq k2 k') eqn:E2; [|done].
    apply streq_eq in E2 as ->. destruct (streq k k') eqn:E3; [|done].
    apply streq_eq in E3 as ->. by rw streq_refl in E.
Qed.
Lemma lookup_in k m v : lookup_by streq k m = Some v -> (k, v) ∈ m.
Proof.
  induction m as [|[k2 v2] m IH]; simpl; [done|]. destruct (streq k2 k) eqn:E.
  - apply streq_eq in E as ->. intros [= ->]. left.
  - intros ?%IH. by right.
Qed.
Lemma lookup_none k m : lookup_by streq k m = None <-> k ∉ m.*1.
Proof.
  induction m as [|[k2 v2] m IH]; simpl; [set_solver|]. destruct (streq k2 k) eqn:E.
  - apply streq_eq in E as ->. set_solver.
  - rw IH. assert (k <> k2) by (intros ->; by rw streq_refl in E). set_solver.
Qed.
Lemma lookup_nodup k v m : NoDup m.*1 -> (k, v) ∈ m -> lookup_by streq k m = Some v.
Proof.
  induction m as [|[k2 v2] m IH]; simpl; [by intros _ ?%elem_of_nil|].
  intros [Hk Hm]%NoDup_cons [[= <- <-]|Hin]%elem_of_cons; [by rw streq_refl|].
  destruct (streq k2 k) eqn:E; [|by apply IH].
  apply streq_eq in E as ->. exfalso. apply Hk, list_elem_of_fmap. by exists (k, v).
Qed.
Lemma store_keys k v m : (store_by streq k v m).*1 = if bool_decide (k ∈ m.*1) then m.*1 else m.*1 ++ [k].
Proof.
  induction m as [|[k2 v2] m IH]; csimpl; [done|]. destruct (streq k2 k) eqn:E; csimpl.
  - apply streq_eq in E as ->. rw bool_decide_eq_true_2 //. left.
  - assert (k <> k2) by (intros ->; by rw streq_refl in E).
    rw IH. repeat case_bool_decide; set_solver.
Qed.
Lemma store_in k v m k' v' : (k', v') ∈ store_by streq k v m -> (k' = k /\ v' = v) \/ (k', v') ∈ m.
Proof.
  induction m as [|[k2 v2] m IH]; simpl.
  - intros [= -> ->]%list_elem_of_singleton. by left.
  - destruct (streq k2 k) eqn:E.
    + apply streq_eq in E as ->. rw elem_of_cons. intros [[= -> ->]|?]; [by left|right; by right].
    + rw elem_of_cons. intros [[= -> ->]|[?|?]%IH]; [right; left|by left|right; by right].
Qed.
Lemma remove_in k m k' v : (k', v) ∈ remove_by streq k m -> (k', v) ∈ m.
Proof.
  induction m as [|[k2 v2] m IH]; simpl; [done|]. destruct (streq k2 k); [by right|].
  rw elem_of_cons. intros [->|?%IH]; [left|by right].
Qed.
Lemma remove_nodup k m : NoDup m.*1 -> NoDup (remove_by streq k m).*1.
Proof.
  induction m as [|[k2 v2] m IH]; csimpl; [done|]. intros [Hk Hm]%NoDup_cons.
  destruct (streq k2 k); [done|]. csimpl. apply NoDup_cons. split; [|by apply IH].
  intros ([k3 v3] & -> & Hin%remove_in)%list_elem_of_fmap. apply Hk, list_elem_of_fmap. by eexists.
Qed.
Lemma lookup_remove k m k' :
  NoDup m.*1 -> lookup_by streq k' (remove_by streq k m) = if streq k k' then None else lookup_by streq k' m.
Proof.
  induction m as [|[k2 v2] m IH]; simpl; [by destruct (streq k k')|]. intros [Hk Hm]%NoDup_cons.
  destruct (streq k2 k) eqn:E; simpl.
  - apply streq_eq in E as ->. destruct (streq k k') eqn:E2; [|done].
    apply streq_eq in E2 as ->. by apply lookup_none.
  - rw IH //. destruct (streq k2 k') eqn:E2; [|done].
    apply streq_eq in E2 as ->. destruct (streq k k') eqn:E3; [|done].
    apply streq_eq in E3 as ->. by rw streq_refl in E.
Qed.
End StringKeys.

(** ** Reasoning about handlers *)

Lemma look_does {A B} (f : fleet -> A) (k : A -> Handler B) s : (look f ≫= k) s = k (f (memory s)) s.
Proof. done. Qed.
Lemma gets_does {A B} (f : desk -> A) (k : A -> Handler B) s : (gets f ≫= k) s = k (f s) s.
Proof. done. Qed.
Lemma change_does {B} f (k : unit -> Handler B) s : (change f ≫= k) s = k tt (s <| memory := f (memory s) |>).
Proof. done. Qed.

Section Holds.
Context (J : desk -> Prop).

(** What is true before a handler runs is true when it ends or raises. *)
Definition holds {A} (m : Handler A) : Prop := forall s, J s -> J (m s).2.

Lemma holds_ret {A} (a : A) : holds (mret a).
Proof. by intros s. Qed.
Lemma holds_raise {A} e : holds (raise e : Handler A).
Proof. by intros s. Qed.
Lemma holds_gets {A} (f : desk -> A) : holds (gets f).
Proof. by intros s. Qed.
Lemma holds_look {A} (f : fleet -> A) : holds (look f).
Proof. by intros s. Qed.
Lemma holds_or_raise {A} e (o : option A) : holds (or_raise e o).
Proof. destruct o; by intros s. Qed.
Lemma holds_bind {A B} (m : Handler A) (f : A -> Handler B) : holds m -> (forall a, holds (f a)) -> holds (m ≫= f).
Proof.
  intros Hm Hf s Hs. specialize (Hm s Hs). rw /mbind /M_bind.
  destruct (m s) as [[a|e] s']; [by apply Hf|done].
Qed.
Lemma holds_try {A} (m : Handler A) h : holds m -> (forall e h', h e = Some h' -> holds h') -> holds (try_except m h).
Proof.
  intros Hm Hh s Hs. specialize (Hm s Hs). rw /try_except. destruct (m s) as [[a|e] s']; [done|].
  destruct (h e) as [h'|] eqn:E; [by apply (Hh e)|done].
Qed.
Lemma holds_for_each {A} (f : A -> Handler unit) l : (forall x, holds (f x)) -> holds (for_each f l).
Proof. intros Hf. induction l as [|x l IH]; simpl; [apply holds_ret|]. by apply holds_bind. Qed.
Lemma holds_change f : (forall s, J s -> J (s <| memory := f (memory s) |>)) -> holds (change f).
Proof. intros Hf s Hs. by apply Hf. Qed.

(** Assertions that awaits and messages respect. *)
Context {H : host} (polite : peer -> json -> Prop).
Context (Hpause : holds pause).
Context (Hsay : forall s to v, polite to v -> J s -> J (s <| sent := sent s ++ [(to, v)] |>)).

Lemma holds_send to payload : polite to (JObj payload) -> holds (send to payload).
Proof.
  intros Hp. unfold send. apply holds_bind; [apply holds_gets|intros n].
  destruct (lost n); apply holds_bind; try done; try (intros; apply holds_raise).
  intros s Hs. by apply Hsay.
Qed.
Lemma holds_broadcast message : polite AllAdmins message -> holds (broadcast message).
Proof. intros Hp. unfold broadcast. apply holds_bind; [|done]. intros s Hs. by apply Hsay. Qed.
End Holds.

(** A handler keeps an invariant of the dictionaries that the other tasks keep. *)
Abbreviation keeps I := (holds (fun s => I (memory s))).

Section Keeps.
Context {H : host} (I : fleet -> Prop) (Hothers : forall n s, I s -> I (others n s)).

Lemma fleet_pause : keeps I pause.
Proof. intros s Hs. by apply Hothers. Qed.
Lemma fleet_send to payload : keeps I (send to payload).
Proof. apply (holds_send _ (fun _ _ => True)); [apply fleet_pause|done|done]. Qed.
Lemma keeps_broadcast message : keeps I (broadcast message).
Proof. apply (holds_broadcast _ (fun _ _ => True)); [apply fleet_pause|done|done]. Qed.
Lemma keeps_error text : keeps I (error_reply text).
Proof. apply fleet_send. Qed.
End Keeps.

Create HintDb keeps.
#[export] Hint Resolve holds_ret holds_raise holds_gets holds_look holds_or_raise : keeps.
#[export] Hint Resolve fleet_pause fleet_send keeps_broadcast keeps_error : keeps.
#[export] Hint Extern 1 (holds _ (_ ≫= _)) => apply holds_bind; [|intros ?] : keeps.
#[export] Hint Extern 2 (holds _ (match ?x with _ => _ end)) => destruct x : keeps.

(** The other tasks leave the dictionaries alone. *)
Definition alone (H : host) : Prop := forall n s, others n s = s.

(** A host whose sends, writes and awaits succeed. *)
Definition quiet_host : host := {|
  others := fun _ s => s; cancelled := fun _ => false; lost := fun _ => None; write_error := fun _ => false;
  clock := fun _ => PFin 0; float_repr := fun _ => u "0.0"; lower_of := lower; uuid4_hex := fun _ => u "f";
  fault_text := fun _ => [];
  retire_timeout_s := 120; self_update_timeout_s := 480; self_update_verify_timeout_s := 120;
|}.
Definition empty_fleet : fleet := FleetState [] [] [] [] [] [] [] ∅ 0 FileMissing.
