(* ===== verification/Registry.v ===== *)
(** * The registry of devices and groups (server.py)

    The records the server keeps of every device it has seen and the groups of devices:
    how values from the file are normalised ([_coerce_record], [_coerce_battery],
    [_coerce_groups]), loading and saving, and the lists the consoles are sent. *)

From S2P Require Import Prelude PyStr Json Fleet.
From Stdlib Require Import QArith.
Open Scope Z_scope.

Definition MAX_LABEL_LEN : nat := 64.
Definition MAX_GROUP_NAME_LEN : nat := 64.

(** [d.get(name, default)] and [d.get(name)]. *)
Definition field_or (name : string) (def : json) (r : record) : json := default def (assoc_get (u name) r).
Arguments field_or name%_string def r.
Definition empty_text : json := JStr [].

(** ** Normalising what is read *)

(** [int(f)]: towards zero. *)
Definition int_of_float (f : pyfloat) : outcome fault Z :=
  match f with
  | PFin q => Ret (Z.quot (Qnum q) (Zpos (Qden q)))
  | PInf _ => Raise OverflowError
  | PNan => Raise ValueError
  end.
(** [isinstance(v, (int, float))], of which [bool] is one. *)
Definition is_number (v : json) : bool := match v with JInt _ | JFloat _ | JBool _ => true | _ => false end.
Definition is_bool (v : json) : bool := match v with JBool _ => true | _ => false end.
Definition is_str (v : json) : bool := match v with JStr _ => true | _ => false end.
Definition is_dict (v : json) : bool := match v with JObj _ => true | _ => false end.

Definition _coerce_battery (now : json) (value : json) : outcome fault json :=
  match value with
  | JObj r =>
      level ← match get (u "level") r with
              | JInt n => Ret (Some n)
              | JFloat f => n ← int_of_float f; Ret (Some n)
              | _ => Ret None
              end;
      match level with
      | None => Ret JNull
      | Some level =>
          if (level <? 0) || (100 <? level) then Ret JNull
          else if negb (is_bool (get (u "charging") r)) then Ret JNull
          else
            let last_seen := field_or "last_seen" (get (u "timestamp") r) r in
            Ret (JObj [field "level" (JInt level); field "charging" (get (u "charging") r);
                       field "last_seen" (if is_number last_seen && negb (is_bool last_seen)
                                          then last_seen else now)])
      end
  | _ => Ret JNull
  end.

Definition identity_kinds : list pystr := [u "canonical"; u "legacy"].

Definition _coerce_record (now : json) (value : json) : outcome fault (option record) :=
  match value with
  | JStr s =>
      Ret (Some [field "label" (JStr (strip s)); field "model" empty_text; field "ip" empty_text;
                 field "last_seen" JNull; field "startup_app" JNull; field "battery" JNull;
                 field "version_code" JNull; field "version_name" empty_text; field "retired" (JBool false);
                 field "identity_kind" (JStr (u "legacy"))])
  | JObj r =>
      let text name := let v := get (u name) r in if is_str v then v else empty_text in
      battery ← _coerce_battery now (get (u "battery") r);
      let kind := get (u "identity_kind") r in
      if negb (is_hashable kind) then Raise TypeError
      else
        Ret (Some
          [field "label" (match get (u "label") r with JStr s => JStr (strip s) | _ => empty_text end);
           field "model" (text "model"%string); field "ip" (text "ip"%string);
           field "last_seen" (let v := get (u "last_seen") r in if is_number v then v else JNull);
           field "startup_app" (let v := get (u "startup_app") r in if is_dict v then v else JNull);
           field "battery" battery;
           field "version_code" (match get (u "version_code") r with JInt n => JInt n | _ => JNull end);
           field "version_name" (text "version_name"%string);
           field "retired" (JBool (match get (u "retired") r with JBool true => true | _ => false end));
           field "identity_kind" (if existsb (eq_str kind) identity_kinds then kind else JStr (u "legacy"))])
  | _ => Ret None
  end.

(** The strings of a list, without empty ones and repetitions. *)
Definition add_serial (serials : list json) (s : json) : list json :=
  if is_str s && truthy s && negb (py_in s serials) then serials ++ [s] else serials.
Definition unique_serials (l : list json) : list json := foldl add_serial [] l.

(** [name.strip()[:MAX_GROUP_NAME_LEN]]. *)
Definition clean_group_name (name : pystr) : pystr := take MAX_GROUP_NAME_LEN (strip name).

Definition add_group (result : list (pystr * list json)) (item : pystr * json) : list (pystr * list json) :=
  let clean_name := clean_group_name item.1 in
  match clean_name with
  | [] => result
  | _ => store_by streq clean_name (match item.2 with JArr l => unique_serials l | _ => [] end) result
  end.
Definition _coerce_groups (value : json) : list (pystr * list json) :=
  match value with JObj items => foldl add_group [] items | _ => [] end.

(** ** Loading and saving *)

Fixpoint coerce_devices (now : json) (devices_raw : list (pystr * json)) (loaded : list (json * record))
    : outcome fault (list (json * record)) :=
  match devices_raw with
  | [] => Ret loaded
  | (serial, value) :: rest =>
      record ← _coerce_record now value;
      coerce_devices now rest (match record with
                               | Some r => store_by py_eq (JStr serial) r loaded
                               | None => loaded
                               end)
  end.

(** The groups and the devices of a file's object, in the wrapped or the flat shape. *)
Definition registry_parts (raw : record) : list (pystr * list json) * record :=
  match get (u "devices") raw with
  | JObj devices_raw => (_coerce_groups (get (u "groups") raw), devices_raw)
  | _ => ([], raw)
  end.

Definition of_outcome {A} (o : outcome fault A) : Handler A := fun s => (o, s).

Definition load_registry {H : host} : Handler unit :=
  change (fun s => s <| device_registry := [] |> <| device_groups := [] |>) ;;
  file ← look registry_path;
  now ← time_time;
  match file with
  | FileMissing | FileUnreadable => mret tt
  | FileNotUtf8 => raise UnicodeDecodeError
  | FileJson (JObj raw) =>
      let '(groups, devices_raw) := registry_parts raw in
      loaded ← of_outcome (coerce_devices now devices_raw []);
      change (fun s => s <| device_registry := loaded |> <| device_groups := groups |>)
  | FileJson _ => mret tt
  end.

(** A string UTF-8 can encode: without surrogates. *)
Definition is_surrogate (c : N) : bool := ((55296 <=? c) && (c <=? 57343))%N.
Definition utf8_encodable (s : pystr) : bool := forallb (fun c => negb (is_surrogate c)) s.
Fixpoint encodable (v : json) : bool :=
  match v with
  | JStr s => utf8_encodable s
  | JArr l => forallb encodable l
  | JObj kvs => forallb (fun '(k, x) => utf8_encodable k && encodable x) kvs
  | _ => true
  end.

Section Saving.
Context {H : host}.

(** A key as [json.dumps] prints it. *)
Definition key_text (k : json) : pystr :=
  match k with
  | JStr s => s
  | JInt n => str_of_int n
  | JBool true => u "true"
  | JBool false => u "false"
  | JFloat f => float_repr f
  | _ => u "null"
  end.

Definition registry_items (s : fleet) : list (pystr * json) :=
  map (fun kr => (key_text kr.1, JObj kr.2)) (device_registry s).
Definition group_items (s : fleet) : list (pystr * json) :=
  map (fun nm => (nm.1, JArr nm.2)) (device_groups s).
Definition registry_payload (s : fleet) : record :=
  [field "devices" (JObj (registry_items s)); field "groups" (JObj (group_items s))].

(** The value of an object's text: a repeated key has its last value. *)
Definition read_back (items : list (pystr * json)) : list (pystr * json) :=
  foldl (fun acc kv => store_by streq kv.1 kv.2 acc) [] items.
Definition saved_value (s : fleet) : json :=
  JObj [field "devices" (JObj (read_back (registry_items s))); field "groups" (JObj (group_items s))].

Definition save_registry : Handler unit :=
  s ← look id;
  n ← gets turns;
  if write_error n then mret tt
  else if negb (encodable (JObj (registry_payload s))) then raise UnicodeEncodeError
  else change (fun s => s <| registry_path := FileJson (saved_value s) |>).

(** ** The lists the consoles are sent *)

Definition registry_get (serial : json) (s : fleet) : option record := lookup_by py_eq serial (device_registry s).
Definition in_devices (serial : json) (s : fleet) : bool :=
  match serial with JStr id => bool_decide (is_Some (lookup_by streq id (devices s))) | _ => false end.

Definition online_row (s : fleet) (id_entry : pystr * online) : record :=
  let d := o_fields id_entry.2 in
  let rec := default [] (registry_get (get (u "device_id") d) s) in
  [field "device_id" (get (u "device_id") d); field "label" (field_or "label" empty_text rec);
   field "model" (get (u "model") d); field "ip" (get (u "ip") d);
   field "status" (field_or "status" (JStr (u "online")) d);
   field "identity_kind" (field_or "identity_kind" (JStr (u "legacy")) d);
   field "startup_app" (get (u "startup_app") d); field "battery" (get (u "battery") d);
   field "last_seen" (get (u "last_seen") rec);
   field "version_code" (get (u "version_code") d); field "version_name" (field_or "version_name" empty_text d)].

Definition is_updating (serial : json) (s : fleet) : bool :=
  match serial with
  | JStr id => match lookup_by streq id (pending_self_updates s) with
               | Some e => match su_phase e with Updating => true | Verifying => false end
               | None => false
               end
  | _ => false
  end.
Definition is_retiring (serial : json) (s : fleet) : bool :=
  match serial with JStr id => bool_decide (is_Some (lookup_by streq id (pending_retires s))) | _ => false end.
Definition offline_status (s : fleet) (serial : json) (rec : record) : pystr :=
  if is_retiring serial s then u "retiring"
  else if truthy (get (u "retired") rec) then u "retired"
  else if is_updating serial s then u "updating"
  else u "offline".
Definition offline_row (s : fleet) (serial_rec : json * record) : record :=
  let '(serial, rec) := serial_rec in
  [field "device_id" serial; field "label" (field_or "label" empty_text rec);
   field "model" (field_or "model" empty_text rec); field "ip" (field_or "ip" empty_text rec);
   field "status" (JStr (offline_status s serial rec));
   field "startup_app" (get (u "startup_app") rec); field "battery" (get (u "battery") rec);
   field "last_seen" (get (u "last_seen") rec);
   field "version_code" (get (u "version_code") rec);
   field "version_name" (field_or "version_name" empty_text rec);
   field "identity_kind" (field_or "identity_kind" (JStr (u "legacy")) rec)].

(** [(e["label"] == "", (e["label"] or e["device_id"]).lower())]. *)
Definition row_key (row : record) : outcome fault (bool * pystr) :=
  let label := get (u "label") row in
  match (if truthy label then label else get (u "device_id") row) with
  | JStr s => Ret (eq_str label [], lower_of s)
  | _ => Raise AttributeError
  end.
Definition keyed_le (a b : bool * pystr * record) : Prop :=
  let '(no_label, name, _) := a in
  let '(no_label', name', _) := b in
  no_label = false /\ no_label' = true \/ no_label = no_label' /\ str_le name name'.
#[export] Instance keyed_le_dec : RelDecision keyed_le.
Proof. intros [[? ?] ?] [[? ?] ?]. unfold keyed_le. apply _. Defined.

Definition device_rows (s : fleet) : list record :=
  map (online_row s) (devices s) ++
  map (offline_row s) (filter (fun kr => in_devices kr.1 s = false) (device_registry s)).
Definition sorted_rows (s : fleet) : outcome fault (list record) :=
  keyed ← mapM (fun row => k ← row_key row; mret (k, row)) (device_rows s);
  mret (merge_sort keyed_le keyed).*2.
Definition build_device_list_msg (s : fleet) : outcome fault json :=
  rows ← sorted_rows s;
  mret (JObj [field "type" (JStr (u "DEVICE_LIST")); field "devices" (JArr (JObj <$> rows))]).

Definition name_le (a b : pystr * list json) : Prop := str_le a.1 b.1.
#[export] Instance name_le_dec : RelDecision name_le := fun a b => str_le_dec a.1 b.1.
Definition build_group_list_msg (s : fleet) : json :=
  JObj [field "type" (JStr (u "GROUP_LIST"));
        field "groups" (JObj (map (fun nm => (nm.1, JArr nm.2)) (merge_sort name_le (device_groups s))))].

Definition broadcast_device_list : Handler unit :=
  s ← look id;
  message ← of_outcome (build_device_list_msg s);
  broadcast message.
Definition broadcast_group_list : Handler unit :=
  message ← look build_group_list_msg;
  broadcast message.
Definition forward_to_admins (payload : list (pystr * json)) : Handler unit := broadcast (JObj payload).
End Saving.
