(* ===== verification/Groups.v ===== *)
(** * Labels and groups (server.py)

    The console's commands on the registry: labelling and forgetting a device, creating,
    renaming and deleting a group, and both ways of assigning members. *)

From S2P Require Import Prelude PyStr Text Json Fleet Registry.
Open Scope Z_scope.

Section Handlers.
Context {H : host}.

(** [(data.get(name) or "").strip()[:limit]]: a true value that is not a string has no
    [strip]. *)
Definition clean_text (name : string) (limit : nat) (data : record) : Handler pystr :=
  let v := get (u name) data in
  if truthy v then match v with JStr s => mret (take limit (strip s)) | _ => raise AttributeError end
  else mret [].
Definition serial_of (data : record) : json := field_or "device_id" empty_text data.

(** [str(v)] of a key, for a message. *)
Definition key_str (k : json) : pystr :=
  match k with JBool true => u "True" | JBool false => u "False" | _ => key_text k end.

Definition label_owner (label : pystr) (serial : json) (s : fleet) : option json :=
  fst <$> head (filter (fun kr => eq_str (get (u "label") kr.2) label && negb (py_eq kr.1 serial))
                  (device_registry s)).
Definition new_record : record :=
  [field "label" empty_text; field "model" empty_text; field "ip" empty_text; field "last_seen" JNull;
   field "startup_app" JNull].
Definition set_label (serial : json) (label : pystr) (s : fleet) : fleet :=
  let rec := default new_record (registry_get serial s) in
  s <| device_registry := store_by py_eq serial (store_by streq (u "label") (JStr label) rec) (device_registry s) |>.

Definition handle_set_device_label (data : record) : Handler unit :=
  let serial := serial_of data in
  label ← clean_text "label" MAX_LABEL_LEN data;
  if negb (truthy serial) then error_reply (u "device_id is required")
  else
    owner ← look (fun s => match label with [] => None | _ => label_owner label serial s end);
    match owner with
    | Some owner =>
        error_reply (u "Label '" ++ label ++ u "' is already assigned to " ++ key_str owner)
    | None =>
        if negb (is_hashable serial) then raise TypeError
        else
          change (set_label serial label) ;;
          save_registry ;;
          send TheAdmin [field "type" (JStr (u "DEVICE_LABEL_SET")); field "device_id" serial;
                         field "label" (JStr label)] ;;
          broadcast_device_list
    end.

(** [pend["timeout_task"].cancel()], when there is a task. *)
Definition cancel_timer (t : option N) (s : fleet) : fleet :=
  match t with Some t => s <| timers := delete t (timers s) |> | None => s end.
Definition drop_retire (serial : json) (s : fleet) : fleet :=
  match serial with
  | JStr id =>
      match lookup_by streq id (pending_retires s) with
      | Some pend =>
          cancel_timer (re_timeout_task pend) (s <| pending_retires := remove_by streq id (pending_retires s) |>)
      | None => s
      end
  | _ => s
  end.
Definition remove_member (serial : json) (nm : pystr * list json) : pystr * list json := (nm.1, py_remove serial nm.2).
Definition forget (serial : json) (s : fleet) : fleet :=
  let s := drop_retire serial (s <| device_registry := remove_by py_eq serial (device_registry s) |>) in
  s <| device_groups := map (remove_member serial) (device_groups s) |>.

Definition handle_forget_device (data : record) : Handler unit :=
  let serial := serial_of data in
  if negb (truthy serial) then error_reply (u "device_id is required")
  else if negb (is_hashable serial) then raise TypeError
  else
    connected ← look (in_devices serial);
    if connected : bool then error_reply (u "Cannot forget an online device; disconnect it first")
    else
      removed ← look (fun s => bool_decide (is_Some (registry_get serial s)));
      groups_changed ← look (fun s => existsb (fun nm => py_in serial nm.2) (device_groups s));
      change (forget serial) ;;
      (if (removed || groups_changed : bool) then save_registry else mret tt) ;;
      send TheAdmin [field "type" (JStr (u "DEVICE_FORGOTTEN")); field "device_id" serial] ;;
      broadcast_device_list ;;
      if groups_changed : bool then broadcast_group_list else mret tt.

Definition has_group (name : pystr) (s : fleet) : bool := bool_decide (is_Some (lookup_by streq name (device_groups s))).
Definition group_reply (type : string) (fields : list (pystr * json)) : Handler unit :=
  send TheAdmin (field "type" (JStr (u type)) :: fields).

Definition handle_create_group (data : record) : Handler unit :=
  name ← clean_text "name" MAX_GROUP_NAME_LEN data;
  if streq name [] then error_reply (u "Group name is required")
  else
    exists_ ← look (has_group name);
    if exists_ : bool then error_reply (u "Group '" ++ name ++ u "' already exists")
    else
      change (fun s => s <| device_groups := store_by streq name [] (device_groups s) |>) ;;
      save_registry ;;
      group_reply "GROUP_CREATED" [field "name" (JStr name)] ;;
      broadcast_group_list.

(** [device_groups[new_name] = device_groups.pop(name)]. *)
Definition rename_group (name new_name : pystr) (s : fleet) : fleet :=
  let members := default [] (lookup_by streq name (device_groups s)) in
  s <| device_groups := store_by streq new_name members (remove_by streq name (device_groups s)) |>.

Definition handle_rename_group (data : record) : Handler unit :=
  name ← clean_text "name" MAX_GROUP_NAME_LEN data;
  new_name ← clean_text "new_name" MAX_GROUP_NAME_LEN data;
  if streq name [] || streq new_name [] then error_reply (u "Both name and new_name are required")
  else
    known ← look (has_group name);
    taken ← look (has_group new_name);
    if negb known then error_reply (u "Group '" ++ name ++ u "' does not exist")
    else if negb (streq new_name name) && taken then error_reply (u "Group '" ++ new_name ++ u "' already exists")
    else
      change (rename_group name new_name) ;;
      save_registry ;;
      group_reply "GROUP_RENAMED" [field "name" (JStr name); field "new_name" (JStr new_name)] ;;
      broadcast_group_list.

Definition handle_delete_group (data : record) : Handler unit :=
  name ← clean_text "name" MAX_GROUP_NAME_LEN data;
  if streq name [] then error_reply (u "Group name is required")
  else
    known ← look (has_group name);
    (if known : bool then
       change (fun s => s <| device_groups := remove_by streq name (device_groups s) |>) ;;
       save_registry
     else mret tt) ;;
    group_reply "GROUP_DELETED" [field "name" (JStr name)] ;;
    broadcast_group_list.

(** The names asked for, cleaned, without empty ones and repetitions. *)
Definition add_target (target_names : list pystr) (raw_name : json) : list pystr :=
  match raw_name with
  | JStr raw_name =>
      let clean := clean_group_name raw_name in
      if negb (streq clean []) && bool_decide (clean ∉ target_names) then target_names ++ [clean] else target_names
  | _ => target_names
  end.
Definition target_groups (requested : list json) : list pystr := foldl add_target [] requested.

(** One group of the loop: the device joins it, leaves it, or stays. *)
Definition assign_member (serial : json) (target_names : list pystr) (nm : pystr * list json) : pystr * list json :=
  let '(name, members) := nm in
  let in_group := py_in serial members in
  if bool_decide (name ∈ target_names) && negb in_group then (name, members ++ [serial])
  else if negb (bool_decide (name ∈ target_names)) && in_group then (name, py_remove serial members)
  else (name, members).

Definition handle_set_device_groups (data : record) : Handler unit :=
  let serial := serial_of data in
  if negb (truthy serial) then error_reply (u "device_id is required")
  else
    match field_or "groups" (JArr []) data with
    | JArr requested =>
        let target_names := target_groups requested in
        unknown ← look (fun s => filter (fun n => has_group n s = false) target_names);
        match unknown with
        | _ :: _ => error_reply (u "Unknown group(s): " ++ intercalate (u ", ") unknown)
        | [] =>
            change (fun s => s <| device_groups := map (assign_member serial target_names) (device_groups s) |>) ;;
            save_registry ;;
            group_reply "DEVICE_GROUPS_SET" [field "device_id" serial; field "groups" (JArr (JStr <$> target_names))] ;;
            broadcast_group_list
        end
    | _ => error_reply (u "groups must be a list of group names")
    end.

Definition handle_set_group_members (data : record) : Handler unit :=
  name ← clean_text "name" MAX_GROUP_NAME_LEN data;
  if streq name [] then error_reply (u "Group name is required")
  else
    known ← look (has_group name);
    if negb known then error_reply (u "Group '" ++ name ++ u "' does not exist")
    else
      match field_or "members" (JArr []) data with
      | JArr requested =>
          let members := unique_serials requested in
          change (fun s => s <| device_groups := store_by streq name members (device_groups s) |>) ;;
          save_registry ;;
          group_reply "GROUP_MEMBERS_SET" [field "name" (JStr name); field "members" (JArr members)] ;;
          broadcast_group_list
      | _ => error_reply (u "members must be a list of serials")
      end.

(** The registry's commands of [admin_ws_handler]. *)
Definition registry_command (data : record) : option (Handler unit) :=
  let msg_type := get (u "type") data in
  let says name := eq_str msg_type (u name) in
  if says "GET_DEVICE_LIST"%string then
    Some (s ← look id;
          message ← of_outcome (build_device_list_msg s);
          match message with JObj payload => send TheAdmin payload | _ => mret tt end)
  else if says "SET_DEVICE_LABEL"%string then Some (handle_set_device_label data)
  else if says "FORGET_DEVICE"%string then Some (handle_forget_device data)
  else if says "CREATE_GROUP"%string then Some (handle_create_group data)
  else if says "RENAME_GROUP"%string then Some (handle_rename_group data)
  else if says "DELETE_GROUP"%string then Some (handle_delete_group data)
  else if says "SET_DEVICE_GROUPS"%string then Some (handle_set_device_groups data)
  else if says "SET_GROUP_MEMBERS"%string then Some (handle_set_group_members data)
  else None.
End Handlers.
