(* ===== verification/Membership.v ===== *)
(** * What the registry's commands keep

    Well-formed groups and unique labels are invariants of every command, whatever the
    consoles send; the assignments and removals do what they say; a refused command
    changes nothing. *)

From S2P Require Import Prelude PyStr Text Json Policy Fleet Registry Groups.
Open Scope Z_scope.

(** ** Members of a group *)

Lemma py_eq_str x t : py_eq x (JStr t) = eq_str x t.
Proof. by destruct x. Qed.
Lemma py_eq_str_true x t : py_eq x (JStr t) = true <-> x = JStr t.
Proof. rw py_eq_str. apply eq_str_spec. Qed.
Lemma py_in_str t l : py_in (JStr t) l = true <-> JStr t ∈ l.
Proof.
  rw /py_in existsb_exists. setoid_rewrite py_eq_str_true. rw list_elem_of_In. naive_solver.
Qed.
Lemma py_in_false v l : py_in v l = false <-> Forall (fun x => py_eq x v = false) l.
Proof.
  induction l as [|x l IH]; simpl; [by split; [constructor|]|]. rw Forall_cons orb_false_iff IH. done.
Qed.

(** Members are true values, each once. *)
Definition members_ok (l : list json) : Prop :=
  Forall (fun x => truthy x = true) l /\ ForallOrdPairs (fun x y => py_eq x y = false) l.

Lemma pairs_snoc {A} (R : A -> A -> Prop) l x :
  ForallOrdPairs R l -> Forall (fun y => R y x) l -> ForallOrdPairs R (l ++ [x]).
Proof.
  induction 1 as [|y l Hy Hl IH]; simpl; [repeat constructor|].
  intros [Hyx Hlx]%Forall_cons. constructor; [|by apply IH].
  apply Forall_app. split; [done|by constructor].
Qed.
Lemma members_snoc l x : members_ok l -> truthy x = true -> py_in x l = false -> members_ok (l ++ [x]).
Proof.
  intros [Ht Hp] Hx Hin%py_in_false. split; [|by apply pairs_snoc].
  apply Forall_app. split; [done|by constructor].
Qed.
Lemma py_remove_sublist v l : py_remove v l `sublist_of` l.
Proof.
  induction l as [|x l IH]; simpl; [done|]. destruct (py_eq x v); [by constructor|by constructor].
Qed.
Lemma pairs_sublist {A} (R : A -> A -> Prop) l k : l `sublist_of` k -> ForallOrdPairs R k -> ForallOrdPairs R l.
Proof.
  induction 1 as [|x l k Hlk IH|x l k Hlk IH]; [done| |]; inversion 1 as [|? ? Hx Hk]; subst; [|by apply IH].
  constructor; [|by apply IH]. apply Forall_forall. intros y Hy. rw Forall_forall in Hx. apply Hx.
  by eapply elem_of_sublist.
Qed.
Lemma members_remove v l : members_ok l -> members_ok (py_remove v l).
Proof.
  intros [Ht Hp]. pose proof (py_remove_sublist v l) as Hs. split; [|by eapply pairs_sublist].
  apply Forall_forall. intros y Hy. rw Forall_forall in Ht. apply Ht. by eapply elem_of_sublist.
Qed.
Lemma members_nodup l : members_ok l -> forall t, JStr t ∈ l -> JStr t ∉ py_remove (JStr t) l.
Proof.
  intros [_ Hp] t. induction Hp as [|x l Hx Hl IH]; [by intros ?%elem_of_nil|]. simpl.
  destruct (py_eq x (JStr t)) eqn:E.
  - apply py_eq_str_true in E as ->. intros _ Hin. rw Forall_forall in Hx.
    specialize (Hx _ Hin). simpl in Hx. by rw streq_refl in Hx.
  - intros [<-|Hin]%elem_of_cons; [simpl in E; by rw streq_refl in E|].
    rw elem_of_cons. intros [<-|H]; [|by apply IH]. simpl in E. by rw streq_refl in E.
Qed.
Lemma py_remove_other v l x : x ∈ l -> py_eq x v = false -> x ∈ py_remove v l.
Proof.
  induction l as [|y l IH]; [done|]. intros [<-|Hx]%elem_of_cons Hv; simpl.
  - rw Hv. left.
  - destruct (py_eq y v); [done|right; by apply IH].
Qed.

Lemma add_serial_ok l s : members_ok l -> members_ok (add_serial l s).
Proof.
  intros Hl. rw /add_serial. destruct (is_str s && truthy s && negb (py_in s l)) eqn:E; [|done].
  apply andb_true_iff in E as [[_ Ht]%andb_true_iff Hin%negb_true_iff]. by apply members_snoc.
Qed.
Lemma unique_serials_ok l : members_ok (unique_serials l).
Proof.
  rw /unique_serials. assert (members_ok []) as H0 by (split; constructor).
  generalize dependent (@nil json). induction l as [|x l IH]; intros acc Hacc; simpl; [done|].
  by apply IH, add_serial_ok.
Qed.

(** ** Well-formed groups *)

Definition group_name_ok (name : pystr) : Prop := name <> [] /\ (length name <= MAX_GROUP_NAME_LEN)%nat.
Definition group_ok (nm : pystr * list json) : Prop := group_name_ok nm.1 /\ members_ok nm.2.
Definition groups_ok (gs : list (pystr * list json)) : Prop := NoDup gs.*1 /\ Forall group_ok gs.

Lemma clean_name_ok name : take MAX_GROUP_NAME_LEN name <> [] -> group_name_ok (take MAX_GROUP_NAME_LEN name).
Proof. split; [done|]. rw length_take. lia. Qed.
Lemma groups_store name members gs :
  groups_ok gs -> group_name_ok name -> members_ok members -> groups_ok (store_by streq name members gs).
Proof.
  intros [Hn Hg] Hname Hm. split.
  - rw store_keys. case_bool_decide; [done|]. apply NoDup_app. split_and!; [done| |apply NoDup_singleton].
    set_solver.
  - apply Forall_forall. intros [k v] [[-> ->]|Hin]%store_in; [done|]. rw Forall_forall in Hg. by apply Hg.
Qed.
Lemma groups_remove name gs : groups_ok gs -> groups_ok (remove_by streq name gs).
Proof.
  intros [Hn Hg]. split; [by apply remove_nodup|].
  apply Forall_forall. intros [k v] Hin%remove_in. rw Forall_forall in Hg. by apply Hg.
Qed.
Lemma groups_map (f : pystr * list json -> pystr * list json) gs :
  groups_ok gs -> (forall nm, (f nm).1 = nm.1) -> (forall nm, members_ok nm.2 -> members_ok (f nm).2) ->
  groups_ok (map f gs).
Proof.
  intros [Hn Hg] Hf Hm. split.
  - enough ((map f gs).*1 = gs.*1) as -> by done. clear -Hf. induction gs; csimpl; [done|]. by rw Hf IHgs.
  - rw Forall_forall in Hg. apply Forall_forall. intros nm ([n m] & -> & Hin)%list_elem_of_fmap.
    destruct (Hg _ Hin) as [? ?]. split; [by rw Hf|by apply Hm].
Qed.
Lemma groups_lookup name gs members : groups_ok gs -> lookup_by streq name gs = Some members -> members_ok members.
Proof. intros [_ Hg] Hin%lookup_in. rw Forall_forall in Hg. by destruct (Hg _ Hin). Qed.

Lemma assign_member_fst serial targets nm : (assign_member serial targets nm).1 = nm.1.
Proof. destruct nm. simpl. by repeat case_match. Qed.
Lemma assign_member_ok serial targets nm :
  truthy serial = true -> members_ok nm.2 -> members_ok (assign_member serial targets nm).2.
Proof.
  intros Ht Hm. destruct nm as [name members]. simpl in *.
  destruct (bool_decide _ && _) eqn:E1; [|destruct (negb _ && _); [by apply members_remove|done]].
  apply andb_true_iff in E1 as [_ Hin%negb_true_iff]. by apply members_snoc.
Qed.

(** The file's groups are well formed whatever it holds. *)
Lemma coerced_groups_ok value : groups_ok (_coerce_groups value).
Proof.
  assert (groups_ok []) as H0 by (split; constructor).
  destruct value as [| | | | | |items]; try done. simpl. generalize dependent (@nil (pystr * list json)).
  induction items as [|[name v] items IH]; intros acc Hacc; simpl; [done|]. apply IH.
  rw /add_group /=. destruct (clean_group_name name) as [|c cs] eqn:E; [done|].
  apply groups_store; [done| |destruct v; try apply unique_serials_ok; by split; constructor].
  rw -E. apply clean_name_ok. change (clean_group_name name <> []). by rw E.
Qed.

(** ** Unique labels *)

Definition labelled (r : record) (label : pystr) : Prop := get (u "label") r = JStr label.
Definition apart (a b : json * record) : Prop :=
  py_eq a.1 b.1 = false /\ forall label, label <> [] -> labelled a.2 label -> ~ labelled b.2 label.
(** Serials are keys, and no two devices share a label. *)
Definition labels_ok (reg : list (json * record)) : Prop := ForallOrdPairs apart reg.

Lemma store_py_in {V} t (v : V) m k' v' :
  (k', v') ∈ store_by py_eq (JStr t) v m -> (k' = JStr t /\ v' = v) \/ (k', v') ∈ m.
Proof.
  induction m as [|[k2 v2] m IH]; simpl.
  - intros [= -> ->]%list_elem_of_singleton. by left.
  - destruct (py_eq k2 (JStr t)) eqn:E.
    + apply py_eq_str_true in E as ->. rw elem_of_cons. intros [[= -> ->]|?]; [by left|right; by right].
    + rw elem_of_cons. intros [[= -> ->]|[?|?]%IH]; [right; left|by left|right; by right].
Qed.
Lemma labels_store t r l reg :
  labels_ok reg -> labelled r l ->
  (forall kr, kr ∈ reg -> kr.1 <> JStr t -> l <> [] -> ~ labelled kr.2 l) ->
  labels_ok (store_by py_eq (JStr t) r reg).
Proof.
  intros Hreg Hr. induction Hreg as [|[k v] reg Hk Hreg IH]; intros Hfree; simpl; [repeat constructor|].
  rw Forall_forall in Hk. destruct (py_eq k (JStr t)) eqn:E.
  - apply py_eq_str_true in E as ->. constructor; [|done]. apply Forall_forall. intros [k2 v2] Hin.
    destruct (Hk _ Hin) as [Hkk _]. split; [done|]. intros label Hl Hlab. simpl in Hlab, Hkk.
    assert (label = l) as -> by (rw /labelled in Hr, Hlab; congruence).
    apply (Hfree (k2, v2)); [by right| |done]. simpl. intros ->. by rw streq_refl in Hkk.
  - assert (k <> JStr t) as Hkt by (intros ->; simpl in E; by rw streq_refl in E).
    constructor; [|apply IH; intros kr Hkr; apply Hfree; by right].
    apply Forall_forall. intros [k2 v2] [[-> ->]|Hin]%store_py_in; [|by apply Hk].
    split; [done|]. intros label Hl Hv Hlab. simpl in Hv, Hlab.
    assert (label = l) as -> by (rw /labelled in Hr, Hlab; congruence).
    apply (Hfree (k, v)); [left|done..].
Qed.
Lemma labels_sublist reg reg' : reg `sublist_of` reg' -> labels_ok reg' -> labels_ok reg.
Proof. apply pairs_sublist. Qed.
Lemma remove_by_sublist {K V} (eqb : K -> K -> bool) k (m : list (K * V)) : remove_by eqb k m `sublist_of` m.
Proof. induction m as [|[k2 v2] m IH]; simpl; [done|]. by destruct (eqb k2 k); constructor. Qed.

Lemma assoc_lookup key (r : record) : assoc_get key r = lookup_by streq key r.
Proof.
  induction r as [|[k v] r IH]; simpl; [done|]. rw IH. rw /streq. by repeat case_bool_decide.
Qed.
Lemma get_store key v (r : record) : get key (store_by streq key v r) = v.
Proof. by rw /get assoc_lookup lookup_store streq_refl. Qed.

Lemma set_label_ok t label s :
  labels_ok (device_registry s) ->
  match label with [] => None | _ => label_owner label (JStr t) s end = None ->
  labels_ok (device_registry (set_label (JStr t) label s)).
Proof.
  intros Hreg Hown. simpl. eapply labels_store; [done|apply get_store|].
  intros kr Hin Hkey Hl Hlab. destruct label as [|c label]; [done|].
  rw /label_owner in Hown. destruct (filter _ _) as [|x l] eqn:E; [|done].
  assert (kr ∈ []) as []%elem_of_nil. rw -E. apply list_elem_of_filter. split; [|done].
  rw /labelled in Hlab. rw Hlab. apply Is_true_true, andb_true_iff. split; [apply streq_refl|].
  apply negb_true_iff, not_true_is_false. by intros ?%py_eq_str_true.
Qed.

(** ** The invariant *)

Definition registry_ok (s : fleet) : Prop := groups_ok (device_groups s) /\ labels_ok (device_registry s).

Lemma drop_retire_same serial s :
  device_groups (drop_retire serial s) = device_groups s /\ device_registry (drop_retire serial s) = device_registry s.
Proof.
  rw /drop_retire. destruct serial; try done. destruct (lookup_by _ _ _) as [p|]; [|done].
  by destruct (re_timeout_task p).
Qed.
Lemma forget_ok serial s : registry_ok s -> registry_ok (forget serial s).
Proof.
  intros [Hg Hl]. rw /forget. set (s0 := s <| device_registry := _ |>).
  destruct (drop_retire_same serial s0) as [Eg Er]. split; simpl.
  - rw Eg. apply groups_map; [done|done|]. intros nm Hm. by apply members_remove.
  - rw Er. eapply labels_sublist; [apply remove_by_sublist|done].
Qed.

(** ** Handlers, step by step *)

Section Steps.
Context {H : host} (I : fleet -> Prop) (Hothers : forall n s, I s -> I (others n s)).

Definition leaves {A} (m : Handler A) (s : desk) : Prop := I (memory (m s).2).

Lemma leaves_keeps {A} (m : Handler A) s : keeps I m -> I (memory s) -> leaves m s.
Proof. intros Hm. apply Hm. Qed.
Lemma leaves_look {A B} (f : fleet -> A) (k : A -> Handler B) s :
  leaves (k (f (memory s))) s -> leaves (look f ≫= k) s.
Proof. done. Qed.
Lemma leaves_change {B} f (k : unit -> Handler B) s :
  leaves (k tt) (s <| memory := f (memory s) |>) -> leaves (change f ≫= k) s.
Proof. done. Qed.
Lemma keeps_of_leaves {A} (m : Handler A) : (forall s, I (memory s) -> leaves m s) -> keeps I m.
Proof. intros Hm s. apply Hm. Qed.

Lemma keeps_of_outcome {A} (o : outcome fault A) : keeps I (of_outcome o).
Proof. by intros s. Qed.
Lemma keeps_group_reply type fields : keeps I (group_reply type fields).
Proof. by apply fleet_send. Qed.
Lemma keeps_clean_text name limit data : keeps I (clean_text name limit data).
Proof. unfold clean_text. repeat case_match; apply holds_ret || apply holds_raise. Qed.

Context (Hpath : forall s p, I s -> I (s <| registry_path := p |>)).
Lemma keeps_save : keeps I save_registry.
Proof.
  intros s Hs. rw /save_registry. apply (leaves_look id). apply leaves_keeps; [|done].
  apply holds_bind; [apply holds_gets|intros n]. repeat case_match; [apply holds_ret|apply holds_raise|].
  intros s1 Hs1. by apply Hpath.
Qed.
Lemma keeps_device_list : keeps I broadcast_device_list.
Proof.
  unfold broadcast_device_list. apply holds_bind; [apply holds_look|intros s].
  apply holds_bind; [apply keeps_of_outcome|intros m; by apply keeps_broadcast].
Qed.
Lemma keeps_group_list : keeps I broadcast_group_list.
Proof. unfold broadcast_group_list. apply holds_bind; [apply holds_look|intros m; by apply keeps_broadcast]. Qed.
End Steps.

#[export] Hint Resolve keeps_of_outcome keeps_clean_text keeps_group_reply : keeps.
#[export] Hint Resolve keeps_save keeps_device_list keeps_group_list : keeps.

(** Handlers whose changes keep an invariant of the groups alone. *)
Section Commands.
Context {H : host} (Hothers : forall n s, registry_ok s -> registry_ok (others n s)).

Lemma registry_ok_path s p : registry_ok s -> registry_ok (s <| registry_path := p |>).
Proof. done. Qed.
Lemma registry_ok_groups s gs : registry_ok s -> groups_ok gs -> registry_ok (s <| device_groups := gs |>).
Proof. by intros [_ ?]. Qed.
Local Hint Resolve registry_ok_path : keeps.

Lemma clean_text_bind {B} name limit data (k : pystr -> Handler B) :
  (forall text, keeps registry_ok (k (take limit text))) -> keeps registry_ok (clean_text name limit data ≫= k).
Proof.
  intros Hk s Hs. rw /clean_text /mbind /M_bind. destruct (truthy _).
  - destruct (get _ _); try done. by apply Hk.
  - pose proof (Hk [] s Hs) as H0. by rw take_nil in H0.
Qed.

Lemma create_group_keeps data : keeps registry_ok (handle_create_group data).
Proof.
  apply clean_text_bind. intros text. case_match eqn:E; [auto with keeps|].
  intros s Hs. apply leaves_look. case_match; [apply leaves_keeps; auto with keeps|].
  apply leaves_change, leaves_keeps; [auto 10 with keeps|].
  apply registry_ok_groups; [done|]. destruct Hs as [Hg _]. apply groups_store; [done| |by split; constructor].
  apply clean_name_ok. intros Hn. by rw Hn in E.
Qed.

Lemma groups_found name gs : groups_ok gs -> members_ok (default [] (lookup_by streq name gs)).
Proof.
  intros Hg. destruct (lookup_by streq name gs) eqn:E; [by eapply groups_lookup|by split; constructor].
Qed.

Lemma rename_group_keeps data : keeps registry_ok (handle_rename_group data).
Proof.
  apply clean_text_bind; intros name. apply clean_text_bind; intros new_name.
  case_match eqn:E; [auto with keeps|]. apply orb_false_iff in E as [_ E].
  intros s Hs. do 2 apply leaves_look. do 2 (case_match; [apply leaves_keeps; auto with keeps|]).
  apply leaves_change, leaves_keeps; [auto 10 with keeps|].
  apply registry_ok_groups; [done|]. destruct Hs as [Hg _].
  apply groups_store; [by apply groups_remove| |by apply groups_found].
  apply clean_name_ok. intros Hn. by rw Hn in E.
Qed.

Lemma delete_group_keeps data : keeps registry_ok (handle_delete_group data).
Proof.
  apply clean_text_bind; intros name. case_match; [auto with keeps|].
  intros s Hs. apply leaves_look, leaves_keeps; [|done]. apply holds_bind; [|intros; auto 10 with keeps].
  destruct (has_group _ _); [|auto with keeps]. apply holds_bind; [|auto with keeps].
  intros s1 [Hg Hl]. apply registry_ok_groups; [done|]. by apply groups_remove.
Qed.

Lemma set_group_members_keeps data : keeps registry_ok (handle_set_group_members data).
Proof.
  apply clean_text_bind; intros name. case_match eqn:E; [auto with keeps|].
  intros s Hs. apply leaves_look. case_match; [apply leaves_keeps; auto with keeps|].
  destruct (field_or _ _ _); try (apply leaves_keeps; auto with keeps; fail).
  apply leaves_change, leaves_keeps; [auto 10 with keeps|].
  apply registry_ok_groups; [done|]. destruct Hs as [Hg _].
  apply groups_store; [done| |apply unique_serials_ok].
  apply clean_name_ok. intros Hn. by rw Hn in E.
Qed.

Lemma set_device_groups_keeps data : keeps registry_ok (handle_set_device_groups data).
Proof.
  unfold handle_set_device_groups. destruct (negb (truthy _)) eqn:Ht; [auto with keeps|apply negb_false_iff in Ht].
  destruct (field_or _ _ _); try (auto with keeps; fail).
  intros s Hs. apply leaves_look. case_match; [|apply leaves_keeps; auto with keeps].
  apply leaves_change, leaves_keeps; [auto 10 with keeps|]. destruct Hs as [Hg Hl].
  apply registry_ok_groups; [done|].
  apply groups_map; [done| |]; intros nm; [apply assign_member_fst|by apply assign_member_ok].
Qed.

Lemma forget_device_keeps data : keeps registry_ok (handle_forget_device data).
Proof.
  unfold handle_forget_device. case_match; [auto with keeps|]. case_match; [auto with keeps|].
  intros s Hs. apply leaves_look. case_match; [apply leaves_keeps; auto with keeps|].
  do 2 apply leaves_look. apply leaves_change, leaves_keeps; [|by apply forget_ok].
  apply holds_bind; [|intros _]; [case_match; auto with keeps|].
  do 2 (apply holds_bind; [auto with keeps|intros _]). case_match; auto with keeps.
Qed.

Lemma set_device_label_keeps data :
  is_str (serial_of data) = true -> keeps registry_ok (handle_set_device_label data).
Proof.
  intros Hstr. apply clean_text_bind; intros label. case_match; [auto with keeps|].
  destruct (serial_of data) as [| | | |t| |]; try done.
  intros s Hs. apply leaves_look. cbv beta.
  destruct (match take MAX_LABEL_LEN label with [] => None | _ :: _ => label_owner _ _ _ end) eqn:E.
  { apply leaves_keeps; auto with keeps. }
  change (negb (is_hashable (JStr t))) with false. cbv iota.
  apply leaves_change, leaves_keeps; [auto 10 with keeps|]. destruct Hs as [Hg Hl].
  split; [done|]. by apply set_label_ok.
Qed.
End Commands.

(** C7: Whatever the consoles send and whenever the other tasks run, the groups stay well
    formed: names are distinct, not empty and at most 64 characters long, members are
    true values without repetition, and no two devices share a label, given that the
    device to label is named by a string.  What is loaded from the file is well formed
    whatever the file holds. *)
Theorem groups_stay_well_formed {H : host} :
  (forall n s, registry_ok s -> registry_ok (others n s)) ->
  (forall data m, registry_command data = Some m ->
     (get (u "type") data = JStr (u "SET_DEVICE_LABEL") -> is_str (serial_of data) = true) -> keeps registry_ok m) /\
  (forall s, groups_ok (device_groups (memory (load_registry s).2))).
Proof.
  intros Hothers. split.
  - intros data m. rw /registry_command.
    repeat (case_match; [intros [= <-] Hlabel|]); [| |
      by apply forget_device_keeps|by apply create_group_keeps|by apply rename_group_keeps|
      by apply delete_group_keeps|by apply set_device_groups_keeps|by apply set_group_members_keeps|done].
    + repeat (apply holds_bind; [auto with keeps|intros ?]). case_match; auto with keeps.
    + apply set_device_label_keeps; [done|]. by apply Hlabel, eq_str_spec.
  - intros s. rw /load_registry. destruct (registry_path (memory s)) as [| | |v] eqn:E;
      rw /mbind /M_bind /= E /=; try (by split; constructor).
    destruct v as [| | | | | |raw]; try (by split; constructor).
    destruct (registry_parts raw) as [groups raw'] eqn:Ep. rw /of_outcome /=.
    destruct (coerce_devices _ _ _); simpl; [|by split; constructor].
    rw /registry_parts in Ep. destruct (get _ _); injection Ep as <- <-;
      try apply coerced_groups_ok; by split; constructor.
Qed.
Lemma groups_stay_well_formed_witness :
  registry_ok empty_fleet /\
  keeps registry_ok (handle_create_group (H := quiet_host) [field "name" (JStr (u "floor 1"))]).
Proof.
  split; [repeat split; constructor|].
  destruct (groups_stay_well_formed (H := quiet_host)) as [Hkeeps _]; [by intros n s|].
  apply (Hkeeps [field "type" (JStr (u "CREATE_GROUP")); field "name" (JStr (u "floor 1"))]); [reflexivity|].
  intros E. discriminate E.
Defined.

(** ** What the commands do *)

Section Alone.
Context {H : host} (Halone : alone H).

(** Replies, broadcasts and the file leave the dictionaries as they are. *)
Definition unchanged (s0 s : fleet) : Prop := forall p, s <| registry_path := p |> = s0 <| registry_path := p |>.
Lemma unchanged_refl s : unchanged s s.
Proof. done. Qed.
Lemma unchanged_path s0 s p : unchanged s0 s -> unchanged s0 (s <| registry_path := p |>).
Proof. intros Hs q. exact (Hs q). Qed.
Lemma unchanged_others s0 n s : unchanged s0 s -> unchanged s0 (others n s).
Proof. by rw Halone. Qed.
Lemma unchanged_fields s0 s :
  unchanged s0 s -> device_groups s = device_groups s0 /\ device_registry s = device_registry s0 /\
                    pending_retires s = pending_retires s0 /\ timers s = timers s0.
Proof.
  intros Hs. specialize (Hs FileMissing). destruct s, s0. injection Hs as -> -> -> -> -> -> -> -> ->. done.
Qed.

(** What follows a change settles nothing else. *)
Lemma after_change {A} f (tail : unit -> Handler A) s :
  (forall s0, keeps (unchanged s0) (tail tt)) -> unchanged (f (memory s)) (memory ((change f ≫= tail) s).2).
Proof. intros Ht. by apply (Ht (f (memory s))). Qed.
Lemma after_nothing {A} (m : Handler A) s :
  (forall s0, keeps (unchanged s0) m) -> unchanged (memory s) (memory (m s).2).
Proof. intros Hm. by apply Hm. Qed.
End Alone.
#[export] Hint Resolve unchanged_others unchanged_path : keeps.

(** The groups a request names. *)
Lemma target_groups_spec requested name :
  name ∈ target_groups requested <->
  name <> [] /\ exists raw, JStr raw ∈ requested /\ name = clean_group_name raw.
Proof.
  rw /target_groups. enough (forall acc, name ∈ foldl add_target acc requested <->
    name ∈ acc \/ name <> [] /\ exists raw, JStr raw ∈ requested /\ name = clean_group_name raw) as Hall
    by (rw Hall; set_solver).
  induction requested as [|r l IH]; intros acc; simpl; [set_solver|]. rw IH.
  setoid_rewrite elem_of_cons. destruct r as [| | | |raw| |]; simpl;
    try (split; [naive_solver|]; intros [?|(? & x & [?|?] & ?)]; naive_solver).
  destruct (streq (clean_group_name raw) []) eqn:E.
  - apply streq_eq in E. simpl. split; [naive_solver|].
    intros [?|(Hn & x & [[= ->]|?] & ?)]; [by left|congruence|naive_solver].
  - assert (clean_group_name raw <> []) as Hraw by (intros Hr; by rw Hr in E).
    simpl. case_bool_decide; rw ?elem_of_app ?list_elem_of_singleton.
    + split; [|intros [?|(? & x & [[= ->]|?] & ?)]; naive_solver]. naive_solver.
    + split; [|intros [?|(? & x & [[= ->]|?] & ->)]; naive_solver]. naive_solver.
Qed.

Lemma assign_member_in t targets nm :
  members_ok nm.2 -> (JStr t ∈ (assign_member (JStr t) targets nm).2 <-> nm.1 ∈ targets).
Proof.
  intros Hm. destruct nm as [name members]. simpl in *. destruct (py_in (JStr t) members) eqn:E.
  - apply py_in_str in E as Hin. rw andb_false_r andb_true_r. case_bool_decide; simpl; [done|].
    split; [|done]. intros Hin'. exfalso. by apply (members_nodup members Hm t Hin).
  - rw andb_true_r andb_false_r. case_bool_decide; simpl; [rw elem_of_app; set_solver|].
    rw -py_in_str. split; congruence.
Qed.
Lemma assign_member_others t targets nm x :
  x <> JStr t -> (x ∈ (assign_member (JStr t) targets nm).2 <-> x ∈ nm.2).
Proof.
  intros Hx. destruct nm as [name members]. simpl. destruct (bool_decide _ && _); [|destruct (negb _ && _); [split|done]]; simpl.
  - rw elem_of_app list_elem_of_singleton. naive_solver.
  - intros Hin. eapply elem_of_sublist; [done|apply py_remove_sublist].
  - intros Hin. apply py_remove_other; [done|]. apply not_true_is_false. by rw py_eq_str_true.
Qed.

(** Assigning a device to groups that all exist puts it into exactly the groups the
    request names, and changes neither the groups nor the membership of any other
    device; a request that names a group that does not exist changes nothing. *)
Theorem device_groups_assigned {H : host} (Halone : alone H) data t requested s :
  serial_of data = JStr t -> t <> [] -> field_or "groups" (JArr []) data = JArr requested ->
  groups_ok (device_groups (memory s)) ->
  let before := device_groups (memory s) in
  let after := device_groups (memory (handle_set_device_groups data s).2) in
  (Forall (fun name => has_group name (memory s) = true) (target_groups requested) ->
     map fst after = map fst before /\
     forall i name members, before !! i = Some (name, members) -> exists members', after !! i = Some (name, members') /\
       (JStr t ∈ members' <-> exists raw, JStr raw ∈ requested /\ name = clean_group_name raw) /\
       (forall x, x <> JStr t -> (x ∈ members' <-> x ∈ members))) /\
  (~ Forall (fun name => has_group name (memory s) = true) (target_groups requested) -> after = before).
Proof.
  intros Es Ht Eg [Hnd Hg]. cbv zeta. rw /handle_set_device_groups Es Eg.
  assert (truthy (JStr t) = true) as -> by by destruct t. change (negb true) with false. cbv iota.
  rw look_does. destruct (filter _ _) as [|bad rest] eqn:Ef.
  - split.
    + intros _.
      match goal with |- context [memory ((change ?f ≫= ?tail) s).2] =>
        assert (unchanged (f (memory s)) (memory ((change f ≫= tail) s).2)) as Hu
          by (apply (after_change f tail s); intros s0; auto 10 with keeps)
      end.
      apply unchanged_fields in Hu as [-> _]. simpl. split.
      * clear. induction (device_groups (memory s)) as [|nm gs IH]; csimpl; [done|]. by rw assign_member_fst IH.
      * intros i name members Hi. exists (assign_member (JStr t) (target_groups requested) (name, members)).2.
        assert (group_ok (name, members)) as [Hname Hm].
        { rw Forall_forall in Hg. by apply Hg, list_elem_of_lookup_2 with i. }
        split_and!.
        -- rw list_lookup_fmap Hi. transitivity (Some (assign_member (JStr t) (target_groups requested) (name, members))); [done|].
           pose proof (assign_member_fst (JStr t) (target_groups requested) (name, members)) as Hf.
           destruct (assign_member _ _ _) as [n m]. simpl in Hf. by subst n.
        -- rw assign_member_in //= target_groups_spec. destruct Hname as [Hne _]. simpl in Hne. naive_solver.
        -- intros x Hx. by apply (assign_member_others t _ (name, members)).
    + intros []. apply Forall_forall. intros n Hn. destruct (has_group n (memory s)) eqn:E; [done|].
      assert (n ∈ []) as []%elem_of_nil. rw -Ef. by apply list_elem_of_filter.
  - split.
    + intros Hall. assert (bad ∈ bad :: rest) as Hb by left. rw -Ef in Hb.
      apply list_elem_of_filter in Hb as [Hb Hin]. rw Forall_forall in Hall. specialize (Hall _ Hin). congruence.
    + intros _.
      assert (unchanged (memory s) (memory (error_reply (u "Unknown group(s): " ++ intercalate (u ", ") (bad :: rest)) s).2))
        as Hu by (apply after_nothing; intros s0; auto with keeps).
      by apply unchanged_fields in Hu as [-> _].
Qed.

(** ** Refusals *)

Definition refusal (m : peer * json) : Prop :=
  m.1 = TheAdmin /\ exists payload, m.2 = JObj payload /\ get (u "type") payload = JStr (u "ERROR").
Definition polite (to : peer) (v : json) : Prop := ~ refusal (to, v).
Definition politely (before : list (peer * json)) (s : desk) : Prop :=
  exists new, sent s = before ++ new /\ Forall (fun m => ~ refusal m) new.

Lemma polite_broadcast v : polite AllAdmins v.
Proof. by intros [? _]. Qed.
Lemma polite_reply to name rest :
  name <> u "ERROR" -> polite to (JObj (field "type" (JStr name) :: rest)).
Proof.
  intros Hn (_ & payload & [= <-] & Hg). apply Hn. vm_compute in Hg. by injection Hg.
Qed.

Section Refusals.
Context {H : host} (Halone : alone H).

Lemma politely_pause before : holds (politely before) pause.
Proof. by intros s. Qed.
Lemma politely_say before s to v :
  polite to v -> politely before s -> politely before (s <| sent := sent s ++ [(to, v)] |>).
Proof.
  intros Hp (new & E & Hn). exists (new ++ [(to, v)]). simpl. rw E -app_assoc. split; [done|].
  apply Forall_app. by repeat constructor.
Qed.
Lemma politely_send before to name rest :
  name <> u "ERROR" -> holds (politely before) (send to (field "type" (JStr name) :: rest)).
Proof.
  intros Hn. apply (holds_send _ polite); [apply politely_pause|apply politely_say|by apply polite_reply].
Qed.
Lemma politely_save before : holds (politely before) save_registry.
Proof.
  unfold save_registry. apply holds_bind; [apply holds_look|intros s0]. apply holds_bind; [apply holds_gets|intros n].
  repeat case_match; [apply holds_ret|apply holds_raise|by intros s].
Qed.
Lemma politely_broadcast before v : holds (politely before) (broadcast v).
Proof. apply (holds_broadcast _ polite); [apply politely_pause|apply politely_say|apply polite_broadcast]. Qed.
Lemma politely_lists before :
  holds (politely before) broadcast_device_list /\ holds (politely before) broadcast_group_list.
Proof.
  split; repeat (apply holds_bind; [by intros s|intros ?]); apply politely_broadcast.
Qed.
Lemma politely_change before f : holds (politely before) (change f).
Proof. by intros s. Qed.

(** A command leaves the memory as it was or refuses nothing. *)
Definition clean {A} (m : Handler A) : Prop :=
  forall s, memory (m s).2 = memory s \/ politely (sent s) (m s).2.
Lemma clean_same {A} (m : Handler A) : (forall m0, keeps (eq m0) m) -> clean m.
Proof. intros Hm s. left. symmetry. by apply Hm. Qed.
Lemma clean_polite {A} (m : Handler A) : (forall before, holds (politely before) m) -> clean m.
Proof. intros Hm s. right. apply Hm. exists []. by rw app_nil_r. Qed.
Lemma clean_look {A B} (f : fleet -> A) (k : A -> Handler B) : (forall a, clean (k a)) -> clean (look f ≫= k).
Proof. intros Hk s. rw look_does. apply Hk. Qed.
Lemma clean_clean_text {B} name limit data (k : pystr -> Handler B) :
  (forall text, clean (k text)) -> clean (clean_text name limit data ≫= k).
Proof.
  intros Hk s. rw /clean_text /mbind /M_bind. destruct (truthy _); [|by apply Hk].
  destruct (get _ _); try (by left). by apply Hk.
Qed.
Lemma clean_refuses text : clean (error_reply text).
Proof. apply clean_same. intros m0. apply keeps_error. intros n s <-. by rw Halone. Qed.
Lemma clean_raises {A} e : clean (raise e : Handler A).
Proof. by left. Qed.
End Refusals.

Create HintDb refusals.
#[export] Hint Resolve politely_send politely_save politely_change holds_ret : refusals.
#[export] Hint Extern 1 (holds _ broadcast_device_list) => apply politely_lists : refusals.
#[export] Hint Extern 1 (holds _ broadcast_group_list) => apply politely_lists : refusals.
#[export] Hint Extern 1 (holds _ (_ ≫= _)) => apply holds_bind; [|intros ?] : refusals.
#[export] Hint Extern 1 (holds _ (group_reply _ _)) => unfold group_reply : refusals.
#[export] Hint Extern 2 (holds _ (match ?x with _ => _ end)) => destruct x : refusals.
#[export] Hint Extern 1 (_ <> u "ERROR") => discriminate : refusals.
#[export] Hint Resolve clean_refuses clean_raises clean_clean_text : refusals.
#[export] Hint Extern 1 (clean (clean_text _ _ _ ≫= _)) => apply clean_clean_text; intros ? : refusals.
#[export] Hint Extern 1 (clean (look _ ≫= _)) => apply clean_look; intros ? : refusals.
#[export] Hint Extern 2 (clean (match ?x with _ => _ end)) => destruct x : refusals.
#[export] Hint Extern 3 (clean _) => apply clean_polite; intros ? : refusals.

(** A refused command changes nothing: a command that answers with an error leaves the
    dictionaries and the file as they were. *)
Theorem refusals_change_nothing {H : host} (Halone : alone H) data m s :
  registry_command data = Some m ->
  memory (m s).2 = memory s \/ Forall (fun x => ~ refusal x) (drop (length (sent s)) (sent (m s).2)).
Proof.
  intros Hm. enough (clean m) as Hclean.
  { destruct (Hclean s) as [?|(new & -> & Hn)]; [by left|right]. by rw drop_app_length. }
  rw /registry_command in Hm. repeat (case_match; [injection Hm as <-|]); [| | | | | | | |done].
  - apply clean_same. intros m0. repeat (apply holds_bind; [by intros s1|intros ?]).
    case_match; try apply holds_ret. apply fleet_send. intros n s1 <-. by rw Halone.
  - unfold handle_set_device_label. auto 20 with refusals.
  - unfold handle_forget_device. auto 20 with refusals.
  - unfold handle_create_group. auto 20 with refusals.
  - unfold handle_rename_group. auto 20 with refusals.
  - unfold handle_delete_group. auto 20 with refusals.
  - unfold handle_set_device_groups. auto 20 with refusals.
  - unfold handle_set_group_members. auto 20 with refusals.
Qed.
Lemma refusals_change_nothing_witness :
  let data := [field "type" (JStr (u "DELETE_GROUP")); field "name" (JStr (u " "))] in
  let s := Desk empty_fleet 0 [] in
  let m := handle_delete_group (H := quiet_host) data in
  existsb (fun x => match x with (TheAdmin, JObj (( _, JStr t) :: _)) => streq t (u "ERROR") | _ => false end)
    (sent (m s).2) = true /\
  (memory (m s).2 = memory s \/ Forall (fun x => ~ refusal x) (drop (length (sent s)) (sent (m s).2))).
Proof.
  intros data s m. split; [vm_compute; reflexivity|].
  apply (refusals_change_nothing (H := quiet_host)) with (data := data); [by intros n s'|reflexivity].
Defined.

(** ** Forgetting a device *)

Lemma lookup_py_in {V} t (m : list (json * V)) v : lookup_by py_eq (JStr t) m = Some v -> (JStr t, v) ∈ m.
Proof.
  induction m as [|[k v2] m IH]; simpl; [done|]. destruct (py_eq k (JStr t)) eqn:E.
  - apply py_eq_str_true in E as ->. intros [= ->]. left.
  - intros ?%IH. by right.
Qed.
Lemma lookup_py_remove t t' reg :
  labels_ok reg ->
  lookup_by py_eq (JStr t') (remove_by py_eq (JStr t) reg) =
  if streq t t' then None else lookup_by py_eq (JStr t') reg.
Proof.
  induction 1 as [|[k r] reg Hk Hreg IH]; simpl; [by destruct (streq t t')|].
  destruct (py_eq k (JStr t)) eqn:E; simpl.
  - apply py_eq_str_true in E as ->. simpl. destruct (streq t t') eqn:Et; [|done].
    apply streq_eq in Et as ->. destruct (lookup_by _ _ reg) as [r'|] eqn:El; [|done].
    apply lookup_py_in in El. rw Forall_forall in Hk. destruct (Hk _ El) as [Hne _].
    simpl in Hne. by rw streq_refl in Hne.
  - rw IH. destruct (py_eq k (JStr t')) eqn:E'; [|done]. apply py_eq_str_true in E' as ->.
    simpl in E. destruct (streq t t') eqn:Et; [|done]. apply streq_eq in Et as ->. by rw streq_refl in E.
Qed.

(** Forgetting a device that is not connected removes its record, its place in every
    group and its pending retire with the timer, and nothing of any other device; a
    connected device is not forgotten. *)
Theorem forgotten_device_leaves {H : host} (Halone : alone H) data t s :
  serial_of data = JStr t -> t <> [] -> registry_ok (memory s) -> NoDup (pending_retires (memory s)).*1 ->
  let before := memory s in
  let after := memory (handle_forget_device data s).2 in
  (in_devices (JStr t) before = true -> after = before) /\
  (in_devices (JStr t) before = false ->
     registry_get (JStr t) after = None /\
     (forall t', t' <> t -> registry_get (JStr t') after = registry_get (JStr t') before) /\
     device_groups after = map (remove_member (JStr t)) (device_groups before) /\
     Forall (fun nm => JStr t ∉ nm.2) (device_groups after) /\
     lookup_by streq t (pending_retires after) = None /\
     (forall e n, lookup_by streq t (pending_retires before) = Some e -> re_timeout_task e = Some n ->
        timers after !! n = None)).
Proof.
  intros Es Ht [[_ Hg] Hl] Hr. cbv zeta. rw /handle_forget_device Es.
  assert (truthy (JStr t) = true) as -> by by destruct t. change (negb true) with false.
  change (negb (is_hashable (JStr t))) with false. cbv iota. rw look_does.
  destruct (in_devices (JStr t) (memory s)) eqn:Ed.
  { split; [intros _|done]. symmetry. apply (keeps_error (eq (memory s))); [|done]. intros n s1 <-. by rw Halone. }
  split; [done|intros _]. rw !look_does.
  match goal with |- context [memory ((change ?f ≫= ?tail) s).2] =>
    assert (unchanged (f (memory s)) (memory ((change f ≫= tail) s).2)) as Hu
      by (apply (after_change f tail s); intros s0; auto 20 with keeps)
  end.
  apply unchanged_fields in Hu as (Egr & Ereg & Epr & Eti). rw /registry_get Egr Ereg Epr Eti /forget.
  set (s1 := (memory s) <| device_registry := _ |>). destruct (drop_retire_same (JStr t) s1) as [Eg2 Er2].
  simpl. rw Eg2 Er2 /=. split_and!.
  - by rw lookup_py_remove // streq_refl.
  - intros t' Hn. rw lookup_py_remove //. destruct (streq t t') eqn:E; [|done]. by apply streq_eq in E.
  - done.
  - apply Forall_forall. intros nm ([n ms] & -> & Hin)%list_elem_of_fmap. simpl.
    rw Forall_forall in Hg. destruct (Hg _ Hin) as [_ Hms]. simpl in Hms. intros Hin2.
    assert (JStr t ∈ ms) as Hin3 by (eapply elem_of_sublist; [done|apply py_remove_sublist]).
    by apply (members_nodup ms Hms t).
  - rw /drop_retire /=. destruct (lookup_by streq t (pending_retires (memory s))) as [e|] eqn:E; [|done].
    destruct (re_timeout_task e); rw /= lookup_remove // streq_refl //.
  - intros e n E En. rw /drop_retire /= E. rw En /= lookup_delete decide_True //.
Qed.

(** ** Witnesses *)

Definition sample_fleet : fleet :=
  empty_fleet <| device_registry := [(JStr (u "PA1"), [field "label" (JStr (u "booth"))]); (JStr (u "PA2"), new_record)] |>
    <| device_groups := [(u "floor 1", [JStr (u "PA1")]); (u "floor 2", [])] |>.
Definition sample_desk : desk := Desk sample_fleet 0 [].
Lemma sample_groups_ok : groups_ok (device_groups sample_fleet).
Proof.
  split.
  - apply (bool_decide_eq_true_1 _). vm_compute. reflexivity.
  - repeat first [split | apply Forall_nil | constructor]; simpl; first [discriminate | lia].
Qed.
Lemma sample_fleet_ok : registry_ok sample_fleet.
Proof.
  split; [apply sample_groups_ok|]. repeat constructor.
  intros label Hl _ Hlab. vm_compute in Hlab. congruence.
Qed.

Lemma device_groups_assigned_witness :
  let data := [field "device_id" (JStr (u "PA1")); field "groups" (JArr [JStr (u " floor 2")])] in
  let after := device_groups (memory (handle_set_device_groups (H := quiet_host) data sample_desk).2) in
  after = [(u "floor 1", []); (u "floor 2", [JStr (u "PA1")])] /\
  map fst after = map fst (device_groups sample_fleet).
Proof.
  intros data after. split; [vm_compute; reflexivity|].
  destruct (device_groups_assigned (H := quiet_host) (fun _ _ => eq_refl) data (u "PA1") [JStr (u " floor 2")] sample_desk)
    as [Hall _]; [reflexivity|discriminate|reflexivity|apply sample_groups_ok|].
  apply Hall. apply (bool_decide_eq_true_1 _). vm_compute. reflexivity.
Defined.

Lemma forgotten_device_leaves_witness :
  let data := [field "device_id" (JStr (u "PA1"))] in
  registry_get (JStr (u "PA1")) (memory (handle_forget_device (H := quiet_host) data sample_desk).2) = None.
Proof.
  intros data.
  destruct (forgotten_device_leaves (H := quiet_host) (fun _ _ => eq_refl) data (u "PA1") sample_desk) as [_ Hoff];
    [reflexivity|discriminate|apply sample_fleet_ok|constructor|].
  apply Hoff. reflexivity.
Defined.
