(* ===== verification/Reload.v ===== *)
(** * What survives a restart

    The registry that [save_registry] writes is the one that [load_registry] reads
    back: the groups are the same and every device is listed as before.  Where the code
    falls short of that, the lemmas at the end say how. *)

From S2P Require Import Prelude PyStr Text Json Policy Fleet Registry Groups Membership.
From Stdlib Require Import QArith.
Open Scope Z_scope.

(** ** Records as the server writes them *)

(** A battery that [_coerce_battery] leaves as it is. *)
Definition battery_ok (v : json) : Prop := forall now, _coerce_battery now v = Ret v.
Definition opt_number (v : json) : Prop := v = JNull \/ is_number v = true.
Definition is_int_or_null (v : json) : Prop := v = JNull \/ exists n, v = JInt n.

(** The fields of a record have the types the server gives them; the label is stripped. *)
Record recorded (r : record) : Prop := {
  rec_label : exists label, get (u "label") r = JStr label /\ strip label = label;
  rec_model : is_str (field_or "model" empty_text r) = true;
  rec_ip : is_str (field_or "ip" empty_text r) = true;
  rec_last_seen : opt_number (get (u "last_seen") r);
  rec_startup_app : get (u "startup_app") r = JNull \/ is_dict (get (u "startup_app") r) = true;
  rec_battery : battery_ok (get (u "battery") r);
  rec_version_code : is_int_or_null (get (u "version_code") r);
  rec_version_name : is_str (field_or "version_name" empty_text r) = true;
  rec_retired : is_bool (field_or "retired" (JBool false) r) = true;
  rec_identity_kind : existsb (eq_str (field_or "identity_kind" (JStr (u "legacy")) r)) identity_kinds = true;
}.

(** What [_coerce_battery] returns it returns again. *)
Lemma coerced_battery now v b :
  is_number now = true -> is_bool now = false -> _coerce_battery now v = Ret b -> battery_ok b.
Proof.
  intros Hn Hb E. destruct v as [| | | | | |r]; simpl in E; try (injection E as <-; by intros now').
  assert (forall level : option Z, match level with
    | None => Ret (E := fault) JNull
    | Some level =>
        if (level <? 0) || (100 <? level) then Ret JNull
        else if negb (is_bool (get (u "charging") r)) then Ret JNull
        else let last_seen := field_or "last_seen" (get (u "timestamp") r) r in
             Ret (JObj [field "level" (JInt level); field "charging" (get (u "charging") r);
                        field "last_seen" (if is_number last_seen && negb (is_bool last_seen) then last_seen else now)])
    end = Ret b -> battery_ok b) as Hlevel.
  { clear E. intros [level|] E; [|by injection E as <-]. destruct (_ || _) eqn:Er; [by injection E as <-|].
    destruct (negb _) eqn:Ec; [by injection E as <-|]. injection E as <-. intros now'.
    apply negb_false_iff in Ec. simpl. rw /mbind /=.
    change (get (u "level") _) with (JInt level). rw Er /=.
    destruct (get (u "charging") r); try done. simpl.
    set (ls := field_or "last_seen" (get (u "timestamp") r) r).
    destruct (is_number ls && negb (is_bool ls)) eqn:El; rw /field_or /= ?El ?Hn ?Hb //. }
  destruct (get (u "level") r) as [| |n|f| | |]; try by apply (Hlevel None).
  - by apply (Hlevel (Some n)).
  - rw /mbind /= in E. destruct (int_of_float f) as [n|]; [|done]. by apply (Hlevel (Some n)).
Qed.

Lemma field_or_get name def r v : get (u name) r = v -> v <> JNull -> field_or name def r = v.
Proof. rw /get /field_or. destruct (assoc_get _ _); simpl; congruence. Qed.
Lemma get_field_or name def r : def <> JNull -> field_or name def r <> JNull ->
  get (u name) r = field_or name def r \/ (get (u name) r = JNull /\ field_or name def r = def).
Proof. rw /get /field_or. destruct (assoc_get _ _); simpl; auto. Qed.

(** The text fields: an absent one reads as the empty text. *)
Lemma text_field name r :
  is_str (field_or name empty_text r) = true ->
  (if is_str (get (u name) r) then get (u name) r else empty_text) = field_or name empty_text r.
Proof.
  intros Hs. destruct (get_field_or name empty_text r) as [E|[E Ed]]; [done|by intros E; rw E in Hs| |].
  - by rw E /= Hs.
  - by rw E Ed.
Qed.

(** Reading a record back keeps every field the lists show, and the record is again one
    the server wrote. *)
Lemma recorded_coerced now r :
  recorded r -> exists r', _coerce_record now (JObj r) = Ret (Some r') /\ recorded r' /\
    get (u "label") r' = get (u "label") r /\ forall s k, offline_row s (k, r') = offline_row s (k, r).
Proof.
  intros [(label & Hlabel & Hstrip) Hmodel Hip Hseen Hstart Hbat Hvc Hvn Hret Hkind].
  rw /_coerce_record Hbat /mbind /outcome_bind. cbv beta iota zeta.
  assert (is_hashable (get (u "identity_kind") r) = true) as ->.
  { rw /field_or in Hkind. rw /get. destruct (assoc_get _ _) as [v|]; [|done]. simpl in *. by destruct v. }
  change (negb true) with false. cbv iota.
  set (retired := match get (u "retired") r with JBool true => true | _ => false end).
  set (kind := if existsb (eq_str (get (u "identity_kind") r)) identity_kinds then get (u "identity_kind") r
               else JStr (u "legacy")). rw Hlabel Hstrip.
  rw (text_field "model") // (text_field "ip") // (text_field "version_name") //.
  assert ((if is_number (get (u "last_seen") r) then get (u "last_seen") r else JNull) = get (u "last_seen") r) as ->.
  { destruct Hseen as [->|H]; [done|]. by rw /= H. }
  assert ((if is_dict (get (u "startup_app") r) then get (u "startup_app") r else JNull) = get (u "startup_app") r) as ->.
  { destruct Hstart as [->|H]; [done|]. by rw /= H. }
  assert (match get (u "version_code") r with JInt n => JInt n | _ => JNull end = get (u "version_code") r) as ->.
  { destruct Hvc as [->|[n ->]]; done. }
  assert (kind = field_or "identity_kind" (JStr (u "legacy")) r) as ->.
  { rw /kind. destruct (get_field_or "identity_kind" (JStr (u "legacy")) r) as [E|[E Ed]]; [done| | |].
    - by intros E; rw E in Hkind.
    - by rw E Hkind.
    - by rw E Ed. }
  assert (truthy (JBool retired) = truthy (get (u "retired") r)) as Hr.
  { rw /retired. rw /field_or in Hret. rw /get. destruct (assoc_get _ _) as [v|]; [|done]. simpl in *.
    by destruct v as [|[]| | | | |]. }
  clearbody retired. eexists. split_and!; [reflexivity| |done|].
  - split; [by exists label|exact Hmodel|exact Hip|exact Hseen|exact Hstart|exact Hbat|exact Hvc|exact Hvn|done|exact Hkind].
  - intros s k. rw /offline_row. f_equal. f_equal; [by rw (field_or_get "label" empty_text r (JStr label))|].
    rw /offline_status. change (get (u "retired") _) with (JBool retired) at 1. by rw Hr.
Qed.

(** ** Reading the dicts back *)

Lemma store_fresh {V} k (v : V) m : k ∉ m.*1 -> store_by streq k v m = m ++ [(k, v)].
Proof.
  induction m as [|[k2 v2] m IH]; csimpl; [done|]. intros [Hk Hm]%not_elem_of_cons.
  destruct (streq k2 k) eqn:E; [by apply streq_eq in E as ->|]. by rw IH.
Qed.
Lemma read_back_nodup items : NoDup items.*1 -> read_back items = items.
Proof.
  rw /read_back. enough (forall acc, NoDup (acc ++ items).*1 ->
    foldl (fun acc kv => store_by streq kv.1 kv.2 acc) acc items = acc ++ items) as Hall by apply (Hall []).
  induction items as [|[k v] items IH]; intros acc; simpl; [by rw app_nil_r|].
  intros Hn. rw store_fresh.
  - rw IH -app_assoc //.
  - rw fmap_app in Hn. apply NoDup_app in Hn as (_ & Hn & _). intros Hk. apply (Hn k Hk). left.
Qed.

Lemma unique_serials_id l : members_ok l -> Forall (fun x => is_str x = true) l -> unique_serials l = l.
Proof.
  intros [Ht Hp] Hs. rw /unique_serials. enough (forall acc, ForallOrdPairs (fun x y => py_eq x y = false) (acc ++ l) ->
    foldl add_serial acc l = acc ++ l) as Hall by by apply (Hall []).
  clear Hp. induction l as [|x l IH]; intros acc Hp; simpl; [by rw app_nil_r|].
  apply Forall_cons in Ht as [Hx Ht], Hs as [Hxs Hs].
  assert (add_serial acc x = acc ++ [x]) as ->; [|rw IH -?app_assoc //].
  rw /add_serial Hxs Hx /=. assert (py_in x acc = false) as ->; [|done].
  apply py_in_false. clear -Hp. induction acc as [|y acc IH]; [done|].
  simpl in Hp. inversion Hp as [|? ? Hy Hp']; subst. constructor; [|by apply IH].
  rw Forall_app Forall_cons in Hy. tauto.
Qed.

Lemma groups_read_back gs :
  groups_ok gs -> Forall (fun nm => strip nm.1 = nm.1 /\ Forall (fun x => is_str x = true) nm.2) gs ->
  _coerce_groups (JObj (map (fun nm => (nm.1, JArr nm.2)) gs)) = gs.
Proof.
  intros [Hn Hg] Hs. simpl. enough (forall acc, NoDup (acc ++ gs).*1 ->
    foldl add_group acc (map (fun nm => (nm.1, JArr nm.2)) gs) = acc ++ gs) as Hall by by apply (Hall []).
  clear Hn. induction gs as [|[name members] gs IH]; intros acc Hn; simpl; [by rw app_nil_r|].
  apply Forall_cons in Hg as [[[Hne Hlen] Hm] Hg], Hs as [[Hstrip Hstr] Hs]. simpl in *.
  assert (add_group acc (name, JArr members) = acc ++ [(name, members)]) as ->; [|rw IH -?app_assoc //].
  rw /add_group /= /clean_group_name Hstrip take_ge //. destruct name as [|c name]; [done|].
  rw unique_serials_id // store_fresh //. rw fmap_app in Hn. apply NoDup_app in Hn as (_ & Hn & _).
  intros Hk. apply (Hn _ Hk). left.
Qed.

(** The devices of a registry whose serials are strings. *)
Definition serials_ok (reg : list (json * record)) : Prop :=
  Forall (fun kr => is_str kr.1 = true /\ recorded kr.2) reg.

Lemma items_keys {H : host} reg :
  serials_ok reg -> labels_ok reg -> NoDup (map (fun kr => (key_text kr.1, JObj kr.2)) reg).*1.
Proof.
  intros Hs. induction 1 as [|[k r] reg Hk Hreg IH]; csimpl; [constructor|].
  apply Forall_cons in Hs as [[Hstr _] Hs]. apply NoDup_cons. split; [|by apply IH].
  intros ([k2 v2] & E & ([k3 r3] & [= -> ->] & Hin)%list_elem_of_fmap)%list_elem_of_fmap. simpl in *.
  rw Forall_forall in Hk. destruct (Hk _ Hin) as [Hne _]. rw /serials_ok Forall_forall in Hs.
  destruct (Hs _ Hin) as [Hstr3 _]. simpl in *. destruct k as [| | | |t| |], k3 as [| | | |t3| |]; try done.
  simpl in *. subst. by rw streq_refl in Hne.
Qed.
Lemma store_py_fresh {V} k (v : V) m :
  Forall (fun kr => py_eq kr.1 k = false) m -> store_by py_eq k v m = m ++ [(k, v)].
Proof.
  induction 1 as [|[k2 v2] m Hk Hm IH]; simpl; [done|]. simpl in Hk. by rw Hk IH.
Qed.
(** A device as it was: its serial, its label, its row. *)
Definition same_device (a b : json * record) : Prop :=
  b.1 = a.1 /\ get (u "label") b.2 = get (u "label") a.2 /\ forall s, offline_row s b = offline_row s a.
Lemma same_rows s reg reg' : Forall2 same_device reg reg' -> map (offline_row s) reg' = map (offline_row s) reg.
Proof. induction 1 as [|a b reg reg' (_ & _ & Hab) _ IH]; simpl; [done|]. by rw Hab IH. Qed.
Lemma same_labels reg reg' : Forall2 same_device reg reg' -> labels_ok reg -> labels_ok reg'.
Proof.
  induction 1 as [|a b reg reg' (Hk & Hlab & _) Hreg IH]; [done|]. inversion 1 as [|? ? Ha Hl]; subst.
  constructor; [|by apply IH]. clear -Hk Hlab Ha Hreg.
  induction Hreg as [|a2 b2 reg reg' (Hk2 & Hlab2 & _) _ IH]; [constructor|].
  apply Forall_cons in Ha as [[Hne Hl] Ha]. constructor; [|by apply IH].
  split; [by rw Hk Hk2|]. intros label. rw /labelled Hlab Hlab2. apply Hl.
Qed.

Lemma devices_read_back {H : host} now reg :
  serials_ok reg -> labels_ok reg ->
  exists reg', coerce_devices now (map (fun kr => (key_text kr.1, JObj kr.2)) reg) [] = Ret reg' /\
    serials_ok reg' /\ Forall2 same_device reg reg'.
Proof.
  intros Hs Hl. enough (forall acc, Forall (fun b => Forall (fun a => py_eq a.1 b.1 = false) acc) reg -> exists reg',
    coerce_devices now (map (fun kr => (key_text kr.1, JObj kr.2)) reg) acc = Ret (acc ++ reg') /\
    serials_ok reg' /\ Forall2 same_device reg reg') as Hall.
  { apply (Hall []). apply Forall_forall. by constructor. }
  induction Hl as [|[k r] reg Hk Hreg IH]; intros acc Hacc.
  { exists []. simpl. rw app_nil_r. split_and!; [done|constructor|done]. }
  apply Forall_cons in Hs as [[Hstr Hr] Hs], Hacc as [Hacc0 Hacc]. simpl in Hstr, Hr, Hacc0.
  destruct k as [| | | |t| |]; try done. destruct (recorded_coerced now r Hr) as (r' & Er & Hr' & Hlab & Hrow).
  destruct (IH Hs (acc ++ [(JStr t, r')])) as (reg' & Ereg & Hs' & Hsame).
  { rw Forall_forall in Hk. rw Forall_forall in Hacc. apply Forall_forall. intros b Hb.
    apply Forall_app. split; [by apply Hacc|]. repeat constructor. simpl. by destruct (Hk b Hb). }
  exists ((JStr t, r') :: reg'). split_and!.
  - simpl. simpl in Er. rw Er /mbind /= store_py_fresh // Ereg -app_assoc //.
  - by constructor.
  - constructor; [|done]. split_and!; [done|done|]. intros s. apply Hrow.
Qed.

(** ** The restart *)

(** A registry whose keys and members are strings, whose records the server wrote, and
    whose labels and group names end in no blank. *)
Record storable (s : fleet) : Prop := {
  sto_ok : registry_ok s;
  sto_serials : serials_ok (device_registry s);
  sto_groups : Forall (fun nm => strip nm.1 = nm.1 /\ Forall (fun x => is_str x = true) nm.2) (device_groups s);
}.
(** What the process forgets: connections and pending operations. *)
Definition offline (s : fleet) : fleet :=
  s <| devices := [] |> <| pending_self_updates := [] |> <| pending_retires := [] |>.

Lemma offline_rows {H : host} s : device_rows (offline s) = map (offline_row (offline s)) (device_registry s).
Proof.
  rw /device_rows /=. f_equal. apply filter_all. apply Forall_forall. intros [k r] _. by destruct k.
Qed.
Lemma offline_row_same s s' kr : offline_row (offline s) kr = offline_row (offline s') kr.
Proof. by destruct kr as [[] r]. Qed.

Lemma save_unfold {H : host} s :
  write_error (turns s) = false ->
  save_registry s =
    if encodable (JObj (registry_payload (memory s)))
    then (Ret tt, s <| memory := (memory s) <| registry_path := FileJson (saved_value (memory s)) |> |>)
    else (Raise UnicodeEncodeError, s).
Proof.
  intros Hw. rw /save_registry look_does gets_does. change (id (memory s)) with (memory s). rw Hw.
  by destruct (encodable _).
Qed.
Lemma saved_path {H : host} s saved :
  write_error (turns s) = false -> save_registry s = (Ret tt, saved) ->
  registry_path (memory saved) = FileJson (saved_value (memory s)).
Proof. intros Hw. rw save_unfold //. destruct (encodable _); [by intros [= <-]|done]. Qed.


Lemma recorded_new : recorded new_record.
Proof. split; try reflexivity; try (left; reflexivity); [by exists []|by intros now]. Qed.
Definition sample_record : record :=
  [field "label" (JStr (u "booth")); field "model" (JStr (u "Pico 4")); field "ip" (JStr (u "10.0.0.7"));
   field "last_seen" (JFloat (PFin 0)); field "startup_app" JNull; field "battery" JNull;
   field "version_code" (JInt 7); field "version_name" (JStr (u "0.7")); field "identity_kind" (JStr (u "canonical"))].
Lemma recorded_sample : recorded sample_record.
Proof.
  split; try reflexivity; try (left; reflexivity); [by exists (u "booth")|right; reflexivity|by intros now|].
  right. by exists 7.
Qed.
Definition kept_desk : desk :=
  Desk (sample_fleet <| device_registry := [(JStr (u "PA1"), sample_record); (JStr (u "PA2"), new_record)] |>) 0 [].
Lemma kept_desk_storable : storable (memory kept_desk).
Proof.
  split.
  - split; [apply sample_groups_ok|]. repeat constructor. intros label Hl _ Hlab. vm_compute in Hlab. congruence.
  - constructor; [|constructor; [|constructor]]; split; try reflexivity; [apply recorded_sample|apply recorded_new].
  - repeat constructor.
Qed.

(** ** Where the code falls short *)

(** A string that UTF-8 cannot encode stops every later save: the error is not one
    [save_registry] handles. *)
Lemma unencodable_blocks_saving {H : host} s :
  write_error (turns s) = false -> encodable (JObj (registry_payload (memory s))) = false ->
  save_registry s = (Raise UnicodeEncodeError, s).
Proof. intros Hw He. by rw save_unfold // He. Qed.

(** A label with a lone surrogate, which JSON text can carry, is kept although it was not
    saved: the group created next is not saved either, and the console gets no answer. *)
Definition surrogate_label : record := [field "device_id" (JStr (u "PA1")); field "label" (JStr [55296%N])].
Lemma surrogate_label_poisons :
  let run := handle_set_device_label (H := quiet_host) surrogate_label sample_desk in
  let next := handle_create_group (H := quiet_host) [field "name" (JStr (u "floor 3"))] run.2 in
  run.1 = Raise UnicodeEncodeError /\ next.1 = Raise UnicodeEncodeError /\
  registry_path (memory next.2) = FileMissing /\ sent next.2 = [].
Proof. vm_compute. done. Qed.

(** A name cut to 64 characters after a blank is another name when it is read back. *)
Definition long_name : pystr := replicate 63 97%N ++ u " b".
Lemma cut_name_changes :
  let made := (handle_create_group (H := quiet_host) [field "name" (JStr long_name)] (Desk empty_fleet 0 [])).2 in
  let loaded := memory (load_registry (H := quiet_host) made).2 in
  map fst (device_groups (memory made)) = [replicate 63 97%N ++ u " "] /\
  map fst (device_groups loaded) = [replicate 63 97%N].
Proof. vm_compute. done. Qed.

(** A device labelled by a number and left without a label has no name to sort by: no
    device list can be built any more. *)
Lemma numeric_serial_breaks_list :
  let made := (handle_set_device_label (H := quiet_host) [field "device_id" (JInt 5)] sample_desk).2 in
  build_device_list_msg (H := quiet_host) (memory made) = Raise AttributeError.
Proof. vm_compute. done. Qed.
