(* ===== verification/Listing.v ===== *)
(** * The device list

    The list the consoles are sent names every known device once, connected or not, with
    the labelled devices first and in the order of their names. *)

From S2P Require Import Prelude PyStr Text Json Requests Policy Fleet Registry Groups Membership.
From stdpp Require Import sorting.
Open Scope Z_scope.

Section Listing.
Context {H : host}.

(** The connected devices' entries name their device; serials and labels are strings. *)
Record listable (s : fleet) : Prop := {
  lst_devices : NoDup (devices s).*1;
  lst_entries : Forall (fun de => get (u "device_id") (o_fields de.2) = JStr de.1) (devices s);
  lst_keys : Forall (fun kr => is_str kr.1 = true) (device_registry s);
  lst_labels : Forall (fun kr => exists label, field_or "label" empty_text kr.2 = JStr label) (device_registry s);
  lst_apart : labels_ok (device_registry s);
}.

Definition row_id (row : record) : json := get (u "device_id") row.
(** The devices of a state: the connected ones and the others on record. *)
Definition known_devices (s : fleet) : list json :=
  (JStr <$> (devices s).*1) ++ filter (fun k => in_devices k s = false) (device_registry s).*1.

Lemma rows_known s : listable s -> map row_id (device_rows s) = known_devices s.
Proof.
  intros [_ He _ _ _]. rw /device_rows /known_devices map_app. f_equal.
  - induction He as [|de l Hde _ IH]; csimpl; [done|]. rw IH. f_equal. exact Hde.
  - induction (device_registry s) as [|[k r] l IH]; [done|]. rw filter_cons. csimpl. rw filter_cons.
    destruct (decide _); csimpl; by rw IH.
Qed.
Lemma known_nodup s : listable s -> NoDup (known_devices s).
Proof.
  intros [Hn _ Hk _ Hl]. apply NoDup_app. split_and!.
  - apply NoDup_fmap_2; [by intros ? ? [= ->]|done].
  - intros k (id & -> & Hin)%list_elem_of_fmap [Hoff _]%list_elem_of_filter. simpl in Hoff.
    apply bool_decide_eq_false_1 in Hoff. apply Hoff. destruct (lookup_by streq id (devices s)) eqn:E; [done|].
    by apply lookup_none in E.
  - apply NoDup_filter. clear -Hk Hl. induction Hl as [|[k r] reg Ha Hreg IH]; csimpl; [constructor|].
    apply Forall_cons in Hk as [Hstr Hk]. apply NoDup_cons. split; [|by apply IH].
    intros ([k2 r2] & E & Hin)%list_elem_of_fmap. simpl in *. subst k2. rw Forall_forall in Ha.
    destruct (Ha _ Hin) as [Hne _]. simpl in Hne. destruct k as [| | | |t| |]; try done.
    simpl in Hne. by rw streq_refl in Hne.
Qed.

(** Every row has a name to sort by. *)
Lemma row_named s row :
  listable s -> row ∈ device_rows s ->
  exists label id, get (u "label") row = JStr label /\ row_id row = JStr id /\
    row_key row = Ret (streq label [], lower_of (match label with [] => id | _ => label end)).
Proof.
  intros [_ He Hk Hlab _] Hin.
  enough (exists label id, get (u "label") row = JStr label /\ row_id row = JStr id) as (label & id & El & Ei).
  { exists label, id. split_and!; [done..|]. rw /row_key El. rw /row_id in Ei.
    destruct label as [|c label]; simpl; [by rw Ei|done]. }
  rw Forall_forall in Hlab. apply elem_of_app in Hin as [Hin|Hin].
  - apply list_elem_of_fmap in Hin as (de & -> & Hin). rw Forall_forall in He. specialize (He _ Hin).
    rw /row_id /online_row. change (get (u "device_id") (_ :: _)) with (get (u "device_id") (o_fields de.2)).
    change (get (u "label") _) with (field_or "label" empty_text
      (default [] (registry_get (get (u "device_id") (o_fields de.2)) s))). rw He.
    destruct (registry_get (JStr de.1) s) as [r|] eqn:E; simpl; [|by exists [], de.1].
    apply lookup_py_in in E. destruct (Hlab _ E) as [label Hl]. by exists label, de.1.
  - apply list_elem_of_fmap in Hin as ([k r] & -> & [_ Hin]%list_elem_of_filter).
    rw Forall_forall in Hk. specialize (Hk _ Hin). destruct (Hlab _ Hin) as [label Hl].
    simpl in *. destruct k as [| | | |id| |]; try done. exists label, id. split; [exact Hl|done].
Qed.

#[local] Instance keyed_le_total : Total keyed_le.
Proof.
  intros [[b k] r] [[b' k'] r']. unfold keyed_le. destruct (str_le_total k k'), b, b'; naive_solver.
Qed.
#[local] Instance keyed_le_trans : Transitive keyed_le.
Proof.
  intros [[b k] r] [[b' k'] r'] [[b2 k2] r2]. unfold keyed_le.
  intros [[-> ->]|[-> ?]] [[? ->]|[-> ?]]; try naive_solver. right. split; [done|]. by etrans.
Qed.

(** The order of two rows. *)
Definition listed_before (a b : record) : Prop :=
  exists ka kb, row_key a = Ret ka /\ row_key b = Ret kb /\ keyed_le (ka, a) (kb, b).

(** The device list can be built and names every known device exactly once, connected or
    not; the devices that have a label come first and each part is in the order of the
    names shown. *)
Theorem devices_listed_once s :
  listable s ->
  exists rows, build_device_list_msg s = Ret (JObj [field "type" (JStr (u "DEVICE_LIST")); field "devices" (JArr (JObj <$> rows))]) /\
    rows ≡ₚ device_rows s /\ NoDup (map row_id rows) /\
    (forall k, k ∈ map row_id rows <-> k ∈ known_devices s) /\ StronglySorted listed_before rows.
Proof.
  intros Hs.
  assert (exists keyed, mapM (fun row => k ← row_key row; mret (k, row)) (device_rows s) = Ret (E := fault) keyed /\
    keyed.*2 = device_rows s /\ Forall (fun kr => row_key kr.2 = Ret kr.1) keyed) as (keyed & Ek & Er & Hkeyed).
  { assert (forall row, row ∈ device_rows s -> exists k, row_key row = Ret k) as Hnamed.
    { intros row Hin. destruct (row_named s row Hs Hin) as (? & ? & _ & _ & ?). by eexists. }
    induction (device_rows s) as [|row rows IH]; [by exists []|].
    destruct (Hnamed row) as [k Hk]; [left|]. destruct IH as (keyed & Ek & Er & Hf).
    { intros r Hr. apply Hnamed. by right. }
    exists ((k, row) :: keyed). csimpl. rw /mbind /= Hk /=. rw /mbind in Ek. rw Ek Er. split_and!; [done..|by constructor]. }
  pose proof (merge_sort_Permutation keyed_le keyed) as Hperm.
  exists (merge_sort keyed_le keyed).*2.
  assert ((merge_sort keyed_le keyed).*2 ≡ₚ device_rows s) as Hrows by by rw Hperm Er.
  assert (map row_id (merge_sort keyed_le keyed).*2 ≡ₚ known_devices s) as Hids.
  { rw -rows_known //. by apply fmap_Permutation. }
  split_and!; [|done|by rw Hids; apply known_nodup|intros k; by rw Hids|].
  - rw /build_device_list_msg /sorted_rows. rw /mbind /outcome_bind in Ek |- *. by rw Ek.
  - assert (Forall (fun kr => row_key kr.2 = Ret kr.1) (merge_sort keyed_le keyed)) as Hall by by rw Hperm.
    pose proof (StronglySorted_merge_sort keyed_le keyed) as Hsorted. clear -Hall Hsorted.
    induction Hsorted as [|[k r] l Hl IH Hle]; csimpl; [constructor|]. apply Forall_cons in Hall as [Hk Hall].
    constructor; [by apply IH|]. apply Forall_forall. intros r' ([k' r2] & -> & Hin)%list_elem_of_fmap.
    rw Forall_forall in Hall. rw Forall_forall in Hle. exists k, k'. split_and!; [done|by apply (Hall _ Hin)|by apply (Hle _ Hin)].
Qed.
End Listing.

Definition listed_fleet : fleet :=
  sample_fleet <| devices := [(u "PA2", Online 1 [field "device_id" (JStr (u "PA2")); field "model" (JStr (u "Pico"))])] |>.
Lemma listed_fleet_ok : listable listed_fleet.
Proof.
  split.
  - apply NoDup_singleton.
  - by constructor.
  - by repeat constructor.
  - repeat constructor; eexists; reflexivity.
  - apply sample_fleet_ok.
Qed.
Lemma devices_listed_once_witness :
  known_devices listed_fleet = [JStr (u "PA2"); JStr (u "PA1")] /\
  exists rows, build_device_list_msg (H := quiet_host) listed_fleet =
                 Ret (JObj [field "type" (JStr (u "DEVICE_LIST")); field "devices" (JArr (JObj <$> rows))]) /\
    rows ≡ₚ device_rows listed_fleet.
Proof.
  split; [vm_compute; reflexivity|].
  destruct (devices_listed_once (H := quiet_host) listed_fleet) as (rows & E & Hp & _); [apply listed_fleet_ok|by exists rows].
Defined.
