(* ===== verification/Install.v ===== *)
(** * Install and push jobs (server.py)

    [_run_install_job] and [_run_push_job] fan a command out to many devices under one
    server-wide pool of transfer slots.  A job is a list of dispatchers, one per target,
    each at one of the awaits of [dispatch_one]; the pool, the futures devices are waited
    on and [pending_transfers] are shared by all jobs.  A step of the system runs one
    task from one await to the next. *)

From S2P Require Import Prelude PyStr Json Transfers.
From stdpp Require Import relations.
Open Scope Z_scope.

(** ** State *)

#[export] Instance transfer_kind_countable : Countable transfer_kind.
Proof.
  refine (inj_countable' (fun k => match k with TInstall => true | TPush => false end)
            (fun b : bool => if b then TInstall else TPush) _). by intros [].
Defined.

(** Where [dispatch_one] is: waiting for a slot, sending the command, in the broadcasts
    of [fail_one], in the broadcasts that announce the transfer, waiting for the device,
    in the broadcast after a time-out, in the last broadcast, done.  The number is the
    future the dispatcher made. *)
Inductive at_await :=
  | Waiting
  | Sending
  | FailNews
  | FailProgress
  | Announcing (fut : N)
  | AnnouncingProgress (fut : N)
  | Transferring (fut : N)
  | TimeoutNews (fut : N)
  | Reporting
  | Settled.

(** The dict [counts]. *)
Record counters := Counters { queued : Z; transferring : Z; transferred : Z; failed : Z }.
#[export] Instance eta_counters : Settable counters := fun c =>
  Counters (queued c) (transferring c) (transferred c) (failed c).

(** The job around its dispatchers: hashing the file, announcing the queue, waiting for
    all dispatchers, sending the last progress. *)
Inductive job_at := Hashing | QueuedNews | FirstProgress | Gathering | LastProgress | Finished.
#[export] Instance job_at_eq_dec : EqDecision job_at.
Proof. solve_decision. Defined.

Record job := Job {
  kind : transfer_kind;
  total : Z;
  counts : counters;
  place : job_at;
  dispatchers : list (pystr * at_await);
}.
#[export] Instance eta_job : Settable job := fun j => Job (kind j) (total j) (counts j) (place j) (dispatchers j).

(** A PROGRESS message: its job, the counts it carries, whether it is the last. *)
Record progress := Progress { p_job : nat; p_total : Z; p_counts : counters; p_done : bool }.

(** The slots of the pool are free, held by dispatchers, or held by the tasks of the job
    scheduler ([foreign]). *)
Record hub := Hub {
  capacity : Z;
  free : Z;
  foreign : Z;
  pending_transfers : gmap (pystr * transfer_kind) N;
  futures : gmap N (future pystr);
  next_future : N;
  jobs : list job;
  told : list progress;
}.
#[export] Instance eta_hub : Settable hub := fun h =>
  Hub (capacity h) (free h) (foreign h) (pending_transfers h) (futures h) (next_future h) (jobs h) (told h).

Definition future_of (h : hub) (f : N) : future pystr := default Pending (futures h !! f).

(** [_run_install_job] and [_run_push_job] at their first await; only an install hashes
    its file. *)
Definition new_job (k : transfer_kind) (target_ids : list pystr) : job :=
  let total := Z.of_nat (length target_ids) in
  Job k total (Counters total 0 0 0) (match k with TInstall => Hashing | TPush => QueuedNews end)
    (map (fun d => (d, Waiting)) target_ids).

(** ** One dispatcher *)

Section Dispatch.
Context (n : nat) (j : job) (h : hub).

(** [broadcast_progress] with the counts as they are. *)
Definition tell (c : counters) (done : bool) (h : hub) : hub :=
  h <| told := told h ++ [Progress n (total j) c done] |>.
(** Dispatcher [i] is now at [w] and the job's counts are [c]. *)
Definition put (i : nat) (device_id : pystr) (w : at_await) (c : counters) (h : hub) : hub :=
  h <| jobs := <[n := j <| counts := c |> <| dispatchers := <[i := (device_id, w)]> (dispatchers j) |>]> (jobs h) |>.

Definition acquire (h : hub) : hub := h <| free := free h - 1 |>.
Definition give_back (h : hub) : hub := h <| free := free h + 1 |>.

(** [if pending_transfers.get(key) is fut: del pending_transfers[key]]. *)
Definition drop_own (device_id : pystr) (fut : N) (h : hub) : hub :=
  let key := (device_id, kind j) in
  if bool_decide (pending_transfers h !! key = Some fut)
  then h <| pending_transfers := delete key (pending_transfers h) |> else h.

Definition set_future (fut : N) (x : future pystr) (h : hub) : hub := h <| futures := <[fut := x]> (futures h) |>.

(** What the environment decides at an await: the slot is granted and the device may or may
    not receive the command, the send succeeds or raises, the await ends, the time is
    over, something else is raised. *)
Inductive event := Granted (allowed : bool) | SendOk | SendFails | Woken | TimedOut | Unexpected.

(** [fail_one] up to its first await. *)
Definition fail_one (i : nat) (device_id : pystr) (c : counters) (h : hub) : hub :=
  put i device_id FailNews (c <| failed := failed c + 1 |>) h.

(** The [finally] of the wait and the progress after it. *)
Definition settle (i : nat) (device_id : pystr) (fut : N) (c : counters) (h : hub) : hub :=
  let c := c <| transferring := transferring c - 1 |> in
  put i device_id Reporting c (tell c false (drop_own device_id fut h)).

Definition dispatch_one (i : nat) (device_id : pystr) (w : at_await) (e : event) : option hub :=
  let c := counts j in
  match w, e with
  | Waiting, Granted allowed =>
      if free h <=? 0 then None
      else
        let c := c <| queued := queued c - 1 |> in
        if allowed then Some (put i device_id Sending c (acquire h)) else Some (fail_one i device_id c (acquire h))
  | Sending, SendFails => Some (fail_one i device_id c h)
  | Sending, SendOk =>
      let fut := next_future h in
      Some (put i device_id (Announcing fut) (c <| transferring := transferring c + 1 |>)
              (set_future fut Pending h <| next_future := (fut + 1)%N |>
                 <| pending_transfers := <[(device_id, kind j) := fut]> (pending_transfers h) |>))
  | FailNews, Woken => Some (put i device_id FailProgress c (tell c false h))
  | FailProgress, Woken => Some (put i device_id Settled c (give_back h))
  | Announcing fut, Woken => Some (put i device_id (AnnouncingProgress fut) c (tell c false h))
  | AnnouncingProgress fut, Woken => Some (put i device_id (Transferring fut) c h)
  | Transferring fut, Woken =>
      match future_of h fut with
      | Completed _ => Some (settle i device_id fut (c <| transferred := transferred c + 1 |>) h)
      | _ => None
      end
  | Transferring fut, TimedOut =>
      match future_of h fut with
      | Completed _ => None
      | _ => Some (put i device_id (TimeoutNews fut) (c <| failed := failed c + 1 |>)
                     (set_future fut FutureCancelled h))
      end
  | (Announcing fut | AnnouncingProgress fut | Transferring fut), Unexpected =>
      Some (put i device_id (TimeoutNews fut) (c <| failed := failed c + 1 |>) h)
  | TimeoutNews fut, Woken => Some (settle i device_id fut c h)
  | Reporting, Woken => Some (put i device_id Settled c (give_back h))
  | _, _ => None
  end.

(** ** The job around them *)

Definition settled (dw : pystr * at_await) : bool := match dw.2 with Settled => true | _ => false end.
Definition go (p : job_at) (h : hub) : hub := h <| jobs := <[n := j <| place := p |>]> (jobs h) |>.
Definition run_job : option hub :=
  match place j with
  | Hashing => Some (go QueuedNews h)
  | QueuedNews => Some (go FirstProgress (tell (counts j) false h))
  | FirstProgress => Some (go Gathering h)
  | Gathering => if forallb settled (dispatchers j) then Some (go LastProgress (tell (counts j) true h)) else None
  | LastProgress => Some (go Finished h)
  | Finished => None
  end.
End Dispatch.

(** ** Releases *)

Definition release_key (key : pystr * transfer_kind) (reason : pystr) (h : hub) : bool * hub :=
  match pending_transfers h !! key with
  | Some fut => if future_done (future_of h fut) then (false, h) else (true, set_future fut (Completed reason) h)
  | None => (false, h)
  end.
(** [release_transfer_slot]: the named job's slot, or every slot of the device. *)
Definition release_transfer_slot (device_id reason : pystr) (task : option transfer_kind) (h : hub) : bool * hub :=
  match task with
  | Some k => release_key (device_id, k) reason h
  | None =>
      let '(a, h) := release_key (device_id, TInstall) reason h in
      let '(b, h) := release_key (device_id, TPush) reason h in
      (a || b, h)
  end.

(** ** Steps *)

(** A task of a job runs. *)
Inductive job_step (h : hub) : hub -> Prop :=
  | dispatch_step n j i d w e h' :
      jobs h !! n = Some j -> place j = Gathering -> dispatchers j !! i = Some (d, w) ->
      dispatch_one n j h i d w e = Some h' -> job_step h h'
  | run_step n j h' : jobs h !! n = Some j -> run_job n j h = Some h' -> job_step h h'.

(** A job starts, a device's message releases a slot, the scheduler takes a slot or
    returns one. *)
Inductive other_step (h : hub) : hub -> Prop :=
  | start_step k targets : targets <> [] -> other_step h (h <| jobs := jobs h ++ [new_job k targets] |>)
  | release_step d reason task : other_step h (release_transfer_slot d reason task h).2
  | take_step : 0 < free h -> other_step h (h <| free := free h - 1 |> <| foreign := foreign h + 1 |>)
  | return_step : 0 < foreign h -> other_step h (h <| free := free h + 1 |> <| foreign := foreign h - 1 |>).

Inductive step (h h' : hub) : Prop :=
  | step_job : job_step h h' -> step h h'
  | step_other : other_step h h' -> step h h'.

Definition initial (slots : Z) : hub := Hub slots slots 0 ∅ ∅ 0 [] [].
Definition hub_reachable (slots : Z) (h : hub) : Prop := rtc step (initial slots) h.
