(* ===== verification/Jobs.v ===== *)
(** * What install and push jobs guarantee

    The counters of a job account for its targets, the last message for each of them once;
    the slots in use never exceed the pool; a registered future belongs to a dispatcher
    that waits for it; and every job ends. *)

From stdpp Require Import relations.
From S2P Require Import Prelude PyStr Json Transfers Install.
Open Scope Z_scope.

(** ** Counting dispatchers *)

Definition holding (w : at_await) : Z := match w with Waiting | Settled => 0 | _ => 1 end.
Definition waiting (w : at_await) : Z := match w with Waiting => 1 | _ => 0 end.
Definition sending (w : at_await) : Z := match w with Sending => 1 | _ => 0 end.
Definition overdue (w : at_await) : Z := match w with TimeoutNews _ => 1 | _ => 0 end.
Definition in_transfer (w : at_await) : Z :=
  match w with Announcing _ | AnnouncingProgress _ | Transferring _ | TimeoutNews _ => 1 | _ => 0 end.
Definition decided (w : at_await) : Z :=
  match w with FailNews | FailProgress | TimeoutNews _ | Reporting | Settled => 1 | _ => 0 end.
(** Steps a dispatcher has left at most. *)
Definition steps_left (w : at_await) : Z :=
  match w with
  | Waiting => 8 | Sending => 7 | Announcing _ => 6 | AnnouncingProgress _ => 5 | Transferring _ => 4
  | TimeoutNews _ => 3 | FailNews => 2 | FailProgress | Reporting => 1 | Settled => 0
  end.

Definition weigh (f : at_await -> Z) (l : list (pystr * at_await)) : Z := sum_of (map (fun dw => f dw.2) l).

Lemma sum_of_insert {A} (f : A -> Z) l i x y :
  l !! i = Some x -> sum_of (map f (<[i := y]> l)) = sum_of (map f l) - f x + f y.
Proof.
  induction l as [|a l IH] in i |- *; [done|]. destruct i as [|i]; simpl.
  - intros [= ->]. lia.
  - intros Hi. rw (IH i Hi). lia.
Qed.
Lemma weigh_insert f l i d w w' :
  l !! i = Some (d, w) -> weigh f (<[i := (d, w')]> l) = weigh f l - f w + f w'.
Proof. apply (sum_of_insert (fun dw => f dw.2)). Qed.
Lemma sum_of_nonneg {A} (f : A -> Z) l : (forall x, 0 <= f x) -> 0 <= sum_of (map f l).
Proof. intros Hf. induction l as [|a l IH]; simpl; [lia|]. specialize (Hf a). lia. Qed.
Lemma sum_of_member {A} (f : A -> Z) l i x : (forall x, 0 <= f x) -> l !! i = Some x -> f x <= sum_of (map f l).
Proof.
  intros Hf. induction l as [|a l IH] in i |- *; [done|]. pose proof (sum_of_nonneg f l Hf). pose proof (Hf a).
  destruct i as [|i]; simpl; [intros [= ->]; lia|]. intros Hi%IH. lia.
Qed.
Lemma weigh_le f g l : (forall w, f w <= g w) -> weigh f l <= weigh g l.
Proof. intros Hfg. rw /weigh. induction l as [|[d w] l IH]; simpl; [lia|]. specialize (Hfg w). lia. Qed.
Lemma weigh_one l : weigh (fun _ => 1) l = Z.of_nat (length l).
Proof. rw /weigh. induction l as [|a l IH]; simpl; lia. Qed.
Lemma weigh_settled f l : forallb settled l = true -> f Settled = 0 -> weigh f l = 0.
Proof.
  intros Hl Hf. rw /weigh. induction l as [|[d w] l IH]; simpl; [lia|].
  simpl in Hl. apply andb_true_iff in Hl as [Hw Hl]. destruct w; try done. rw (IH Hl) Hf. lia.
Qed.

(** ** One step of a dispatcher *)

(** The counters follow the dispatcher. *)
Definition follows (c c' : counters) (w w' : at_await) : Prop :=
  queued c' = queued c - waiting w + waiting w' /\
  transferring c' = transferring c - in_transfer w + in_transfer w' /\
  transferred c' + failed c' = transferred c + failed c - decided w + decided w' /\
  transferred c <= transferred c' /\ failed c <= failed c'.

(** The future a dispatcher has registered. *)
Definition own_future (w : at_await) : option N :=
  match w with
  | Announcing fut | AnnouncingProgress fut | Transferring fut | TimeoutNews fut => Some fut
  | _ => None
  end.

Record moved (n : nat) (j : job) (i : nat) (d : pystr) (w : at_await) (h h' : hub) (w' : at_await) (c' : counters)
  : Prop := {
  mv_jobs : jobs h' = <[n := j <| counts := c' |> <| dispatchers := <[i := (d, w')]> (dispatchers j) |>]> (jobs h);
  mv_counts : follows (counts j) c' w w';
  mv_free : free h' = free h + holding w - holding w';
  mv_pool : foreign h' = foreign h /\ capacity h' = capacity h;
  mv_nonneg : 0 <= free h -> 0 <= free h';
  mv_told : told h' = told h \/ told h' = told h ++ [Progress n (total j) c' false];
  mv_left : steps_left w' < steps_left w;
  mv_table : forall key fut, pending_transfers h' !! key = Some fut ->
    (key = (d, kind j) /\ own_future w' = Some fut) \/
    (pending_transfers h !! key = Some fut /\ (key = (d, kind j) -> own_future w = Some fut -> own_future w' = Some fut));
}.

Lemma drop_own_table j d fut h key x :
  pending_transfers (drop_own j d fut h) !! key = Some x ->
  pending_transfers h !! key = Some x /\ (key = (d, kind j) -> x <> fut).
Proof.
  rw /drop_own. case_bool_decide as E; simpl.
  - rw lookup_delete. case_decide as Ek; [done|]. intros Hx. split; [done|]. by intros ->.
  - intros Hx. split; [done|]. intros -> ->. by rw Hx in E.
Qed.
Lemma drop_own_same j d fut h :
  jobs (drop_own j d fut h) = jobs h /\ free (drop_own j d fut h) = free h /\
  foreign (drop_own j d fut h) = foreign h /\ capacity (drop_own j d fut h) = capacity h /\
  told (drop_own j d fut h) = told h.
Proof. rw /drop_own. by case_bool_decide. Qed.

Lemma settle_moved n j i d fut c h w :
  own_future w = Some fut -> follows (counts j) (c <| transferring := transferring c - 1 |>) w Reporting ->
  moved n j i d w h (settle n j i d fut c h) Reporting (c <| transferring := transferring c - 1 |>).
Proof.
  intros Hw Hc. destruct (drop_own_same j d fut h) as (Ej & Ef & Eo & Ec & Et).
  assert (holding w = 1) as Hh by by destruct w. assert (1 < steps_left w) as Hl by (destruct w; simpl; done || lia).
  split; simpl; rw ?Ej ?Ef ?Eo ?Ec ?Et ?Hh; try done; try lia; [by right|].
  intros key x [Hx Hn]%drop_own_table. right. split; [done|]. intros -> Hx'. exfalso. apply Hn; congruence.
Qed.

(** A step that leaves the table alone. *)
Lemma put_moved n j i d w h h0 w' c' :
  jobs h0 = jobs h -> follows (counts j) c' w w' -> free h0 = free h + holding w - holding w' ->
  foreign h0 = foreign h -> capacity h0 = capacity h -> (0 <= free h -> 0 <= free h0) ->
  told h0 = told h \/ told h0 = told h ++ [Progress n (total j) c' false] -> steps_left w' < steps_left w ->
  pending_transfers h0 = pending_transfers h -> (forall fut, own_future w = Some fut -> own_future w' = Some fut) ->
  moved n j i d w h (put n j i d w' c' h0) w' c'.
Proof.
  intros Hj Hc Hf Ho Hcap Hn Ht Hl Hp Hown. split; simpl; try done; [by rw Hj|].
  intros key x. rw Hp. intros Hx. right. auto.
Qed.

Lemma dispatch_moved n j i d w e h h' :
  dispatch_one n j h i d w e = Some h' -> exists w' c', moved n j i d w h h' w' c'.
Proof.
  destruct j as [k t [q x s f] p l]. intros E.
  destruct w, e; simpl in E; try done; repeat case_match; try done; injection E as <-.
  all: try (eexists _, _; apply put_moved;
            [done|rw /follows /=; lia|simpl; lia|done|done|simpl; lia|first [by left | by right]|simpl; lia|done|done]).
  all: try (eexists _, _; apply settle_moved; [done|rw /follows /=; lia]).
  exists (Announcing (next_future h)), (Counters q (x + 1) s f); split; simpl; [done|rw /follows /=; lia|lia|done|done|by left|lia|].
  intros key y. rw lookup_insert. case_decide as Ek; [intros [= <-]; by left|]. by right.
Qed.

(** ** The invariant *)

Definition held (j : job) : Z := weigh holding (dispatchers j).

Record job_ok (j : job) : Prop := {
  jo_total : total j = Z.of_nat (length (dispatchers j));
  jo_queued : queued (counts j) = weigh waiting (dispatchers j);
  jo_transferring : transferring (counts j) = weigh in_transfer (dispatchers j);
  jo_decided : transferred (counts j) + failed (counts j) = weigh decided (dispatchers j);
  jo_nonneg : 0 <= transferred (counts j) /\ 0 <= failed (counts j);
  jo_over : place j = LastProgress \/ place j = Finished -> forallb settled (dispatchers j) = true;
  jo_idle : place j <> Gathering -> held j = 0;
}.

(** A message accounts for the targets, except for those whose command is being sent and
    those whose time-out is being announced, which are at most one for each slot. *)
Definition accounted (c : counters) : Z := queued c + transferring c + transferred c + failed c.
Record message_ok (slots : Z) (m : progress) : Prop := {
  me_nonneg : 0 <= queued (p_counts m) /\ 0 <= transferring (p_counts m) /\ 0 <= transferred (p_counts m) /\
              0 <= failed (p_counts m);
  me_near : p_total m - slots <= accounted (p_counts m) <= p_total m + slots;
  me_done : p_done m = true -> queued (p_counts m) = 0 /\ transferring (p_counts m) = 0 /\
              transferred (p_counts m) + failed (p_counts m) = p_total m;
}.

Definition table_ok (h : hub) : Prop :=
  forall d k fut, pending_transfers h !! (d, k) = Some fut ->
    exists n j i w, jobs h !! n = Some j /\ kind j = k /\ dispatchers j !! i = Some (d, w) /\ own_future w = Some fut.

Record hub_ok (slots : Z) (h : hub) : Prop := {
  ho_capacity : capacity h = slots;
  ho_slots : free h + foreign h + sum_of (map held (jobs h)) = slots;
  ho_nonneg : 0 <= free h /\ 0 <= foreign h;
  ho_jobs : Forall job_ok (jobs h);
  ho_table : table_ok h;
  ho_told : Forall (message_ok slots) (told h);
}.

Lemma weigh_nonneg f l : (forall w, 0 <= f w) -> 0 <= weigh f l.
Proof. intros Hf. apply (sum_of_nonneg (fun dw => f dw.2)). intros dw. apply Hf. Qed.
Lemma held_nonneg j : 0 <= held j.
Proof. apply weigh_nonneg. intros []; simpl; lia. Qed.
Lemma held_bound slots h n j : hub_ok slots h -> jobs h !! n = Some j -> held j <= slots.
Proof.
  intros [_ Hs [Hf Ho] _ _ _] Hj. pose proof (sum_of_member held (jobs h) n j held_nonneg Hj). lia.
Qed.

Lemma accounted_total j :
  job_ok j -> accounted (counts j) = total j + weigh overdue (dispatchers j) - weigh sending (dispatchers j).
Proof.
  intros [Ht Hq Hx Hd _ _ _]. rw /accounted Ht Hq Hx -weigh_one.
  enough (weigh waiting (dispatchers j) + weigh in_transfer (dispatchers j) + weigh decided (dispatchers j) +
          weigh sending (dispatchers j) = weigh (fun _ => 1) (dispatchers j) + weigh overdue (dispatchers j)) by lia.
  rw /weigh. clear. induction (dispatchers j) as [|[d w] l IH]; simpl; [done|]. destruct w; simpl; lia.
Qed.
Lemma counts_message slots n j (done : bool) :
  job_ok j -> held j <= slots -> (done = true -> forallb settled (dispatchers j) = true) ->
  message_ok slots (Progress n (total j) (counts j) done).
Proof.
  intros Hj Hheld Hdone. pose proof (accounted_total j Hj) as Hacc. destruct Hj as [Ht Hq Hx Hd [H1 H2] _ _].
  assert (0 <= weigh waiting (dispatchers j) /\ 0 <= weigh in_transfer (dispatchers j)) as [Hw Hi]
    by (split; apply weigh_nonneg; intros []; simpl; lia).
  assert (0 <= weigh overdue (dispatchers j) <= held j /\ 0 <= weigh sending (dispatchers j) <= held j) as [Ho Hse].
  { rw /held. split; split; try (apply weigh_nonneg; intros []; simpl; lia); apply weigh_le; intros []; simpl; lia. }
  split; simpl; [lia|lia|]. intros Hall%Hdone.
  pose proof (weigh_settled waiting _ Hall eq_refl) as E1. pose proof (weigh_settled in_transfer _ Hall eq_refl) as E2.
  pose proof (weigh_settled overdue _ Hall eq_refl) as E3. pose proof (weigh_settled sending _ Hall eq_refl) as E4.
  rw /accounted in Hacc. lia.
Qed.

(** ** The steps keep it *)

Lemma forall_insert {A} (P : A -> Prop) l i x y : Forall P l -> l !! i = Some y -> P x -> Forall P (<[i := x]> l).
Proof. intros Hl _ Hx. by apply Forall_insert. Qed.

Lemma moved_job_ok n j i d w h h' w' c' :
  moved n j i d w h h' w' c' -> job_ok j -> place j = Gathering -> dispatchers j !! i = Some (d, w) ->
  job_ok (j <| counts := c' |> <| dispatchers := <[i := (d, w')]> (dispatchers j) |>).
Proof.
  intros [_ (Hq & Hx & Hd & H1 & H2) _ _ _ _ _ _] [Ht Jq Jx Jd [Jt Jf] _ _] Hp Hi.
  split; simpl; rw ?length_insert ?(weigh_insert _ _ _ _ _ _ Hi); try lia.
  - rw Hp. by intros [?|?].
  - by rw Hp.
Qed.

Lemma moved_table n j i d w h h' w' c' :
  moved n j i d w h h' w' c' -> jobs h !! n = Some j -> dispatchers j !! i = Some (d, w) -> table_ok h -> table_ok h'.
Proof.
  intros Hm Hj Hi Htab d2 k2 fut Hf. set (j' := j <| counts := c' |> <| dispatchers := <[i := (d, w')]> (dispatchers j) |>).
  assert (jobs h' !! n = Some j') as Hn.
  { rw (mv_jobs _ _ _ _ _ _ _ _ _ Hm) list_lookup_insert_eq //. by eapply lookup_lt_Some. }
  assert (dispatchers j' !! i = Some (d, w')) as Hi'.
  { simpl. rw list_lookup_insert_eq //. by eapply lookup_lt_Some. }
  destruct (mv_table _ _ _ _ _ _ _ _ _ Hm _ _ Hf) as [[[= -> ->] Hw]|[Hold Hkeep]]; [by exists n, j', i, w'|].
  destruct (Htab _ _ _ Hold) as (n2 & j2 & i2 & w2 & Hj2 & Hk2 & Hi2 & Hw2).
  destruct (decide (n2 = n)) as [->|Hn2].
  - assert (j2 = j) as -> by congruence. destruct (decide (i2 = i)) as [->|Hi2n].
    + rw Hi in Hi2. injection Hi2 as -> ->. exists n, j', i, w'. split_and!; [done..|].
      apply Hkeep; [by rw Hk2|done].
    + exists n, j', i2, w2. split_and!; [done..|simpl; by rw list_lookup_insert_ne|done].
  - exists n2, j2, i2, w2. split_and!; [|done..]. rw (mv_jobs _ _ _ _ _ _ _ _ _ Hm) list_lookup_insert_ne //.
Qed.

Lemma dispatch_keeps slots n j i d w e h h' :
  hub_ok slots h -> jobs h !! n = Some j -> place j = Gathering -> dispatchers j !! i = Some (d, w) ->
  dispatch_one n j h i d w e = Some h' -> hub_ok slots h'.
Proof.
  intros Hh Hj Hp Hi E. destruct (dispatch_moved _ _ _ _ _ _ _ _ E) as (w' & c' & Hm).
  set (j' := j <| counts := c' |> <| dispatchers := <[i := (d, w')]> (dispatchers j) |>).
  pose proof Hh as [Hcap Hs [Hf Ho] Hjobs Htab Htold].
  assert (job_ok j) as Hok by (rw Forall_forall in Hjobs; by apply Hjobs, list_elem_of_lookup_2 with n).
  pose proof (moved_job_ok _ _ _ _ _ _ _ _ _ Hm Hok Hp Hi) as Hok'. fold j' in Hok'.
  assert (held j' = held j - holding w + holding w') as Hheld by by apply weigh_insert.
  pose proof (mv_jobs _ _ _ _ _ _ _ _ _ Hm) as Ej. fold j' in Ej.
  pose proof (mv_free _ _ _ _ _ _ _ _ _ Hm) as Ef. destruct (mv_pool _ _ _ _ _ _ _ _ _ Hm) as [Eo Ec].
  pose proof (mv_nonneg _ _ _ _ _ _ _ _ _ Hm Hf) as Hf'.
  pose proof (sum_of_insert held (jobs h) n j j' Hj) as Hsum.
  pose proof (sum_of_member held (jobs h) n j held_nonneg Hj) as Hmem.
  assert (0 <= holding w <= 1 /\ 0 <= holding w' <= 1) as Hw by (destruct w, w'; simpl; lia).
  split; [congruence|rw Ef Eo Ej Hsum; lia|lia| |by eapply moved_table|].
  - rw Ej. by eapply forall_insert.
  - destruct (mv_told _ _ _ _ _ _ _ _ _ Hm) as [->| ->]; [done|]. apply Forall_app. split; [done|].
    constructor; [|constructor]. apply (counts_message slots n j' false); [done|lia|done].
Qed.

Lemma go_keeps slots n j p h :
  hub_ok slots h -> jobs h !! n = Some j ->
  (p = LastProgress \/ p = Finished -> forallb settled (dispatchers j) = true) ->
  (p <> Gathering -> held j = 0) -> hub_ok slots (go n j p h).
Proof.
  intros [Hcap Hs Hn Hjobs Htab Htold] Hj Hp Hidle.
  assert (job_ok j) as [? ? ? ? ? _ _] by (rw Forall_forall in Hjobs; by apply Hjobs, list_elem_of_lookup_2 with n).
  assert (sum_of (map held (jobs (go n j p h))) = sum_of (map held (jobs h))) as Hsum.
  { transitivity (sum_of (map held (jobs h)) - held j + held (j <| place := p |>)); [by apply sum_of_insert|].
    change (held (j <| place := p |>)) with (held j). lia. }
  split; simpl; try done.
  - simpl in Hsum. lia.
  - eapply forall_insert; [done..|]. split; done.
  - intros d k fut Hf. destruct (Htab d k fut Hf) as (n2 & j2 & i & w & Hj2 & Hk & Hi & Hw).
    destruct (decide (n2 = n)) as [->|Hne].
    + assert (j2 = j) as -> by congruence. exists n, (j <| place := p |>), i, w.
      split_and!; try done. simpl. rw list_lookup_insert_eq //. by eapply lookup_lt_Some.
    + exists n2, j2, i, w. split_and!; try done. simpl. by rw list_lookup_insert_ne.
Qed.
Lemma tell_keeps slots n j (done : bool) h :
  hub_ok slots h -> jobs h !! n = Some j -> (done = true -> forallb settled (dispatchers j) = true) ->
  hub_ok slots (tell n j (counts j) done h).
Proof.
  intros Hh Hj Hdone. pose proof (held_bound slots h n j Hh Hj). destruct Hh as [Hcap Hs Hn Hjobs Htab Htold].
  split; simpl; try done. apply Forall_app. split; [done|]. constructor; [|constructor].
  apply counts_message; [|done..]. rw Forall_forall in Hjobs. by apply Hjobs, list_elem_of_lookup_2 with n.
Qed.
Lemma run_keeps slots n j h h' :
  hub_ok slots h -> jobs h !! n = Some j -> run_job n j h = Some h' -> hub_ok slots h'.
Proof.
  intros Hh Hj. rw /run_job.
  assert (job_ok j) as Hok.
  { pose proof (ho_jobs _ _ Hh) as H. rw Forall_forall in H. by apply H, list_elem_of_lookup_2 with n. }
  pose proof (jo_idle _ Hok) as Hidle. destruct (place j) eqn:Ep; try done.
  - intros [= <-]. apply go_keeps; [done..| |intros _; by apply Hidle]. by intros [?|?].
  - intros [= <-]. apply go_keeps; [by apply tell_keeps|done| |intros _; by apply Hidle]. by intros [?|?].
  - intros [= <-]. apply go_keeps; [done..|by intros [?|?]|done].
  - destruct (forallb settled (dispatchers j)) eqn:E; [|done]. intros [= <-].
    apply go_keeps; [by apply tell_keeps|done..|]. intros _. by apply weigh_settled.
  - intros [= <-]. apply go_keeps; [done..| |intros _; by apply Hidle]. intros _. apply (jo_over _ Hok). by left.
Qed.

Lemma release_key_same key reason h :
  let h' := (release_key key reason h).2 in
  capacity h' = capacity h /\ free h' = free h /\ foreign h' = foreign h /\ jobs h' = jobs h /\
  told h' = told h /\ pending_transfers h' = pending_transfers h.
Proof. rw /release_key. destruct (pending_transfers h !! key); [|done]. by destruct (future_done _). Qed.
Lemma release_same d reason task h :
  let h' := (release_transfer_slot d reason task h).2 in
  capacity h' = capacity h /\ free h' = free h /\ foreign h' = foreign h /\ jobs h' = jobs h /\
  told h' = told h /\ pending_transfers h' = pending_transfers h.
Proof.
  destruct task as [k|]; [apply release_key_same|]. rw /release_transfer_slot.
  pose proof (release_key_same (d, TInstall) reason h) as H1. destruct (release_key (d, TInstall) reason h) as [a h1].
  pose proof (release_key_same (d, TPush) reason h1) as H2. destruct (release_key (d, TPush) reason h1) as [b h2].
  simpl in *. naive_solver congruence.
Qed.

Lemma new_job_ok k targets : job_ok (new_job k targets).
Proof.
  assert (forall f, f Waiting = 0 -> weigh f (map (fun d : pystr => (d, Waiting)) targets) = 0) as H0.
  { intros f Hf. rw /weigh. induction targets as [|d l IH]; simpl; [done|]. rw Hf IH. lia. }
  assert (weigh waiting (map (fun d : pystr => (d, Waiting)) targets) = Z.of_nat (length targets)) as H1.
  { rw /weigh. clear H0. induction targets as [|d l IH]; simpl; [done|]. simpl in IH. rw IH. lia. }
  split; simpl; rw ?length_map ?H1 ?H0; try done; [by destruct k; intros [?|?]|].
  intros _. by apply H0.
Qed.

Lemma other_keeps slots h h' : hub_ok slots h -> other_step h h' -> hub_ok slots h'.
Proof.
  intros [Hcap Hs [Hf Ho] Hjobs Htab Htold] [k targets Hne|d reason task|Hpos|Hpos].
  - split; simpl; try done.
    + rw map_app. assert (held (new_job k targets) = 0) as Hz.
      { rw /held /= /weigh. clear. induction targets as [|d l IH]; simpl; [done|]. simpl in IH. rw IH. lia. }
      assert (forall l, sum_of (l ++ [held (new_job k targets)]) = sum_of l) as -> by
        (intros l; induction l as [|x l IH]; simpl; [rw Hz; lia|lia]). done.
    + apply Forall_app. split; [done|]. constructor; [apply new_job_ok|constructor].
    + intros d2 k2 fut Hp. destruct (Htab d2 k2 fut Hp) as (n & j & i & w & Hj & ?).
      exists n, j, i, w. split; [|done]. simpl. by apply lookup_app_l_Some.
  - destruct (release_same d reason task h) as (E1 & E2 & E3 & E4 & E5 & E6).
    split; rw ?E1 ?E2 ?E3 ?E4 ?E5; try done. intros d2 k2 fut. rw E6. rw /table_ok in Htab. setoid_rewrite E4. apply Htab.
  - split; simpl; try done; lia.
  - split; simpl; try done; lia.
Qed.

Lemma initial_ok slots : 0 <= slots -> hub_ok slots (initial slots).
Proof. intros H. split; simpl; try done; try lia; constructor. Qed.
Lemma reachable_hub_ok slots h : 0 <= slots -> hub_reachable slots h -> hub_ok slots h.
Proof.
  intros Hslots Hr. unfold hub_reachable in Hr. pose proof (initial_ok slots Hslots) as H0.
  induction Hr as [|h1 h2 h3 Hstep Hr IH]; [done|]. apply IH. destruct Hstep as [[n j i d w e h' Hj Hp Hi E|n j h' Hj E]|Ho].
  - by eapply dispatch_keeps.
  - by eapply run_keeps.
  - by eapply other_keeps.
Qed.

(** ** Accounting and bounds *)

(** C12: However the jobs, the devices and the scheduler interleave, the progress messages of
    install and push jobs account for the targets: the counts are never negative and are
    off the number of targets by at most the number of slots, the last message reports
    every target once as transferred or failed, and a job that has ended counts nobody as
    queued or transferring. *)
Theorem progress_accounts_for_targets slots h :
  0 <= slots -> hub_reachable slots h ->
  Forall (message_ok slots) (told h) /\
  Forall (fun j => accounted (counts j) = total j + weigh overdue (dispatchers j) - weigh sending (dispatchers j))
    (jobs h) /\
  Forall (fun j => place j = Finished ->
            queued (counts j) = 0 /\ transferring (counts j) = 0 /\
            transferred (counts j) + failed (counts j) = total j) (jobs h).
Proof.
  intros Hslots Hr. pose proof (reachable_hub_ok slots h Hslots Hr) as Hh.
  pose proof (ho_jobs _ _ Hh) as Hjobs. split_and!; [apply Hh| |].
  - eapply Forall_impl; [done|]. apply accounted_total.
  - apply Forall_forall. intros j Hj Hp. rw Forall_forall in Hjobs. specialize (Hjobs j Hj).
    apply list_elem_of_lookup in Hj as [n Hn].
    destruct (counts_message slots n j true Hjobs) as [_ _ Hdone]; [by eapply held_bound| |by apply Hdone].
    intros _. apply (jo_over _ Hjobs). by right.
Qed.

(** C34: The pool is never overdrawn and never leaks: the slots that are free, held by the
    job scheduler and held by dispatchers add up to the size of the pool, so that at most
    that many targets are in transfer at once across all install and push jobs; a
    registered future is that of a dispatcher still in its transfer, so nothing stays
    registered when the jobs have ended. *)
Theorem pool_is_shared_fairly slots h :
  0 <= slots -> hub_reachable slots h ->
  free h + foreign h + sum_of (map held (jobs h)) = slots /\ 0 <= free h /\ 0 <= foreign h /\
  sum_of (map (fun j => weigh in_transfer (dispatchers j)) (jobs h)) <= slots /\
  table_ok h /\
  (Forall (fun j => place j = Finished) (jobs h) -> pending_transfers h = ∅ /\ free h + foreign h = slots).
Proof.
  intros Hslots Hr. destruct (reachable_hub_ok slots h Hslots Hr) as [_ Hs [Hf Ho] Hjobs Htab _].
  assert (sum_of (map (fun j => weigh in_transfer (dispatchers j)) (jobs h)) <= sum_of (map held (jobs h))) as Hle.
  { clear. induction (jobs h) as [|j l IH]; simpl; [lia|].
    assert (weigh in_transfer (dispatchers j) <= held j) by (apply weigh_le; intros []; simpl; lia). lia. }
  split_and!; [done..|lia|done|]. intros Hdone.
  assert (forall j, j ∈ jobs h -> forallb settled (dispatchers j) = true) as Hset.
  { intros j Hj. rw Forall_forall in Hdone. rw Forall_forall in Hjobs. apply (jo_over _ (Hjobs j Hj)).
    right. by apply Hdone. }
  split.
  - apply map_empty. intros [d k]. destruct (pending_transfers h !! (d, k)) as [fut|] eqn:E; [|done].
    destruct (Htab _ _ _ E) as (n & j & i & w & Hj & _ & Hi & Hw).
    apply list_elem_of_lookup_2 in Hj. specialize (Hset j Hj). apply forallb_forall with (x := (d, w)) in Hset.
    + by destruct w.
    + by apply list_elem_of_In, list_elem_of_lookup_2 with i.
  - assert (sum_of (map held (jobs h)) = 0) as E0; [|lia]. clear -Hset.
    induction (jobs h) as [|j l IH]; simpl; [done|]. rw IH; [|intros j' Hj'; apply Hset; by right].
    rw /held weigh_settled //. apply Hset. left.
Qed.

(** ** Every job ends *)

Definition place_left (p : job_at) : Z :=
  match p with Hashing => 5 | QueuedNews => 4 | FirstProgress => 3 | Gathering => 2 | LastProgress => 1 | Finished => 0 end.
(** Steps the jobs have left at most. *)
Definition job_left (j : job) : Z := place_left (place j) + weigh steps_left (dispatchers j).
Definition left (h : hub) : Z := sum_of (map job_left (jobs h)).

Lemma job_left_nonneg j : 0 <= job_left j.
Proof.
  assert (0 <= weigh steps_left (dispatchers j)) by (apply weigh_nonneg; intros []; simpl; lia).
  rw /job_left. destruct (place j); simpl; lia.
Qed.
Lemma left_nonneg h : 0 <= left h.
Proof. apply sum_of_nonneg, job_left_nonneg. Qed.

Lemma job_step_left h h' : job_step h h' -> left h' < left h.
Proof.
  intros [n j i d w e h2 Hj Hp Hi E|n j h2 Hj E].
  - destruct (dispatch_moved _ _ _ _ _ _ _ _ E) as (w' & c' & Hm).
    rw /left (mv_jobs _ _ _ _ _ _ _ _ _ Hm) (sum_of_insert _ _ _ j) //. rw /job_left /=.
    rw (weigh_insert _ _ _ _ w) //. pose proof (mv_left _ _ _ _ _ _ _ _ _ Hm). lia.
  - assert (exists p c h0, h2 = go n j p h0 /\ jobs h0 = jobs h /\ c = place_left p /\ c < place_left (place j))
      as (p & c & h0 & -> & E0 & -> & Hlt).
    { rw /run_job in E. destruct (place j); try case_match; try done; injection E as <-; by eexists _, _, _. }
    rw /left /go /= E0 (sum_of_insert _ _ _ j) //. rw /job_left /=. lia.
Qed.

Lemma at_await_step n j h i d w :
  w <> Settled -> (w = Waiting -> 0 < free h) -> exists e h', dispatch_one n j h i d w e = Some h'.
Proof.
  intros Hw Hfree. destruct w; try done.
  - exists (Granted false). simpl. specialize (Hfree eq_refl). destruct (free h <=? 0) eqn:E; [lia|by eexists].
  - exists SendFails. by eexists.
  - exists Woken. by eexists.
  - exists Woken. by eexists.
  - exists Woken. by eexists.
  - exists Woken. by eexists.
  - destruct (future_of h fut) eqn:E.
    + exists TimedOut. simpl. rw E. by eexists.
    + exists Woken. simpl. rw E. by eexists.
    + exists TimedOut. simpl. rw E. by eexists.
  - exists Woken. by eexists.
  - exists Woken. by eexists.
Qed.

(** A job that is not finished is at an await that can end, or waits for a slot another
    job holds. *)
Lemma busy_dispatcher j : weigh holding (dispatchers j) <> 0 -> exists i d w, dispatchers j !! i = Some (d, w) /\ holding w = 1.
Proof.
  rw /weigh. induction (dispatchers j) as [|[d w] l IH]; simpl; [lia|]. intros Hne.
  destruct (decide (holding w = 1)) as [Hw|Hw]; [by exists 0%nat, d, w|].
  assert (holding w = 0) as E by (destruct w; simpl in *; lia). rw E in Hne.
  destruct IH as (i & d' & w' & ? & ?); [lia|]. by exists (S i), d', w'.
Qed.
Lemma unsettled_dispatcher l :
  forallb settled l = false -> exists i d w, l !! i = Some (d, w) /\ w <> Settled.
Proof.
  induction l as [|[d w] l IH]; simpl; [done|]. intros E. destruct w; try (by exists 0%nat, d; eexists).
  destruct (IH E) as (i & d' & w' & ? & ?). by exists (S i), d', w'.
Qed.

Lemma jobs_not_stuck slots h :
  hub_ok slots h -> foreign h < slots -> Exists (fun j => place j <> Finished) (jobs h) -> exists h', job_step h h'.
Proof.
  intros Hh Hforeign Hex. pose proof Hh as [_ Hs [Hf Ho] Hjobs _ _]. rw Forall_forall in Hjobs.
  destruct (decide (sum_of (map held (jobs h)) = 0)) as [E0|E0].
  - apply Exists_exists in Hex as (j & Hin & Hp). apply list_elem_of_lookup in Hin as [n Hn].
    destruct (decide (place j = Gathering)) as [Eg|Eg];
      [|destruct (run_job n j h) as [h'|] eqn:E; [exists h'; by eapply run_step|];
        rw /run_job in E; by destruct (place j)].
    destruct (forallb settled (dispatchers j)) eqn:Es.
    { exists (go n j LastProgress (tell n j (counts j) true h)). eapply run_step; [done|]. by rw /run_job Eg Es. }
    destruct (unsettled_dispatcher _ Es) as (i & d & w & Hi & Hw).
    destruct (at_await_step n j h i d w Hw) as (e & h' & E); [lia|]. exists h'. by eapply dispatch_step.
  - assert (exists n j, jobs h !! n = Some j /\ held j <> 0) as (n & j & Hn & Hheld).
    { clear -E0. induction (jobs h) as [|j l IH]; simpl in *; [lia|].
      destruct (decide (held j = 0)) as [E|E]; [|by exists 0%nat, j].
      destruct IH as (n & j' & ? & ?); [lia|]. by exists (S n), j'. }
    assert (place j = Gathering) as Eg.
    { destruct (decide (place j = Gathering)) as [|Hne]; [done|]. exfalso. apply Hheld.
      by apply (jo_idle _ (Hjobs j (list_elem_of_lookup_2 _ _ _ Hn))). }
    destruct (busy_dispatcher j Hheld) as (i & d & w & Hi & Hw).
    destruct (at_await_step n j h i d w) as (e & h' & E); [by intros ->|by intros ->|].
    exists h'. by eapply dispatch_step.
Qed.

Lemma job_step_foreign h h' : job_step h h' -> foreign h' = foreign h.
Proof.
  intros [n j i d w e h2 Hj Hp Hi E|n j h2 Hj E].
  - destruct (dispatch_moved _ _ _ _ _ _ _ _ E) as (w' & c' & Hm). apply (mv_pool _ _ _ _ _ _ _ _ _ Hm).
  - rw /run_job in E. destruct (place j); try case_match; try done; by injection E as <-.
Qed.

(** C29: Every install and push job ends.  Whatever has happened, while the job scheduler
    leaves one slot the jobs can go on until all of them have finished; no other task is
    needed for it, as a device that stays silent is given up after the time-out; and each
    step of a job uses up one of a number of steps that only a new job raises. *)
Theorem jobs_end slots h :
  0 <= slots -> hub_reachable slots h -> foreign h < slots ->
  (exists h', rtc job_step h h' /\ Forall (fun j => place j = Finished) (jobs h')) /\
  (forall h', job_step h h' -> 0 <= left h' < left h) /\
  (forall h', other_step h h' -> jobs h' = jobs h \/ exists k targets, jobs h' = jobs h ++ [new_job k targets]).
Proof.
  intros Hslots Hr Hforeign. split_and!.
  - pose proof (left_nonneg h) as H0. remember (Z.to_nat (left h)) as m eqn:Em.
    revert h Hr Hforeign H0 Em. induction m as [m IH] using lt_wf_ind. intros h Hr Hforeign H0 Em.
    destruct (decide (Exists (fun j => place j <> Finished) (jobs h))) as [Hex|Hall].
    + destruct (jobs_not_stuck slots h) as [h1 Hstep]; [by apply reachable_hub_ok|done..|].
      pose proof (job_step_left h h1 Hstep). pose proof (left_nonneg h1).
      destruct (IH (Z.to_nat (left h1))) with (h := h1) as (h' & Hrun & Hdone);
        [lia| |by rw (job_step_foreign h h1)|done..|].
      { eapply rtc_r; [done|by apply step_job]. }
      exists h'. split; [|done]. by eapply rtc_l.
    + exists h. split; [done|]. apply not_Exists_Forall in Hall; [|intros j; apply _].
      eapply Forall_impl; [done|]. intros j. apply dec_stable.
  - intros h' Hstep. split; [apply left_nonneg|by apply job_step_left].
  - intros h' [k targets _|d reason task| |]; [right; by exists k, targets|left|by left..].
    by destruct (release_same d reason task h) as (_ & _ & _ & ? & _).
Qed.

(** ** Runs on concrete devices *)

Inductive act :=
  | Start (k : transfer_kind) (targets : list pystr)
  | RunJob (n : nat)
  | Dispatch (n i : nat) (e : event)
  | Release (device_id reason : pystr) (task : option transfer_kind).
Definition act_on (h : hub) (a : act) : option hub :=
  match a with
  | Start k (t :: ts) => Some (h <| jobs := jobs h ++ [new_job k (t :: ts)] |>)
  | Start _ [] => None
  | RunJob n => j ← jobs h !! n; run_job n j h
  | Dispatch n i e =>
      j ← jobs h !! n;
      '(d, w) ← dispatchers j !! i;
      if bool_decide (place j = Gathering) then dispatch_one n j h i d w e else None
  | Release d reason task => Some (release_transfer_slot d reason task h).2
  end.
Fixpoint drive (h : hub) (l : list act) : option hub :=
  match l with [] => Some h | a :: l' => h' ← act_on h a; drive h' l' end.

Lemma act_step h a h' : act_on h a = Some h' -> step h h'.
Proof.
  destruct a as [k [|t ts]|n|n i e|d reason task]; simpl; intros E; try done.
  - injection E as <-. by apply step_other, start_step.
  - apply bind_Some in E as (j & Hj & E). apply step_job. by eapply run_step.
  - apply bind_Some in E as (j & Hj & E). apply bind_Some in E as ([d w] & Hi & E). case_bool_decide; [|done].
    apply step_job. by eapply dispatch_step.
  - injection E as <-. apply step_other, release_step.
Qed.
Lemma drive_reachable slots l h h' : hub_reachable slots h -> drive h l = Some h' -> hub_reachable slots h'.
Proof.
  induction l as [|a l IH] in h |- *; simpl; [by intros Hr [= <-]|].
  intros Hr (h1 & Ha & Hd)%bind_Some. eapply IH; [|done]. eapply rtc_r; [done|by eapply act_step].
Qed.

(** A push to two headsets over two slots: the command goes out to the first while the
    second is refused. *)
Definition headset (n : N) : pystr := u "PA" ++ [48 + n]%N.
Definition first_refused : list act :=
  [Start TPush [headset 1; headset 2]; RunJob 0; RunJob 0; Dispatch 0 0 (Granted true); Dispatch 0 1 (Granted false);
   Dispatch 0 1 Woken].
(** The rest of the job: the device downloads, both dispatchers settle. *)
Definition then_ends : list act :=
  [Dispatch 0 1 Woken; Dispatch 0 0 SendOk; Dispatch 0 0 Woken; Dispatch 0 0 Woken;
   Release (headset 1) (u "download_complete") (Some TPush); Dispatch 0 0 Woken; Dispatch 0 0 Woken;
   RunJob 0; RunJob 0].
Definition sample_hub : hub := default (initial 2) (drive (initial 2) (first_refused ++ then_ends)).
Lemma sample_hub_reachable : hub_reachable 2 sample_hub.
Proof.
  apply (drive_reachable 2 (first_refused ++ then_ends) (initial 2)); [constructor|]. vm_compute. reflexivity.
Qed.

Lemma progress_accounts_for_targets_witness :
  option_map (fun m => (p_done m, transferred (p_counts m), failed (p_counts m))) (last (told sample_hub)) =
    Some (true, 1, 1) /\
  Forall (message_ok 2) (told sample_hub).
Proof.
  split; [vm_compute; reflexivity|].
  apply (progress_accounts_for_targets 2 sample_hub); [lia|apply sample_hub_reachable].
Defined.
Lemma pool_is_shared_fairly_witness : pending_transfers sample_hub = ∅ /\ free sample_hub = 2.
Proof.
  split; [|vm_compute; reflexivity].
  apply (pool_is_shared_fairly 2 sample_hub); [lia|apply sample_hub_reachable|].
  apply (bool_decide_eq_true_1 _). vm_compute. reflexivity.
Defined.
Lemma jobs_end_witness :
  let h := default (initial 2) (drive (initial 2) first_refused) in
  exists h', rtc job_step h h' /\ Forall (fun j => place j = Finished) (jobs h').
Proof.
  intros h. apply (jobs_end 2 h); [lia| |reflexivity].
  apply (drive_reachable 2 first_refused (initial 2)); [constructor|]. vm_compute. reflexivity.
Defined.

(** ** Where the comments promise more *)

(** The counts of a message need not add up to the targets: while the command is sent to a
    device it is counted nowhere. *)
Lemma counts_may_miss_a_target :
  exists h m, hub_reachable 2 h /\ m ∈ told h /\ accounted (p_counts m) <> p_total m.
Proof.
  exists (default (initial 2) (drive (initial 2) first_refused)), (Progress 0 2 (Counters 0 0 0 1) false).
  split_and!; [|vm_compute; right; left|done].
  apply (drive_reachable 2 first_refused (initial 2)); [constructor|]. vm_compute. reflexivity.
Qed.

(** A device named twice has two dispatchers and one place in [pending_transfers]: nothing
    the device sends releases the first, which keeps its slot until the time-out. *)
Definition named_twice : list act :=
  [Start TPush [headset 1; headset 1]; RunJob 0; RunJob 0;
   Dispatch 0 0 (Granted true); Dispatch 0 0 SendOk; Dispatch 0 1 (Granted true); Dispatch 0 1 SendOk;
   Release (headset 1) (u "download_complete") (Some TPush); Release (headset 1) (u "push_files_result") (Some TPush);
   Release (headset 1) (u "disconnect") None].
Lemma displaced_future_stays_pending :
  exists h, drive (initial 2) named_twice = Some h /\ hub_reachable 2 h /\
    future_of h 0 = Pending /\ future_of h 1 = Completed (u "download_complete").
Proof.
  destruct (drive (initial 2) named_twice) as [h|] eqn:E; [|by vm_compute in E].
  exists h. split_and!; [done|eapply drive_reachable; [constructor|done]| |].
  all: vm_compute in E; injection E as <-; vm_compute; reflexivity.
Qed.
