(* ===== verification/Commands.v ===== *)
(** * Commands to devices (server.py)

    The console's commands that are sent to many devices at once without a transfer:
    launching and deleting an app, power, retirement, verification, the startup app. *)

From S2P Require Import Prelude PyStr Json Policy Paths Fleet Registry Groups.
Open Scope Z_scope.

Section Commands.
Context {H : host}.

(** ** Targets *)

Definition device_of (d : json) (s : fleet) : option online :=
  match d with JStr id => lookup_by streq id (devices s) | _ => None end.

(** The elements a [for] loop over the value gives; a number or [None] has none. *)
Definition iterate (v : json) : outcome fault (list json) :=
  match v with
  | JArr l => Ret l
  | JStr s => Ret (map (fun c => JStr [c]) s)
  | JObj o => Ret (map (fun kv => JStr kv.1) o)
  | _ => Raise TypeError
  end.
Definition everyone (v : json) : bool := negb (truthy v) || py_eq v (JArr [JStr (u "*")]).

(** The devices of [targets] that [command_allowed]; [devices.get] needs a hashable key. *)
Fixpoint permitted (command : option pystr) (targets : list json) (s : fleet) : outcome fault (list json) :=
  match targets with
  | [] => Ret []
  | d :: rest =>
      if negb (is_hashable d) then Raise TypeError
      else
        ids ← permitted command rest s;
        Ret (if command_allowed (o_fields <$> device_of d s) command then d :: ids else ids)
  end.
Definition resolve_target_ids (target_devices : json) (allow_legacy : bool) (s : fleet) : outcome fault (list json) :=
  targets ← (if everyone target_devices then Ret (JStr <$> (devices s).*1) else iterate target_devices);
  permitted (if allow_legacy then Some (u "EXECUTE_INSTALL") else None) targets s.

Definition resolve (target_devices : json) : Handler (list json) :=
  s ← look id;
  of_outcome (resolve_target_ids target_devices false s).
Definition target_devices (data : record) : json := field_or "target_devices" (JArr []) data.

(** ** The loop over the targets *)

(** [except CommandNotAllowedError] and [except ConnectionResetError] go on with the next
    device. *)
Definition lost_command (e : fault) : option (Handler Z) :=
  match e with CommandNotAllowed | ConnectionReset => Some (mret 0) | _ => None end.

(** One device: the frame is sent to its socket, and [sent_to] runs when it left. *)
Definition send_command (payload : Handler record) (sent_to : json -> online -> Handler unit) (did : json) : Handler Z :=
  entry ← look (device_of did);
  match entry with
  | None => mret 0
  | Some entry =>
      try_except
        (message ← payload;
         send (DeviceSocket (o_ws entry)) message ;;
         sent_to did entry ;;
         mret 1)
        lost_command
  end.
Fixpoint fan_out (payload : Handler record) (sent_to : json -> online -> Handler unit) (ids : list json) : Handler Z :=
  match ids with
  | [] => mret 0
  | did :: rest =>
      n ← send_command payload sent_to did;
      m ← fan_out payload sent_to rest;
      mret (n + m)
  end.
Definition fan_out_message (payload : record) (ids : list json) : Handler Z :=
  fan_out (mret payload) (fun _ _ => mret tt) ids.

Definition typed (type : string) (fields : record) : record := field "type" (JStr (u type)) :: fields.
Definition no_match : pystr := u "No matching online devices found".

(** The counts a console is told. *)
Definition counts_reply (type : string) (fields : record) (sent_count : Z) (target_count : nat) : Handler unit :=
  send TheAdmin (typed type (fields ++ [field "sent_count" (JInt sent_count);
                                        field "target_count" (JInt (Z.of_nat target_count))])).

(** Targets, fan-out, reply: what the handlers share; [after] runs before the reply and
    [finish] after it. *)
Definition command_all (data : record) (payload : Handler record) (sent_to : json -> online -> Handler unit)
    (reply : string) (fields : record) (after finish : Handler unit) : Handler unit :=
  ids ← resolve (target_devices data);
  match ids with
  | [] => error_reply no_match
  | _ =>
      sent_count ← fan_out payload sent_to ids;
      after ;;
      counts_reply reply fields sent_count (length ids) ;;
      finish
  end.
Definition no_more (did : json) (entry : online) : Handler unit := mret tt.

(** ** The handlers *)

Definition handle_launch_app (data : record) : Handler unit :=
  let package_name := field_or "package_name" empty_text data in
  let extra_data := field_or "extra_data" (JStr (u "{}")) data in
  if negb (truthy package_name) then error_reply (u "package_name is required")
  else
    command_all data (mret (typed "EXECUTE_LAUNCH" [field "package_name" package_name; field "extra" extra_data]))
      no_more "LAUNCH_SENT" [field "package_name" package_name] (mret tt) (mret tt).

Definition PROTECTED_PACKAGES : list pystr := [u "com.styly.mdmclient"; u "com.styly.mdmguard"].

Definition handle_delete_app (data : record) : Handler unit :=
  match field_or "package_name" empty_text data with
  | JStr raw_name =>
      let package_name := strip raw_name in
      if streq package_name [] then error_reply (u "package_name is required")
      else if bool_decide (package_name ∈ PROTECTED_PACKAGES) then
        error_reply (package_name ++
          u " belongs to STYLY-MDM itself; use Retire Device to remove the MDM client")
      else
        command_all data (mret (typed "EXECUTE_UNINSTALL" [field "package_name" (JStr package_name)]))
          no_more "DELETE_APP_SENT" [field "package_name" (JStr package_name)] (mret tt) (mret tt)
  | _ => raise AttributeError
  end.

Definition handle_retire_device (data : record) : Handler unit :=
  command_all data
    (n ← gets turns;
     mret (typed "EXECUTE_SELF_UNINSTALL" [field "correlation_id" (JStr (uuid4_hex n))]))
    no_more "RETIRE_SENT" [] (mret tt) (mret tt).

(** [_fanout_execute] and the two handlers that call it. *)
Definition handle_verify_apk (data : record) : Handler unit :=
  let package_name := field_or "package_name" empty_text data in
  if negb (truthy package_name) then error_reply (u "package_name is required")
  else
    command_all data (mret (typed "EXECUTE_VERIFY_APK" [field "package_name" package_name]))
      no_more "VERIFY_SENT" [field "package_name" package_name] (mret tt) (mret tt).
(** A true value that is not a string has no [startswith]. *)
Definition handle_verify_dir (data : record) : Handler unit :=
  let path := field_or "path" empty_text data in
  if truthy path && negb (is_str path) then raise AttributeError
  else if negb (is_syntactically_safe_verify_path (default [] (as_str path))) then
    error_reply (u "A valid absolute path without '..' is required")
  else
    command_all data (mret (typed "EXECUTE_VERIFY_DIR" [field "path" path]))
      no_more "VERIFY_DIR_SENT" [field "path" path] (mret tt) (mret tt).

(** [entry["startup_app"] = v; rec["startup_app"] = v]: the entry that was looked up before
    the send, which is the device's while its socket is, and the record of now. *)
Definition record_startup_app (v : json) (did : json) (entry : online) : Handler unit :=
  let store := store_by streq (u "startup_app") v in
  change (fun s =>
    let s := match did, device_of did s with
             | JStr id, Some current =>
                 if (o_ws current =? o_ws entry)%N
                 then s <| devices := store_by streq id (Online (o_ws current) (store (o_fields current))) (devices s) |>
                 else s
             | _, _ => s
             end in
    match registry_get did s with
    | Some rec => s <| device_registry := store_by py_eq did (store rec) (device_registry s) |>
    | None => s
    end).
Definition handle_set_startup_app (data : record) : Handler unit :=
  let package_name := field_or "package_name" empty_text data in
  let extra_data := field_or "extra_data" empty_text data in
  if negb (truthy package_name) then error_reply (u "package_name is required for SET_STARTUP_APP")
  else
    command_all data (mret (typed "SET_STARTUP_APP" [field "package_name" package_name; field "extra" extra_data]))
      (record_startup_app (JObj [field "package_name" package_name; field "extra" extra_data]))
      "SET_STARTUP_APP_SENT" [field "package_name" package_name] save_registry broadcast_device_list.
Definition handle_clear_startup_app (data : record) : Handler unit :=
  command_all data (mret (typed "CLEAR_STARTUP_APP" [])) (record_startup_app JNull)
    "CLEAR_STARTUP_APP_SENT" [] save_registry broadcast_device_list.

(** ** Power *)

Definition has_key (name : string) (data : record) : bool := bool_decide (is_Some (assoc_get (u name) data)).
Fixpoint all_distinct (l : list pystr) : bool :=
  match l with [] => true | x :: l' => bool_decide (x ∉ l') && all_distinct l' end.

(** The connections asked for, or the error, or neither when the field is absent. *)
Definition _parse_target_connections (data : record) : option (list pystr) * option pystr :=
  if negb (has_key "target_connections" data) then (None, None)
  else if has_key "target_devices" data then
    (None, Some (u "target_connections cannot be combined with target_devices"))
  else
    match get (u "target_connections") data with
    | JArr (v :: raw) =>
        match mapM as_str (v :: raw) with
        | None => (None, Some (u "target_connections must contain non-empty connection IDs"))
        | Some ids =>
            if bool_decide ([] ∈ ids) then (None, Some (u "target_connections must contain non-empty connection IDs"))
            else if bool_decide (u "*" ∈ ids) then (None, Some (u "target_connections does not support wildcards"))
            else if negb (all_distinct ids) then (None, Some (u "target_connections must not contain duplicates"))
            else (Some ids, None)
        end
    | _ => (None, Some (u "target_connections must be a non-empty array"))
    end.

Definition _provisional_entry_for_id (connection_id command : pystr) (s : fleet) : option (N * record) :=
  head (filter (fun we => eq_str (get (u "connection_id") we.2) connection_id &&
                          command_allowed (Some we.2) (Some command)) (provisional_connections s)).

Definition power_connection (execute_type : string) (connection_id : pystr) : Handler Z :=
  current ← look (_provisional_entry_for_id connection_id (u execute_type));
  match current with
  | None => mret 0
  | Some (ws, _) =>
      try_except
        (send (DeviceSocket ws) (typed execute_type [field "connection_id" (JStr connection_id)]) ;; mret 1)
        lost_command
  end.
Fixpoint power_connections (execute_type : string) (ids : list pystr) : Handler Z :=
  match ids with
  | [] => mret 0
  | id :: rest =>
      n ← power_connection execute_type id;
      m ← power_connections execute_type rest;
      mret (n + m)
  end.

Definition _dispatch_power_command (data : record) (execute_type sent_type : string) : Handler unit :=
  match _parse_target_connections data with
  | (_, Some target_error) => error_reply target_error
  | (Some target_connections, None) =>
      sent_count ← power_connections execute_type target_connections;
      if sent_count =? 0 then error_reply (u "No matching eligible provisional connections found")
      else
        send TheAdmin (typed sent_type [field "sent_count" (JInt sent_count);
                                        field "target_count" (JInt (Z.of_nat (length target_connections)));
                                        field "target_connections" (JArr (JStr <$> target_connections))])
  | (None, None) => command_all data (mret (typed execute_type [])) no_more sent_type [] (mret tt) (mret tt)
  end.
Definition handle_reboot_device (data : record) : Handler unit :=
  _dispatch_power_command data "EXECUTE_REBOOT" "REBOOT_SENT".
Definition handle_power_off_device (data : record) : Handler unit :=
  _dispatch_power_command data "EXECUTE_POWER_OFF" "POWER_OFF_SENT".

(** ** The console's messages *)

Definition command_handler (data : record) : option (Handler unit) :=
  let msg_type := get (u "type") data in
  let says name := eq_str msg_type (u name) in
  if says "LAUNCH_APP"%string then Some (handle_launch_app data)
  else if says "DELETE_APP"%string then Some (handle_delete_app data)
  else if says "REBOOT_DEVICE"%string then Some (handle_reboot_device data)
  else if says "POWER_OFF_DEVICE"%string then Some (handle_power_off_device data)
  else if says "VERIFY_APK"%string then Some (handle_verify_apk data)
  else if says "VERIFY_DIR"%string then Some (handle_verify_dir data)
  else if says "SET_STARTUP_APP"%string then Some (handle_set_startup_app data)
  else if says "CLEAR_STARTUP_APP"%string then Some (handle_clear_startup_app data)
  else if says "RETIRE_DEVICE"%string then Some (handle_retire_device data)
  else registry_command data.

(** One text frame of [admin_ws_handler]; [rest] is what the two transfer commands do. *)
Definition admin_frame (rest : record -> Handler unit) (raw : pystr) : Handler unit :=
  match loads raw with
  | None => mret tt
  | Some (JObj data) =>
      let msg_type := get (u "type") data in
      refused ← (if has_key "target_connections" data then
                   if negb (is_hashable msg_type) then raise TypeError
                   else mret (negb (eq_str msg_type (u "REBOOT_DEVICE") || eq_str msg_type (u "POWER_OFF_DEVICE")))
                 else mret false);
      if refused : bool then error_reply (u "target_connections is only supported for power control")
      else match command_handler data with Some handler => handler | None => rest data end
  | Some _ => raise AttributeError
  end.
End Commands.
