(* ===== verification/Commanding.v ===== *)
(** * What the commands to devices guarantee

    The counts a console is told are those of the frames that left, on every
    interleaving, and the packages of the system itself are never uninstalled. *)

From S2P Require Import Prelude PyStr Text Json Policy Paths Fleet Registry Groups Membership Commands.
Open Scope Z_scope.

(** ** Counting frames *)

Definition is_device (m : peer * json) : bool := match m.1 with DeviceSocket _ => true | _ => false end.
Definition frame_field (name : string) (m : peer * json) : json :=
  match m.2 with JObj o => get (u name) o | _ => JNull end.
Arguments frame_field name%_string m.

(** Handlers that send nothing, and what they leave. *)
Definition silent {A} (m : Handler A) : Prop := forall s, sent (m s).2 = sent s.

Section Counts.
Context {H : host}.

Lemma bind_ret {A B} (m : Handler A) (f : A -> Handler B) s b s' :
  (m ≫= f) s = (Ret b, s') -> exists a s1, m s = (Ret a, s1) /\ f a s1 = (Ret b, s').
Proof. rw /mbind /M_bind. destruct (m s) as [[a|e] s1]; [by eauto|done]. Qed.
Lemma pause_ret s s' : pause s = (Ret tt, s') -> sent s' = sent s.
Proof. rw /pause. destruct (cancelled _); by intros [= <-]. Qed.
Lemma send_ret to payload s s' :
  send to payload s = (Ret tt, s') -> sent s' = sent s ++ [(to, JObj payload)].
Proof.
  rw /send gets_does. destruct (lost (turns s)).
  - by intros (a & s1 & E & [=])%bind_ret.
  - by intros (a & s1 & [= <- <-] & E%pause_ret)%bind_ret.
Qed.
Lemma broadcast_ret message s s' :
  broadcast message s = (Ret tt, s') -> sent s' = sent s ++ [(AllAdmins, message)].
Proof. by intros (a & s1 & [= <- <-] & E%pause_ret)%bind_ret. Qed.

Lemma send_lost to payload s e s' : send to payload s = (Raise e, s') -> e <> Cancelled -> sent s' = sent s.
Proof.
  rw /send gets_does. destruct (lost (turns s)) as [e'|].
  - rw /mbind /M_bind /pause. destruct (cancelled _); by intros [= <- <-].
  - rw /mbind /M_bind /modify /pause. destruct (cancelled _); [by intros [= <- <-] ?|done].
Qed.

(** What runs after a frame has left neither sends nor raises. *)
Definition quiet (m : Handler unit) : Prop := forall s, exists s', m s = (Ret tt, s') /\ sent s' = sent s.

Definition only_frames (before after : desk) (n : Z) (most : nat) : Prop :=
  exists frames, sent after = sent before ++ frames /\ Forall (fun m => is_device m = true) frames /\
    n = Z.of_nat (length frames) /\ (length frames <= most)%nat.
Lemma no_frames s s' most : sent s' = sent s -> only_frames s s' 0 most.
Proof. intros E. exists []. rw app_nil_r. split_and!; [done|constructor|done|simpl; lia]. Qed.
Lemma frames_then s s1 s2 n m j k :
  only_frames s s1 n j -> only_frames s1 s2 m k -> only_frames s s2 (n + m) (j + k).
Proof.
  intros (f & E & Hf & -> & Hj) (g & E2 & Hg & -> & Hk). exists (f ++ g).
  rw E2 E app_assoc length_app. split_and!; [done|by apply Forall_app|lia|lia].
Qed.

Lemma lost_command_counts payload to s e s' m :
  send to payload s = (Raise e, s') -> lost_command e = Some m -> m = mret 0 /\ sent s' = sent s.
Proof.
  intros E El. assert (e <> Cancelled /\ m = mret 0) as [Hc ->] by (destruct e; try done; by injection El as <-).
  split; [done|]. by eapply send_lost.
Qed.

Lemma send_command_counts payload sent_to did s n s' :
  (forall s, exists message, payload s = (Ret message, s)) -> (forall d e, quiet (sent_to d e)) ->
  send_command payload sent_to did s = (Ret n, s') -> only_frames s s' n 1.
Proof.
  intros Hp Ht. rw /send_command look_does. destruct (device_of did (memory s)) as [entry|].
  2: { intros [= <- <-]. by apply no_frames. }
  destruct (Hp s) as [message Em]. rw /try_except /mbind /M_bind Em.
  destruct (send _ _ s) as [[[]|e] s1] eqn:E.
  - destruct (Ht did entry s1) as (s2 & -> & E2). intros [= <- <-]. apply send_ret in E.
    eexists. split_and!; [by rw E2 E|by repeat constructor|done|simpl; lia].
  - destruct (lost_command e) as [m|] eqn:El; [|done].
    destruct (lost_command_counts _ _ _ _ _ _ E El) as [-> Es]. intros [= <- <-]. by apply no_frames.
Qed.
Lemma fan_out_counts payload sent_to ids s n s' :
  (forall s, exists message, payload s = (Ret message, s)) -> (forall d e, quiet (sent_to d e)) ->
  fan_out payload sent_to ids s = (Ret n, s') -> only_frames s s' n (length ids).
Proof.
  intros Hp Ht. induction ids as [|did ids IH] in s, n |- *; simpl.
  - intros [= <- <-]. by apply no_frames.
  - intros (a & s1 & E1 & (b & s2 & E2 & [= <- <-])%bind_ret)%bind_ret.
    apply send_command_counts in E1; [|done..]. apply IH in E2. by apply (frames_then s s1 s2 a b 1 (length ids)).
Qed.
Lemma power_connections_counts execute_type ids s n s' :
  power_connections execute_type ids s = (Ret n, s') -> only_frames s s' n (length ids).
Proof.
  induction ids as [|id ids IH] in s, n |- *; simpl.
  - intros [= <- <-]. by apply no_frames.
  - intros (a & s1 & E1 & (b & s2 & E2 & [= <- <-])%bind_ret)%bind_ret. apply IH in E2.
    apply (frames_then s s1 s2 a b 1 (length ids)); [|done]. clear E2. rw /power_connection look_does in E1.
    destruct (_provisional_entry_for_id _ _ _) as [[ws e]|]; [|injection E1 as <- <-; by apply no_frames].
    rw /try_except /mbind /M_bind in E1. destruct (send _ _ s) as [[[]|f] s3] eqn:E.
    + injection E1 as <- <-. apply send_ret in E. eexists. split_and!; [done|by repeat constructor|done|simpl; lia].
    + destruct (lost_command f) as [m|] eqn:El; [|done].
      destruct (lost_command_counts _ _ _ _ _ _ E El) as [-> Es]. injection E1 as <- <-. by apply no_frames.
Qed.

(** ** Commands *)

(** The frames are followed by messages to the consoles, and a count they carry is the
    number of the frames, at most the number of targets. *)
Definition counted (m : Handler unit) : Prop :=
  forall s s', m s = (Ret tt, s') -> exists frames replies,
    sent s' = sent s ++ frames ++ replies /\
    Forall (fun x => is_device x = true) frames /\ Forall (fun x => is_device x = false) replies /\
    Forall (fun x => x.1 = TheAdmin ->
      frame_field "sent_count" x = JNull \/
      exists targets, frame_field "sent_count" x = JInt (Z.of_nat (length frames)) /\
        frame_field "target_count" x = JInt targets /\ Z.of_nat (length frames) <= targets) replies.

(** A handler that only speaks to the consoles, and of no counts. *)
Definition chatty (m : Handler unit) : Prop :=
  forall s s', m s = (Ret tt, s') -> exists replies, sent s' = sent s ++ replies /\
    Forall (fun x => is_device x = false /\ (x.1 = TheAdmin -> frame_field "sent_count" x = JNull)) replies.
Lemma chatty_counted m : chatty m -> counted m.
Proof.
  intros Hm s s' (replies & E & Hr)%Hm. exists [], replies. simpl. split_and!; [done|constructor| |];
    eapply Forall_impl; try done; intros x [? ?]; [done|by left; auto].
Qed.
Lemma chatty_error text : chatty (error_reply text).
Proof. intros s s' E%send_ret. eexists. split; [done|]. by repeat constructor. Qed.
Lemma chatty_raise e : chatty (raise e).
Proof. by intros s s'. Qed.
Lemma chatty_ret : chatty (mret tt).
Proof. intros s s' [= <-]. exists []. by rw app_nil_r. Qed.
Lemma chatty_save : chatty save_registry.
Proof.
  intros s s'. rw /save_registry look_does gets_does. destruct (write_error _); [by apply chatty_ret|].
  destruct (negb _); [done|]. intros [= <-]. exists []. by rw app_nil_r.
Qed.
Lemma chatty_list : chatty broadcast_device_list.
Proof.
  intros s s'. rw /broadcast_device_list look_does. intros (message & s1 & E1 & E2%broadcast_ret)%bind_ret.
  injection E1 as _ <-. eexists. split; [done|]. by repeat constructor.
Qed.

Lemma assoc_get_app key (a b : record) :
  assoc_get key (a ++ b) = match assoc_get key a with Some v => Some v | None => assoc_get key b end.
Proof. induction a as [|[k v] a IH]; simpl; [done|]. by destruct (streq key k). Qed.

Definition countless (reply : string) (fields : record) : Prop :=
  assoc_get (u "sent_count") (typed reply fields) = None /\ assoc_get (u "target_count") (typed reply fields) = None.
Lemma counts_reply_fields reply fields n m :
  countless reply fields ->
  let payload := typed reply (fields ++ [field "sent_count" (JInt n); field "target_count" (JInt m)]) in
  get (u "sent_count") payload = JInt n /\ get (u "target_count") payload = JInt m.
Proof.
  intros [H1 H2] payload. rw /payload /typed app_comm_cons -/(typed reply fields) /get !assoc_get_app H1 H2. done.
Qed.

Lemma command_all_counted data payload sent_to reply fields after finish :
  (forall s, exists message, payload s = (Ret message, s)) -> (forall d e, quiet (sent_to d e)) ->
  chatty after -> chatty finish -> countless reply fields ->
  counted (command_all data payload sent_to reply fields after finish).
Proof.
  intros Hp Ht Ha Hf Hc s s' (ids & s1 & E1 & E)%bind_ret.
  assert (s1 = s) as -> by (rw /resolve look_does in E1; by injection E1).
  destruct ids as [|id ids]; [by apply (chatty_counted _ (chatty_error no_match))|].
  apply bind_ret in E as (n & s2 & (frames & E2 & Hfr & -> & Hle)%fan_out_counts & E); [|done..].
  apply bind_ret in E as ([] & s3 & (r1 & E3 & Hr1)%Ha & E).
  apply bind_ret in E as ([] & s4 & E4%send_ret & (r2 & E5 & Hr2)%Hf).
  destruct (counts_reply_fields reply fields (Z.of_nat (length frames)) (Z.of_nat (length (id :: ids))) Hc) as [Hsent Htarget].
  set (message := (TheAdmin, JObj (typed reply (fields ++ _)))) in E4.
  exists frames, (r1 ++ message :: r2).
  assert (forall r, Forall (fun x => is_device x = false /\ (x.1 = TheAdmin -> frame_field "sent_count" x = JNull)) r ->
    Forall (fun x => is_device x = false) r /\ Forall (fun x => x.1 = TheAdmin ->
      frame_field "sent_count" x = JNull \/
      exists targets, frame_field "sent_count" x = JInt (Z.of_nat (length frames)) /\
        frame_field "target_count" x = JInt targets /\ Z.of_nat (length frames) <= targets) r) as Hplain.
  { intros r Hr. split; eapply Forall_impl; try done; intros x [? ?]; [done|by left; auto]. }
  destruct (Hplain r1 Hr1), (Hplain r2 Hr2).
  split_and!; [by rw E5 E4 E3 E2 -!app_assoc|done|by apply Forall_app; split; [|constructor]|].
  apply Forall_app. split; [done|]. constructor; [|done]. intros _. right.
  exists (Z.of_nat (length (id :: ids))). split_and!; [exact Hsent|exact Htarget|lia].
Qed.
End Counts.

Create HintDb counted.
#[export] Hint Resolve chatty_error chatty_raise chatty_ret chatty_save chatty_list : counted.
#[export] Hint Extern 2 (counted _) => apply chatty_counted : counted.

Lemma quiet_no_more did entry : quiet (no_more did entry).
Proof. intros s. by exists s. Qed.
Lemma quiet_startup {H : host} v did entry : quiet (record_startup_app v did entry).
Proof. intros s. by eexists. Qed.
#[export] Hint Resolve quiet_no_more quiet_startup : counted.

Lemma power_counted {H : host} data execute_type sent_type :
  countless sent_type [] -> counted (_dispatch_power_command data execute_type sent_type).
Proof.
  intros Hc. rw /_dispatch_power_command. destruct (_parse_target_connections data) as [[ids|] [error|]];
    try (apply chatty_counted, chatty_error).
  - intros s s' (n & s1 & (frames & E & Hfr & -> & Hle)%power_connections_counts & E1)%bind_ret.
    destruct (Z.of_nat (length frames) =? 0) eqn:En; apply send_ret in E1.
    + exists frames. eexists. split_and!; [by rw E1 E app_assoc|done|by repeat constructor|].
      constructor; [|constructor]. intros _. by left.
    + exists frames. eexists. split_and!; [by rw E1 E app_assoc|done|by repeat constructor|].
      constructor; [|constructor]. intros _. right. exists (Z.of_nat (length ids)). split_and!; [done|done|lia].
  - apply command_all_counted; auto with counted. intros s. by eexists.
Qed.

(** On every interleaving, what a console is told of a command is what happened: the
    frames that left for devices come first, the reply's count of them is their number,
    and it is at most the number of devices the command was for. *)
Theorem commands_are_counted {H : host} data m :
  command_handler data = Some m -> registry_command data = None -> counted m.
Proof.
  rw /command_handler. intros Hm Hr.
  assert (forall (p : record) (s : desk), exists message, (mret p : Handler record) s = (Ret message, s)) as Hpay
    by (intros p s; by eexists).
  repeat (case_match; [injection Hm as <-|]); [| | | | | | | | |congruence].
  - unfold handle_launch_app. case_match; [auto with counted|]. apply command_all_counted; auto with counted. by split.
  - unfold handle_delete_app. case_match; try (auto with counted; fail). do 2 (case_match; [auto with counted|]).
    apply command_all_counted; auto with counted. by split.
  - by apply power_counted.
  - by apply power_counted.
  - unfold handle_verify_apk. case_match; [auto with counted|]. apply command_all_counted; auto with counted. by split.
  - unfold handle_verify_dir. do 2 (case_match; [auto with counted|]). apply command_all_counted; auto with counted.
    by split.
  - unfold handle_set_startup_app. case_match; [auto with counted|]. apply command_all_counted; auto with counted.
    by split.
  - apply command_all_counted; auto with counted. by split.
  - apply command_all_counted; auto with counted; [intros s; by eexists|by split].
Qed.
Lemma commands_are_counted_witness :
  let data := [field "type" (JStr (u "LAUNCH_APP")); field "package_name" (JStr (u "com.example.app"))] in
  counted (handle_launch_app (H := quiet_host) data).
Proof. intros data. by apply (commands_are_counted (H := quiet_host) data). Defined.

(** ** Protected packages *)

Section Protected.
Context {H : host}.

(** No frame tells a device to uninstall a package of the system. *)
Definition harmless (to : peer) (v : json) : Prop :=
  is_device (to, v) = true -> frame_field "type" (to, v) = JStr (u "EXECUTE_UNINSTALL") ->
  exists package, frame_field "package_name" (to, v) = JStr package /\ package ∉ PROTECTED_PACKAGES.
Definition harmless_log (s : desk) : Prop := Forall (fun x => harmless x.1 x.2) (sent s).

Lemma harmless_say s to v : harmless to v -> harmless_log s -> harmless_log (s <| sent := sent s ++ [(to, v)] |>).
Proof. intros Hv Hs. apply Forall_app. by repeat constructor. Qed.
Lemma harmless_pause : holds harmless_log pause.
Proof. intros s Hs. exact Hs. Qed.
Lemma harmless_send to payload : harmless to (JObj payload) -> holds harmless_log (send to payload).
Proof. intros Hp. apply (holds_send _ harmless); [apply harmless_pause|apply harmless_say|done]. Qed.
Lemma harmless_admin payload : holds harmless_log (send TheAdmin payload).
Proof. by apply harmless_send. Qed.
Lemma harmless_error text : holds harmless_log (error_reply text).
Proof. apply harmless_admin. Qed.
Lemma harmless_broadcast v : holds harmless_log (broadcast v).
Proof. apply (holds_broadcast _ harmless); [apply harmless_pause|apply harmless_say|done]. Qed.
Lemma harmless_change f : holds harmless_log (change f).
Proof. by intros s. Qed.
Lemma harmless_outcome {A} (o : outcome fault A) : holds harmless_log (of_outcome o).
Proof. by intros s. Qed.
Lemma harmless_clean_text name limit data : holds harmless_log (clean_text name limit data).
Proof. unfold clean_text. repeat case_match; by intros ?. Qed.
#[local] Hint Resolve harmless_admin harmless_error harmless_broadcast harmless_change harmless_outcome harmless_clean_text
  : keeps.

Lemma harmless_save : holds harmless_log save_registry.
Proof. unfold save_registry. auto 10 with keeps. Qed.
Lemma harmless_device_list : holds harmless_log broadcast_device_list.
Proof. unfold broadcast_device_list. auto with keeps. Qed.
Lemma harmless_group_list : holds harmless_log broadcast_group_list.
Proof. unfold broadcast_group_list. auto with keeps. Qed.
Lemma harmless_group_reply type fields : holds harmless_log (group_reply type fields).
Proof. apply harmless_admin. Qed.
#[local] Hint Resolve harmless_save harmless_device_list harmless_group_list harmless_group_reply : keeps.

(** A fan-out whose frames are of another type, or name a package that is not protected. *)
Lemma harmless_fan_out payload sent_to ids :
  (forall s message s', payload s = (Ret message, s') -> harmless (DeviceSocket 0) (JObj message)) ->
  holds harmless_log payload -> (forall d e, holds harmless_log (sent_to d e)) ->
  holds harmless_log (fan_out payload sent_to ids).
Proof.
  intros Hp Hpay Ht. induction ids as [|did ids IH]; simpl; [auto with keeps|].
  apply holds_bind; [|intros n; apply holds_bind; [done|auto with keeps]].
  unfold send_command. apply holds_bind; [auto with keeps|intros [entry|]; [|auto with keeps]].
  apply holds_try; [|intros e h'; destruct e; try done; intros [= <-]; auto with keeps].
  intros s Hs. specialize (Hpay s Hs). rw /mbind /M_bind. destruct (payload s) as [[message|e] s1] eqn:E; [|done].
  simpl in Hpay. revert s1 E Hpay. intros s1 E Hpay.
  apply (holds_bind harmless_log (send _ message)); [|intros _; apply holds_bind; [apply Ht|auto with keeps]|done].
  apply harmless_send. intros _. exact (Hp s message s1 E eq_refl).
Qed.
Lemma harmless_command data payload sent_to reply fields after finish :
  (forall s message s', payload s = (Ret message, s') -> harmless (DeviceSocket 0) (JObj message)) ->
  holds harmless_log payload -> (forall d e, holds harmless_log (sent_to d e)) ->
  holds harmless_log after -> holds harmless_log finish ->
  holds harmless_log (command_all data payload sent_to reply fields after finish).
Proof.
  intros Hp Hpay Ht Ha Hf. unfold command_all, resolve, counts_reply. apply holds_bind; [auto with keeps|intros ids].
  destruct ids; [auto with keeps|].
  apply holds_bind; [by apply harmless_fan_out|intros n]. auto with keeps.
Qed.
Lemma harmless_other message : get (u "type") message <> JStr (u "EXECUTE_UNINSTALL") -> harmless (DeviceSocket 0) (JObj message).
Proof. intros Hn _ E. done. Qed.
Lemma harmless_power data execute_type sent_type :
  u execute_type <> u "EXECUTE_UNINSTALL" -> holds harmless_log (_dispatch_power_command data execute_type sent_type).
Proof.
  intros Hne. unfold _dispatch_power_command. destruct (_parse_target_connections data) as [[ids|] [error|]]; auto with keeps.
  - apply holds_bind; [|intros n; case_match; auto with keeps].
    induction ids as [|id ids IH]; simpl; [auto with keeps|].
    apply holds_bind; [|intros n; apply holds_bind; [done|auto with keeps]].
    unfold power_connection. apply holds_bind; [auto with keeps|intros [[ws e]|]; [|auto with keeps]].
    apply holds_try; [|intros f h'; destruct f; try done; intros [= <-]; auto with keeps].
    apply holds_bind; [|auto with keeps]. apply harmless_send. intros _ E. exfalso. apply Hne. vm_compute in E. by injection E.
  - apply harmless_command; auto with keeps; [|intros d e; apply holds_ret].
    intros s message s' [= <- <-]. apply harmless_other. intros E. apply Hne. vm_compute in E. by injection E.
Qed.
End Protected.

#[local] Hint Resolve harmless_admin harmless_error harmless_broadcast harmless_change harmless_outcome
  harmless_clean_text harmless_save harmless_device_list harmless_group_list harmless_group_reply : keeps.

Lemma harmless_registry {H : host} data m : registry_command data = Some m -> holds harmless_log m.
Proof.
  rw /registry_command. intros Hm. repeat (case_match; [injection Hm as <-|]); [| | | | | | | |done].
  - do 2 (apply holds_bind; [auto with keeps|intros ?]). case_match; auto with keeps.
  - unfold handle_set_device_label. auto 20 with keeps.
  - unfold handle_forget_device. auto 20 with keeps.
  - unfold handle_create_group. auto 20 with keeps.
  - unfold handle_rename_group. auto 20 with keeps.
  - unfold handle_delete_group. auto 20 with keeps.
  - unfold handle_set_device_groups. auto 20 with keeps.
  - unfold handle_set_group_members. auto 20 with keeps.
Qed.

(** A fan-out of one message that is harmless. *)
Lemma harmless_fixed {H : host} data message sent_to reply fields after finish :
  harmless (DeviceSocket 0) (JObj message) -> (forall d e, holds harmless_log (sent_to d e)) ->
  holds harmless_log after -> holds harmless_log finish ->
  holds harmless_log (command_all data (mret message) sent_to reply fields after finish).
Proof.
  intros Hm Ht Ha Hf. apply harmless_command; auto with keeps. by intros s p s' [= <- <-].
Qed.
Lemma harmless_no_more did entry : holds harmless_log (no_more did entry).
Proof. apply holds_ret. Qed.
#[local] Hint Resolve harmless_no_more : keeps.

