(* ===== verification/Devices.v ===== *)
(** * Device connections (server.py)

    [device_ws_handler]: registration, telemetry, and the two operations that end with the
    device gone, self-update and retirement, with the timers that settle them. *)

From S2P Require Import Prelude PyStr Json PushJobs Policy Fleet Registry Groups.
From stdpp Require Import strings.
From Stdlib Require Import QArith.
Open Scope Z_scope.

(** ** Registration frames *)

Definition IDENTITY_SCHEME : pystr := u "styly_device_id_v1".
Definition MAX_DEVICE_MODEL_LEN : nat := 128.
Definition MAX_DEVICE_IP_LEN : nat := 64.
Definition MAX_VERSION_NAME_LEN : nat := 64.
Definition MAX_IDENTITY_DIAGNOSTIC_LEN : nat := 256.
Definition PROVISIONAL_STATUSES : list pystr :=
  [u "resolving"; u "access_denied"; u "io_error"; u "unsupported_api"].

(** CANONICAL_DEVICE_ID_RE: lower-case hexadecimal groups of 8, 4, 4, 4 and 12. *)
Definition hex_lower (c : N) : bool := (((48 <=? c) && (c <=? 57)) || ((97 <=? c) && (c <=? 102)))%N.
Definition CANONICAL_DEVICE_ID_RE (s : pystr) : bool :=
  bool_decide (length <$> split_on 45 s = [8; 4; 4; 4; 12]%nat) && forallb (forallb hex_lower) (split_on 45 s).

Definition _bounded_registration_text (value : json) (fallback : pystr) (limit : nat) : pystr :=
  take limit (match value with JStr s => s | _ => fallback end).

(** [re.sub(r"[\r\n]+", " ", s)]. *)
Definition is_newline (c : N) : bool := (c =? 10)%N || (c =? 13)%N.
Fixpoint join_lines (in_run : bool) (s : pystr) : pystr :=
  match s with
  | [] => []
  | c :: s' =>
      if is_newline c then if in_run then join_lines true s' else 32%N :: join_lines true s'
      else c :: join_lines false s'
  end.

Inductive registration := Registers (kind : pystr) (fields : record) | RegistrationError (message : pystr).

Definition _parse_registration (data : record) (remote : option pystr) : outcome fault registration :=
  let scheme := get (u "identity_scheme") data in
  let device_id := get (u "device_id") data in
  let remote := match remote with Some ((_ :: _) as r) => r | _ => u "unknown" end in
  let common :=
    [field "model" (JStr (_bounded_registration_text (get (u "model") data) (u "unknown") MAX_DEVICE_MODEL_LEN));
     field "ip" (JStr (_bounded_registration_text (get (u "ip") data) remote MAX_DEVICE_IP_LEN));
     field "version_name" (JStr (_bounded_registration_text (get (u "version_name") data) [] MAX_VERSION_NAME_LEN));
     field "capabilities" (JArr (JStr <$> sorted_strs (elements (parse_capabilities (get (u "capabilities") data)))));
     field "version_code" (match get (u "version_code") data with JInt n => JInt n | _ => JNull end)] in
  let with_id := common ++ [field "device_id" device_id; field "startup_app" (get (u "startup_app") data)] in
  if is_null scheme then
    match device_id with
    | JStr ((_ :: _) as id) =>
        if (128 <? length id)%nat then Ret (RegistrationError (u "Legacy REGISTER requires a bounded non-empty device_id"))
        else Ret (Registers (u "legacy") with_id)
    | _ => Ret (RegistrationError (u "Legacy REGISTER requires a bounded non-empty device_id"))
    end
  else if negb (eq_str scheme IDENTITY_SCHEME) then Ret (RegistrationError (u "Unsupported identity_scheme"))
  else
    match device_id with
    | JStr id =>
        if CANONICAL_DEVICE_ID_RE id then Ret (Registers (u "canonical") with_id)
        else Ret (RegistrationError (u "device_id must be a canonical lowercase GUID"))
    | JNull =>
        match get (u "identity") data with
        | JObj ident =>
            if negb (eq_str (get (u "state") ident) (u "provisional")) then
              Ret (RegistrationError (u "A null device_id requires a provisional identity object"))
            else
              let status := get (u "status") ident in
              if negb (is_hashable status) then Raise TypeError
              else if negb (existsb (eq_str status) PROVISIONAL_STATUSES) then
                Ret (RegistrationError (u "Unsupported provisional identity status"))
              else
                match field_or "diagnostic" empty_text ident, get (u "mint_attempted") ident with
                | JStr diagnostic, JBool mint_attempted =>
                    Ret (Registers (u "provisional")
                      (common ++ [field "identity_status" status;
                                  field "diagnostic" (JStr (take MAX_IDENTITY_DIAGNOSTIC_LEN
                                                              (strip (join_lines false diagnostic))));
                                  field "mint_attempted" (JBool mint_attempted)]))
                | JStr _, _ => Ret (RegistrationError (u "Provisional mint_attempted must be a boolean"))
                | _, _ => Ret (RegistrationError (u "Provisional diagnostic must be a string"))
                end
        | _ => Ret (RegistrationError (u "A null device_id requires a provisional identity object"))
        end
    | _ => Ret (RegistrationError (u "device_id must be a canonical lowercase GUID or null"))
    end.

(** ** Ownership *)

Definition entry_of (device_id : pystr) (s : fleet) : option online := lookup_by streq device_id (devices s).
Definition _owns_device (device_id : option pystr) (ws : N) (s : fleet) : bool :=
  match device_id with
  | Some ((_ :: _) as id) => match entry_of id s with Some entry => (o_ws entry =? ws)%N | None => false end
  | _ => false
  end.

(** A field of a device's entry, of a device's record. *)
Definition set_entry (id : pystr) (name : string) (v : json) (s : fleet) : fleet :=
  match entry_of id s with
  | Some e => s <| devices := store_by streq id (Online (o_ws e) (store_by streq (u name) v (o_fields e))) (devices s) |>
  | None => s
  end.
Definition set_record (id : pystr) (name : string) (v : json) (s : fleet) : fleet :=
  match registry_get (JStr id) s with
  | Some rec => s <| device_registry := store_by py_eq (JStr id) (store_by streq (u name) v rec) (device_registry s) |>
  | None => s
  end.
Arguments set_entry id name%_string v s.
Arguments set_record id name%_string v s.

Section Devices.
Context {H : host}.

Definition _close_protocol_error (ws : N) (message : pystr) : Handler unit :=
  try_except (send (DeviceSocket ws) [field "type" (JStr (u "ERROR")); field "message" (JStr message)])
    (fun e => match e with ConnectionReset | CommandNotAllowed => Some (mret tt) | _ => None end) ;;
  pause.

(** [_complete_device_registration] on a plain socket. *)
Definition _complete_device_registration (ws : N) (device_id : pystr) : Handler unit :=
  send (DeviceSocket ws) [field "type" (JStr (u "REGISTERED"))] ;;
  change (fun s => if _owns_device (Some device_id) ws s then set_entry device_id "registration_ready" (JBool true) s else s).

(** ** Timers *)

(** [asyncio.create_task] of a timer; [cancel_timer] takes it away, and so does its end. *)
Definition create_timer (t : timer) : Handler N :=
  n ← look next_timer;
  change (fun s => s <| timers := <[n := t]> (timers s) |> <| next_timer := (n + 1)%N |>) ;;
  mret n.

Definition retire_result (device_id : pystr) (correlation_id : json) (status : string) (detail : pystr) : Handler unit :=
  forward_to_admins [field "type" (JStr (u "RETIRE_RESULT")); field "device_id" (JStr device_id);
                     field "correlation_id" correlation_id; field "status" (JStr (u status));
                     field "detail" (JStr detail)].

(** [_retire_timeout] after its sleep. *)
Definition retire_of (device_id : pystr) (s : fleet) : option retire := lookup_by streq device_id (pending_retires s).
Definition drop_pending_retire (device_id : pystr) (s : fleet) : fleet :=
  s <| pending_retires := remove_by streq device_id (pending_retires s) |>.
Definition _retire_timeout (device_id correlation_id : pystr) : Handler unit :=
  entry ← look (retire_of device_id);
  match entry with
  | Some entry =>
      if negb (streq (re_correlation_id entry) correlation_id) then mret tt
      else
        change (drop_pending_retire device_id) ;;
        connected ← look (in_devices (JStr device_id));
        if connected : bool then
          retire_result device_id (JStr correlation_id) "fail"
            (u "still connected " ++ str_of_int retire_timeout_s ++ u "s after announcing; the uninstall apparently never ran") ;;
          broadcast_device_list
        else
          known ← look (fun s => bool_decide (is_Some (registry_get (JStr device_id) s)));
          (if known : bool then change (set_record device_id "retired" (JBool true)) ;; save_registry else mret tt) ;;
          retire_result device_id (JStr correlation_id) "success"
            (u "no re-registration within " ++ str_of_int retire_timeout_s ++ u "s of the announcement") ;;
          broadcast_device_list
  | None => mret tt
  end.

Definition _resolve_pending_retire (device_id : pystr) : Handler unit :=
  entry ← look (retire_of device_id);
  match entry with
  | Some entry =>
      change (fun s => cancel_timer (re_timeout_task entry) (drop_pending_retire device_id s)) ;;
      retire_result device_id (JStr (re_correlation_id entry)) "fail"
        (u "device re-registered; the uninstall did not complete")
  | None => mret tt
  end.

(** ** Self-updates *)

Definition update_of (device_id : pystr) (s : fleet) : option self_update := lookup_by streq device_id (pending_self_updates s).
Definition drop_pending_update (device_id : pystr) (s : fleet) : fleet :=
  s <| pending_self_updates := remove_by streq device_id (pending_self_updates s) |>.
(** [del pending_self_updates[device_id]]. *)
Definition delete_update (device_id : pystr) : Handler unit :=
  present ← look (fun s => bool_decide (is_Some (update_of device_id s)));
  if present : bool then change (drop_pending_update device_id) else raise KeyError.
Definition is_phase (p : phase) (e : self_update) : bool :=
  match p, su_phase e with Updating, Updating | Verifying, Verifying => true | _, _ => false end.

Definition broadcast_install_state (device_id : pystr) (state : string) (apk_filename : json) (detail : pystr) : Handler unit :=
  forward_to_admins [field "type" (JStr (u "INSTALL_DEVICE_STATE")); field "device_ids" (JArr [JStr device_id]);
                     field "state" (JStr (u state)); field "apk_filename" apk_filename; field "detail" (JStr detail)].
Definition update_result (device_id : pystr) (e : self_update) (status : string) (version_code : json) (detail : pystr)
    : Handler unit :=
  forward_to_admins [field "type" (JStr (u "SELF_UPDATE_RESULT")); field "device_id" (JStr device_id);
                     field "correlation_id" (JStr (su_correlation_id e)); field "status" (JStr (u status));
                     field "version_code" version_code;
                     field "target_version_code" (JInt (su_target_version_code e)); field "detail" (JStr detail)].
Definition update_verified (device_id : pystr) (e : self_update) (status : string) (detail : pystr) : Handler unit :=
  forward_to_admins [field "type" (JStr (u "SELF_UPDATE_VERIFIED")); field "device_id" (JStr device_id);
                     field "correlation_id" (JStr (su_correlation_id e)); field "status" (JStr (u status));
                     field "detail" (JStr detail)].

(** [_self_update_timeout] and [_self_update_verify_timeout] after their sleeps. *)
Definition _self_update_timeout (device_id correlation_id : pystr) : Handler unit :=
  entry ← look (update_of device_id);
  match entry with
  | Some e =>
      if negb (streq (su_correlation_id e) correlation_id && is_phase Updating e) then mret tt
      else
        change (drop_pending_update device_id) ;;
        let untracked := streq (su_identity_kind e) (u "legacy") in
        let detail := if untracked
                      then u "legacy identity did not return; a successful replacement registers as a new device"
                      else u "device did not re-register within " ++ str_of_int self_update_timeout_s ++ u "s" in
        update_result device_id e (if untracked then "untracked" else "timeout") JNull detail ;;
        broadcast_install_state device_id (if untracked then "untracked" else "fail") (su_apk_filename e) detail ;;
        broadcast_device_list
  | None => mret tt
  end.
Definition _self_update_verify_timeout (device_id correlation_id : pystr) : Handler unit :=
  entry ← look (update_of device_id);
  match entry with
  | Some e =>
      if negb (streq (su_correlation_id e) correlation_id && is_phase Verifying e) then mret tt
      else
        change (drop_pending_update device_id) ;;
        update_verified device_id e "error" 
          (u "device did not answer the verify command within " ++ str_of_int self_update_verify_timeout_s ++ u "s")
  | None => mret tt
  end.

Definition store_update (device_id : pystr) (e : self_update) (s : fleet) : fleet :=
  s <| pending_self_updates := store_by streq device_id e (pending_self_updates s) |>.
(** The entry is an object: a change of it shows in the dict while it is there. *)
Definition same_update (device_id : pystr) (e : self_update) (s : fleet) : bool :=
  match update_of device_id s with Some e' => (su_object e' =? su_object e)%N | None => false end.
Definition update_entry (device_id : pystr) (e : self_update) (s : fleet) : fleet :=
  if same_update device_id e s then store_update device_id e s else s.

(** [except Exception]. *)
Definition is_exception (e : fault) : bool := match e with Cancelled => false | _ => true end.

Definition _resolve_pending_self_update (device_id : pystr) (ws : N) (version_code : json) : Handler unit :=
  entry ← look (update_of device_id);
  match entry with
  | Some e =>
      if negb (is_phase Updating e) then mret tt
      else
        change (cancel_timer (su_timeout_task e)) ;;
        let target := su_target_version_code e in
        let success := match version_code with JInt n => target <=? n | _ => false end in
        let detail := match version_code with
                      | JInt n =>
                          u "re-registered with version_code " ++ str_of_int n ++
                          (if success then [] else u ", expected >= " ++ str_of_int target)
                      | _ => u "client reported no version_code"
                      end in
        let outcome := (if success then "success" else "fail")%string in
        update_result device_id e outcome version_code detail ;;
        broadcast_install_state device_id outcome (su_apk_filename e) detail ;;
        if negb success then delete_update device_id
        else
          allowed ← look (fun s => command_allowed (o_fields <$> entry_of device_id s) None);
          if truthy (su_expected_full_sha256 e) && truthy (su_package_name e) && allowed then
            let verifying := e <| su_phase := Verifying |> <| su_timeout_task := None |> in
            change (update_entry device_id verifying) ;;
            failed ← try_except
              (send (DeviceSocket ws) [field "type" (JStr (u "EXECUTE_VERIFY_APK"));
                                       field "package_name" (su_package_name e)] ;; mret None)
              (fun f => if is_exception f then Some (mret (Some f)) else None);
            match failed with
            | None =>
              n ← create_timer (Timer VerifyTimeout device_id (su_correlation_id e));
              change (update_entry device_id (verifying <| su_timeout_task := Some n |>))
            | Some f =>
              delete_update device_id ;;
              update_verified device_id e "error" (u "could not send the verify command: " ++ fault_text f)
            end
          else
            delete_update device_id ;;
            update_verified device_id e "skipped"
              (if streq (su_identity_kind e) (u "legacy")
               then u "legacy identity only supports APK installation/update"
               else u "no reference hashes for the installed APK")
  | None => mret tt
  end.

(** [got.lower() == expected.lower()] and the outcome of the comparison. *)
Definition verify_outcome (expected : pystr) (data : record) : string * pystr :=
  if negb (truthy (get (u "found") data)) then ("error"%string, u "package not found after the update")
  else
    match get (u "full_sha256") data with
    | JStr ((_ :: _) as got) =>
        if streq (lower_of got) (lower_of expected)
        then ("verified"%string, u "installed APK matches the dispatched file (full_sha256 " ++ take 12 expected ++ [8230%N] ++ u ")")
        else ("mismatch"%string, u "installed full_sha256 " ++ take 12 got ++ [8230%N] ++ u " does not match dispatched " ++
                            take 12 expected ++ [8230%N])
    | _ => ("error"%string, u "device reported no full_sha256")
    end.
Definition _consume_self_update_verify (device_id : pystr) (data : record) : Handler bool :=
  entry ← look (update_of device_id);
  match entry with
  | Some e =>
      if negb (is_phase Verifying e) then mret false
      else if negb (py_eq (get (u "package_name") data) (su_package_name e)) then mret false
      else
        change (fun s => drop_pending_update device_id (cancel_timer (su_timeout_task e) s)) ;;
        let '(status, detail) := verify_outcome (default [] (as_str (su_expected_full_sha256 e))) data in
        update_verified device_id e status detail ;;
        mret true
  | None => mret false
  end.

Definition _clear_pending_self_update_on_install_result (device_id : pystr) : Handler unit :=
  change (fun s =>
    match update_of device_id s with
    | Some e => if is_phase Updating e then drop_pending_update device_id (cancel_timer (su_timeout_task e) s) else s
    | None => s
    end).

(** ** A socket and its frames *)

(** The local variables of the handler of a socket. *)
Record connection := Connection { c_ws : N; c_device_id : option pystr; c_identity_kind : option pystr }.

(** What the handler does after a frame: go on, or leave the loop. *)
Inductive next := Go (c : connection) | Leave.

Definition text_or (def : pystr) (v : json) : pystr := match v with JStr ((_ :: _) as s) => s | _ => def end.

(** The entry and the record of a device that registers. *)
Definition new_entry (ws : N) (device_id kind : pystr) (registration prev : record) : online :=
  Online ws
    [field "device_id" (JStr device_id); field "identity_kind" (JStr kind); field "registration_ready" (JBool false);
     field "model" (get (u "model") registration); field "ip" (get (u "ip") registration);
     field "status" (JStr (u "registering")); field "startup_app" (get (u "startup_app") registration);
     field "battery" (get (u "battery") prev); field "version_code" (get (u "version_code") registration);
     field "version_name" (get (u "version_name") registration)].
Definition registered_record (now : json) (kind : pystr) (registration prev : record) : record :=
  [field "label" (field_or "label" empty_text prev); field "model" (get (u "model") registration);
   field "ip" (get (u "ip") registration); field "last_seen" now;
   field "startup_app" (get (u "startup_app") registration); field "battery" (get (u "battery") prev);
   field "version_code" (get (u "version_code") registration);
   field "version_name" (get (u "version_name") registration); field "identity_kind" (JStr kind)].
Definition promote (ws : N) (device_id kind : pystr) (now : json) (registration : record) (s : fleet) : fleet :=
  let prev := default [] (registry_get (JStr device_id) s) in
  s <| provisional_connections := filter (fun we => we.1 <> ws) (provisional_connections s) |>
    <| devices := store_by streq device_id (new_entry ws device_id kind registration prev) (devices s) |>
    <| device_registry := store_by py_eq (JStr device_id) (registered_record now kind registration prev)
                            (device_registry s) |>.

(** [build_provisional_connection_list_msg]: sorted by the time of the connection, the model
    and the address; the times are finite. *)
Definition provisional_row (entry : record) : record :=
  [field "connection_id" (get (u "connection_id") entry); field "model" (get (u "model") entry);
   field "ip" (get (u "ip") entry); field "version_code" (get (u "version_code") entry);
   field "version_name" (get (u "version_name") entry); field "identity_status" (get (u "identity_status") entry);
   field "diagnostic" (get (u "diagnostic") entry); field "mint_attempted" (get (u "mint_attempted") entry);
   field "capabilities" (field_or "capabilities" (JArr []) entry);
   field "power_control_supported" (JBool (command_allowed (Some entry) (Some (u "EXECUTE_REBOOT"))));
   field "connected_at" (get (u "connected_at") entry); field "last_status_at" (get (u "last_status_at") entry)].
Definition seconds (v : json) : Q := match v with JFloat (PFin q) => q | JInt n => inject_Z n | _ => inject_Z 0 end.
Definition text_of (v : json) : pystr := match v with JStr s => s | _ => [] end.
Definition provisional_leb (a b : record) : bool :=
  let ta := seconds (get (u "connected_at") a) in
  let tb := seconds (get (u "connected_at") b) in
  let ma := text_of (get (u "model") a) in
  let mb := text_of (get (u "model") b) in
  if negb (Qeq_bool ta tb) then Qle_bool ta tb
  else if negb (streq ma mb) then str_leb ma mb
  else str_leb (text_of (get (u "ip") a)) (text_of (get (u "ip") b)).
Definition provisional_le (a b : record) : Prop := provisional_leb a b = true.
#[local] Instance provisional_le_dec : RelDecision provisional_le.
Proof. intros a b. unfold provisional_le. apply _. Defined.
Definition build_provisional_connection_list_msg (s : fleet) : json :=
  JObj [field "type" (JStr (u "PROVISIONAL_CONNECTION_LIST"));
        field "connections" (JArr (JObj <$> merge_sort provisional_le
                                     (map (fun we => provisional_row we.2) (provisional_connections s))))].
Definition broadcast_provisional_connection_list : Handler unit :=
  message ← look build_provisional_connection_list_msg;
  broadcast message.

(** A socket without an identity: its entry keeps its connection ID and its time while the
    socket lives. *)
Definition provisional_of (ws : N) (s : fleet) : option record :=
  snd <$> head (filter (fun we => we.1 = ws) (provisional_connections s)).
Definition put_provisional (ws : N) (entry : record) (s : fleet) : fleet :=
  let others := provisional_connections s in
  s <| provisional_connections :=
         if bool_decide (ws ∈ others.*1)
         then map (fun we => if (we.1 =? ws)%N then (ws, entry) else we) others
         else others ++ [(ws, entry)] |>.
Definition register_provisional (c : connection) (registration : record) : Handler next :=
  let ws := c_ws c in
  now ← time_time;
  n ← gets turns;
  previous ← look (provisional_of ws);
  let ready := match previous with Some p => is_true (get (u "registration_ready") p) | None => false end in
  let connection_id := match previous with Some p => get (u "connection_id") p | None => JStr (uuid4_hex n) end in
  let entry :=
    registration ++
    [field "identity_kind" (JStr (u "provisional")); field "registration_ready" (JBool ready);
     field "connection_id" connection_id;
     field "connected_at" (match previous with Some p => field_or "connected_at" now p | None => now end);
     field "last_status_at" now] in
  change (put_provisional ws entry) ;;
  send (DeviceSocket ws) [field "type" (JStr (u "REGISTERED_PROVISIONAL")); field "connection_id" connection_id] ;;
  change (fun s => match provisional_of ws s with
                   | Some current =>
                       if py_eq (get (u "connection_id") current) connection_id
                       then put_provisional ws (store_by streq (u "registration_ready") (JBool true) current) s else s
                   | None => s
                   end) ;;
  broadcast_provisional_connection_list ;;
  mret (Go (Connection ws None (Some (u "provisional")))).

(** A device registers on a socket that has none yet. *)
Definition adopt (c : connection) (kind : pystr) (registration : record) : Handler next :=
  let device_id := default [] (as_str (get (u "device_id") registration)) in
  let c := Connection (c_ws c) (Some device_id) (Some kind) in
  now ← time_time;
  change (promote (c_ws c) device_id kind now registration) ;;
  save_registry ;;
  _complete_device_registration (c_ws c) device_id ;;
  owner ← look (_owns_device (Some device_id) (c_ws c));
  if negb owner then mret (Go c)
  else
    change (set_entry device_id "status" (JStr (u "online"))) ;;
    _resolve_pending_retire device_id ;;
    _resolve_pending_self_update device_id (c_ws c) (get (u "version_code") registration) ;;
    (if streq kind (u "canonical") then broadcast_provisional_connection_list else mret tt) ;;
    broadcast_device_list ;;
    mret (Go c).

Definition battery_update (device_id : pystr) (data : record) : Handler unit :=
  now ← time_time;
  battery ← of_outcome (_coerce_battery now (JObj [field "level" (get (u "level") data);
                                                   field "charging" (get (u "charging") data);
                                                   field "last_seen" (get (u "timestamp") data)]));
  match battery with
  | JObj b =>
      let battery := JObj (store_by streq (u "last_seen") now b) in
      present ← look (fun s => bool_decide (is_Some (entry_of device_id s)));
      if negb present then raise KeyError
      else
        change (set_entry device_id "battery" battery) ;;
        change (fun s => set_record device_id "last_seen" now (set_record device_id "battery" battery s)) ;;
        save_registry ;;
        broadcast_device_list
  | _ => mret tt
  end.

(** The hashes of an uploaded file, and the release of a device's transfer slots
    ([Install.release_transfer_slot]). *)
Context (apk_hashes_for : json -> Handler json) (release_transfer_slot : pystr -> pystr -> json -> Handler bool).

Definition self_update_starting (device_id kind : pystr) (data : record) : Handler unit :=
  match get (u "correlation_id") data, get (u "target_version_code") data with
  | JStr ((_ :: _) as correlation_id), JInt target_vc =>
      let apk_filename := field_or "apk_filename" empty_text data in
      change (fun s => match update_of device_id s with Some e => cancel_timer (su_timeout_task e) s | None => s end) ;;
      dispatched ← look (fun s => lookup_by streq device_id (last_install_dispatch s));
      expected ← match dispatched with
                 | Some full_sha256 => mret full_sha256
                 | None => apk_hashes_for apk_filename
                 end;
      n ← create_timer (Timer UpdateTimeout device_id correlation_id);
      change (store_update device_id
        (SelfUpdate n Updating correlation_id target_vc apk_filename (field_or "package_name" empty_text data)
           expected kind (Some n))) ;;
      broadcast_install_state device_id "updating" apk_filename []
  | _, _ => mret tt
  end.

Definition self_uninstall_starting (device_id : pystr) (data : record) : Handler unit :=
  match get (u "correlation_id") data with
  | JStr ((_ :: _) as correlation_id) =>
      change (fun s => match retire_of device_id s with Some e => cancel_timer (re_timeout_task e) s | None => s end) ;;
      change (fun s => match update_of device_id s with
                       | Some e => cancel_timer (su_timeout_task e) (drop_pending_update device_id s)
                       | None => s
                       end) ;;
      n ← create_timer (Timer RetireTimeout device_id correlation_id);
      change (fun s => s <| pending_retires := store_by streq device_id (Retire correlation_id (Some n)) (pending_retires s) |>)
  | _ => mret tt
  end.

Definition self_uninstall_result (device_id : pystr) (data : record) : Handler unit :=
  change (fun s => match retire_of device_id s with
                   | Some e => cancel_timer (re_timeout_task e) (drop_pending_retire device_id s)
                   | None => s
                   end) ;;
  retire_result device_id (get (u "correlation_id") data) "fail"
    (text_or (u "client reported the uninstall failed") (get (u "detail") data)).

(** [_startup_app_is] and [_clear_startup_app_record]. *)
Definition _startup_app_is (device_id : pystr) (package_name : json) (s : fleet) : bool :=
  if negb (truthy package_name) then false
  else
    let entry := match entry_of device_id s with
                 | Some e => o_fields e
                 | None => default [] (registry_get (JStr device_id) s)
                 end in
    match get (u "startup_app") entry with
    | JObj startup => py_eq (get (u "package_name") startup) package_name
    | _ => false
    end.
Definition _clear_startup_app_record (device_id : pystr) : Handler unit :=
  change (fun s => set_record device_id "startup_app" JNull (set_entry device_id "startup_app" JNull s)) ;;
  save_registry.

Definition result_types : list pystr :=
  [u "LAUNCH_RESULT"; u "REBOOT_RESULT"; u "POWER_OFF_RESULT"; u "INSTALL_RESULT"; u "PUSH_FILES_RESULT";
   u "VERIFY_APK_RESULT"; u "VERIFY_DIR_RESULT"; u "DELETE_APP_RESULT"].
Definition PROVISIONAL_RESULT_TYPES : list pystr := [u "REBOOT_RESULT"; u "POWER_OFF_RESULT"].
Definition PROVISIONAL_RESULT_COMMANDS (msg_type : pystr) : pystr :=
  if streq msg_type (u "REBOOT_RESULT") then u "EXECUTE_REBOOT" else u "EXECUTE_POWER_OFF".

(** The results of a registered device are relayed under the device's own ID. *)
Definition relay_result (device_id msg_type : pystr) (data : record) : Handler unit :=
  if bool_decide (msg_type ∈ PROVISIONAL_RESULT_TYPES) && bool_decide (is_Some (assoc_get (u "connection_id") data))
  then mret tt
  else
    let data := store_by streq (u "device_id") (JStr device_id) (remove_by streq (u "connection_id") data) in
    consumed ←
      (if streq msg_type (u "INSTALL_RESULT") then
         release_transfer_slot device_id (u "install_result") (JStr (u "install")) ;;
         _clear_pending_self_update_on_install_result device_id ;;
         mret false
       else if streq msg_type (u "PUSH_FILES_RESULT") then
         release_transfer_slot device_id (u "push_files_result") (JStr (u "push")) ;;
         mret false
       else if streq msg_type (u "VERIFY_APK_RESULT") then _consume_self_update_verify device_id data
       else mret false);
    if consumed : bool then mret tt
    else
      forward_to_admins data ;;
      cleared ← look (fun s => streq msg_type (u "DELETE_APP_RESULT") &&
                               eq_str (get (u "status") data) (u "success") &&
                               _startup_app_is device_id (get (u "package_name") data) s);
      if cleared : bool then _clear_startup_app_record device_id ;; broadcast_device_list else mret tt.

(** [DOWNLOAD_COMPLETE]: a falsy task is an installation. *)
Definition download_complete (device_id : pystr) (data : record) : Handler unit :=
  let task := get (u "task") data in
  let task := if truthy task then task else JStr (u "install") in
  released ← release_transfer_slot device_id (u "download_complete") task;
  if released : bool then
    if eq_str task (u "push") then
      forward_to_admins [field "type" (JStr (u "PUSH_DEVICE_STATE")); field "device_ids" (JArr [JStr device_id]);
                         field "state" (JStr (u "applying")); field "dest_path" (field_or "dest_path" empty_text data);
                         field "delete_extras" (JBool (truthy (get (u "delete_extras") data)));
                         field "detail" empty_text]
    else broadcast_install_state device_id "installing" (field_or "apk_filename" empty_text data) []
  else mret tt.

(** A frame of a socket that owns its device; the type is one of the handler's or is
    ignored. *)
Definition device_message (device_id kind msg_type : pystr) (data : record) : Handler unit :=
  let says name := streq msg_type (u name) in
  if says "BATTERY_UPDATE"%string then battery_update device_id data
  else if says "DOWNLOAD_COMPLETE"%string then download_complete device_id data
  else if says "SELF_UPDATE_STARTING"%string then self_update_starting device_id kind data
  else if says "SELF_UNINSTALL_STARTING"%string then self_uninstall_starting device_id data
  else if says "SELF_UNINSTALL_RESULT"%string then self_uninstall_result device_id data
  else if bool_decide (msg_type ∈ result_types) then relay_result device_id msg_type data
  else if says "STARTUP_APP_RESULT"%string then forward_to_admins data
  else mret tt.

(** REGISTER. *)
Definition register (c : connection) (remote : option pystr) (data : record) : Handler next :=
  parsed ← of_outcome (_parse_registration data remote);
  match parsed with
  | RegistrationError message => _close_protocol_error (c_ws c) message ;; mret Leave
  | Registers kind registration =>
      match c_device_id c with
      | Some ((_ :: _) as device_id) =>
          if negb (bool_decide (c_identity_kind c = Some kind)) ||
             negb (eq_str (get (u "device_id") registration) device_id)
          then
            _close_protocol_error (c_ws c)
              (u "A registered socket cannot change its identity kind or device_id") ;;
            mret Leave
          else _complete_device_registration (c_ws c) device_id ;; mret (Go c)
      | _ =>
          if streq kind (u "provisional") then register_provisional c registration
          else
            listed ← look (fun s => bool_decide (c_ws c ∈ (provisional_connections s).*1));
            if listed && negb (streq kind (u "canonical")) then
              _close_protocol_error (c_ws c) (u "A provisional socket can only promote to canonical identity") ;;
              mret Leave
            else adopt c kind registration
      end
  end.

(** A power result of a socket without an identity: its entry must be ready and allowed the
    command, and the connection ID its own. *)
Definition provisional_result (c : connection) (msg_type : json) (data : record) : Handler unit :=
  provisional ← look (provisional_of (c_ws c));
  match provisional with
  | Some p =>
      if negb (bool_decide (c_identity_kind c = Some (u "provisional")) && is_true (get (u "registration_ready") p))
      then mret tt
      else if negb (is_hashable msg_type) then raise TypeError
      else
        let t := text_of msg_type in
        if bool_decide (t ∈ PROVISIONAL_RESULT_TYPES) &&
           command_allowed (Some p) (Some (PROVISIONAL_RESULT_COMMANDS t)) &&
           py_eq (get (u "connection_id") data) (get (u "connection_id") p)
        then
          forward_to_admins (store_by streq (u "connection_id") (get (u "connection_id") p)
                               (remove_by streq (u "device_id") data))
        else mret tt
  | None => mret tt
  end.

(** One text frame.  A type that is not hashable stops at the first set it is looked up in. *)
Definition device_frame (c : connection) (remote : option pystr) (raw : pystr) : Handler next :=
  match loads raw with
  | None => mret (Go c)
  | Some (JObj data) =>
      let msg_type := get (u "type") data in
      if eq_str msg_type (u "REGISTER") then register c remote data
      else
        match c_device_id c with
        | Some ((_ :: _) as device_id) =>
            owner ← look (_owns_device (Some device_id) (c_ws c));
            if negb owner then mret (Go c)
            else if negb (is_hashable msg_type) then raise TypeError
            else
              device_message device_id (default [] (c_identity_kind c)) (text_of msg_type) data ;;
              mret (Go c)
        | _ => provisional_result c msg_type data ;; mret (Go c)
        end
  | Some _ => _close_protocol_error (c_ws c) (u "Device messages must be JSON objects") ;; mret Leave
  end.

(** [finally]: only the owner of the device tears its state down. *)
Definition teardown (c : connection) : Handler unit :=
  was_provisional ← look (fun s => bool_decide (c_ws c ∈ (provisional_connections s).*1));
  change (fun s => s <| provisional_connections := filter (fun we => we.1 <> c_ws c) (provisional_connections s) |>) ;;
  is_current ← look (_owns_device (c_device_id c) (c_ws c));
  (match c_device_id c with
   | Some device_id =>
       if is_current : bool then
         release_transfer_slot device_id (u "disconnect") JNull ;;
         change (fun s => s <| last_install_dispatch := remove_by streq device_id (last_install_dispatch s) |>) ;;
         pend ← look (update_of device_id);
         (match pend with
          | Some e =>
              if is_phase Verifying e then
                change (fun s => drop_pending_update device_id (cancel_timer (su_timeout_task e) s)) ;;
                update_verified device_id e "error" (u "device disconnected before verification completed")
              else mret tt
          | None => mret tt
          end) ;;
         present ← look (fun s => bool_decide (is_Some (entry_of device_id s)));
         if negb present then raise KeyError
         else
           change (fun s => s <| devices := remove_by streq device_id (devices s) |>) ;;
           known ← look (fun s => bool_decide (is_Some (registry_get (JStr device_id) s)));
           now ← time_time;
           (if known : bool then change (set_record device_id "last_seen" now) ;; save_registry else mret tt) ;;
           broadcast_device_list
       else mret tt
   | None => mret tt
   end) ;;
  if was_provisional : bool then broadcast_provisional_connection_list else mret tt.

(** A timer wakes up and its task ends there. *)
Definition timer_fires (t : N) : Handler unit :=
  timer ← look (fun s => timers s !! t);
  match timer with
  | Some (Timer kind device_id correlation_id) =>
      change (fun s => s <| timers := delete t (timers s) |>) ;;
      match kind with
      | RetireTimeout => _retire_timeout device_id correlation_id
      | UpdateTimeout => _self_update_timeout device_id correlation_id
      | VerifyTimeout => _self_update_verify_timeout device_id correlation_id
      end
  | None => mret tt
  end.
End Devices.
