(* ===== verification/Retiring.v ===== *)
(** * What the device handlers keep

    Every pending retirement has exactly one live timer, the one that will settle it, and
    a connected device is never on record as retired: invariants of all handlers of
    server.py, on every interleaving. *)

From S2P Require Import Prelude PyStr Text Json PushJobs Policy Paths Fleet Registry Groups Membership.
From S2P Require Import Commands Devices.
Open Scope Z_scope.

(** ** Pending retirements and their timers *)

(** [skip] are devices whose retirement is being replaced: they have no timer. *)
Record retires_but (skip : pystr -> Prop) (s : fleet) : Prop := {
  rt_keys : NoDup (pending_retires s).*1;
  rt_timed : forall d e, retire_of d s = Some e -> ~ skip d -> exists t, re_timeout_task e = Some t /\
               timers s !! t = Some (Timer RetireTimeout d (re_correlation_id e));
  rt_needed : forall t d c, timers s !! t = Some (Timer RetireTimeout d c) ->
                ~ skip d /\ retire_of d s = Some (Retire c (Some t));
  rt_updates : forall d e t x, update_of d s = Some e -> su_timeout_task e = Some t -> timers s !! t = Some x ->
               ti_kind x <> RetireTimeout;
  rt_update_keys : NoDup (pending_self_updates s).*1;
  rt_fresh : forall t, is_Some (timers s !! t) -> (t < next_timer s)%N;
  rt_issued : forall d e t, update_of d s = Some e -> su_timeout_task e = Some t -> (t < next_timer s)%N;
}.

Definition retires_ok : fleet -> Prop := retires_but (fun _ => False).

(** The fields the invariant is about. *)
Definition retire_view (s : fleet) := (pending_retires s, pending_self_updates s, timers s, next_timer s).
Lemma retires_view skip s s' : retire_view s' = retire_view s -> retires_but skip s -> retires_but skip s'.
Proof.
  intros [= E1 E2 E3 E4] [K T N U UK F I].
  split; rw /retire_of /update_of ?E1 ?E2 ?E3 ?E4; done.
Qed.

(** Dropping a retirement with its timer. *)
Lemma drop_retire_ok d e s :
  retires_ok s -> retire_of d s = Some e -> retires_ok (cancel_timer (re_timeout_task e) (drop_pending_retire d s)).
Proof.
  intros [K T N U UK F I] Ed. destruct (T d e Ed) as (t & Et & Ht); [by intros []|]. rw Et /=.
  split; simpl.
  - by apply remove_nodup.
  - intros d' e'. rw /retire_of /= lookup_remove //. destruct (streq d d') eqn:E; [done|]. intros He Hs.
    destruct (T d' e' He Hs) as (t' & Et' & Ht'). exists t'. split; [done|].
    rw lookup_delete. case_decide as Ec; [|done]. subst t'. rw Ht in Ht'. injection Ht' as Ex _.
    by rw Ex streq_refl in E.
  - intros t' d' c. rw lookup_delete. case_decide as Ec; [done|]. intros Ht'.
    split; [by intros []|]. rw /retire_of /= lookup_remove //. pose proof (N t' d' c Ht') as [_ He'].
    destruct (streq d d') eqn:E; [|done].
    apply streq_eq in E as ->. rw He' in Ed. injection Ed as <-. simpl in Et. congruence.
  - intros d' e' t' x He Ht'. rw lookup_delete. case_decide; [done|]. by eapply U.
  - done.
  - intros t'. rw lookup_delete. case_decide; [by intros []|]. apply F.
  - done.
Qed.

(** Cancelling the timer of a pending self-update. *)
Lemma cancel_update_ok skip d e s :
  retires_but skip s -> update_of d s = Some e -> retires_but skip (cancel_timer (su_timeout_task e) s).
Proof.
  intros [K T N U UK F I] Ed. destruct (su_timeout_task e) as [t|] eqn:Et; [|done].
  split; simpl; try done.
  - intros d' e' He Hs. destruct (T d' e' He Hs) as (t' & Et' & Ht'). exists t'. split; [done|].
    rw lookup_delete. case_decide as Ec; [|done]. subst t'. exfalso. by eapply (U d e t); [..|exact Ht'|].
  - intros t' d' c. rw lookup_delete. case_decide; [done|]. apply N.
  - intros d' e' t' x He Ht'. rw lookup_delete. case_decide; [done|]. by eapply U.
  - intros t'. rw lookup_delete. case_decide; [by intros []|]. apply F.
Qed.
Lemma drop_update_ok skip d s : retires_but skip s -> retires_but skip (drop_pending_update d s).
Proof.
  intros [K T N U UK F I].
  assert (forall d' e, update_of d' (drop_pending_update d s) = Some e -> update_of d' s = Some e) as Hsub.
  { intros d' e. rw /update_of /= lookup_remove //. by destruct (streq d d'). }
  split; simpl; try done.
  - intros d' e t x He. by eapply U, Hsub.
  - by apply remove_nodup.
  - intros d' e t He. by eapply I, Hsub.
Qed.
Lemma store_update_ok skip d e s :
  retires_but skip s -> (forall t, su_timeout_task e = Some t -> (t < next_timer s)%N /\
     forall x, timers s !! t = Some x -> ti_kind x <> RetireTimeout) -> retires_but skip (store_update d e s).
Proof.
  intros [K T N U UK F I] He.
  assert (forall d' e', update_of d' (store_update d e s) = Some e' -> e' = e \/ update_of d' s = Some e') as Hsub.
  { intros d' e'. rw /update_of /= lookup_store. destruct (streq d d'); [|by right]. intros [= <-]. by left. }
  split; simpl; try done.
  - intros d' e' t x [->|He']%Hsub Ht Hx; [by eapply He|by eapply U].
  - rw store_keys. case_bool_decide; [done|]. apply NoDup_app. split_and!; [done|set_solver|apply NoDup_singleton].
  - intros d' e' t [->|He']%Hsub Ht; [by eapply He|by eapply I].
Qed.
(** A new timer that is not a retirement's. *)
Lemma new_timer_ok skip k d c s :
  retires_but skip s -> k <> RetireTimeout ->
  retires_but skip (s <| timers := <[next_timer s := Timer k d c]> (timers s) |> <| next_timer := (next_timer s + 1)%N |>).
Proof.
  intros [K T N U UK F I] Hk. assert (timers s !! next_timer s = None) as Hfresh.
  { destruct (timers s !! next_timer s) eqn:E; [|done]. assert (next_timer s < next_timer s)%N by (apply F; by eexists). lia. }
  split; simpl; try done.
  - intros d' e He Hs. destruct (T d' e He Hs) as (t & Et & Ht). exists t. split; [done|].
    rw lookup_insert. case_decide; [congruence|done].
  - intros t d' c'. rw lookup_insert. case_decide; [by intros [= -> _ _]|]. apply N.
  - intros d' e t x He Ht. rw lookup_insert. case_decide; [by intros [= <-]|]. by eapply U.
  - intros t. rw lookup_insert. case_decide as E; [lia|]. intros Ht%F. lia.
  - intros d' e t He Ht. specialize (I d' e t He Ht). lia.
Qed.
(** A retirement and its timer replace what the device had. *)
Lemma new_retire_ok d c s :
  retires_but (eq d) s ->
  retires_ok (s <| timers := <[next_timer s := Timer RetireTimeout d c]> (timers s) |>
                <| next_timer := (next_timer s + 1)%N |>
                <| pending_retires := store_by streq d (Retire c (Some (next_timer s))) (pending_retires s) |>).
Proof.
  intros [K T N U UK F I]. assert (timers s !! next_timer s = None) as Hfresh.
  { destruct (timers s !! next_timer s) eqn:E; [|done]. assert (next_timer s < next_timer s)%N by (apply F; by eexists). lia. }
  split; simpl; try done.
  - rw store_keys. case_bool_decide; [done|]. apply NoDup_app. split_and!; [done|set_solver|apply NoDup_singleton].
  - intros d' e. rw /retire_of /= lookup_store. destruct (streq d d') eqn:E.
    + apply streq_eq in E as ->. intros [= <-] _. exists (next_timer s). simpl. rw lookup_insert decide_True //.
    + intros He _. destruct (T d' e He) as (t & Et & Ht); [intros <-; by rw streq_refl in E|].
      exists t. split; [done|]. rw lookup_insert. case_decide; [congruence|done].
  - intros t d' c'. rw /retire_of /= lookup_store lookup_insert. case_decide as E.
    + intros [= <- <-]. split; [by intros []|]. by rw streq_refl E.
    + intros [Hs Ht]%N. split; [by intros []|]. destruct (streq d d') eqn:E2; [|done]. by apply streq_eq in E2.
  - intros d' e t x He Ht. rw lookup_insert. case_decide as E; [|by eapply U].
    intros _. specialize (I d' e t He Ht). lia.
  - intros t. rw lookup_insert. case_decide as E; [lia|]. intros Ht%F. lia.
  - intros d' e t He Ht. specialize (I d' e t He Ht). lia.
Qed.
(** Cancelling what the device had. *)
Lemma replace_retire_ok d s :
  retires_ok s ->
  retires_but (eq d) (match retire_of d s with Some e => cancel_timer (re_timeout_task e) s | None => s end).
Proof.
  intros [K T N U UK F I]. destruct (retire_of d s) as [e|] eqn:Ed.
  - destruct (T d e Ed) as (t & Et & Ht); [by intros []|]. rw Et /=. split; simpl; try done.
    + intros d' e' He Hs. destruct (T d' e' He) as (t' & Et' & Ht'); [by intros []|]. exists t'. split; [done|].
      rw lookup_delete. case_decide as Ec; [|done]. subst t'. rw Ht in Ht'. by injection Ht'.
    + intros t' d' c. rw lookup_delete. case_decide as Ec; [done|]. intros [_ Ht']%N. split; [|done].
      intros <-. rw Ed in Ht'. injection Ht' as ->. simpl in Et. congruence.
    + intros d' e' t' x He Ht'. rw lookup_delete. case_decide; [done|]. by eapply U.
    + intros t'. rw lookup_delete. case_decide; [by intros []|]. apply F.
  - split; try done.
    + intros d' e' He _. apply T; [done|by intros []].
    + intros t d' c [_ Ht]%N. split; [|done]. intros <-. congruence.
Qed.

(** ** Retired records *)

Lemma py_eq_str_l t v : py_eq (JStr t) v = true <-> v = JStr t.
Proof. destruct v as [| | | |t'| |]; simpl; try done. rw streq_spec. naive_solver. Qed.
Lemma lookup_store_py {V} k (r : V) m d :
  lookup_by py_eq (JStr d) (store_by py_eq k r m) =
  if py_eq k (JStr d) then Some r else lookup_by py_eq (JStr d) m.
Proof.
  induction m as [|[k2 v2] m IH]; simpl; [done|]. destruct (py_eq k2 k) eqn:E; simpl.
  - assert (py_eq k2 (JStr d) = py_eq k (JStr d)) as ->; [|by destruct (py_eq k (JStr d))].
    destruct (py_eq k2 (JStr d)) eqn:E2; [apply py_eq_str_true in E2 as ->; apply py_eq_str_l in E as ->; simpl; by rw streq_refl|].
    destruct (py_eq k (JStr d)) eqn:E3; [|done]. apply py_eq_str_true in E3 as ->. congruence.
  - rw IH. destruct (py_eq k2 (JStr d)) eqn:E2; [|done]. destruct (py_eq k (JStr d)) eqn:E3; [|done].
    apply py_eq_str_true in E2 as ->, E3 as ->. simpl in E. by rw streq_refl in E.
Qed.
Lemma lookup_remove_py_other {V} k (m : list (json * V)) d :
  py_eq k (JStr d) = false -> lookup_by py_eq (JStr d) (remove_by py_eq k m) = lookup_by py_eq (JStr d) m.
Proof.
  intros Hk. induction m as [|[k2 v2] m IH]; simpl; [done|]. destruct (py_eq k2 k) eqn:E; simpl; [|by rw IH].
  destruct (py_eq k2 (JStr d)) eqn:E2; [|done]. apply py_eq_str_true in E2 as ->. apply py_eq_str_l in E as ->.
  simpl in Hk. by rw streq_refl in Hk.
Qed.

Definition flagged (d : pystr) (s : fleet) : bool :=
  match registry_get (JStr d) s with Some r => truthy (get (u "retired") r) | None => false end.
(** A connected device is not on record as retired. *)
Definition flags_ok (s : fleet) : Prop :=
  NoDup (devices s).*1 /\ forall d, is_Some (entry_of d s) -> flagged d s = false.

Lemma get_store_other key k v (r : record) : k <> key -> get key (store_by streq k v r) = get key r.
Proof.
  intros Hne. rw /get !assoc_lookup lookup_store. destruct (streq k key) eqn:E; [|done]. by apply streq_eq in E.
Qed.
(** Storing a record that is retired only if the old one was. *)
Lemma flags_store k r s :
  flags_ok s ->
  (forall d, k = JStr d -> is_Some (entry_of d s) -> truthy (get (u "retired") r) = true -> flagged d s = true) ->
  flags_ok (s <| device_registry := store_by py_eq k r (device_registry s) |>).
Proof.
  intros [Hn Hf] Hr. split; [done|]. intros d Hd. change (is_Some (entry_of d s)) in Hd.
  rw /flagged /registry_get /= lookup_store_py. destruct (py_eq k (JStr d)) eqn:E; [|by apply Hf].
  apply py_eq_str_true in E. destruct (truthy _) eqn:Et; [|done]. rw -(Hf d Hd). symmetry. by apply (Hr d).
Qed.
Lemma flags_set_record d name v s :
  flags_ok s -> u name <> u "retired" \/ entry_of d s = None -> flags_ok (set_record d name v s).
Proof.
  intros Hs Hne. rw /set_record. destruct (registry_get (JStr d) s) as [rec|] eqn:E; [|done].
  apply flags_store; [done|]. intros d' [= <-] Hd. destruct Hne as [Hne|Hne]; [|by rw Hne in Hd; destruct Hd].
  rw get_store_other //. by rw /flagged E.
Qed.
Lemma store_devices_keys d e s : flags_ok s -> NoDup (store_by streq d e (devices s)).*1.
Proof.
  intros [Hn _]. rw store_keys. case_bool_decide; [done|].
  apply NoDup_app. split_and!; [done|set_solver|apply NoDup_singleton].
Qed.
Lemma flags_set_entry d name v s : flags_ok s -> flags_ok (set_entry d name v s).
Proof.
  intros Hs. rw /set_entry. destruct (entry_of d s) as [e|] eqn:E; [|done].
  split; [by apply store_devices_keys|]. intros d'. rw /entry_of /= lookup_store. destruct (streq d d') eqn:E2.
  - apply streq_eq in E2 as ->. intros _. apply Hs. by eexists.
  - apply Hs.
Qed.
Lemma flags_set_label serial label s : flags_ok s -> flags_ok (set_label serial label s).
Proof.
  intros Hs. apply flags_store; [done|]. intros d -> _. rw get_store_other; [|done]. rw /flagged.
  by destruct (registry_get (JStr d) s).
Qed.
Lemma flags_remove_device d s : flags_ok s -> flags_ok (s <| devices := remove_by streq d (devices s) |>).
Proof.
  intros [Hn Hf]. split; [by apply remove_nodup|]. intros d'. rw /entry_of /= lookup_remove //.
  destruct (streq d d'); [by intros []|]. apply Hf.
Qed.
Lemma flags_view s s' :
  devices s' = devices s -> device_registry s' = device_registry s -> flags_ok s -> flags_ok s'.
Proof. intros E1 E2 [Hn Hf]. split; rw /entry_of /flagged /registry_get ?E1 ?E2; done. Qed.
Lemma flags_promote ws d kind now registration s : flags_ok s -> flags_ok (promote ws d kind now registration s).
Proof.
  intros Hs. split; [by apply (store_devices_keys _ _ s)|]. intros d'.
  rw /entry_of /flagged /registry_get /= lookup_store lookup_store_py. simpl.
  destruct (streq d d'); [done|]. apply Hs.
Qed.
Lemma flags_startup v did entry s : flags_ok (memory s) -> flags_ok (memory (record_startup_app v did entry s).2).
Proof.
  intros Hs. rw /record_startup_app /=. set (s1 := match did with JStr _ => _ | _ => _ end).
  assert (flags_ok s1) as H1.
  { rw /s1. destruct did as [| | | |id| |]; try done. destruct (lookup_by streq id (devices (memory s))) as [c|] eqn:E; [|done].
    destruct (o_ws c =? o_ws entry)%N; [|done].
    apply (flags_set_entry id "startup_app" v) in Hs. by rw /set_entry /entry_of E in Hs. }
  clearbody s1. destruct (registry_get did s1) as [rec|] eqn:E; [|done].
  apply flags_store; [done|]. intros d -> _. rw get_store_other; [|done]. by rw /flagged E.
Qed.

(** ** The invariant of the server's memory *)

Definition fleet_ok (s : fleet) : Prop := retires_ok s /\ flags_ok s.

Lemma fleet_plain s s' :
  retire_view s' = retire_view s -> devices s' = devices s -> device_registry s' = device_registry s ->
  fleet_ok s -> fleet_ok s'.
Proof. intros E1 E2 E3 [Hr Hf]. split; [by eapply retires_view|by eapply flags_view]. Qed.
Lemma fleet_flags s s' : retire_view s' = retire_view s -> (flags_ok s -> flags_ok s') -> fleet_ok s -> fleet_ok s'.
Proof. intros E1 E2 [Hr Hf]. split; [by eapply retires_view|auto]. Qed.
Lemma fleet_retires s s' :
  devices s' = devices s -> device_registry s' = device_registry s -> (retires_ok s -> retires_ok s') ->
  fleet_ok s -> fleet_ok s'.
Proof. intros E1 E2 Hrr [Hr Hf]. split; [auto|by eapply flags_view]. Qed.

Lemma set_record_view d name v s : retire_view (set_record d name v s) = retire_view s.
Proof. rw /set_record. by destruct (registry_get _ _). Qed.
Lemma set_entry_view d name v s : retire_view (set_entry d name v s) = retire_view s.
Proof. rw /set_entry. by destruct (entry_of _ _). Qed.
Lemma cancel_timer_view t s : devices (cancel_timer t s) = devices s /\ device_registry (cancel_timer t s) = device_registry s.
Proof. by destruct t. Qed.

Lemma fleet_set_record d name v s :
  u name <> u "retired" \/ entry_of d s = None -> fleet_ok s -> fleet_ok (set_record d name v s).
Proof. intros Hn. apply fleet_flags; [apply set_record_view|intros Hs; by apply flags_set_record]. Qed.
Lemma fleet_set_entry d name v s : fleet_ok s -> fleet_ok (set_entry d name v s).
Proof. apply fleet_flags; [apply set_entry_view|apply flags_set_entry]. Qed.
Lemma fleet_drop_retire d e s :
  retire_of d s = Some e -> fleet_ok s -> fleet_ok (cancel_timer (re_timeout_task e) (drop_pending_retire d s)).
Proof. intros E. destruct (cancel_timer_view (re_timeout_task e) (drop_pending_retire d s)) as [E1 E2].
  apply fleet_retires; [by rw E1|by rw E2|]. intros Hs. by apply drop_retire_ok.
Qed.
Lemma fleet_cancel_update d e s : update_of d s = Some e -> fleet_ok s -> fleet_ok (cancel_timer (su_timeout_task e) s).
Proof.
  intros E. destruct (cancel_timer_view (su_timeout_task e) s) as [E1 E2].
  apply fleet_retires; [done..|]. intros Hs. by eapply cancel_update_ok.
Qed.
Lemma fleet_drop_update d s : fleet_ok s -> fleet_ok (drop_pending_update d s).
Proof. apply fleet_retires; [done..|apply drop_update_ok]. Qed.

Create HintDb fleet.
#[export] Hint Resolve fleet_set_entry fleet_drop_update : fleet.
#[export] Hint Extern 1 (holds _ (change _)) => apply holds_change; intros ? ? : fleet.
#[export] Hint Extern 3 (fleet_ok _) => (eapply fleet_plain; [| | |eassumption]; reflexivity) : fleet.

(** The two branches of a handler. *)
Ltac case_branch :=
  match goal with |- holds _ (if ?b then _ else _) => destruct b | |- leaves _ (if ?b then _ else _) _ => destruct b end.

Section Server.
Context {H : host} (Hothers : forall n s, fleet_ok s -> fleet_ok (others n s)).

Abbreviation kept := (keeps fleet_ok).

Lemma fleet_path s p : fleet_ok s -> fleet_ok (s <| registry_path := p |>).
Proof. by apply fleet_plain. Qed.
Local Hint Resolve fleet_path : keeps.

Lemma kept_change f : (forall s, fleet_ok s -> fleet_ok (f s)) -> kept (change f).
Proof. intros Hf. apply holds_change. intros s Hs. by apply Hf. Qed.
Lemma kept_elsewhere f :
  (forall s, retire_view (f s) = retire_view s /\ devices (f s) = devices s /\ device_registry (f s) = device_registry s) ->
  kept (change f).
Proof. intros Hf. apply kept_change. intros s. destruct (Hf s) as (? & ? & ?). by apply fleet_plain. Qed.

Lemma forget_kept serial s : in_devices serial s = false -> fleet_ok s -> fleet_ok (forget serial s).
Proof.
  intros Hoff Hs. rw /forget. set (s1 := s <| device_registry := _ |>).
  assert (fleet_ok s1) as H1.
  { revert Hs. apply fleet_flags; [done|]. intros [Hn Hf]. split; [done|]. intros d Hd.
    rw /flagged /registry_get /= lookup_remove_py_other; [by apply (Hf d Hd)|].
    destruct (py_eq serial (JStr d)) eqn:E; [|done]. apply py_eq_str_true in E as ->. simpl in Hoff.
    apply bool_decide_eq_false_1 in Hoff. by rw /entry_of in Hd. }
  clearbody s1. enough (fleet_ok (drop_retire serial s1)) as H2 by by apply (fleet_plain (drop_retire serial s1)).
  rw /drop_retire. destruct serial as [| | | |d| |]; try done.
  destruct (lookup_by streq d (pending_retires s1)) as [e|] eqn:E; [|done]. by apply (fleet_drop_retire d e s1).
Qed.

Lemma registry_command_kept data m : registry_command data = Some m -> kept m.
Proof.
  rw /registry_command. intros Hm. repeat (case_match; [injection Hm as <-|]); [| | | | | | | |done].
  - do 2 (apply holds_bind; [auto with keeps|intros ?]). case_match; auto with keeps.
  - unfold handle_set_device_label. apply holds_bind; [auto with keeps|intros label]. case_match; [auto with keeps|].
    apply holds_bind; [auto with keeps|intros [owner|]; [auto with keeps|]]. case_match; [auto with keeps|].
    apply holds_bind; [|auto 10 with keeps]. apply kept_change. intros s. apply fleet_flags; [done|apply flags_set_label].
  - unfold handle_forget_device. case_match; [auto with keeps|]. case_match; [auto with keeps|].
    intros s Hs. apply leaves_look. case_match eqn:E; [apply leaves_keeps; auto with keeps|].
    do 2 apply leaves_look. apply leaves_change, leaves_keeps; [|by apply forget_kept].
    apply holds_bind; [|intros _]; [case_match; auto with keeps|].
    do 2 (apply holds_bind; [auto with keeps|intros _]). case_match; auto with keeps.
  - unfold handle_create_group. auto 20 with keeps fleet.
  - unfold handle_rename_group. auto 20 with keeps fleet.
  - unfold handle_delete_group. auto 20 with keeps fleet.
  - unfold handle_set_device_groups. auto 20 with keeps fleet.
  - unfold handle_set_group_members. auto 20 with keeps fleet.
Qed.

(** ** Commands *)

Lemma fan_out_kept payload sent_to ids :
  kept payload -> (forall d e, kept (sent_to d e)) -> kept (fan_out payload sent_to ids).
Proof.
  intros Hp Ht. induction ids as [|did ids IH]; simpl; [auto with keeps|].
  apply holds_bind; [|auto with keeps]. unfold send_command. apply holds_bind; [auto with keeps|intros [entry|]; [|auto with keeps]].
  apply holds_try; [auto 10 with keeps|]. intros e h' E. destruct e; try done; injection E as <-; auto with keeps.
Qed.
Lemma command_all_kept data payload sent_to reply fields after finish :
  kept payload -> (forall d e, kept (sent_to d e)) -> kept after -> kept finish ->
  kept (command_all data payload sent_to reply fields after finish).
Proof.
  intros Hp Ht Ha Hf. unfold command_all, resolve, counts_reply. apply holds_bind; [auto with keeps|intros ids].
  destruct ids; [auto with keeps|]. apply holds_bind; [by apply fan_out_kept|auto with keeps].
Qed.
Lemma startup_kept v did entry : kept (record_startup_app v did entry).
Proof.
  intros s [Hr Hf]. split; [|by apply flags_startup].
  eapply retires_view; [|exact Hr]. rw /record_startup_app /=. set (s1 := match did with JStr _ => _ | _ => _ end).
  assert (retire_view s1 = retire_view (memory s)) as <-.
  { rw /s1. destruct did as [| | | |id| |]; try done. destruct (lookup_by _ _ _); [|done]. by destruct (_ =? _)%N. }
  by destruct (registry_get did s1).
Qed.
Lemma no_more_kept did entry : kept (no_more did entry).
Proof. apply holds_ret. Qed.
Local Hint Resolve command_all_kept startup_kept no_more_kept : keeps.
Lemma power_kept data execute_type sent_type : kept (_dispatch_power_command data execute_type sent_type).
Proof.
  unfold _dispatch_power_command. destruct (_parse_target_connections data) as [[ids|] [error|]]; auto 10 with keeps.
  apply holds_bind; [|intros n; case_match; auto with keeps].
  induction ids as [|id ids IH]; simpl; [auto with keeps|]. apply holds_bind; [|auto with keeps].
  unfold power_connection. apply holds_bind; [auto with keeps|intros [[ws e]|]; [|auto with keeps]].
  apply holds_try; [auto with keeps|]. intros e' h' E. destruct e'; try done; injection E as <-; auto with keeps.
Qed.
Lemma admin_frame_kept rest raw : (forall data, kept (rest data)) -> kept (admin_frame rest raw).
Proof.
  intros Hrest. unfold admin_frame. destruct (loads raw) as [[| | | | | |data]|]; try (apply holds_raise); [|apply holds_ret].
  apply holds_bind; [repeat case_match; auto with keeps|intros refused].
  destruct refused; [auto with keeps|]. destruct (command_handler data) as [m|] eqn:E; [|apply Hrest].
  rw /command_handler in E. repeat (case_match; [injection E as <-|]); [| | | | | | | | |by eapply registry_command_kept].
  - unfold handle_launch_app. case_match; auto 10 with keeps.
  - unfold handle_delete_app. repeat case_match; auto 10 with keeps.
  - apply power_kept.
  - apply power_kept.
  - unfold handle_verify_apk. case_match; auto 10 with keeps.
  - unfold handle_verify_dir. repeat case_match; auto 10 with keeps.
  - unfold handle_set_startup_app. case_match; auto 10 with keeps.
  - unfold handle_clear_startup_app. auto 10 with keeps.
  - unfold handle_retire_device. auto 10 with keeps.
Qed.

(** ** Timers *)

Lemma retire_result_kept d c status detail : kept (retire_result d c status detail).
Proof. by apply keeps_broadcast. Qed.
Lemma forward_kept payload : kept (forward_to_admins payload).
Proof. by apply keeps_broadcast. Qed.
Lemma update_result_kept d e status v detail : kept (update_result d e status v detail).
Proof. apply forward_kept. Qed.
Lemma update_verified_kept d e status detail : kept (update_verified d e status detail).
Proof. apply forward_kept. Qed.
Lemma install_state_kept d state f detail : kept (broadcast_install_state d state f detail).
Proof. apply forward_kept. Qed.
Local Hint Resolve retire_result_kept forward_kept update_result_kept update_verified_kept install_state_kept : keeps.

Lemma delete_other_timer t k d c s :
  k <> RetireTimeout -> timers s !! t = Some (Timer k d c) -> fleet_ok s -> fleet_ok (s <| timers := delete t (timers s) |>).
Proof.
  intros Hk Ht. apply fleet_retires; [done..|]. intros [K T N U UK F I]. split; simpl; try done.
  - intros d' e He Hs. destruct (T d' e He Hs) as (t' & Et & Ht'). exists t'. split; [done|].
    rw lookup_delete. case_decide as E; [|done]. subst t'. congruence.
  - intros t' d' c'. rw lookup_delete. case_decide; [done|]. apply N.
  - intros d' e t' x He Ht'. rw lookup_delete. case_decide; [done|]. by eapply U.
  - intros t'. rw lookup_delete. case_decide; [by intros []|]. apply F.
Qed.

Lemma leaves_timer {B} t (k : N -> Handler B) s :
  leaves fleet_ok (k (next_timer (memory s)))
    (s <| memory := (memory s) <| timers := <[next_timer (memory s) := t]> (timers (memory s)) |>
                               <| next_timer := (next_timer (memory s) + 1)%N |> |>) ->
  leaves fleet_ok (create_timer t ≫= k) s.
Proof. done. Qed.
Lemma leaves_bind {A B} (m : Handler A) (k : A -> Handler B) s :
  leaves fleet_ok m s -> (forall a, kept (k a)) -> leaves fleet_ok (m ≫= k) s.
Proof.
  unfold leaves. intros Hm Hk. rw /mbind /M_bind. destruct (m s) as [[a|e] s']; [by apply Hk|done].
Qed.
Lemma retire_timeout_kept t d c s :
  timers (memory s) !! t = Some (Timer RetireTimeout d c) -> fleet_ok (memory s) ->
  leaves fleet_ok (_retire_timeout d c) (s <| memory := (memory s) <| timers := delete t (timers (memory s)) |> |>).
Proof.
  intros Ht Hs. pose proof Hs as [[_ _ N _ _ _ _] _]. destruct (N t d c Ht) as [_ Hd].
  pose proof (fleet_drop_retire d (Retire c (Some t)) (memory s) Hd Hs) as Hk.
  unfold _retire_timeout. apply leaves_look. change (retire_of d (memory _)) with (retire_of d (memory s)).
  rw Hd /= streq_refl /=. apply leaves_change, leaves_look.
  case_match eqn:E; [apply leaves_keeps; [auto 10 with keeps|exact Hk]|].
  apply leaves_look, leaves_bind; [|auto 10 with keeps].
  case_match; [|by apply leaves_keeps; [auto with keeps|exact Hk]].
  apply leaves_change, leaves_keeps; [auto with keeps|].
  apply fleet_set_record; [right|exact Hk]. apply bool_decide_eq_false_1 in E.
  by apply eq_None_not_Some.
Qed.

Lemma kept_drop_update d : kept (change (drop_pending_update d)).
Proof. apply kept_change, fleet_drop_update. Qed.
Lemma kept_set_entry d name v : kept (change (set_entry d name v)).
Proof. apply kept_change, fleet_set_entry. Qed.
Local Hint Resolve kept_drop_update kept_set_entry : keeps.

Lemma update_timeout_kept d c : kept (_self_update_timeout d c).
Proof.
  unfold _self_update_timeout. apply holds_bind; [auto with keeps|intros [e|]; [|auto with keeps]].
  case_match; auto 20 with keeps.
Qed.
Lemma verify_timeout_kept d c : kept (_self_update_verify_timeout d c).
Proof.
  unfold _self_update_verify_timeout. apply holds_bind; [auto with keeps|intros [e|]; [|auto with keeps]].
  case_match; auto 20 with keeps.
Qed.
Lemma timer_fires_kept t : kept (timer_fires t).
Proof.
  intros s Hs. unfold timer_fires. apply leaves_look. destruct (timers (memory s) !! t) as [[k d c]|] eqn:E; [|done].
  apply leaves_change. destruct k; [| |by apply retire_timeout_kept].
  - apply leaves_keeps; [apply update_timeout_kept|]. by apply (delete_other_timer t UpdateTimeout d c).
  - apply leaves_keeps; [apply verify_timeout_kept|]. by apply (delete_other_timer t VerifyTimeout d c).
Qed.
Lemma create_timer_kept k d c : k <> RetireTimeout -> kept (create_timer (Timer k d c)).
Proof.
  intros Hk s Hs. unfold create_timer. apply leaves_look, leaves_change. revert Hs.
  apply fleet_retires; [done..|]. intros Hs. by apply new_timer_ok.
Qed.

(** ** Registration *)

Lemma resolve_retire_kept d : kept (_resolve_pending_retire d).
Proof.
  intros s Hs. unfold _resolve_pending_retire. apply leaves_look. destruct (retire_of d (memory s)) as [e|] eqn:E; [|done].
  apply leaves_change, leaves_keeps; [auto with keeps|]. by apply fleet_drop_retire.
Qed.
Lemma delete_update_kept d : kept (delete_update d).
Proof. unfold delete_update. auto 10 with keeps. Qed.
Local Hint Resolve delete_update_kept resolve_retire_kept : keeps.
(** An update with no timer, or with one just made. *)
Lemma store_idle_ok d e s : su_timeout_task e = None -> fleet_ok s -> fleet_ok (store_update d e s).
Proof.
  intros E. apply fleet_retires; [done..|]. intros Hs. apply store_update_ok; [done|]. rw E. done.
Qed.
Lemma store_timed_ok d e k c s :
  k <> RetireTimeout -> su_timeout_task e = Some (next_timer s) -> fleet_ok s ->
  fleet_ok (store_update d e (s <| timers := <[next_timer s := Timer k d c]> (timers s) |>
                                <| next_timer := (next_timer s + 1)%N |>)).
Proof.
  intros Hk E. apply fleet_retires; [done..|]. intros Hs. apply store_update_ok; [by apply new_timer_ok|].
  rw E. intros t [= <-]. split; [simpl; lia|]. intros x. rw /= lookup_insert decide_True //. by intros [= <-].
Qed.
Lemma update_entry_idle d e : su_timeout_task e = None -> kept (change (update_entry d e)).
Proof.
  intros E. apply kept_change. intros s Hs. rw /update_entry. case_match; [|done]. by apply store_idle_ok.
Qed.
Lemma start_verify_kept d c e :
  kept (n ← create_timer (Timer VerifyTimeout d c);
        change (update_entry d (e <| su_timeout_task := Some n |>))).
Proof.
  intros s Hs. unfold create_timer.
  change (fleet_ok (update_entry d (e <| su_timeout_task := Some (next_timer (memory s)) |>)
    ((memory s) <| timers := <[next_timer (memory s) := Timer VerifyTimeout d c]> (timers (memory s)) |>
                <| next_timer := (next_timer (memory s) + 1)%N |>))).
  rw /update_entry. case_match; [by apply store_timed_ok|].
  revert Hs. apply fleet_retires; [done..|]. intros Hs. by apply new_timer_ok.
Qed.
Local Hint Resolve update_entry_idle start_verify_kept : keeps.
Lemma resolve_update_kept d ws v : kept (_resolve_pending_self_update d ws v).
Proof.
  intros s Hs. unfold _resolve_pending_self_update. apply leaves_look.
  destruct (update_of d (memory s)) as [e|] eqn:E; [|done]. case_match; [done|].
  apply leaves_change, leaves_keeps; [|by eapply fleet_cancel_update].
  apply holds_bind; [auto with keeps|intros _]. apply holds_bind; [auto with keeps|intros _].
  case_branch; [auto with keeps|]. apply holds_bind; [auto with keeps|intros allowed].
  case_branch; [|auto with keeps]. apply holds_bind; [by apply update_entry_idle|intros _].
  apply holds_bind; [|intros [f|]; [auto with keeps|apply start_verify_kept]].
  apply holds_try; [auto with keeps|]. intros f h Eh. case_match; [injection Eh as <-; auto with keeps|done].
Qed.

Lemma kept_set_record d name v : u name <> u "retired" -> kept (change (set_record d name v)).
Proof. intros Hn. apply kept_change. intros s. apply fleet_set_record. by left. Qed.
Local Hint Resolve resolve_update_kept : keeps.
Lemma protocol_error_kept ws message : kept (_close_protocol_error ws message).
Proof.
  unfold _close_protocol_error. apply holds_bind; [|auto with keeps]. apply holds_try; [auto with keeps|].
  intros e h E. destruct e; try done; injection E as <-; auto with keeps.
Qed.
Lemma complete_kept ws d : kept (_complete_device_registration ws d).
Proof.
  unfold _complete_device_registration. apply holds_bind; [auto with keeps|intros _]. apply kept_change.
  intros s Hs. case_match; [by apply fleet_set_entry|done].
Qed.
Lemma provisional_list_kept : kept broadcast_provisional_connection_list.
Proof. unfold broadcast_provisional_connection_list. auto with keeps. Qed.
Local Hint Resolve protocol_error_kept complete_kept provisional_list_kept : keeps.
Lemma register_provisional_kept c registration : kept (register_provisional c registration).
Proof.
  unfold register_provisional. do 3 (apply holds_bind; [auto with keeps; by intros s|intros ?]).
  apply holds_bind; [by apply kept_elsewhere|intros _]. apply holds_bind; [auto with keeps|intros _].
  apply holds_bind; [|auto with keeps]. apply kept_elsewhere. intros s. by repeat case_match.
Qed.
Lemma kept_promote ws d kind now registration : kept (change (promote ws d kind now registration)).
Proof. apply kept_change. intros s. by apply fleet_flags; [|apply flags_promote]. Qed.
Local Hint Resolve register_provisional_kept kept_promote : keeps.
Lemma adopt_kept c kind registration : kept (adopt c kind registration).
Proof.
  unfold adopt. apply holds_bind; [by intros s|intros now]. auto 20 with keeps.
Qed.
Local Hint Resolve adopt_kept : keeps.
Lemma register_kept c remote data : kept (register c remote data).
Proof.
  unfold register. apply holds_bind; [auto with keeps|intros [kind registration|message]]; [|auto with keeps].
  repeat case_match; auto 10 with keeps.
Qed.

(** ** Telemetry and announcements *)

Lemma battery_kept d data : kept (battery_update d data).
Proof.
  unfold battery_update. apply holds_bind; [by intros s|intros now]. apply holds_bind; [auto with keeps|intros b].
  case_match; auto with keeps. apply holds_bind; [auto with keeps|intros present]. case_match; [auto with keeps|].
  apply holds_bind; [auto with keeps|intros _]. apply holds_bind; [|auto with keeps].
  apply kept_change. intros s Hs. do 2 (apply fleet_set_record; [by left|]). done.
Qed.
(** A new announcement replaces the device's retirement and ends its self-update. *)
Lemma announce_ok d s :
  fleet_ok s ->
  let s1 := match retire_of d s with Some e => cancel_timer (re_timeout_task e) s | None => s end in
  let s2 := match update_of d s1 with
            | Some e => cancel_timer (su_timeout_task e) (drop_pending_update d s1)
            | None => s1
            end in
  retires_but (eq d) s2 /\ flags_ok s2.
Proof.
  intros [Hr Hf] s1 s2. apply (replace_retire_ok d) in Hr. fold s1 in Hr.
  assert (flags_ok s1) as Hf1.
  { rw /s1. destruct (retire_of d s) as [e|]; [|done]. by destruct (re_timeout_task e). }
  rw /s2. destruct (update_of d s1) as [e|] eqn:E; [|done].
  pose proof (drop_update_ok _ d _ (cancel_update_ok _ d e s1 Hr E)) as Hd. revert Hd.
  destruct (su_timeout_task e); by split.
Qed.
Lemma uninstall_starting_kept d data : kept (self_uninstall_starting d data).
Proof.
  unfold self_uninstall_starting. case_match; auto with keeps. case_match; auto with keeps.
  intros st Hs. unfold create_timer. apply leaves_change, leaves_change.
  destruct (announce_ok d _ Hs) as [Hr Hf]. split; [|by eapply flags_view; [..|exact Hf]].
  exact (new_retire_ok d _ _ Hr).
Qed.
Lemma uninstall_result_kept d data : kept (self_uninstall_result d data).
Proof.
  unfold self_uninstall_result. apply holds_bind; [|auto with keeps]. apply kept_change.
  intros s Hs. destruct (retire_of d s) eqn:E; [by apply fleet_drop_retire|done].
Qed.

(** ** Results *)

Lemma drop_cancelled_ok d e s :
  update_of d s = Some e -> fleet_ok s -> fleet_ok (drop_pending_update d (cancel_timer (su_timeout_task e) s)).
Proof. intros E Hs. by eapply fleet_drop_update, fleet_cancel_update. Qed.
Lemma consume_verify_kept d data : kept (_consume_self_update_verify d data).
Proof.
  intros s Hs. unfold _consume_self_update_verify. apply leaves_look.
  destruct (update_of d (memory s)) as [e|] eqn:E; [|done]. case_branch; [done|]. case_branch; [done|].
  apply leaves_change. destruct (verify_outcome _ _) as [status detail].
  apply leaves_keeps; [auto with keeps|by apply drop_cancelled_ok].
Qed.
Lemma clear_update_kept d : kept (_clear_pending_self_update_on_install_result d).
Proof.
  apply kept_change. intros s Hs. destruct (update_of d s) as [e|] eqn:E; [|done].
  destruct (is_phase _ _); [by apply drop_cancelled_ok|done].
Qed.
Lemma clear_startup_kept d : kept (_clear_startup_app_record d).
Proof.
  unfold _clear_startup_app_record. apply holds_bind; [|auto with keeps]. apply kept_change.
  intros s Hs. apply fleet_set_record; [by left|by apply fleet_set_entry].
Qed.

Context (apk_hashes_for : json -> Handler json) (release_transfer_slot : pystr -> pystr -> json -> Handler bool).
Context (Hhashes : forall name, kept (apk_hashes_for name)).
Context (Hrelease : forall d reason task, kept (release_transfer_slot d reason task)).
Local Hint Resolve consume_verify_kept clear_update_kept clear_startup_kept Hrelease : keeps.

Lemma update_starting_kept d kind data : kept (self_update_starting apk_hashes_for d kind data).
Proof.
  unfold self_update_starting. case_match; auto with keeps. case_match; auto with keeps. case_match; auto with keeps.
  apply holds_bind; [|intros _].
  { apply kept_change. intros st Hs. destruct (update_of d st) as [e|] eqn:E; [by eapply fleet_cancel_update|done]. }
  apply holds_bind; [auto with keeps|intros dispatched]. apply holds_bind; [case_match; auto with keeps|intros expected].
  intros st Hs. apply leaves_timer, leaves_change.
  apply leaves_keeps; [auto with keeps|]. by apply store_timed_ok.
Qed.
Lemma relay_kept d msg_type data : kept (relay_result release_transfer_slot d msg_type data).
Proof.
  unfold relay_result. case_branch; [auto with keeps|]. apply holds_bind; [|auto 20 with keeps].
  repeat case_branch; auto 10 with keeps.
Qed.
Lemma download_kept d data : kept (download_complete release_transfer_slot d data).
Proof. unfold download_complete. auto 10 with keeps. Qed.
Lemma provisional_result_kept c msg_type data : kept (provisional_result c msg_type data).
Proof. unfold provisional_result. auto 10 with keeps. Qed.
Lemma message_kept d kind msg_type data :
  kept (device_message apk_hashes_for release_transfer_slot d kind msg_type data).
Proof.
  unfold device_message. repeat case_branch; auto with keeps.
  - apply battery_kept.
  - apply download_kept.
  - apply update_starting_kept.
  - apply uninstall_starting_kept.
  - apply uninstall_result_kept.
  - apply relay_kept.
Qed.
Lemma device_frame_kept c remote raw : kept (device_frame apk_hashes_for release_transfer_slot c remote raw).
Proof.
  unfold device_frame. destruct (loads raw) as [[| | | | | |data]|]; auto with keeps.
  case_branch; [apply register_kept|].
  destruct (c_device_id c) as [[|ch d]|]; [|apply holds_bind; [auto with keeps|intros owner]|].
  - apply holds_bind; [apply provisional_result_kept|auto with keeps].
  - case_branch; [auto with keeps|]. case_branch; [auto with keeps|].
    apply holds_bind; [apply message_kept|auto with keeps].
  - apply holds_bind; [apply provisional_result_kept|auto with keeps].
Qed.
(** What [teardown] does to an update that waits for its verification. *)
Lemma end_verify_kept {B} d (k : unit -> Handler B) :
  (forall a, kept (k a)) ->
  kept (pend ← look (update_of d);
        (match pend with
         | Some e =>
             if is_phase Verifying e then
               change (fun s => drop_pending_update d (cancel_timer (su_timeout_task e) s)) ;;
               update_verified d e "error" (u "device disconnected before verification completed")
             else mret tt
         | None => mret tt
         end) ≫= k).
Proof.
  intros Hk st Hs. apply leaves_look, leaves_bind; [|done].
  destruct (update_of d (memory st)) as [e|] eqn:E; [|done]. case_branch; [|done].
  apply leaves_change, leaves_keeps; [auto with keeps|by apply drop_cancelled_ok].
Qed.
Lemma teardown_kept c : kept (teardown release_transfer_slot c).
Proof.
  unfold teardown. apply holds_bind; [auto with keeps|intros was]. apply holds_bind; [by apply kept_elsewhere|intros _].
  apply holds_bind; [auto with keeps|intros current]. apply holds_bind; [|auto with keeps].
  destruct (c_device_id c) as [d|]; [|auto with keeps]. case_branch; [|auto with keeps].
  apply holds_bind; [auto with keeps|intros _]. apply holds_bind; [by apply kept_elsewhere|intros _].
  apply end_verify_kept. intros _. apply holds_bind; [auto with keeps|intros present]. case_branch; [auto with keeps|].
  apply holds_bind; [apply kept_change; intros st; by apply fleet_flags; [|apply flags_remove_device]|intros _].
  apply holds_bind; [auto with keeps|intros known]. apply holds_bind; [by intros st|intros now].
  apply holds_bind; [|auto with keeps]. case_branch; [|auto with keeps].
  apply holds_bind; [by apply kept_set_record|auto with keeps].
Qed.
End Server.
