(* ===== verification/Deadlines.v ===== *)
(** * The deadline of a retirement

    The server as a sequence of events, the frames of its consoles and devices, the sockets
    that close and the timers that fire: what [Retiring] shows of each of them, over a
    whole run, and what the end of a retirement's timer decides. *)

From S2P Require Import Prelude PyStr Text Json PushJobs Policy Paths Fleet Registry Groups Membership.
From S2P Require Import Commands Devices Retiring.
Open Scope Z_scope.

(** ** Runs *)

Inductive event :=
  | AdminSays (raw : pystr)
  | DeviceSays (c : connection) (remote : option pystr) (raw : pystr)
  | DeviceCloses (c : connection)
  | TimerEnds (t : N).

Section Runs.
Context {H : host}.
Context (rest : record -> Handler unit) (apk_hashes_for : json -> Handler json).
Context (release_transfer_slot : pystr -> pystr -> json -> Handler bool).

Definition serve (ev : event) : Handler unit :=
  match ev with
  | AdminSays raw => admin_frame rest raw
  | DeviceSays c remote raw => device_frame apk_hashes_for release_transfer_slot c remote raw ;; mret tt
  | DeviceCloses c => teardown release_transfer_slot c
  | TimerEnds t => timer_fires t
  end.
(** An exception ends the task it is raised in, and no other. *)
Fixpoint serve_all (evs : list event) (s : desk) : desk :=
  match evs with
  | [] => s
  | ev :: evs' => serve_all evs' (serve ev s).2
  end.

Context (Hothers : forall n s, fleet_ok s -> fleet_ok (others n s)).
Context (Hrest : forall data, keeps fleet_ok (rest data)).
Context (Hhashes : forall name, keeps fleet_ok (apk_hashes_for name)).
Context (Hrelease : forall d reason task, keeps fleet_ok (release_transfer_slot d reason task)).

Lemma serve_kept ev : keeps fleet_ok (serve ev).
Proof.
  destruct ev as [raw|c remote raw|c|t]; simpl.
  - by apply admin_frame_kept.
  - apply holds_bind; [by apply device_frame_kept|intros ?; apply holds_ret].
  - by apply teardown_kept.
  - by apply timer_fires_kept.
Qed.
Lemma serve_all_kept evs s : fleet_ok (memory s) -> fleet_ok (memory (serve_all evs s)).
Proof. revert s. induction evs as [|ev evs IH]; intros s Hs; simpl; [done|]. by apply IH, serve_kept. Qed.
End Runs.

(** The server has started: it may have loaded a registry, and nothing is connected. *)
Definition started (s : fleet) : Prop :=
  devices s = [] /\ pending_retires s = [] /\ pending_self_updates s = [] /\ timers s = ∅.
Lemma started_ok s : started s -> fleet_ok s.
Proof.
  intros (Ed & Er & Eu & Et). split; split; rw /retire_of /update_of /entry_of ?Ed ?Er ?Eu ?Et; try done.
  - constructor.
  - constructor.
  - intros t []. done.
  - constructor.
  - intros d []. done.
Qed.

(** C8: After any sequence of events from a start, each pending retirement has a timer that
    is still running, with its correlation ID, and each running retirement timer is that of
    a pending retirement: none is left without the deadline that settles it, and no deadline
    settles another one. *)
Theorem retirements_are_timed {H : host} rest apk_hashes_for release_transfer_slot evs s :
  (forall n s, fleet_ok s -> fleet_ok (others n s)) ->
  (forall data, keeps fleet_ok (rest data)) ->
  (forall name, keeps fleet_ok (apk_hashes_for name)) ->
  (forall d reason task, keeps fleet_ok (release_transfer_slot d reason task)) ->
  started (memory s) ->
  let after := memory (serve_all rest apk_hashes_for release_transfer_slot evs s) in
  (forall d e, retire_of d after = Some e ->
     exists t, re_timeout_task e = Some t /\ timers after !! t = Some (Timer RetireTimeout d (re_correlation_id e))) /\
  (forall t d c, timers after !! t = Some (Timer RetireTimeout d c) -> retire_of d after = Some (Retire c (Some t))).
Proof.
  intros Ho Hr Hh Hs Hst after.
  destruct (serve_all_kept _ _ _ Ho Hr Hh Hs evs s (started_ok _ Hst)) as [[_ T N _ _ _ _] _].
  split; [intros d e He; apply T; [done|by intros []]|intros t d c Ht; by apply N].
Qed.

(** After any sequence of events from a start, a device that is connected is not on
    record as retired, so that its disconnection shows it offline and not retired. *)
Theorem connected_never_retired {H : host} rest apk_hashes_for release_transfer_slot evs s d :
  (forall n s, fleet_ok s -> fleet_ok (others n s)) ->
  (forall data, keeps fleet_ok (rest data)) ->
  (forall name, keeps fleet_ok (apk_hashes_for name)) ->
  (forall d reason task, keeps fleet_ok (release_transfer_slot d reason task)) ->
  started (memory s) ->
  let after := memory (serve_all rest apk_hashes_for release_transfer_slot evs s) in
  in_devices (JStr d) after = true ->
  forall r, registry_get (JStr d) after = Some r -> truthy (get (u "retired") r) = false.
Proof.
  intros Ho Hr Hh Hs Hst after Hd%bool_decide_eq_true_1 r Er.
  destruct (serve_all_kept _ _ _ Ho Hr Hh Hs evs s (started_ok _ Hst)) as [_ [_ Hf]].
  specialize (Hf d Hd). by rw /flagged Er in Hf.
Qed.

(** ** The end of a retirement's timer *)

(** [m] says [payload] to the consoles before anything else. *)
Definition announces {A} (payload : record) (m : Handler A) (s : desk) : Prop :=
  exists later, sent (m s).2 = sent s ++ (AllAdmins, JObj payload) :: later.
Definition longer (before : list (peer * json)) (s : desk) : Prop := exists later, sent s = before ++ later.

Section Alone.
Context {H : host} (Halone : alone H).

Lemma longer_pause before : holds (longer before) pause.
Proof. by intros s. Qed.
Lemma longer_broadcast before v : holds (longer before) (broadcast v).
Proof.
  intros s [l Hl]. exists (l ++ [(AllAdmins, v)]). by rw /= Hl app_assoc.
Qed.
Lemma longer_list before : holds (longer before) broadcast_device_list.
Proof. unfold broadcast_device_list. do 2 (apply holds_bind; [by intros s|intros ?]). apply longer_broadcast. Qed.
Lemma forward_announces {A} payload (k : unit -> Handler A) s :
  (forall before, holds (longer before) (k tt)) -> announces payload (forward_to_admins payload ≫= k) s.
Proof.
  intros Hk. rw /announces /forward_to_admins /broadcast /mbind /M_bind /=.
  assert (forall s1, sent s1 = sent s ++ [(AllAdmins, JObj payload)] ->
    exists later, sent (k tt s1).2 = sent s ++ (AllAdmins, JObj payload) :: later) as Hs1.
  { intros s1 E1. destruct (Hk (sent s1) s1) as [later E]; [exists []; by rw app_nil_r|].
    exists later. rw E E1 -app_assoc //. }
  rw /pause. case_match eqn:E.
  - case_match eqn:E2; simplify_eq/=; by apply Hs1.
  - case_match eqn:E2; simplify_eq/=; by exists [].
Qed.

(** The record of the retired device, and the records of the others. *)
Lemma set_record_lookup d name v s d' :
  registry_get (JStr d') (set_record d name v s) =
  if streq d d' then store_by streq (u name) v <$> registry_get (JStr d) s else registry_get (JStr d') s.
Proof.
  rw /set_record. destruct (registry_get (JStr d) s) as [r|] eqn:E.
  - rw /registry_get /= lookup_store_py /=. by destruct (streq d d').
  - destruct (streq d d') eqn:E2; [|done]. by apply streq_eq in E2 as <-.
Qed.

Definition settled (d c : pystr) (status : string) (detail : pystr) : record :=
  [field "type" (JStr (u "RETIRE_RESULT")); field "device_id" (JStr d); field "correlation_id" (JStr c);
   field "status" (JStr (u status)); field "detail" (JStr detail)].

(** A change, a save that may raise, and the result. *)
Lemma save_then_announces {A} f payload (k : unit -> Handler A) s :
  (forall before, holds (longer before) (k tt)) ->
  let m := (change f ;; save_registry) ≫= (fun _ => forward_to_admins payload ≫= k) in
  (m s).1 = Raise UnicodeEncodeError \/ announces payload m s.
Proof.
  intros Hk m. rw /m /announces. rw /save_registry.
  set (s1 := s <| memory := f (memory s) |>).
  rw /mbind /M_bind. change (change f s) with (Ret tt : outcome fault unit, s1). cbv iota beta.
  rw /look /gets. destruct (write_error _); [right; exact (forward_announces payload k s1 Hk)|].
  destruct (negb _); [by left|]. right.
  exact (forward_announces payload k (s1 <| memory := (memory s1) <| registry_path := _ |> |>) Hk).
Qed.


(** What the handler does after the deadline has been decided. *)
Lemma result_unchanged payload s :
  unchanged (memory s) (memory ((forward_to_admins payload ;; broadcast_device_list) s).2).
Proof. apply after_nothing. intros s0. unfold forward_to_admins. auto with keeps. Qed.
Lemma marked_unchanged f payload s :
  unchanged (f (memory s))
    (memory (((change f ;; save_registry) ;; forward_to_admins payload ;; broadcast_device_list) s).2).
Proof.
  set (s1 := s <| memory := f (memory s) |>).
  enough (forall s0, keeps (unchanged s0) (save_registry ;; forward_to_admins payload ;; broadcast_device_list)) as Hs.
  { pose proof (Hs (f (memory s)) s1 (unchanged_refl _)) as Hu. revert Hu.
    rw /mbind /M_bind. change (change f s) with (Ret tt : outcome fault unit, s1). cbv iota beta.
    by destruct (save_registry s1) as [[?|?] ?]. }
  intros s0. unfold forward_to_admins. auto with keeps.
Qed.
Lemma unknown_record d name v s : ~ is_Some (registry_get (JStr d) s) -> set_record d name v s = s.
Proof. rw /set_record. destruct (registry_get _ _) as [r|]; [|done]. intros []. by eexists. Qed.
End Alone.

(** What is left of the memory when the timer has fired. *)
Definition spent (t : N) (d : pystr) (s : fleet) : fleet := drop_pending_retire d (s <| timers := delete t (timers s) |>).

Lemma deadline_runs {H : host} t d c s :
  timers (memory s) !! t = Some (Timer RetireTimeout d c) -> retire_of d (memory s) = Some (Retire c (Some t)) ->
  exists detail,
    timer_fires t s =
    (if in_devices (JStr d) (memory s) then forward_to_admins (settled d c "fail" detail) ;; broadcast_device_list
     else
       (if bool_decide (is_Some (registry_get (JStr d) (memory s)))
        then change (set_record d "retired" (JBool true)) ;; save_registry else mret tt) ;;
       forward_to_admins (settled d c "success" detail) ;; broadcast_device_list)
      (s <| memory := spent t d (memory s) |>).
Proof.
  intros Ht Hd. unfold timer_fires. rw look_does Ht change_does. unfold _retire_timeout. rw look_does.
  change (retire_of d (memory _)) with (retire_of d (memory s)). rw Hd.
  cbn [re_correlation_id]. rw streq_refl. cbn [negb]. rw change_does look_does. change (in_devices (JStr d) (memory _)) with (in_devices (JStr d) (memory s)).
  destruct (in_devices _ _); eexists; [reflexivity|]. rw look_does. reflexivity.
Qed.

Lemma spent_retire t d d' s :
  NoDup (pending_retires s).*1 -> retire_of d' (spent t d s) = if streq d d' then None else retire_of d' s.
Proof. intros K. by rw /retire_of /= lookup_remove. Qed.

Lemma settled_fields t d s s' (connected : bool) :
  NoDup (pending_retires s).*1 ->
  unchanged (if connected then spent t d s else set_record d "retired" (JBool true) (spent t d s)) s' ->
  retire_of d s' = None /\ timers s' = delete t (timers s) /\
  (forall d', d' <> d -> retire_of d' s' = retire_of d' s /\ registry_get (JStr d') s' = registry_get (JStr d') s) /\
  registry_get (JStr d) s' =
    (if connected then registry_get (JStr d) s
     else store_by streq (u "retired") (JBool true) <$> registry_get (JStr d) s).
Proof.
  intros K Hu. set (s1 := if connected then _ else _) in Hu. pose proof (unchanged_fields _ _ Hu) as (_ & Er & Ep & Et).
  assert (retire_view s1 = retire_view (spent t d s)) as [= Ep1 _ Et1 _].
  { rw /s1. destruct connected; [done|apply set_record_view]. }
  assert (forall d', retire_of d' s' = if streq d d' then None else retire_of d' s) as Hret.
  { intros d'. by rw -(spent_retire t) // /retire_of Ep Ep1. }
  assert (forall d', registry_get (JStr d') s' = registry_get (JStr d') s1) as Hreg by (intros d'; by rw /registry_get Er).
  split_and!.
  - by rw Hret streq_refl.
  - by rw Et Et1.
  - intros d' Hne. rw Hret Hreg /s1. assert (streq d d' = false) as E by by apply bool_decide_eq_false_2.
    rw E. split; [done|]. destruct connected; [done|]. by rw set_record_lookup E.
  - rw Hreg /s1. destruct connected; [done|]. by rw set_record_lookup streq_refl.
Qed.

(** When the timer of a pending retirement ends, the retirement and its timer are gone;
    if the device is connected the retirement has failed and no record changes, and if it is
    away its record, if there still is one, is marked as retired.  Other devices keep their
    records and their retirements.  The consoles are told the outcome before anything
    else, unless a text that UTF-8 cannot encode stops the save. *)
Theorem deadline_settles_retirement {H : host} (Halone : alone H) t d c s :
  fleet_ok (memory s) -> timers (memory s) !! t = Some (Timer RetireTimeout d c) ->
  let before := memory s in
  let run := timer_fires t s in
  let after := memory run.2 in
  let connected := in_devices (JStr d) before in
  retire_of d after = None /\ timers after = delete t (timers before) /\
  (forall d', d' <> d -> retire_of d' after = retire_of d' before /\
                         registry_get (JStr d') after = registry_get (JStr d') before) /\
  registry_get (JStr d) after =
    (if connected then registry_get (JStr d) before
     else store_by streq (u "retired") (JBool true) <$> registry_get (JStr d) before) /\
  (run.1 = Raise UnicodeEncodeError \/
   exists detail, announces (settled d c (if connected then "fail" else "success") detail) (timer_fires t) s).
Proof.
  intros Hok Ht. pose proof Hok as [[K _ N _ _ _ _] _]. destruct (N t d c Ht) as [_ Hd]. cbv zeta.
  destruct (deadline_runs t d c s Ht Hd) as [detail Erun]. rw /announces !Erun.
  pose proof (settled_fields t d (memory s) (memory (timer_fires t s).2) (in_devices (JStr d) (memory s)) K) as Hfields.
  rw Erun in Hfields. destruct (in_devices (JStr d) (memory s)) eqn:Ed.
  - destruct Hfields as (? & ? & ? & ?); [by apply (result_unchanged Halone)|].
    split_and!; try done. right. exists detail.
    exact (forward_announces _ (fun _ => broadcast_device_list) (s <| memory := spent t d (memory s) |>) longer_list).
  - rw bool_decide_decide in Hfields |- *. destruct (decide _) as [Hk|Hk].
    + destruct Hfields as (? & ? & ? & ?); [by apply (marked_unchanged Halone)|].
      split_and!; try done. destruct (save_then_announces (set_record d "retired" (JBool true)) (settled d c "success" detail)
        (fun _ => broadcast_device_list) (s <| memory := spent t d (memory s) |>) longer_list) as [?|?]; [by left|right; by exists detail].
    + destruct Hfields as (? & ? & ? & ?).
      { rw unknown_record; [by apply (result_unchanged Halone)|done]. }
      split_and!; try done. right. exists detail.
    exact (forward_announces _ (fun _ => broadcast_device_list) (s <| memory := spent t d (memory s) |>) longer_list).
Qed.

(** ** Witnesses *)

(** A headset connects, announces its uninstallation and leaves. *)
Definition idle_rest (_ : record) : Handler unit := mret tt.
Definition no_hashes (_ : json) : Handler json := mret JNull.
Definition no_slots (_ _ : pystr) (_ : json) : Handler bool := mret false.
Definition frame (fields : record) : pystr := dumps true (JObj fields).
Definition headset_ws : connection := Connection 7 None None.
Definition known_headset : connection := Connection 7 (Some (u "PA1")) (Some (u "legacy")).
Definition connects : event :=
  DeviceSays headset_ws None
    (frame [field "type" (JStr (u "REGISTER")); field "device_id" (JStr (u "PA1")); field "model" (JStr (u "Neo"))]).
Definition says_goodbye : event :=
  DeviceSays known_headset None
    (frame [field "type" (JStr (u "SELF_UNINSTALL_STARTING")); field "correlation_id" (JStr (u "c1"))]).
Abbreviation run evs := (serve_all (H := quiet_host) idle_rest no_hashes no_slots evs (Desk empty_fleet 0 [])).

Lemma retirements_are_timed_witness :
  let after := memory (run [connects; says_goodbye; DeviceCloses known_headset]) in
  exists t, timers after !! t = Some (Timer RetireTimeout (u "PA1") (u "c1")).
Proof.
  intros after.
  destruct (retirements_are_timed (H := quiet_host) idle_rest no_hashes no_slots
    [connects; says_goodbye; DeviceCloses known_headset] (Desk empty_fleet 0 [])) as [Htimed _].
  { by intros n s. }
  { by intros data s. }
  { by intros name s. }
  { by intros d reason task s. }
  { by split_and!. }
  destruct (Htimed (u "PA1") (Retire (u "c1") (Some 0%N))) as (t & _ & Ht); [vm_compute; reflexivity|].
  exists t. exact Ht.
Defined.
Definition comes_back : list event := [connects; says_goodbye; DeviceCloses known_headset; TimerEnds 0; connects].
Abbreviation on_record_retired s :=
  (truthy (get (u "retired") (default [] (registry_get (JStr (u "PA1")) (memory s))))).
Lemma connected_never_retired_witness :
  on_record_retired (run (take 4 comes_back)) = true /\
  in_devices (JStr (u "PA1")) (memory (run comes_back)) = true /\
  forall r, registry_get (JStr (u "PA1")) (memory (run comes_back)) = Some r -> truthy (get (u "retired") r) = false.
Proof.
  assert (in_devices (JStr (u "PA1")) (memory (run comes_back)) = true) as Hon by (vm_compute; reflexivity).
  split_and!; [vm_compute; reflexivity|exact Hon|].
  apply (connected_never_retired (H := quiet_host) idle_rest no_hashes no_slots comes_back (Desk empty_fleet 0 []) (u "PA1")).
  - by intros n s.
  - by intros data s.
  - by intros name s.
  - by intros d reason task s.
  - by split_and!.
  - exact Hon.
Defined.
Lemma deadline_settles_retirement_witness :
  let s := run [connects; says_goodbye; DeviceCloses known_headset] in
  registry_get (JStr (u "PA1")) (memory (timer_fires (H := quiet_host) 0 s).2) =
    store_by streq (u "retired") (JBool true) <$> registry_get (JStr (u "PA1")) (memory s).
Proof.
  assert (forall s, fleet_ok (memory s) -> timers (memory s) !! 0%N = Some (Timer RetireTimeout (u "PA1") (u "c1")) ->
    in_devices (JStr (u "PA1")) (memory s) = false ->
    registry_get (JStr (u "PA1")) (memory (timer_fires (H := quiet_host) 0 s).2) =
      store_by streq (u "retired") (JBool true) <$> registry_get (JStr (u "PA1")) (memory s)) as Hall.
  { intros s Hok Ht Hoff.
    destruct (deadline_settles_retirement (H := quiet_host) (fun _ _ => eq_refl) 0 (u "PA1") (u "c1") s Hok Ht)
      as (_ & _ & _ & Hrec & _). by rw Hoff in Hrec. }
  apply Hall; [|vm_compute; reflexivity|vm_compute; reflexivity].
  apply (serve_all_kept (H := quiet_host)).
  - by intros n s1.
  - by intros data s1.
  - by intros name s1.
  - by intros d reason task s1.
  - by apply started_ok.
Defined.

(** ** A socket that closes while its device comes back *)

(** [teardown] decides that the socket owns the device before it announces that the
    verification of an update failed.  When the device registers on another socket at that
    await, the entry taken out afterwards is the new socket's. *)
Definition comes_back_on_8 : host := {|
  others := fun n s => if Nat.eqb n 0 then s <| devices := store_by streq (u "PA1") (Online 8 []) (devices s) |> else s;
  cancelled := fun _ => false; lost := fun _ => None; write_error := fun _ => false; clock := fun _ => PFin (QArith_base.inject_Z 0);
  float_repr := fun _ => u "0.0"; lower_of := lower; uuid4_hex := fun _ => u "f"; fault_text := fun _ => [];
  retire_timeout_s := 120; self_update_timeout_s := 480; self_update_verify_timeout_s := 120;
|}.
Definition verifying_fleet : fleet := empty_fleet
  <| devices := [(u "PA1", Online 7 [])] |>
  <| pending_self_updates :=
       [(u "PA1", SelfUpdate 0 Verifying (u "c1") 2 JNull JNull JNull (u "canonical") None)] |>.
Lemma successor_is_removed :
  let closes := teardown (H := comes_back_on_8) no_slots known_headset (Desk verifying_fleet 0 []) in
  _owns_device (Some (u "PA1")) 8 (others (host := comes_back_on_8) 0 verifying_fleet) = true /\
  closes.1 = Ret tt /\ entry_of (u "PA1") (memory closes.2) = None.
Proof. split_and!; vm_compute; reflexivity. Qed.
