(* ===== verification/Sockets.v ===== *)
(** * The life of a device's socket (server.py, [device_ws_handler])

    The whole handler: the frames of the socket one after the other, with the exceptions
    that end the loop, and the [finally] clause.  [closed_sockets_own_nothing] shows that
    the server's dictionaries hold nothing of a socket whose handler has ended. *)

From S2P Require Import Prelude PyStr Text Json PushJobs Policy Paths Fleet Registry Groups Membership.
From S2P Require Import Commands Devices.
Open Scope Z_scope.

(** ** The handler *)

Inductive ws_message := TextFrame (raw : pystr) | OtherFrame.

Section Handler.
Context {H : host} (apk_hashes_for : json -> Handler json).
Context (release_transfer_slot : pystr -> pystr -> json -> Handler bool).

(** The locals [device_id] and [socket_identity_kind] as a frame leaves them, however it
    ends: they are assigned before its first await. *)
Definition frame_locals (c : connection) (remote : option pystr) (raw : pystr) (s : fleet) : connection :=
  match loads raw with
  | Some (JObj data) =>
      if eq_str (get (u "type") data) (u "REGISTER") then
        match _parse_registration data remote, c_device_id c with
        | Ret (Registers kind registration), (None | Some []) =>
            if streq kind (u "provisional") then Connection (c_ws c) None (Some (u "provisional"))
            else if bool_decide (c_ws c ∈ (provisional_connections s).*1) && negb (streq kind (u "canonical")) then c
            else Connection (c_ws c) (Some (default [] (as_str (get (u "device_id") registration)))) (Some kind)
        | _, _ => c
        end
      else c
  | _ => c
  end.

(** [async for raw_msg in ws]: the locals at the end, and the exception that ended it.
    Waiting for a frame, and for the end of the stream, is an await. *)
Fixpoint device_loop (c : connection) (remote : option pystr) (frames : list ws_message) (s : desk)
    : (option fault * connection) * desk :=
  match pause s with
  | (Raise e, s) => ((Some e, c), s)
  | (Ret _, s) =>
      match frames with
      | [] => ((None, c), s)
      | OtherFrame :: frames => device_loop c remote frames s
      | TextFrame raw :: frames =>
          match device_frame apk_hashes_for release_transfer_slot c remote raw s with
          | (Ret (Go c), s) => device_loop c remote frames s
          | (Ret Leave, s') => ((None, frame_locals c remote raw (memory s)), s')
          | (Raise e, s') => ((Some e, frame_locals c remote raw (memory s)), s')
          end
      end
  end.
(** [try: ... finally: ...] around it. *)
Definition device_ws_handler (ws : N) (remote : option pystr) (frames : list ws_message) : Handler unit := fun s =>
  let '((ended, c), s) := device_loop (Connection ws None None) remote frames s in
  match teardown release_transfer_slot c s with
  | (Raise e, s) => (Raise e, s)
  | (Ret _, s) => (match ended with Some e => Raise e | None => Ret tt end, s)
  end.
End Handler.

(** ** Who sits where *)

(** The devices with their sockets, and the sockets without a device. *)
Definition seats (s : fleet) : list (pystr * N) := (fun de => (de.1, o_ws de.2)) <$> devices s.
Definition waiting (s : fleet) : list N := (provisional_connections s).*1.

Lemma seats_keys s : (seats s).*1 = (devices s).*1.
Proof. rw /seats -list_fmap_compose. done. Qed.
Lemma seats_set_entry d name v s : seats (set_entry d name v s) = seats s.
Proof.
  rw /set_entry /entry_of. destruct (lookup_by streq d (devices s)) as [e|] eqn:E; [|done]. rw /seats /=.
  induction (devices s) as [|[d' e'] m IH]; [done|]. cbn in *. destruct (streq d' d) eqn:Ed; [|by rw fmap_cons IH].
  injection E as ->. done.
Qed.
Lemma waiting_set_entry d name v s : waiting (set_entry d name v s) = waiting s.
Proof. rw /set_entry. by case_match. Qed.
Lemma seats_set_record d name v s : seats (set_record d name v s) = seats s.
Proof. rw /set_record. by case_match. Qed.
Lemma waiting_set_record d name v s : waiting (set_record d name v s) = waiting s.
Proof. rw /set_record. by case_match. Qed.

Section Seats.
Context {H : host} (J : list (pystr * N) -> list N -> Prop).
Abbreviation seated := (fun s => J (seats s) (waiting s)).
Context (Hothers : forall n s, seated s -> seated (others n s)).

Lemma seat_change f : (forall s, seats (f s) = seats s /\ waiting (f s) = waiting s) -> keeps seated (change f).
Proof. intros Hf. apply holds_change. intros s Hs. destruct (Hf (memory s)) as [E1 E2]. cbn. by rw E1 E2. Qed.

Context (apk_hashes_for : json -> Handler json) (Hhashes : forall name, keeps seated (apk_hashes_for name)).
Context (release_transfer_slot : pystr -> pystr -> json -> Handler bool).
Context (Hrelease : forall d reason task, keeps seated (release_transfer_slot d reason task)).

(** Nothing but registrations and the end of a connection touches the seats. *)
Ltac unfold_head m := match m with ?f _ => unfold_head f | _ => unfold m end.
Ltac seat_same :=
  intros ?; unfold update_entry, drop_pending_update, drop_pending_retire, cancel_timer, store_update;
  repeat case_match; rw /= ?seats_set_record ?waiting_set_record ?seats_set_entry ?waiting_set_entry; try done.
Ltac seat_step :=
  lazymatch goal with
  | |- holds _ (mret _) => apply holds_ret
  | |- holds _ (raise _) => apply holds_raise
  | |- holds _ (gets _) => apply holds_gets
  | |- holds _ (look _) => apply holds_look
  | |- holds _ (or_raise _ _) => apply holds_or_raise
  | |- holds _ pause => exact (fleet_pause seated Hothers)
  | |- holds _ (send _ _) => exact (fleet_send seated Hothers _ _)
  | |- holds _ (broadcast _) => exact (keeps_broadcast seated Hothers _)
  | |- holds _ (error_reply _) => exact (keeps_error seated Hothers _)
  | |- holds _ (change _) => apply seat_change; seat_same
  | |- holds _ (modify _) => intros ? ?; done
  | |- holds _ (fun s => (_, s)) => intros ? ?; done
  | |- holds _ (apk_hashes_for _) => apply Hhashes
  | |- holds _ (release_transfer_slot _ _ _) => apply Hrelease
  | |- holds _ (_ ≫= _) => apply holds_bind; [|intros ?]
  | |- holds _ (try_except _ _) => apply holds_try; [|intros ? ? Eh; repeat case_match; try discriminate Eh; injection Eh as <-]
  | |- holds _ (for_each _ _) => apply holds_for_each; intros ?
  | |- holds _ (match ?x with _ => _ end) => destruct x
  | |- holds _ ?m => unfold_head m
  end.
Ltac seats_kept := repeat (cbv zeta; seat_step).

Lemma save_seats : keeps seated save_registry.
Proof. seats_kept. Qed.
Lemma message_seats d kind msg_type data :
  keeps seated (device_message apk_hashes_for release_transfer_slot d kind msg_type data).
Proof. seats_kept. Qed.
Lemma provisional_result_seats c msg_type data : keeps seated (provisional_result c msg_type data).
Proof. seats_kept. Qed.
Lemma protocol_error_seats ws message : keeps seated (_close_protocol_error ws message).
Proof. seats_kept. Qed.
Lemma complete_seats ws d : keeps seated (_complete_device_registration ws d).
Proof. seats_kept. Qed.
(** What [adopt] does after the promotion. *)
Definition after_promotion (c : connection) (device_id kind : pystr) (registration : record) : Handler next :=
  save_registry ;;
  _complete_device_registration (c_ws c) device_id ;;
  owner ← look (_owns_device (Some device_id) (c_ws c));
  if negb owner then mret (Go c)
  else
    change (set_entry device_id "status" (JStr (u "online"))) ;;
    _resolve_pending_retire device_id ;;
    _resolve_pending_self_update device_id (c_ws c) (get (u "version_code") registration) ;;
    (if streq kind (u "canonical") then broadcast_provisional_connection_list else mret tt) ;;
    broadcast_device_list ;;
    mret (Go c).
Lemma after_promotion_seats c d kind registration : keeps seated (after_promotion c d kind registration).
Proof. seats_kept. Qed.
Lemma device_list_seats : keeps seated broadcast_device_list.
Proof. seats_kept. Qed.
Lemma provisional_list_seats : keeps seated broadcast_provisional_connection_list.
Proof. seats_kept. Qed.
End Seats.

(** ** Frames keep the socket in its own seat *)

(** [ws] sits at [od] at most, and nobody twice. *)
Definition own (ws : N) (od : option pystr) (seats : list (pystr * N)) : Prop :=
  NoDup seats.*1 /\ forall d, (d, ws) ∈ seats -> od = Some d.

Lemma own_lookup ws od s d e : own ws od (seats s) -> entry_of d s = Some e -> (d, o_ws e) ∈ seats s.
Proof. intros _ He%lookup_in. apply list_elem_of_fmap. by exists (d, e). Qed.
Lemma own_entry ws od s d : own ws od (seats s) -> (d, ws) ∈ seats s -> exists e, entry_of d s = Some e /\ o_ws e = ws.
Proof.
  intros [Hn _] ([d' e] & [= -> ->] & Hin)%list_elem_of_fmap. exists e. split; [|done].
  apply lookup_nodup; [by rw -seats_keys|done].
Qed.
Lemma store_seats d e s : (fun de => (de.1, o_ws de.2)) <$> store_by streq d e (devices s) = store_by streq d (o_ws e) (seats s).
Proof.
  rw /seats. induction (devices s) as [|[d' e'] m IH]; [done|]. cbn. destruct (streq d' d); [done|]. cbn. by rw -IH.
Qed.
Lemma remove_seats d s : (fun de => (de.1, o_ws de.2)) <$> remove_by streq d (devices s) = remove_by streq d (seats s).
Proof.
  rw /seats. induction (devices s) as [|[d' e'] m IH]; [done|]. cbn. destruct (streq d' d); [done|]. cbn. by rw -IH.
Qed.
Lemma own_promote ws d kind now registration s : own ws None (seats s) ->
  own ws (Some d) (seats (promote ws d kind now registration s)).
Proof.
  intros [Hn Hw]. rw /seats /promote /= store_seats. cbn [o_ws new_entry]. split.
  - rw store_keys. case_bool_decide as Hd; [done|]. apply NoDup_app. split_and!; [done| |apply NoDup_singleton].
    intros x Hx ->%list_elem_of_singleton. done.
  - intros d' [[-> _]|Hin]%store_in; [done|]. by apply Hw in Hin.
Qed.

Section Life.
Context {H : host} (ws : N).
(** The other tasks keep one entry per device and neither seat this socket nor let it
    wait; only its own handler does. *)
Context (Hnodup : forall n s, NoDup (seats s).*1 -> NoDup (seats (others n s)).*1).
Context (Hseat : forall n s d, (d, ws) ∈ seats (others n s) -> (d, ws) ∈ seats s).
Context (Hwait : forall n s, ws ∈ waiting (others n s) -> ws ∈ waiting s).

Lemma others_own od n s : own ws od (seats s) -> own ws od (seats (others n s)).
Proof. intros [Hn Hw]. split; [by apply Hnodup|]. intros d Hd. by eapply Hw, Hseat. Qed.

(** A handler that changes the seats at its awaits only. *)
Definition aside {A} (m : Handler A) : Prop := forall J : list (pystr * N) -> list N -> Prop,
  (forall n s, J (seats s) (waiting s) -> J (seats (others n s)) (waiting (others n s))) ->
  keeps (fun s => J (seats s) (waiting s)) m.
Context (apk_hashes_for : json -> Handler json) (Hhashes : forall name, aside (apk_hashes_for name)).
Context (release_transfer_slot : pystr -> pystr -> json -> Handler bool).
Context (Hrelease : forall d reason task, aside (release_transfer_slot d reason task)).
(** It sets results of futures, and does not raise. *)
Context (Hreturns : forall d reason task s, exists b, (release_transfer_slot d reason task s).1 = Ret b).

Abbreviation seat_kept od := (keeps (fun s => own ws od (seats s))).
Lemma own_of_seats od {A} (m : Handler A) :
  (forall J : list (pystr * N) -> list N -> Prop,
     (forall n s, J (seats s) (waiting s) -> J (seats (others n s)) (waiting (others n s))) ->
     keeps (fun s => J (seats s) (waiting s)) m) -> seat_kept od m.
Proof. intros Hm. apply (Hm (fun l _ => own ws od l)). intros n s. apply others_own. Qed.

Lemma provisional_owns od c registration : seat_kept od (register_provisional c registration).
Proof.
  unfold register_provisional. apply holds_bind; [by intros ? ?|intros now].
  do 2 (apply holds_bind; [by intros ? ?|intros ?]).
  apply holds_bind; [by intros ? ?|intros _].
  apply holds_bind; [apply (fleet_send (fun s => own ws od (seats s))); apply others_own|intros _].
  apply holds_bind; [intros ? ?; cbn; by repeat case_match|intros _].
  apply holds_bind; [|intros _; apply holds_ret].
  apply own_of_seats. intros J. apply provisional_list_seats.
Qed.

(** The locals after a frame. *)
Definition after_frame (c : connection) (remote : option pystr) (raw : pystr) (s : fleet) (o : outcome fault next) : connection :=
  match o with Ret (Go c') => c' | _ => frame_locals c remote raw s end.
Definition at_seat (c : connection) (s : fleet) : Prop :=
  c_ws c = ws /\ c_device_id c <> Some [] /\ own ws (c_device_id c) (seats s).

Lemma parsed_id data remote kind registration : _parse_registration data remote = Ret (Registers kind registration) ->
  streq kind (u "provisional") = false -> default [] (as_str (get (u "device_id") registration)) <> [].
Proof.
  rw /_parse_registration. cbv zeta. intros E Hk. revert E.
  destruct (is_null _); [|destruct (negb (eq_str _ _)); [done|]];
    destruct (get (u "device_id") data) as [| | | |id| |]; try done.
  - destruct id as [|c id]; [done|]. destruct (128 <? _)%nat; [done|]. intros [= <- <-]. done.
  - destruct (get (u "identity") data) as [| | | | | |ident]; try done. destruct (negb (eq_str _ _)); [done|].
    destruct (negb (is_hashable _)); [done|]. destruct (negb (existsb _ _)); [done|].
    destruct (field_or _ _ _); try done. destruct (get (u "mint_attempted") ident); try done. intros [= <- <-]. done.
  - destruct (CANONICAL_DEVICE_ID_RE id) eqn:Ec; [|done]. intros [= <- <-].
    change (id <> []). intros ->. by vm_compute in Ec.
Qed.

(** What a handler returns, when it returns. *)
Definition yields {A} (Q : A -> Prop) (m : Handler A) : Prop := forall s a, (m s).1 = Ret a -> Q a.
Lemma yields_ret {A} (Q : A -> Prop) a : Q a -> yields Q (mret a).
Proof. by intros Ha s a' [= <-]. Qed.
Lemma yields_bind {A B} (Q : B -> Prop) (m : Handler A) f : (forall a, yields Q (f a)) -> yields Q (m ≫= f).
Proof. intros Hf s b. rw /mbind /M_bind. destruct (m s) as [[a|e] s']; [apply Hf|done]. Qed.

(** A frame that leaves the locals alone, and one that seats the socket. *)
Lemma same_seat c (o : outcome fault next) s s' : at_seat c s -> own ws (c_device_id c) (seats s') ->
  (forall n, o = Ret n -> n = Go c \/ n = Leave) ->
  at_seat (match o with Ret (Go c') => c' | _ => c end) s'.
Proof.
  intros (Hw & Hn & _) Ho Hy. destruct o as [n|e]; [|done]. by destruct (Hy n eq_refl) as [->| ->].
Qed.
Lemma keeps_seat c (m : Handler next) s : at_seat c (memory s) -> seat_kept (c_device_id c) m ->
  yields (fun n => n = Go c \/ n = Leave) m ->
  at_seat (match (m s).1 with Ret (Go c') => c' | _ => c end) (memory (m s).2).
Proof.
  intros Hs Hm Hy. eapply same_seat; [exact Hs|apply Hm, Hs|]. intros n. apply Hy.
Qed.

Lemma adopt_seats c kind registration s d : c_ws c = ws -> own ws None (seats (memory s)) -> d <> [] ->
  default [] (as_str (get (u "device_id") registration)) = d ->
  at_seat (match (adopt c kind registration s).1 with Ret (Go c') => c' | _ => Connection ws (Some d) (Some kind) end)
    (memory (adopt c kind registration s).2).
Proof.
  intros Hw Ho Hd Hid. set (c' := Connection ws (Some d) (Some kind)).
  set (s1 := s <| memory := promote ws d kind (JFloat (clock (turns s))) registration (memory s) |>).
  assert (adopt c kind registration s = after_promotion c' d kind registration s1) as -> by by rw /adopt Hw Hid.
  apply keeps_seat.
  - split_and!; [done|by intros [= ->]|by apply own_promote].
  - apply own_of_seats. intros J HJ. by apply after_promotion_seats.
  - do 2 (apply yields_bind; intros _). apply yields_bind. intros owner. destruct (negb owner); [apply yields_ret; by left|].
    do 5 (apply yields_bind; intros _). apply yields_ret. by left.
Qed.

Lemma outcome_does {A B} (a : A) (k : A -> Handler B) s : (of_outcome (Ret a) ≫= k) s = k a s.
Proof. done. Qed.
Lemma closes_seat c message s : at_seat c (memory s) ->
  let m := _close_protocol_error (c_ws c) message ;; mret Leave in
  at_seat (match (m s).1 with Ret (Go c') => c' | _ => c end) (memory (m s).2).
Proof.
  intros Hs m. apply keeps_seat; [done| |apply yields_bind; intros _; apply yields_ret; by right].
  apply holds_bind; [|intros _; apply holds_ret]. apply own_of_seats. intros J HJ. by apply protocol_error_seats.
Qed.

Lemma register_keeps_seat c remote data s : at_seat c (memory s) ->
  let run := register c remote data s in
  at_seat (match run.1 with
           | Ret (Go c') => c'
           | _ => match _parse_registration data remote, c_device_id c with
                  | Ret (Registers kind registration), (None | Some []) =>
                      if streq kind (u "provisional") then Connection (c_ws c) None (Some (u "provisional"))
                      else if bool_decide (c_ws c ∈ (provisional_connections (memory s)).*1) && negb (streq kind (u "canonical"))
                      then c
                      else Connection (c_ws c) (Some (default [] (as_str (get (u "device_id") registration)))) (Some kind)
                  | _, _ => c
                  end
           end) (memory run.2).
Proof.
  intros Hs run. subst run. rw /register. destruct (_parse_registration data remote) as [[kind registration|message]|e] eqn:Ep.
  2:{ rw outcome_does. by apply closes_seat. }
  2:{ done. }
  rw outcome_does. pose proof Hs as (Hw & Hn & Ho). destruct (c_device_id c) as [[|x id]|] eqn:Ed; [done| |].
  - destruct (negb (bool_decide _) || negb (eq_str _ _)); [by apply closes_seat|].
    apply keeps_seat; [done| |apply yields_bind; intros _; apply yields_ret; by left].
    apply holds_bind; [|intros _; apply holds_ret]. apply own_of_seats. intros J HJ. by apply complete_seats.
  - destruct (streq kind (u "provisional")) eqn:Ek.
    + set (c' := Connection (c_ws c) None (Some (u "provisional"))).
      assert (yields (fun n => n = Go c' \/ n = Leave) (register_provisional c registration)) as Hy.
      { do 7 (apply yields_bind; intros ?). apply yields_ret. by left. }
      eapply (same_seat c' _ (memory s)); [|apply provisional_owns, Ho|intros n; apply Hy].
      by split_and!.
    + rw look_does. destruct (bool_decide _ && _) eqn:Eb; [by apply closes_seat|].
      rw Hw. apply adopt_seats; [done|done| |done]. by eapply parsed_id.
Qed.

Lemma frame_keeps_seat c remote raw s : at_seat c (memory s) ->
  let run := device_frame apk_hashes_for release_transfer_slot c remote raw s in
  at_seat (after_frame c remote raw (memory s) run.1) (memory run.2).
Proof.
  intros Hs run. subst run. rw /after_frame /frame_locals /device_frame.
  destruct (loads raw) as [v|]; [|done]. destruct v as [| | | | | |data]; try by apply closes_seat.
  cbv zeta. destruct (eq_str (get (u "type") data) (u "REGISTER")); [by apply register_keeps_seat|].
  apply keeps_seat; [done| |].
  - destruct (c_device_id c) as [[|x id]|]; apply own_of_seats; intros J HJ.
    1,3: apply holds_bind; [by apply provisional_result_seats|intros _; apply holds_ret].
    apply holds_bind; [apply holds_look|intros owner]. destruct (negb owner); [apply holds_ret|].
    destruct (negb (is_hashable _)); [apply holds_raise|].
    apply holds_bind; [|intros _; apply holds_ret]. apply message_seats; [done| |].
    + intros name. by apply Hhashes.
    + intros. by apply Hrelease.
  - destruct (c_device_id c) as [[|x id]|].
    1,3: apply yields_bind; intros _; apply yields_ret; by left.
    apply yields_bind. intros owner. destruct (negb owner); [apply yields_ret; by left|].
    destruct (negb (is_hashable _)); [done|]. apply yields_bind. intros _. apply yields_ret. by left.
Qed.

Lemma loop_keeps_seat c remote frames s : at_seat c (memory s) ->
  let run := device_loop apk_hashes_for release_transfer_slot c remote frames s in
  at_seat run.1.2 (memory run.2).
Proof.
  assert (forall c s, at_seat c (memory s) -> at_seat c (memory (pause s).2)) as Hpause.
  { intros c1 s1 (Hw & Hn & Ho). split_and!; [done|done|by apply others_own]. }
  induction frames as [|frame frames IH] in c, s |- *; intros Hs; cbn [device_loop];
    pose proof (Hpause c s Hs) as Hs1; destruct (pause s) as [[[]|e] s1]; try done.
  destruct frame as [raw|]; [|by apply IH].
  pose proof (frame_keeps_seat c remote raw s1 Hs1) as Hf. cbv zeta in Hf.
  destruct (device_frame _ _ _ _ _ _) as [[[c'|]|e] s2]; [by apply IH|done..].
Qed.

(** *** The clean-up *)

(** Nothing of the socket is left. *)
Definition gone (s : fleet) : Prop := (forall d, (d, ws) ∉ seats s) /\ (ws ∉ waiting s).
Abbreviation stays_gone := (keeps gone).
Lemma others_gone n s : gone s -> gone (others n s).
Proof. intros [Hs Hw]. split; [intros d Hd; by eapply Hs, Hseat|intros Hin; by eapply Hw, Hwait]. Qed.
Lemma gone_of_seats {A} (m : Handler A) :
  (forall J : list (pystr * N) -> list N -> Prop,
     (forall n s, J (seats s) (waiting s) -> J (seats (others n s)) (waiting (others n s))) ->
     keeps (fun s => J (seats s) (waiting s)) m) -> stays_gone m.
Proof. intros Hm. apply (Hm (fun l w => (forall d, (d, ws) ∉ l) /\ (ws ∉ w))). intros n s. apply others_gone. Qed.
(** It does not wait any more, and sits at [d] at most. *)
Definition leaving (d : pystr) (s : fleet) : Prop := own ws (Some d) (seats s) /\ (ws ∉ waiting s).
Lemma others_leaving d n s : leaving d s -> leaving d (others n s).
Proof. intros [Ho Hw]. split; [by apply others_own|intros Hin; by eapply Hw, Hwait]. Qed.

Lemma absent_gone d s : leaving d s -> entry_of d s = None -> gone s.
Proof.
  intros [Ho Hw] Hn. split; [|done]. intros d' Hin. destruct (own_entry _ _ _ _ Ho Hin) as (e & He & _).
  destruct Ho as [_ Hd]. apply Hd in Hin as [= ->]. congruence.
Qed.
Lemma removed_gone d s : leaving d s -> gone (s <| devices := remove_by streq d (devices s) |>).
Proof.
  intros [[Hn Hd] Hw]. split; [|done]. intros d' Hin. rw /seats /= remove_seats in Hin.
  assert (d' = d) as -> by (apply remove_in in Hin; by apply Hd in Hin as [= ->]).
  apply list_elem_of_fmap_2 with (f := fst) in Hin. cbn in Hin.
  assert (lookup_by streq d (remove_by streq d (seats s)) = None) as Hl by (rw lookup_remove // streq_refl //).
  by apply lookup_none in Hl.
Qed.
Lemma broadcast_leaves d v s : leaving d (memory s) ->
  match broadcast v s with (Ret _, s') => leaving d (memory s') | (Raise e, _) => e = Cancelled end.
Proof.
  intros Hs. rw /broadcast /mbind /M_bind /modify /pause. cbn. destruct (cancelled (turns s)); [done|]. cbn.
  by apply others_leaving.
Qed.

(** The part of [teardown] that belongs to the owner of the device. *)
Definition owner_teardown (device_id : pystr) : Handler unit :=
  release_transfer_slot device_id (u "disconnect") JNull ;;
  change (fun s => s <| last_install_dispatch := remove_by streq device_id (last_install_dispatch s) |>) ;;
  pend ← look (update_of device_id);
  (match pend with
   | Some e =>
       if is_phase Verifying e then
         change (fun s => drop_pending_update device_id (cancel_timer (su_timeout_task e) s)) ;;
         update_verified device_id e "error" (u "device disconnected before verification completed")
       else mret tt
   | None => mret tt
   end) ;;
  present ← look (fun s => bool_decide (is_Some (entry_of device_id s)));
  if negb present then raise KeyError
  else
    change (fun s => s <| devices := remove_by streq device_id (devices s) |>) ;;
    known ← look (fun s => bool_decide (is_Some (registry_get (JStr device_id) s)));
    now ← time_time;
    (if known : bool then change (set_record device_id "last_seen" now) ;; save_registry else mret tt) ;;
    broadcast_device_list.

Lemma after_removal_gone d : stays_gone
  (known ← look (fun s => bool_decide (is_Some (registry_get (JStr d) s)));
   now ← time_time;
   (if known : bool then change (set_record d "last_seen" now) ;; save_registry else mret tt) ;;
   broadcast_device_list).
Proof.
  apply gone_of_seats. intros J HJ. apply holds_bind; [apply holds_look|intros known].
  apply holds_bind; [by intros ? ?|intros now]. apply holds_bind; [|intros _; by apply device_list_seats].
  destruct known; [|apply holds_ret]. apply holds_bind; [|intros _; by apply save_seats].
  apply seat_change. intros s. by rw seats_set_record waiting_set_record.
Qed.

Lemma owner_teardown_gone d s : leaving d (memory s) ->
  (owner_teardown d s).1 = Raise Cancelled \/ gone (memory (owner_teardown d s).2).
Proof.
  intros Hs. rw /owner_teardown. destruct (Hreturns d (u "disconnect") JNull s) as [b Hb].
  pose proof (Hrelease d (u "disconnect") JNull (fun l w => own ws (Some d) l /\ (ws ∉ w)) (others_leaving d) s Hs) as Hr.
  destruct (release_transfer_slot d (u "disconnect") JNull s) as [o s1] eqn:Er. cbn in Hb, Hr. subst o.
  assert (forall B (k : bool -> Handler B), (release_transfer_slot d (u "disconnect") JNull ≫= k) s = k b s1) as Hk
    by (intros; by rw /mbind /M_bind Er).
  rw !Hk. cbv beta. rw !change_does. cbv beta. rw !look_does. cbv beta.
  set (s2 := s1 <| memory := _ |>). assert (leaving d (memory s2)) as H2 by exact Hr.
  match goal with |- (((?m ≫= ?k) s2).1 = _ \/ _) => set (prefix := m); set (rest := k) end.
  assert (match prefix s2 with (Ret _, s') => leaving d (memory s') | (Raise e, _) => e = Cancelled end) as Hp.
  { subst prefix. destruct (update_of d (memory s2)) as [e|]; [|done]. destruct (is_phase Verifying e); [|done].
    rw change_does. apply broadcast_leaves. cbn. revert H2. rw /leaving /drop_pending_update /cancel_timer.
    by destruct (su_timeout_task e). }
  rw /mbind /M_bind. destruct (prefix s2) as [[[]|e] s3]; [|by left; rw Hp]. subst rest. cbv beta.
  rw look_does. case_bool_decide as Hpres.
  - right. cbn [negb]. rw change_does. apply after_removal_gone. cbn. by apply removed_gone.
  - right. cbn. apply (absent_gone d); [done|]. by apply eq_None_not_Some.
Qed.

Lemma teardown_gone c s : at_seat c (memory s) ->
  let run := teardown release_transfer_slot c s in run.1 = Raise Cancelled \/ gone (memory run.2).
Proof.
  intros (Hw & Hn & Ho) run. subst run. rw /teardown look_does. cbv beta. rw change_does. cbv beta. rw look_does. cbv beta. rw Hw.
  set (was := bool_decide _). set (s1 := s <| memory := _ |>).
  assert (ws ∉ waiting (memory s1)) as Hwait1.
  { intros ([w e] & -> & [Hne _]%list_elem_of_filter)%list_elem_of_fmap. by apply Hne. }
  assert (stays_gone (if was then broadcast_provisional_connection_list else mret tt)) as Hlast.
  { destruct was; [|apply holds_ret]. apply gone_of_seats. intros J HJ. by apply provisional_list_seats. }
  match goal with |- context [?m ≫= (fun _ : unit => if was then _ else _)] => set (middle := m) end.
  assert ((middle s1).1 = Raise Cancelled \/ gone (memory (middle s1).2)) as Hm.
  { subst middle. destruct (c_device_id c) as [d|] eqn:Ed.
    - assert (leaving d (memory s1)) as Hl by by split.
      destruct (_owns_device (Some d) ws (memory s1)) eqn:Eo; [by apply (owner_teardown_gone d s1)|right].
      split; [|done]. intros d' Hin. destruct Hl as [Hown _]. destruct (own_entry _ _ _ _ Hown Hin) as (e & He & Hwe).
      destruct Hown as [_ Hd]. apply Hd in Hin as [= ->]. destruct d' as [|x d']; [done|].
      by rw /_owns_device He Hwe N.eqb_refl in Eo.
    - right. split; [|done]. intros d Hd. destruct Ho as [_ Hnone]. by apply Hnone in Hd. }
  rw /mbind /M_bind. destruct (middle s1) as [[[]|e] s2]; cbn in Hm.
  - destruct Hm as [|Hg]; [done|]. right. by apply Hlast.
  - destruct Hm as [[= ->]|Hg]; [by left|by right].
Qed.

(** C11: When the handler of a device's socket has ended, however its frames, the other tasks
    and the exceptions went, nothing of the socket is left: no device is listed on it and
    it is not among the sockets that wait for an identity, unless the clean-up itself was
    cancelled. *)
Theorem closed_sockets_own_nothing remote frames s :
  NoDup (seats (memory s)).*1 -> (forall d, (d, ws) ∉ seats (memory s)) ->
  let ended := device_loop apk_hashes_for release_transfer_slot (Connection ws None None) remote frames s in
  (teardown release_transfer_slot ended.1.2 ended.2).1 <> Raise Cancelled ->
  gone (memory (device_ws_handler apk_hashes_for release_transfer_slot ws remote frames s).2).
Proof.
  intros Hn Hno ended Ht.
  assert (at_seat ended.1.2 (memory ended.2)) as Hs.
  { apply loop_keeps_seat. split_and!; [done|done|split; [done|]]. intros d Hd. by apply Hno in Hd. }
  rw /device_ws_handler -/ended. destruct ended as [[o c] s1]. cbn in *.
  pose proof (teardown_gone c s1 Hs) as Hg. cbv zeta in Hg.
  destruct (teardown release_transfer_slot c s1) as [[[]|e] s2]; by destruct Hg.
Qed.
End Life.

Definition frames_of (payloads : list record) : list ws_message := (fun o => TextFrame (dumps_default (JObj o))) <$> payloads.
Definition sample_frames : list ws_message := frames_of
  [[field "type" (JStr (u "REGISTER")); field "device_id" (JStr (u "PA1")); field "model" (JStr (u "Neo"))];
   [field "type" (JStr (u "BATTERY_UPDATE")); field "level" (JInt 80)]].
Abbreviation sample_handler := (device_ws_handler (H := quiet_host) (fun _ => mret JNull) (fun _ _ _ => mret false) 7 None).
(** The device is listed while the socket lives, and is not afterwards. *)
Example seated_meanwhile :
  seats (memory (device_loop (H := quiet_host) (fun _ => mret JNull) (fun _ _ _ => mret false)
    (Connection 7 None None) None sample_frames (Desk empty_fleet 0 [])).2) = [(u "PA1", 7%N)].
Proof. vm_compute. reflexivity. Qed.
Lemma closed_sockets_own_nothing_witness :
  gone 7 (memory (sample_handler sample_frames (Desk empty_fleet 0 [])).2).
Proof.
  apply (closed_sockets_own_nothing (H := quiet_host) 7).
  - by intros n s Hs.
  - by intros n s d Hs.
  - by intros n s Hs.
  - by intros name J HJ s Hs.
  - by intros d reason task J HJ s Hs.
  - intros d reason task s. by exists false.
  - constructor.
  - intros d Hd. by apply not_elem_of_nil in Hd.
  - assert (forall o : outcome fault unit, match o with Raise Cancelled => false | _ => true end = true -> o <> Raise Cancelled)
      as Hne by by intros [a|[]].
    apply Hne. vm_compute. reflexivity.
Defined.
