(* ===== verification/Reading.v ===== *)
(** * What [json.dumps] prints, [json.loads] reads

    The printer and the parser of Json.v are inverse on the values without floats whose
    objects have distinct keys, printed with any blanks around the separators, with or
    without [ensure_ascii]: what the server writes to its registry, sends to devices and
    consoles, and answers on the discovery port is what a reader gets. *)

From S2P Require Import Prelude PyStr Text Json Sha256 Fingerprint.
Open Scope Z_scope.

(** ** Values *)

(** A code point; a high surrogate is not followed by a low one, which [ensure_ascii]
    would print as one character. *)
Fixpoint text_ok (s : pystr) : Prop :=
  match s with
  | [] => True
  | c :: s' =>
      (c < 1114112)%N /\ (high_surrogate c = true -> forall d, head s' = Some d -> low_surrogate d = false) /\ text_ok s'
  end.
Fixpoint printable (v : json) : Prop :=
  match v with
  | JFloat _ => False
  | JStr s => text_ok s
  | JArr l => (fix all l := match l with [] => True | x :: l => printable x /\ all l end) l
  | JObj o =>
      NoDup o.*1 /\
      (fix all o := match o with [] => True | (k, x) :: o => (text_ok k /\ printable x) /\ all o end) o
  | _ => True
  end.

Section JsonInd.
Context (P : json -> Prop).
Context (Hnull : P JNull) (Hbool : forall b, P (JBool b)) (Hint : forall n, P (JInt n)) (Hfloat : forall f, P (JFloat f)).
Context (Hstr : forall s, P (JStr s)) (Harr : forall l, Forall P l -> P (JArr l)).
Context (Hobj : forall o, Forall (fun kv => P kv.2) o -> P (JObj o)).
(** Induction that goes into the elements. *)
Fixpoint json_nested (v : json) : P v :=
  match v with
  | JNull => Hnull
  | JBool b => Hbool b
  | JInt n => Hint n
  | JFloat f => Hfloat f
  | JStr s => Hstr s
  | JArr l => Harr l ((fix go (l : list json) : Forall P l := match l with [] => Forall_nil_2 P | x :: l => Forall_cons_2 _ x l (json_nested x) (go l) end) l)
  | JObj o => Hobj o ((fix go (o : list (pystr * json)) : Forall (fun kv => P kv.2) o := match o with [] => Forall_nil_2 (fun kv => P kv.2) | kv :: o => Forall_cons_2 (fun kv => P kv.2) kv o (json_nested kv.2) (go o) end) o)
  end.
End JsonInd.

Lemma printable_arr l : printable (JArr l) <-> Forall printable l.
Proof. cbn. induction l as [|x l IH]; [done|]. by rw IH Forall_cons. Qed.
Lemma printable_obj o :
  printable (JObj o) <-> NoDup o.*1 /\ Forall (fun kv => text_ok kv.1 /\ printable kv.2) o.
Proof.
  cbn. apply and_iff_compat_l. induction o as [|[k x] o IH]; [done|]. by rw IH Forall_cons.
Qed.

(** ** Strings *)

Lemma hex_digit_value d : (d < 16)%N -> hex_value (hex_digit d) = Some d.
Proof.
  intros Hd. rw /hex_digit /hex_value. destruct (N.ltb_spec d 10).
  - assert (((48 <=? 48 + d) && (48 + d <=? 57))%N = true) as -> by (rw andb_true_iff !N.leb_le; lia). f_equal. lia.
  - assert (((48 <=? 87 + d) && (87 + d <=? 57))%N = false) as -> by (rw andb_false_iff !N.leb_gt; lia).
    assert (((97 <=? 87 + d) && (87 + d <=? 102))%N = true) as -> by (rw andb_true_iff !N.leb_le; lia). f_equal. lia.
Qed.
Lemma u_escape_reads n :
  (n < 65536)%N -> exists a b c d, u_escape n = [92; 117; a; b; c; d]%N /\ hex4 a b c d = Some n.
Proof.
  intros Hn. rw /u_escape /hex. cbn [app]. do 4 eexists. split; [reflexivity|]. rw /hex4.
  rw !hex_digit_value; [f_equal|..]; try (apply N.mod_lt; lia).
  pose proof (N.div_mod n 16). pose proof (N.div_mod (n / 16) 16). pose proof (N.div_mod (n / 16 / 16) 16).
  assert (n / 16 / 16 / 16 < 16)%N by (rw !N.Div0.div_div; apply N.Div0.div_lt_upper_bound; lia).
  rw (N.mod_small (n / 16 / 16 / 16)) //. lia.
Qed.
Lemma parse_u_escape n s t r :
  (n < 65536)%N -> (high_surrogate n = true -> forall d, head t = Some d -> low_surrogate d = false) ->
  parse_chars s = Some (t, r) -> parse_chars (u_escape n ++ s) = Some (n :: t, r).
Proof.
  intros Hn Hhigh Hs. destruct (u_escape_reads n Hn) as (a & b & c & d & -> & Hx).
  cbn [app parse_chars N.eqb Pos.eqb]. rw Hx. cbn match. rw Hs. destruct (high_surrogate n) eqn:E; [|done].
  destruct s as [|b1 [|b2 [|e1 [|e2 [|e3 [|e4 s4]]]]]]; try done.
  destruct (N.eqb_spec b1 92) as [->|]; [|done]. destruct (N.eqb_spec b2 117) as [->|]; [|done]. cbn [andb].
  destruct (hex4 e1 e2 e3 e4) as [lo|] eqn:El; [|done]. destruct (low_surrogate lo) eqn:Elo; [|done].
  exfalso. revert Hs. cbn [parse_chars N.eqb Pos.eqb]. rw El. cbn match.
  assert (high_surrogate lo = false) as ->.
  { revert Elo. rw /low_surrogate /high_surrogate andb_true_iff andb_false_iff !N.leb_le !N.leb_gt. lia. }
  destruct (parse_chars s4) as [[t4 r4]|]; [|done]. intros [= <- <-]. by rw (Hhigh eq_refl lo) in Elo.
Qed.
Lemma parse_pair c s t r :
  (65536 <= c < 1114112)%N -> parse_chars s = Some (t, r) ->
  parse_chars (u_escape (55296 + (c - 65536) / 1024) ++ u_escape (56320 + (c - 65536) mod 1024) ++ s) = Some (c :: t, r).
Proof.
  intros Hc Hs. pose proof (N.div_mod (c - 65536) 1024 ltac:(lia)). pose proof (N.mod_lt (c - 65536) 1024 ltac:(lia)).
  assert ((c - 65536) / 1024 < 1024)%N by (apply N.Div0.div_lt_upper_bound; lia).
  set (hi := (55296 + (c - 65536) / 1024)%N). set (lo := (56320 + (c - 65536) mod 1024)%N).
  destruct (u_escape_reads hi) as (a & b & c' & d & -> & Hx); [lia|].
  destruct (u_escape_reads lo) as (a2 & b2 & c2 & d2 & -> & Hy); [lia|].
  cbn [app parse_chars N.eqb Pos.eqb andb]. rw Hx Hy. cbn match.
  assert (high_surrogate hi = true) as -> by (rw /high_surrogate andb_true_iff !N.leb_le; lia).
  assert (low_surrogate lo = true) as -> by (rw /low_surrogate andb_true_iff !N.leb_le; lia).
  rw Hs. do 2 f_equal. f_equal. lia.
Qed.
Lemma parse_escaped ascii c s t r :
  (c < 1114112)%N -> (high_surrogate c = true -> forall d, head t = Some d -> low_surrogate d = false) ->
  parse_chars s = Some (t, r) -> parse_chars (escape_cp ascii c ++ s) = Some (c :: t, r).
Proof.
  intros Hc Hh Hs. destruct ascii; [|by apply parse_escape].
  destruct (N.ltb_spec c 127) as [Hlow|Hhigh].
  - assert (escape_cp true c = escape_cp false c) as ->; [|by apply parse_escape].
    rw /escape_cp. do 8 (case_match; [done|]). cbn [negb orb]. assert ((c <? 127)%N = true) as -> by (by apply N.ltb_lt). done.
  - assert (escape_cp true c = if (c <? 65536)%N then u_escape c
      else u_escape (55296 + (c - 65536) / 1024) ++ u_escape (56320 + (c - 65536) mod 1024)) as ->.
    { rw /escape_cp. do 7 (match goal with |- context [(c =? ?k)%N] => destruct (N.eqb_spec c k); [lia|] end).
      destruct (N.ltb_spec c 32); [lia|]. cbn [negb orb].
      assert ((c <? 127)%N = false) as -> by (by apply N.ltb_ge). done. }
    destruct (N.ltb_spec c 65536); [by apply parse_u_escape|]. rw -app_assoc. by apply parse_pair.
Qed.
Lemma parse_text ascii s r : text_ok s -> parse_chars ((s ≫= escape_cp ascii) ++ 34%N :: r) = Some (s, r).
Proof.
  induction s as [|c s IH]; [done|]. intros (Hc & Hh & Hs). rw bind_cons -app_assoc. apply parse_escaped; auto.
Qed.

(** ** Numbers *)

Lemma digits_from acc d :
  foldl (fun acc d => (acc * 10 + (d - 48))%N) (Npos acc) (uint_digits d) = Npos (Pos.of_uint_acc d acc).
Proof.
  revert acc. induction d as [|d IH|d IH|d IH|d IH|d IH|d IH|d IH|d IH|d IH|d IH]; intros acc;
    [done|cbn [uint_digits foldl Pos.of_uint_acc]; rw -IH; f_equal; lia..].
Qed.
Lemma digits_value_of d : digits_value (uint_digits d) = N.of_uint d.
Proof.
  rw /digits_value /N.of_uint. induction d as [|d IH|d IH|d IH|d IH|d IH|d IH|d IH|d IH|d IH|d IH]; [done|exact IH|..];
    cbn [uint_digits foldl Pos.of_uint]; by rw -digits_from.
Qed.
Lemma digits_value_str n : digits_value (str_of_N n) = n.
Proof. by rw /str_of_N digits_value_of DecimalN.Unsigned.of_to. Qed.

(** No number but zero begins with a zero. *)
Lemma to_uint_zero n d : N.to_uint n = Decimal.D0 d -> d = Decimal.Nil.
Proof.
  intros E. pose proof (DecimalN.Unsigned.to_of (Decimal.D0 d)) as Hn. rw -E DecimalN.Unsigned.of_to E in Hn.
  rw /Decimal.unorm /= in Hn. destruct (Decimal.nzhead d) eqn:Ez; try done; [by injection Hn|].
  by apply DecimalFacts.nzhead_nonzero in Ez.
Qed.
Lemma str_of_N_head n : exists c t, str_of_N n = c :: t /\ is_digit c = true /\ (c = 48%N -> t = []).
Proof.
  rw /str_of_N. destruct (N.to_uint n) as [|d|d|d|d|d|d|d|d|d|d] eqn:E; cbn [uint_digits];
    [|do 2 eexists; split_and!; [done|done|]..]; try done.
  - by destruct n as [|p]; [|apply DecimalPos.Unsigned.to_uint_nonnil in E].
  - apply to_uint_zero in E as ->. done.
Qed.
Lemma str_of_N_digits n : Forall (fun c => is_digit c = true) (str_of_N n).
Proof.
  eapply Forall_impl; [apply uint_digits_chars|]. intros c Hc. by rw /is_digit andb_true_iff !N.leb_le.
Qed.
Lemma span_all d r :
  Forall (fun c => is_digit c = true) d -> (forall c, head r = Some c -> is_digit c = false) -> span_digits (d ++ r) = (d, r).
Proof.
  intros Hd Hr. induction Hd as [|c d Hc _ IH]; cbn [app span_digits].
  - destruct r as [|c r]; [done|]. cbn. by rw (Hr c).
  - by rw Hc IH.
Qed.

(** What ends a number: the end of the text, a separator, a bracket or a blank. *)
Definition number_ends (r : pystr) : Prop :=
  forall c, head r = Some c -> is_digit c = false /\ (c ∉ [46; 101; 69]%N).
Lemma parse_unsigned n r :
  number_ends r ->
  (let '(int, s2) := match str_of_N n ++ r with
                     | c :: t => if (c =? 48)%N then ([48%N], t) else span_digits (str_of_N n ++ r)
                     | [] => ([], str_of_N n ++ r)
                     end in (int, s2)) = (str_of_N n, r).
Proof.
  intros Hr. destruct (str_of_N_head n) as (c & t & E & Hc & Hzero).
  assert (span_digits (str_of_N n ++ r) = (str_of_N n, r)) as Hs.
  { apply span_all; [apply str_of_N_digits|]. intros x Hx. by apply Hr. }
  rw Hs E /=. destruct (N.eqb_spec c 48) as [->|]; [by rw Hzero|done].
Qed.
Lemma no_frac r : number_ends r -> parse_frac r = ([], r) /\ parse_exp r = (None, r).
Proof.
  intros Hr. destruct r as [|c r]; [done|]. destruct (Hr c eq_refl) as [_ Hc]. rw /parse_frac /parse_exp.
  destruct (N.eqb_spec c 46) as [->|]; [set_solver|]. destruct (N.eqb_spec c 101) as [->|]; [set_solver|].
  destruct (N.eqb_spec c 69) as [->|]; [set_solver|done].
Qed.
Lemma parse_int n r : number_ends r -> parse_number (str_of_int n ++ r) = Some (JInt n, r).
Proof.
  intros Hr. destruct (no_frac r Hr) as [Hfrac Hexp].
  assert (forall neg k, (let '(int, s2) := match str_of_N k ++ r with
            | c :: t => if (c =? 48)%N then ([48%N], t) else span_digits (str_of_N k ++ r)
            | [] => ([], str_of_N k ++ r)
            end in
          if bool_decide (int = []) then None
          else let '(frac, s3) := parse_frac s2 in let '(e, s4) := parse_exp s3 in
            match frac, e with
            | [], None => let n := Z.of_N (digits_value int) in Some (JInt (if neg : bool then - n else n), s4)
            | _, _ => Some (JFloat (PFin (decimal_Q neg int frac (default 0 e))), s4)
            end) = Some (JInt (if neg then - Z.of_N k else Z.of_N k), r)) as Hunsigned.
  { intros neg k. pose proof (parse_unsigned k r Hr) as Hp. destruct (str_of_N_head k) as (c & t & E & _).
    destruct (match str_of_N k ++ r with c :: t => _ | [] => _ end) as [int s2]. injection Hp as -> ->.
    rw bool_decide_eq_false_2; [|by rw E]. by rw Hfrac Hexp digits_value_str. }
  rw /parse_number /str_of_int. destruct (Z.ltb_spec n 0).
  - cbn [app N.eqb Pos.eqb]. rw Hunsigned. do 3 f_equal. lia.
  - destruct (str_of_N_head (Z.to_N n)) as (c & t & E & Hc & _). specialize (Hunsigned false (Z.to_N n)).
    rw E. rw E in Hunsigned. cbn [app] in *. destruct (N.eqb_spec c 45) as [->|]; [done|]. rw Hunsigned.
    do 3 f_equal. lia.
Qed.

(** ** Values *)

Lemma read_str k s : parse_value (S k) (34%N :: s) = match parse_chars s with Some (t, r) => Some (JStr t, r) | None => None end.
Proof. reflexivity. Qed.
Lemma read_arr k s :
  parse_value (S k) (91%N :: s) =
    match skip_ws s with
    | [] => None
    | d :: r => if (d =? 93)%N then Some (JArr [], r)
                else match parse_items k (d :: r) with Some (l, r) => Some (JArr l, r) | None => None end
    end.
Proof. reflexivity. Qed.
Lemma read_obj k s :
  parse_value (S k) (123%N :: s) =
    match skip_ws s with
    | [] => None
    | d :: r => if (d =? 125)%N then Some (JObj [], r)
                else match parse_members k [] (d :: r) with Some (o, r) => Some (JObj o, r) | None => None end
    end.
Proof. reflexivity. Qed.
Lemma read_other k c s :
  (c ∉ [34; 91; 123]%N) ->
  parse_value (S k) (c :: s) = match parse_literal literals (c :: s) with Some x => Some x | None => parse_number (c :: s) end.
Proof.
  intros Hc. cbn [parse_value]. destruct (N.eqb_spec c 34) as [->|]; [set_solver|].
  destruct (N.eqb_spec c 91) as [->|]; [set_solver|]. destruct (N.eqb_spec c 123) as [->|]; [set_solver|done].
Qed.
Lemma read_items k s v r :
  parse_value k (skip_ws s) = Some (v, r) ->
  parse_items (S k) s =
    match skip_ws r with
    | c :: r' => if (c =? 44)%N then match parse_items k r' with Some (l, r) => Some (v :: l, r) | None => None end
                 else if (c =? 93)%N then Some ([v], r') else None
    | [] => None
    end.
Proof. intros E. cbn [parse_items]. by rw E. Qed.
Lemma read_members k acc s s' key r r' v r2 :
  skip_ws s = 34%N :: s' -> parse_chars s' = Some (key, r) -> skip_ws r = 58%N :: r' ->
  parse_value k (skip_ws r') = Some (v, r2) ->
  parse_members (S k) acc s =
    match skip_ws r2 with
    | c :: r3 => if (c =? 44)%N then parse_members k (dict_set key v acc) r3
                 else if (c =? 125)%N then Some (dict_set key v acc, r3) else None
    | [] => None
    end.
Proof. intros E1 E2 E3 E4. cbn [parse_members]. rw E1. cbn [N.eqb Pos.eqb]. rw E2 E3. cbn [N.eqb Pos.eqb]. by rw E4. Qed.

Lemma dict_set_new key v o : key ∉ o.*1 -> dict_set key v o = o ++ [(key, v)].
Proof.
  induction o as [|[k x] o IH]; [done|]. cbn [fmap list_fmap fst dict_set]. intros Hk.
  assert (streq key k = false) as -> by (apply bool_decide_eq_false_2; set_solver). rw IH //. set_solver.
Qed.

Section Print.
Context (ascii : bool) (item_ws key_ws : pystr) (float_repr : pyfloat -> pystr).
Context (Hitem : Forall (fun c => json_ws c = true) item_ws) (Hkey : Forall (fun c => json_ws c = true) key_ws).
Local Abbreviation print := (dumps_with ascii (44%N :: item_ws) (58%N :: key_ws) float_repr).
Local Abbreviation member := (fun '(k, x) => dumps_str ascii k ++ (58%N :: key_ws) ++ print x).

Lemma skip_blanks w s : Forall (fun c => json_ws c = true) w -> skip_ws (w ++ s) = skip_ws s.
Proof. induction 1 as [|c w Hc _ IH]; [done|]. rw /skip_ws /=. by rw Hc. Qed.
Lemma skip_none c s : json_ws c = false -> skip_ws (c :: s) = c :: s.
Proof. intros Hc. rw /skip_ws /=. by rw Hc. Qed.
Lemma ends_with c r : (c ∈ [44; 93; 125]%N) -> number_ends (c :: r).
Proof. intros Hc d [= <-]. split; [|set_solver]. repeat (apply elem_of_cons in Hc as [->|Hc]; [done|]). set_solver. Qed.

(** How a printed value begins. *)
Lemma print_head v : printable v -> exists c t, print v = c :: t /\ json_ws c = false /\ (c ∉ [93; 125]%N).
Proof.
  destruct v as [|[]|n|f|s|l|o]; intros Hv; try done; cbn [dumps_with];
    try (do 2 eexists; split_and!; [reflexivity|done|set_solver]).
  rw /str_of_int. destruct (n <? 0); [do 2 eexists; split_and!; [done|done|set_solver]|].
  destruct (str_of_N_head (Z.to_N n)) as (c & t & -> & Hc & _). do 2 eexists. split; [done|].
  rw /is_digit andb_true_iff !N.leb_le in Hc. split.
  - rw /json_ws !orb_false_iff !N.eqb_neq. lia.
  - rw !not_elem_of_cons. split_and!; [lia|lia|set_solver].
Qed.
Lemma skip_print v s : printable v -> skip_ws (print v ++ s) = print v ++ s.
Proof. intros (c & t & -> & Hc & _)%print_head. by apply skip_none. Qed.
Lemma print_length v : printable v -> (1 <= length (print v))%nat.
Proof. intros (c & t & -> & _)%print_head. simpl. lia. Qed.

(** A printed value is read back, with fuel for its text. *)
Definition reads (v : json) : Prop :=
  forall fuel r, (length (print v) <= fuel)%nat -> number_ends r -> parse_value fuel (print v ++ r) = Some (v, r).

Lemma reads_items l :
  Forall (fun v => printable v /\ reads v) l -> l <> [] -> forall fuel w r,
  Forall (fun c => json_ws c = true) w -> (length (intercalate (44%N :: item_ws) (map print l)) < fuel)%nat ->
  parse_items fuel (w ++ intercalate (44%N :: item_ws) (map print l) ++ 93%N :: r) = Some (l, r).
Proof.
  induction 1 as [|v l [Hv Hreads] _ IH]; [done|]. intros _ [|fuel] w r Hw Hf; [lia|].
  destruct l as [|v' l]; cbn [map intercalate] in *.
  - rw (read_items _ _ v (93%N :: r)); [done|]. rw skip_blanks // skip_print //. apply Hreads; [lia|].
    apply ends_with. set_solver.
  - rw -app_assoc. rw (read_items _ _ v ((44%N :: item_ws) ++ intercalate (44%N :: item_ws) (print v' :: map print l) ++ 93%N :: r)).
    + cbn [app]. rw skip_none //. cbn [N.eqb Pos.eqb]. rw IH //.
      pose proof (print_length v Hv). rw !length_app in Hf. cbn [length map] in *. lia.
    + rw -!app_assoc skip_blanks // skip_print //. apply Hreads; [|apply ends_with; set_solver].
      rw length_app in Hf. lia.
Qed.

Lemma intercalate_cons sep p q ps : intercalate sep (p :: q :: ps) = p ++ sep ++ intercalate sep (q :: ps).
Proof. done. Qed.
Lemma dumps_str_reads k r : text_ok k -> exists s, dumps_str ascii k ++ r = 34%N :: s /\ parse_chars s = Some (k, r).
Proof. intros Hk. eexists. split; [by rw /dumps_str -!app_comm_cons -app_assoc|by apply parse_text]. Qed.

Lemma reads_members o :
  Forall (fun kv => text_ok kv.1 /\ printable kv.2 /\ reads kv.2) o -> o <> [] -> forall acc fuel w r,
  NoDup (acc ++ o).*1 -> Forall (fun c => json_ws c = true) w ->
  (length (intercalate (44%N :: item_ws) (map member o)) < fuel)%nat ->
  parse_members fuel acc (w ++ intercalate (44%N :: item_ws) (map member o) ++ 125%N :: r) = Some (acc ++ o, r).
Proof.
  induction 1 as [|[k x] o (Hk & Hx & Hreads) _ IH]; [done|]. intros _ acc [|fuel] w r Hnd Hw Hf; [lia|]. cbn [fst snd] in *.
  assert (dict_set k x acc = acc ++ [(k, x)]) as Hset.
  { apply dict_set_new. rw fmap_app NoDup_app in Hnd. destruct Hnd as (_ & Hnd & _). intros Hin. apply (Hnd _ Hin). left. }
  assert (forall rest, (length (print x) <= fuel)%nat -> number_ends rest -> parse_members (S fuel) acc (w ++ (dumps_str ascii k ++ (58%N :: key_ws) ++ print x) ++ rest) =
    match skip_ws rest with
    | c :: r3 => if (c =? 44)%N then parse_members fuel (acc ++ [(k, x)]) r3
                 else if (c =? 125)%N then Some (acc ++ [(k, x)], r3) else None
    | [] => None
    end) as Hone.
  { intros rest Hle Hends. destruct (dumps_str_reads k (58%N :: key_ws ++ print x ++ rest) Hk) as (s & Es & Ep).
    rw -(app_assoc (dumps_str ascii k)) -(app_assoc (58%N :: key_ws)) -(app_comm_cons key_ws) Es -Hset.
    apply (read_members _ _ _ s _ (58%N :: key_ws ++ print x ++ rest) (key_ws ++ print x ++ rest));
      [by rw skip_blanks // skip_none|exact Ep|by rw skip_none|].
    rw skip_blanks // skip_print //. by apply Hreads. }
  destruct o as [|kv o]; cbn [map] in *.
  - cbn [intercalate] in *. rw Hone; [done|rw !length_app in Hf; lia|apply ends_with; set_solver].
  - rw intercalate_cons in Hf. rw intercalate_cons -app_assoc Hone; [|rw !length_app in Hf; lia|apply ends_with; set_solver].
    rw -app_assoc. cbn [app]. rw skip_none //. cbn [N.eqb Pos.eqb]. rw IH // -?app_assoc //.
    rw !length_app in Hf. cbn [length map] in *. unfold pystr in *. lia.
Qed.

Lemma no_literal ls s : Forall (fun pv : pystr * json => forall t, s <> pv.1 ++ t) ls -> parse_literal ls s = None.
Proof.
  induction 1 as [|[p v] ls Hp _ IH]; [done|]. cbn [parse_literal]. rw /Json.strip_prefix.
  destruct (startswith s p) eqn:E; [|done]. apply startswith_spec in E as [t ->]. by destruct (Hp t).
Qed.
Lemma int_head n :
  exists c t, str_of_int n = c :: t /\ (c ∉ [34; 91; 123]%N) /\ forall r, parse_literal literals (c :: t ++ r) = None.
Proof.
  destruct (str_of_N_head (Z.to_N (- n))) as (c & t & E & Hc & _).
  destruct (str_of_N_head (Z.to_N n)) as (c' & t' & E' & Hc' & _).
  rw /is_digit andb_true_iff !N.leb_le in Hc. rw /is_digit andb_true_iff !N.leb_le in Hc'.
  rw /str_of_int. destruct (n <? 0).
  - exists 45%N, (c :: t). rw E. split_and!; [done|set_solver|]. intros r. apply no_literal.
    repeat constructor; intros t2 Ht; injection Ht; intros; subst; lia.
  - exists c', t'. split_and!; [done| |].
    + rw !not_elem_of_cons. split_and!; [lia|lia|lia|set_solver].
    + intros r. apply no_literal. repeat constructor; intros t2 Ht; injection Ht; intros; subst; lia.
Qed.
Lemma all_read v : printable v -> reads v.
Proof.
  induction v as [|b|n|f|s|l IH|o IH] using json_nested; intros Hv [|fuel] r Hf Hr;
    try (pose proof (print_length _ Hv); lia).
  - by rw read_other; [|set_solver].
  - destruct b; (rw read_other; [done|set_solver]).
  - cbn [dumps_with]. destruct (int_head n) as (c & t & E & Hc & Hlit). rw -(parse_int n r Hr) E.
    by rw read_other // Hlit.
  - done.
  - cbn [dumps_with]. destruct (dumps_str_reads s r Hv) as (s' & -> & Ep). by rw read_str Ep.
  - cbn [dumps_with] in *. rw -app_comm_cons read_arr. destruct l as [|v l]; [done|].
    apply printable_arr in Hv. pose proof Hv as [(c & t & Ec & Hc & Hno)%print_head _]%Forall_cons_1.
    assert (exists s, (intercalate (44%N :: item_ws) (map print (v :: l)) ++ [93%N]) ++ r = c :: s) as [s Es].
    { cbn [map intercalate]. destruct (map print l); rw Ec -?app_assoc; by eexists. }
    rw Es skip_none //. destruct (N.eqb_spec c 93) as [->|]; [set_solver|]. rw -Es -app_assoc.
    rw (reads_items (v :: l) _ ltac:(done) fuel [] r); [done| |done|].
    + apply Forall_and. split; [done|]. rw Forall_forall in IH. rw Forall_forall in Hv.
      apply Forall_forall. intros x Hx. by apply IH, Hv.
    + cbn [length] in Hf. rw length_app in Hf. cbn [length map] in *. unfold pystr in *. lia.
  - cbn [dumps_with] in *. rw -app_comm_cons read_obj. destruct o as [|[k x] o]; [done|].
    apply printable_obj in Hv as [Hnd Hv].
    assert (exists s, (intercalate (44%N :: item_ws) (map member ((k, x) :: o)) ++ [125%N]) ++ r = 34%N :: s) as [s Es].
    { cbn [map intercalate]. destruct (map member o); eexists; rw /dumps_str -?app_assoc; reflexivity. }
    rw Es skip_none //. cbn [N.eqb Pos.eqb]. rw -Es -app_assoc.
    rw (reads_members ((k, x) :: o) _ ltac:(done) [] fuel [] r); [done| |done|done|].
    + rw Forall_forall in IH. rw Forall_forall in Hv. apply Forall_forall. intros kv Hin.
      destruct (Hv _ Hin). split_and!; [done|done|by apply IH].
    + cbn [length] in Hf. rw length_app in Hf. cbn [length map] in *. unfold pystr in *. lia.
Qed.
End Print.

(** ** The round trip *)

Lemma loads_printed ascii item_ws key_ws float_repr v :
  Forall (fun c => json_ws c = true) item_ws -> Forall (fun c => json_ws c = true) key_ws -> printable v ->
  loads (dumps_with ascii (44%N :: item_ws) (58%N :: key_ws) float_repr v) = Some v.
Proof.
  intros Hi Hk Hv. rw /loads.
  pose proof (skip_print ascii item_ws key_ws float_repr Hi Hk v [] Hv) as Hs. rw app_nil_r in Hs. rw Hs.
  pose proof (all_read ascii item_ws key_ws float_repr Hi Hk v Hv) as Hread.
  set (text := dumps_with _ _ _ _ v) in *. specialize (Hread (S (length text)) []). rw app_nil_r in Hread.
  rw Hread //. rw -/text. lia.
Qed.
Lemma loads_dumps ascii v : printable v -> loads (dumps ascii v) = Some v.
Proof. intros Hv. by apply loads_printed. Qed.
Lemma loads_dumps_default v : printable v -> loads (dumps_default v) = Some v.
Proof. intros Hv. apply loads_printed; [by repeat constructor..|done]. Qed.

(** What [printable] asks for is needed: a pair of surrogates is read as one character. *)
Example surrogates_merge :
  loads (dumps true (JStr [55357; 56832]%N)) = Some (JStr [128512]%N).
Proof. vm_compute. reflexivity. Qed.

(** ** With [ensure_ascii] the text is ASCII *)

Lemma escaped_ascii c : (c < 1114112)%N -> Forall (fun x => (x < 128)%N) (escape_cp true c).
Proof.
  assert (forall n, Forall (fun x => (x < 128)%N) (u_escape n)) as Hu.
  { intros n. rw /u_escape /hex. cbn [app].
    assert (forall d, (d < 16)%N -> (hex_digit d < 128)%N) as Hd by (intros d ?; rw /hex_digit; destruct (d <? 10)%N; lia).
    repeat constructor; apply Hd, N.mod_lt; lia. }
  intros Hc. rw /escape_cp. repeat (case_match; [repeat constructor; fail|]).
  destruct (c <? 32)%N; [apply Hu|]. destruct (N.ltb_spec c 127); cbn [negb orb].
  - apply Forall_singleton. lia.
  - destruct (c <? 65536)%N; [apply Hu|]. apply Forall_app. split; apply Hu.
Qed.
Lemma dumps_str_ascii s : text_ok s -> Forall (fun x => (x < 128)%N) (dumps_str true s).
Proof.
  intros Hs. constructor; [done|]. apply Forall_app. split; [|by repeat constructor].
  induction s as [|c s IH]; [constructor|]. destruct Hs as (Hc & _ & Hs). rw bind_cons. apply Forall_app.
  split; [by apply escaped_ascii|by apply IH].
Qed.
Lemma intercalate_all (P : N -> Prop) sep parts :
  Forall P sep -> Forall (Forall P) parts -> Forall P (intercalate sep parts).
Proof.
  intros Hsep. induction 1 as [|p parts Hp Hall IH]; [constructor|]. destruct parts as [|q parts]; [done|].
  rw intercalate_cons. apply Forall_app. split; [done|]. by apply Forall_app.
Qed.
Lemma dumps_ascii item_sep key_sep float_repr v :
  Forall (fun x => (x < 128)%N) item_sep -> Forall (fun x => (x < 128)%N) key_sep -> printable v ->
  Forall (fun x => (x < 128)%N) (dumps_with true item_sep key_sep float_repr v).
Proof.
  intros Hi Hk. induction v as [|b|n|f|s|l IH|o IH] using json_nested; intros Hv.
  - by repeat constructor.
  - by destruct b; repeat constructor.
  - cbn [dumps_with]. eapply Forall_impl; [apply str_of_int_chars|]. intros c [?|[? ?]]; lia.
  - done.
  - by apply dumps_str_ascii.
  - apply printable_arr in Hv. cbn [dumps_with]. constructor; [done|]. apply Forall_app. split; [|by repeat constructor].
    apply intercalate_all; [done|]. rw Forall_forall in IH. rw Forall_forall in Hv. apply Forall_forall.
    intros t (x & <- & Hx%list_elem_of_In)%list_elem_of_In%in_map_iff. by apply IH, Hv.
  - apply printable_obj in Hv as [_ Hv]. cbn [dumps_with]. constructor; [done|]. apply Forall_app.
    split; [|by repeat constructor]. apply intercalate_all; [done|]. rw Forall_forall in IH. rw Forall_forall in Hv.
    apply Forall_forall. intros t ([k x] & <- & Hx%list_elem_of_In)%list_elem_of_In%in_map_iff. destruct (Hv _ Hx) as [Hkey Hval].
    apply Forall_app. split; [by apply dumps_str_ascii|]. apply Forall_app. split; [done|]. by apply (IH (k, x)).
Qed.
