(* ===== verification/Decode.v ===== *)
(** * Decoding UTF-8

    [bytes.decode("utf-8")], strict and with replacement characters, for the names of
    uploads and the replies on the discovery port. *)

From S2P Require Import Prelude PyStr Text Json Sha256 Fingerprint.

(** The bytes a first byte of UTF-8 asks for: the range of the next, and how many more. *)
Definition utf8_need (b : N) : option (N * N * nat) :=
  (if b <? 194 then None
   else if b <? 224 then Some (128, 191, 0%nat)
   else if b =? 224 then Some (160, 191, 1%nat)
   else if b =? 237 then Some (128, 159, 1%nat)
   else if b <? 240 then Some (128, 191, 1%nat)
   else if b =? 240 then Some (144, 191, 2%nat)
   else if b <? 244 then Some (128, 191, 2%nat)
   else if b =? 244 then Some (128, 143, 2%nat)
   else None)%N.
Definition within (lo hi b : N) : bool := ((lo <=? b) && (b <=? hi))%N.
(** The continuation bytes that follow, and what is left of the bytes. *)
Fixpoint continuation (lo hi : N) (more : nat) (l : list N) : list N * bool * list N :=
  match l with
  | b :: l' =>
      if within lo hi b then
        match more with
        | O => ([b], true, l')
        | S k => let '(got, whole, rest) := continuation 128 191 k l' in (b :: got, whole, rest)
        end
      else ([], false, l)
  | [] => ([], false, [])
  end.
(** [bytes.decode("utf-8", "replace")]: U+FFFD for each maximal part that is no character. *)
Fixpoint decode_replace (fuel : nat) (l : list N) : pystr :=
  match fuel, l with
  | S k, b :: l' =>
      if (b <? 128)%N then b :: decode_replace k l'
      else
        match utf8_need b with
        | None => 65533%N :: decode_replace k l'
        | Some (lo, hi, more) =>
            let '(got, whole, rest) := continuation lo hi more l' in
            (if whole : bool then utf8_value (b :: got) else 65533%N) :: decode_replace k rest
        end
  | _, _ => []
  end.

(** [bytes.decode("utf-8")]; [None] is [UnicodeDecodeError]. *)
Fixpoint decode_strict (fuel : nat) (l : list N) : option pystr :=
  match fuel, l with
  | S k, b :: l' =>
      if (b <? 128)%N then cons b <$> decode_strict k l'
      else
        match utf8_need b with
        | None => None
        | Some (lo, hi, more) =>
            match continuation lo hi more l' with
            | (got, true, rest) => cons (utf8_value (b :: got)) <$> decode_strict k rest
            | _ => None
            end
        end
  | _, [] => Some []
  | O, _ => None
  end.
Definition decode (l : list N) : option pystr := decode_strict (length l) l.

(** ASCII is itself. *)
Lemma decode_ascii l : Forall (fun c => (c < 128)%N) l -> decode l = Some l.
Proof.
  rw /decode. induction 1 as [|c l Hc _ IH]; [done|]. cbn [length decode_strict]. by rw (proj2 (N.ltb_lt _ _) Hc) IH.
Qed.
Lemma encode_ascii l : Forall (fun c => (c < 128)%N) l -> utf8_encode l = Some l.
Proof.
  induction 1 as [|c l Hc _ IH]; [done|]. cbn [utf8_encode]. by rw IH /utf8_cp (proj2 (N.ltb_lt _ _) Hc).
Qed.
Example decodes : decode [227; 129; 130; 65]%N = Some [12354; 65]%N /\ decode [237; 160; 128]%N = None.
Proof. vm_compute. done. Qed.
