(* ===== verification/Discovery.v ===== *)
(** * Discovery (server.py)

    The responder of the discovery port, the probe of another server before the start, the
    addresses that are advertised.  The routing table, the interfaces and the clock are
    the environment's. *)

From S2P Require Import Prelude PyStr Text Json Sha256 Fingerprint Reading Decode.
Open Scope Z_scope.

(** ** Addresses *)

(** [info[4][0]] of every entry, or [OSError]. *)
Definition get_local_ip_addresses (getaddrinfo : option (list pystr)) : list pystr :=
  let usable ip := negb (startswith ip (u "127.")) && negb (startswith ip (u "169.254.")) in
  foldl (fun seen ip => if bool_decide (ip ∈ seen) then seen else seen ++ [ip]) []
    (filter (fun ip => usable ip = true) (default [] getaddrinfo)).

(** ** The responder *)

Definition DISCOVERY_REQUEST : list N := u "STYLYMDM_DISCOVER".
(** [bytes.strip()]. *)
Definition byte_ws (b : N) : bool := ((b =? 32) || ((9 <=? b) && (b <=? 13)))%N.

Section Responder.
(** The local address of a socket connected to a peer; [None] is [OSError]. *)
Context (getsockname : pystr -> option pystr).

Definition source_ip_for (peer : pystr) : option pystr :=
  match getsockname peer with
  | Some ip => if negb (bool_decide (ip = [])) && negb (startswith ip (u "127.")) then Some ip else None
  | None => None
  end.
Definition server_ip (ip_addresses : list pystr) (peer : pystr) : pystr :=
  match source_ip_for peer with Some ip => ip | None => default (u "0.0.0.0") (head ip_addresses) end.
Definition reply_value (server_ip : pystr) (ws_port : Z) : json :=
  JObj [(u "service", JStr (u "stylymdm"));
        (u "ws_url", JStr (u "ws://" ++ server_ip ++ u ":" ++ str_of_int ws_port ++ u "/ws/device"));
        (u "version", JStr (u "1.0"))].

(** The datagram that is sent back to the requester's address, when one is; encoding it
    may raise. *)
Definition datagram_received (ws_port : Z) (ip_addresses : list pystr) (data : list N) (addr : pystr)
    : option (option (list N)) :=
  if bool_decide (strip_by byte_ws data = DISCOVERY_REQUEST) then
    Some (utf8_encode (dumps_default (reply_value (server_ip ip_addresses addr) ws_port)))
  else None.
End Responder.

(** ** The probe *)

(** What [recvfrom] gives, and the time before it. *)
Inductive received := Packet (data : list N) (addr : pystr) | TimedOut | SocketError.
Definition is_reply (data : list N) : bool :=
  match decode data with
  | None => false
  | Some text => match loads text with Some (JObj payload) => eq_str (get (u "service") payload) (u "stylymdm") | _ => false end
  end.
(** No more packets is a time-out. *)
Fixpoint listen (deadline : Z) (arrivals : list (Z * received)) : option pystr :=
  match arrivals with
  | [] => None
  | (now, r) :: rest =>
      if deadline - now <=? 0 then None
      else
        match r with
        | Packet data addr => if is_reply (take 1024 data) then Some addr else listen deadline rest
        | TimedOut | SocketError => None
        end
  end.
(** [opened] says whether the socket could be made and the request sent. *)
Definition probe_existing_server (opened : bool) (start timeout : Z) (arrivals : list (Z * received)) : option pystr :=
  if opened then listen (start + timeout) arrivals else None.

(** ** What is advertised *)

Lemma fromkeys_spec l seen :
  NoDup seen ->
  NoDup (foldl (fun seen ip => if bool_decide (ip ∈ seen) then seen else seen ++ [ip]) seen l) /\
  forall x : pystr, x ∈ foldl (fun seen ip => if bool_decide (ip ∈ seen) then seen else seen ++ [ip]) seen l <-> x ∈ seen \/ x ∈ l.
Proof.
  induction l as [|ip l IH] in seen |- *; cbn [foldl]; intros Hnd; [set_solver|]. case_bool_decide as Hin.
  - destruct (IH seen Hnd) as [? Hx]. split; [done|]. intros x. rw Hx. set_solver.
  - destruct (IH (seen ++ [ip])) as [? Hx].
    { apply NoDup_app. split_and!; [done|set_solver|apply NoDup_singleton]. }
    split; [done|]. intros x. rw Hx. set_solver.
Qed.

(** The addresses that are advertised are those of the interfaces, once each, without
    loopback and self-assigned ones; what a device is answered is never a loopback
    address: it is the address that faces it, else the first of these, else 0.0.0.0. *)
Theorem advertised_addresses_are_usable getsockname getaddrinfo peer :
  let addresses := get_local_ip_addresses getaddrinfo in
  NoDup addresses /\
  (forall ip, ip ∈ addresses <-> ip ∈ default [] getaddrinfo /\
     startswith ip (u "127.") = false /\ startswith ip (u "169.254.") = false) /\
  startswith (server_ip getsockname addresses peer) (u "127.") = false.
Proof.
  intros addresses. rw /addresses /get_local_ip_addresses.
  set (l := filter _ (default [] getaddrinfo)). destruct (fromkeys_spec l []) as [Hnd Hin]; [constructor|].
  set (kept := foldl _ [] l) in *.
  assert (forall ip, ip ∈ kept <-> ip ∈ default [] getaddrinfo /\
     startswith ip (u "127.") = false /\ startswith ip (u "169.254.") = false) as Hkept.
  { intros ip. rw Hin /l list_elem_of_filter andb_true_iff !negb_true_iff. set_solver. }
  split_and!; [done|done|]. rw /server_ip /source_ip_for.
  destruct (match getsockname peer with Some ip => _ | None => None end) as [ip|] eqn:E.
  - destruct (getsockname peer) as [ip'|]; [|done].
    destruct (negb (bool_decide _) && _) eqn:E2; [|done]. injection E as ->.
    by apply andb_true_iff in E2 as [_ ?%negb_true_iff].
  - destruct kept as [|ip rest] eqn:Ek; [done|]. cbn. apply (proj1 (Hkept ip)). left.
Qed.

(** ** Servers recognise each other *)

Lemma ascii_text s : Forall (fun c => (c < 128)%N) s -> text_ok s.
Proof.
  induction 1 as [|c s Hc _ IH]; [done|]. split_and!; [lia| |done]. intros Hh. exfalso. revert Hh.
  rw /high_surrogate andb_true_iff !N.leb_le. lia.
Qed.
Lemma ascii_const s : forallb (fun c => (c <? 128)%N) s = true -> Forall (fun c => (c < 128)%N) s.
Proof. intros Hs. apply Forall_forall. intros c Hc. apply N.ltb_lt. rw forallb_forall in Hs. by apply Hs, list_elem_of_In. Qed.
Lemma reply_printable ip port : Forall (fun c => (c < 128)%N) ip -> printable (reply_value ip port).
Proof.
  intros Hip. apply printable_obj. split; [by apply (bool_decide_eq_true_1 _)|].
  assert (Forall (fun c => (c < 128)%N) (str_of_int port)) as Hport.
  { eapply Forall_impl; [apply str_of_int_chars|]. intros c [?|[? ?]]; lia. }
  assert (forall s, forallb (fun c => (c <? 128)%N) s = true -> text_ok s) as Hconst by (intros; by apply ascii_text, ascii_const).
  apply Forall_cons. split; [split; by apply Hconst|]. apply Forall_cons. split; [|apply Forall_singleton; split; by apply Hconst].
  split; [by apply Hconst|]. apply ascii_text. rw !Forall_app. split_and!; try done; by apply ascii_const.
Qed.

Lemma listen_finds deadline strays now data addr rest :
  Forall (fun tr => tr.1 < deadline /\ exists d a, tr.2 = Packet d a /\ is_reply (take 1024 d) = false) strays ->
  now < deadline -> is_reply (take 1024 data) = true ->
  listen deadline (strays ++ (now, Packet data addr) :: rest) = Some addr.
Proof.
  intros Hs Hnow Hd. induction Hs as [|[t r] strays (Ht & d & a & Hr & Hno) _ IH]; cbn [app listen].
  - destruct (Z.leb_spec (deadline - now) 0); [lia|]. by rw Hd.
  - simpl in Ht, Hr. subst r. destruct (Z.leb_spec (deadline - t) 0); [lia|]. by rw Hno.
Qed.

(** A server that runs is found: it answers a request, blanks around it or not, with a
    reply that the probe of another server reads as one, and stray packets on the port
    before it do not hide it, whatever they are, as long as it comes in time and fits the
    probe's buffer. *)
Theorem probe_finds_servers getsockname ip_addresses ws_port request peer :
  strip_by byte_ws request = DISCOVERY_REQUEST ->
  Forall (fun c => (c < 128)%N) (server_ip getsockname ip_addresses peer) ->
  exists reply, datagram_received getsockname ws_port ip_addresses request peer = Some (Some reply) /\
    forall strays now addr rest start timeout, (length reply <= 1024)%nat -> now < start + timeout ->
    Forall (fun tr => tr.1 < start + timeout /\ exists d a, tr.2 = Packet d a /\ is_reply (take 1024 d) = false) strays ->
    probe_existing_server true start timeout (strays ++ (now, Packet reply addr) :: rest) = Some addr.
Proof.
  intros Hreq Hip. rw /datagram_received bool_decide_eq_true_2 //.
  set (value := reply_value _ ws_port). pose proof (reply_printable _ ws_port Hip) as Hv. rw -/value in Hv.
  assert (Forall (fun c => (c < 128)%N) (dumps_default value)) as Hascii by (apply dumps_ascii; [by repeat constructor..|done]).
  exists (dumps_default value). split; [by rw encode_ascii|]. intros strays now addr rest start timeout Hlen Hnow Hs.
  rw /probe_existing_server. apply listen_finds; [done|done|]. rw take_ge // /is_reply decode_ascii // loads_dumps_default //.
Qed.
Lemma probe_finds_servers_witness :
  let answer := datagram_received (fun _ => Some (u "192.168.1.5")) 7070 [] (u "STYLYMDM_DISCOVER" ++ [10%N]) (u "192.168.1.9") in
  exists reply, answer = Some (Some reply) /\
    probe_existing_server true 0 1000 [(1, Packet (u "hello") (u "192.168.1.7")); (2, Packet reply (u "192.168.1.5"))] =
      Some (u "192.168.1.5").
Proof.
  intros answer.
  destruct (probe_finds_servers (fun _ => Some (u "192.168.1.5")) [] 7070 (u "STYLYMDM_DISCOVER" ++ [10%N]) (u "192.168.1.9"))
    as (reply & Hr & Hprobe); [vm_compute; reflexivity|by apply ascii_const|].
  exists reply. refine (conj Hr (Hprobe [(1, Packet (u "hello") (u "192.168.1.7"))] 2 _ [] 0 1000 _ _ _)).
  - assert (Some (Some reply) = Some (Some (default [] (default None answer)))) as [= ->] by by rw -Hr.
    apply (bool_decide_eq_true_1 _). vm_compute. reflexivity.
  - lia.
  - apply Forall_singleton. split; [simpl; lia|]. do 2 eexists. split; [reflexivity|vm_compute; reflexivity].
Defined.

(** A server is reported only for a packet that came in time and says it is one. *)
Lemma probe_reports_replies opened start timeout arrivals addr :
  probe_existing_server opened start timeout arrivals = Some addr ->
  exists now data, (now, Packet data addr) ∈ arrivals /\ now < start + timeout /\ is_reply (take 1024 data) = true.
Proof.
  rw /probe_existing_server. destruct opened; [|done]. induction arrivals as [|[now r] arrivals IH]; [done|]. cbn [listen].
  destruct (Z.leb_spec (start + timeout - now) 0); [done|]. destruct r as [data a| |]; try done.
  destruct (is_reply _) eqn:E; [intros [= ->]|intros (t & d & Hin & ? & ?)%IH].
  - exists now, data. split_and!; [left|lia|done].
  - exists t, d. split_and!; [by right|done|done].
Qed.
