(* ===== verification/Integrity.v ===== *)
(** * APK digests (integrity.py)

    The End Of Central Directory record of an archive, the digest of the directory and the
    digest of a whole file.  A file is the list of its bytes, numbers below 256; the
    content does not change while it is read. *)

From S2P Require Import Prelude PyStr Json Sha256.
Open Scope Z_scope.

Definition file := list N.
Definition is_byte (b : N) : Prop := (b < 256)%N.

(** ** Little-endian integers: [struct.unpack_from("<H")], [("<I")] *)

Fixpoint le_combine (l : file) : N :=
  match l with [] => 0%N | b :: l' => (b + 256 * le_combine l')%N end.
Fixpoint le_split (n : nat) (w : N) : file :=
  match n with O => [] | S n' => (w mod 256)%N :: le_split n' (w / 256)%N end.
Definition unpack_from (width off : nat) (buffer : file) : N := le_combine (take width (drop off buffer)).

(** ** The End Of Central Directory record *)

Definition EOCD_SIGNATURE : file := [80; 75; 5; 6]%N.
Definition MAX_EOCD_COMMENT : nat := Z.to_nat 65535.
Definition EOCD_MIN_SIZE : nat := 22.
Definition ZIP64_SENTINEL : N := 4294967295.
Definition _CHUNK : nat := Z.to_nat 1048576.

Inductive zip_error := EocdNotFound | Zip64UnsupportedError.

Section Eocd.
Context (tail : file) (file_len tail_start : nat).

(** The test of one position: the signature, and a comment that ends with the file. *)
Definition eocd_at (i : nat) : bool :=
  bool_decide (take 4 (drop i tail) = EOCD_SIGNATURE) &&
  bool_decide (N.of_nat (tail_start + i + EOCD_MIN_SIZE) + unpack_from 2 (i + 20) tail = N.of_nat file_len)%N.
(** [for i in range(n - 1, -1, -1)]. *)
Fixpoint scan_back (n : nat) : outcome zip_error nat :=
  match n with
  | O => Raise EocdNotFound
  | S i => if eocd_at i then Ret (tail_start + i)%nat else scan_back i
  end.
Definition _find_eocd : outcome zip_error nat := scan_back (length tail + 1 - EOCD_MIN_SIZE).
End Eocd.

(** ** Digests *)

(** [h.update(f.read(size))] until a read is empty: [h] is what the hash object has been
    fed. *)
Fixpoint update_all (size turns : nat) (rest h : file) : file :=
  match turns with
  | O => h
  | S k => match take size rest with [] => h | chunk => update_all size k (drop size rest) (h ++ chunk) end
  end.
Definition hash_stream (rest : file) : pystr := sha256_hex (update_all _CHUNK (S (length rest)) rest []).
(** [f.seek(offset)], possibly past the end. *)
Definition seek (off : N) (f : file) : file := if (N.of_nat (length f) <=? off)%N then [] else drop (N.to_nat off) f.

Definition apk_cd_digest (f : file) : outcome zip_error (Z * pystr) :=
  let file_len := length f in
  let read_len := (file_len `min` (EOCD_MIN_SIZE + MAX_EOCD_COMMENT))%nat in
  let tail_start := (file_len - read_len)%nat in
  let tail := take read_len (drop tail_start f) in
  eocd ← _find_eocd tail file_len tail_start;
  let eocd_off := (eocd - tail_start)%nat in
  let cd_offset := unpack_from 4 (eocd_off + 16) tail in
  if bool_decide (cd_offset = ZIP64_SENTINEL) then Raise Zip64UnsupportedError
  else Ret (Z.of_nat file_len, hash_stream (seek cd_offset f)).

Definition file_sha256 (f : file) : pystr := hash_stream f.

(** ** Facts *)

Lemma filter_none {A} (P : A -> Prop) `{forall x, Decision (P x)} l : Forall (fun x => ~ P x) l -> filter P l = [].
Proof. induction 1 as [|x l Hx Hl IH]; [done|]. by rw filter_cons decide_False. Qed.

Lemma le_combine_bound l : Forall is_byte l -> (le_combine l < 256 ^ N.of_nat (length l))%N.
Proof.
  induction 1 as [|b l Hb Hl IH]; [done|]. rw /is_byte in Hb. cbn [le_combine length].
  rw Nat2N.inj_succ N.pow_succ_r'. nia.
Qed.
Lemma le_combine_split n w : (w < 256 ^ N.of_nat n)%N -> le_combine (le_split n w) = w.
Proof.
  revert w. induction n as [|n IH]; intros w.
  - simpl. lia.
  - rw Nat2N.inj_succ N.pow_succ_r'. intros Hw. cbn [le_split le_combine].
    rw IH; [|by apply N.Div0.div_lt_upper_bound]. pose proof (N.div_mod w 256). lia.
Qed.
Lemma le_split_length n w : length (le_split n w) = n.
Proof. revert w. induction n as [|n IH]; intros w; simpl; [done|]. by rw IH. Qed.

Lemma unpack_here a w v b : (v < 256 ^ N.of_nat w)%N -> unpack_from w (length a) (a ++ le_split w v ++ b) = v.
Proof.
  intros Hv. rw /unpack_from drop_app_length -{1}(le_split_length w v) take_app_length. by apply le_combine_split.
Qed.

Lemma update_all_spec size turns rest h :
  (0 < size)%nat -> (length rest < turns)%nat -> update_all size turns rest h = h ++ rest.
Proof.
  intros Hs. revert rest h. induction turns as [|turns IH]; intros rest h Hl; [lia|]. cbn [update_all].
  destruct rest as [|b rest]; [by rw take_nil app_nil_r|]. simpl in Hl.
  destruct size as [|size]; [lia|]. cbn [take]. rw IH; [|rw length_drop /=; lia].
  by rw -app_assoc /= take_drop.
Qed.
Lemma hash_stream_spec f : hash_stream f = sha256_hex f.
Proof. rw /hash_stream update_all_spec //; [rw /_CHUNK; lia|lia]. Qed.

(** ** The record that is found *)

Lemma scan_back_from tail F ts n p : scan_back tail F ts (n + p) =
  match last (filter (fun i => eocd_at tail F ts i = true) (seq p n)) with
  | Some i => Ret (ts + i)%nat
  | None => scan_back tail F ts p
  end.
Proof.
  induction n as [|n IH]; [done|]. cbn [Nat.add scan_back].
  rw seq_S filter_app last_app filter_cons filter_nil (Nat.add_comm p n).
  case_decide as E; [by rw E|]. by apply not_true_is_false in E as ->.
Qed.
Lemma scan_back_spec tail F ts n : scan_back tail F ts n =
  match last (filter (fun i => eocd_at tail F ts i = true) (seq 0 n)) with
  | Some i => Ret (ts + i)%nat
  | None => Raise EocdNotFound
  end.
Proof. rw -{1}(Nat.add_0_r n) scan_back_from //. Qed.

Lemma unpack_drop w off ts f : unpack_from w off (drop ts f) = unpack_from w (ts + off) f.
Proof. by rw /unpack_from drop_drop. Qed.
Lemma eocd_at_window f F ts i : eocd_at (drop ts f) F ts i = eocd_at f F 0 (ts + i).
Proof. rw /eocd_at unpack_drop drop_drop /=. by rw Nat.add_assoc. Qed.
Lemma unpack_2_bound off f : Forall is_byte f -> (unpack_from 2 off f <= 65535)%N.
Proof.
  intros Hf. assert (Forall is_byte (take 2 (drop off f))) as Hb by by apply Forall_take, Forall_drop.
  pose proof (le_combine_bound _ Hb). assert (length (take 2 (drop off f)) <= 2)%nat by (rw length_take; lia).
  rw /unpack_from. assert (256 ^ N.of_nat (length (take 2 (drop off f))) <= 256 ^ 2)%N; [apply N.pow_le_mono_r; lia|lia].
Qed.

(** The last bytes a record can begin in. *)
Definition window (f : file) : nat := (length f `min` (EOCD_MIN_SIZE + MAX_EOCD_COMMENT))%nat.
(** Before the window there is no record: its comment would be too long. *)
Lemma nothing_before_window f j :
  Forall is_byte f -> (j < length f - window f)%nat -> eocd_at f (length f) 0 j = false.
Proof.
  intros Hf Hj. rw /eocd_at. apply andb_false_intro2, bool_decide_eq_false_2.
  pose proof (unpack_2_bound (j + 20) f Hf). rw /window /EOCD_MIN_SIZE /MAX_EOCD_COMMENT in Hj |- *. lia.
Qed.
Lemma scan_window f :
  Forall is_byte f ->
  _find_eocd (drop (length f - window f) f) (length f) (length f - window f) = _find_eocd f (length f) 0.
Proof.
  intros Hf. rw /_find_eocd length_drop. set (ts := (length f - window f)%nat).
  assert (forall n, scan_back f (length f) 0 (ts + n) = scan_back (drop ts f) (length f) ts n) as Hn.
  { induction n as [|n IH]; cbn [scan_back].
    - rw Nat.add_0_r scan_back_spec. destruct (last _) as [i|] eqn:E; [|done].
      apply last_Some_elem_of, list_elem_of_filter in E as [Ei Hi%elem_of_seq].
      rw nothing_before_window // in Ei. rw -/ts. lia.
    - rw Nat.add_succ_r. cbn [scan_back]. rw eocd_at_window IH. by case_match. }
  rw -Hn. f_equal. rw /ts /window /EOCD_MIN_SIZE /MAX_EOCD_COMMENT. lia.
Qed.

(** ** What the digest is of *)

(** The digest as it is specified: of the whole file, the last record that ends with the
    file gives the place where the directory begins. *)
Definition directory_digest (f : file) : outcome zip_error (Z * pystr) :=
  match last (filter (fun i => eocd_at f (length f) 0 i = true) (seq 0 (length f + 1 - EOCD_MIN_SIZE))) with
  | None => Raise EocdNotFound
  | Some eocd =>
      let cd_offset := unpack_from 4 (eocd + 16) f in
      if bool_decide (cd_offset = ZIP64_SENTINEL) then Raise Zip64UnsupportedError
      else Ret (Z.of_nat (length f), sha256_hex (seek cd_offset f))
  end.

(** C15: The digest of an archive is the one specified on the whole file, although only the
    end of the file is searched and the rest is read in pieces: the last 65557 bytes hold
    every record there can be, and an archive without one, or with a ZIP64 directory, is
    refused. *)
Theorem digest_is_as_specified f : Forall is_byte f -> apk_cd_digest f = directory_digest f.
Proof.
  intros Hf. rw /apk_cd_digest /directory_digest. fold (window f).
  set (ts := (length f - window f)%nat).
  assert (take (window f) (drop ts f) = drop ts f) as ->.
  { apply take_ge. rw length_drop /ts /window. lia. }
  rw (scan_window f Hf) /_find_eocd scan_back_spec.
  destruct (last _) as [eocd|] eqn:E; [|done]. cbn [mbind outcome_bind].
  apply last_Some_elem_of, list_elem_of_filter in E as [Ee _].
  assert (ts <= eocd)%nat as Hts.
  { destruct (decide (eocd < ts)%nat); [|lia]. by rw nothing_before_window // in Ee. }
  rw unpack_drop hash_stream_spec. by replace (ts + (0 + eocd - ts + 16))%nat with (eocd + 16)%nat by lia.
Qed.

(** A record with the fields that are read: where the directory begins, how long the
    comment is. *)
Definition eocd_record (fields : file) (cd_offset : N) (comment : file) : file :=
  EOCD_SIGNATURE ++ fields ++ le_split 4 cd_offset ++ le_split 2 (N.of_nat (length comment)) ++ comment.

Section Record.
Context (before fields comment : file) (cd_offset : N).
Context (Hfields : length fields = 12%nat) (Hcomment : (length comment <= MAX_EOCD_COMMENT)%nat).
Context (Hoffset : (cd_offset < 2 ^ 32)%N).
Abbreviation archive := (before ++ eocd_record fields cd_offset comment).

Lemma record_length : length (eocd_record fields cd_offset comment) = (EOCD_MIN_SIZE + length comment)%nat.
Proof using Hfields. rw /eocd_record !length_app !le_split_length Hfields /EOCD_MIN_SIZE /=. clear. lia. Qed.
Lemma record_offset : unpack_from 4 (length before + 16) archive = cd_offset.
Proof using Hfields Hoffset.
  assert (archive = (before ++ EOCD_SIGNATURE ++ fields) ++ le_split 4 cd_offset ++
            le_split 2 (N.of_nat (length comment)) ++ comment) as -> by (rw /eocd_record -!app_assoc //).
  replace (length before + 16)%nat with (length (before ++ EOCD_SIGNATURE ++ fields)) by (rw !length_app Hfields //).
  by apply unpack_here.
Qed.
Lemma record_comment : unpack_from 2 (length before + 20) archive = N.of_nat (length comment).
Proof using Hfields Hcomment.
  assert (archive = (before ++ EOCD_SIGNATURE ++ fields ++ le_split 4 cd_offset) ++
            le_split 2 (N.of_nat (length comment)) ++ comment) as -> by (rw /eocd_record -!app_assoc //).
  replace (length before + 20)%nat with (length (before ++ EOCD_SIGNATURE ++ fields ++ le_split 4 cd_offset)).
  - apply unpack_here. generalize Hcomment. clear. rw /MAX_EOCD_COMMENT /=. lia.
  - rw !length_app le_split_length Hfields //.
Qed.
Lemma record_found : eocd_at archive (length archive) 0 (length before) = true.
Proof using Hfields Hcomment.
  rw /eocd_at record_comment. apply andb_true_intro. split; apply bool_decide_eq_true_2.
  - by rw drop_app_length /eocd_record.
  - rw length_app record_length. clear. lia.
Qed.
End Record.

(** The digest of an archive made of entries, a directory and an end record covers the
    directory and the record: everything from the place the record names to the end of the
    file.  A comment may hold the signature of a record, as long as it does not look like a
    record that ends with the file. *)
Theorem digest_covers_the_directory entries directory fields comment :
  let record := eocd_record fields (N.of_nat (length entries)) comment in
  let archive := entries ++ directory ++ record in
  Forall is_byte archive -> length fields = 12%nat -> (length comment <= MAX_EOCD_COMMENT)%nat ->
  (N.of_nat (length entries) < ZIP64_SENTINEL)%N ->
  (forall i, (length entries + length directory < i)%nat -> (i + EOCD_MIN_SIZE <= length archive)%nat ->
     eocd_at archive (length archive) 0 i = false) ->
  apk_cd_digest archive = Ret (Z.of_nat (length archive), sha256_hex (directory ++ record)).
Proof.
  intros record archive Hb Hf Hc Ho Hlast. rw /ZIP64_SENTINEL in Ho. rw digest_is_as_specified // /directory_digest.
  set (e := length (entries ++ directory)).
  assert (archive = (entries ++ directory) ++ record) as Ea by rw -app_assoc //.
  assert (eocd_at archive (length archive) 0 e = true) as He.
  { rw Ea. by apply (record_found (entries ++ directory) fields comment). }
  assert (length archive = e + EOCD_MIN_SIZE + length comment)%nat as El.
  { rw Ea length_app (record_length fields comment (N.of_nat (length entries)) Hf) /e. lia. }
  assert (filter (fun i => eocd_at archive (length archive) 0 i = true) (seq 0 (length archive + 1 - EOCD_MIN_SIZE)) =
    filter (fun i => eocd_at archive (length archive) 0 i = true) (seq 0 e) ++ [e]) as ->.
  { replace (length archive + 1 - EOCD_MIN_SIZE)%nat with (e + S (length comment))%nat by lia.
    rw seq_app filter_app. f_equal. simpl. rw filter_cons decide_True //. f_equal.
    apply filter_none, Forall_forall. intros i Hi%elem_of_seq. apply not_true_iff_false, Hlast.
    - rw /e length_app in Hi. lia.
    - lia. }
  rw last_app /= Ea record_offset //; [|lia]. rw bool_decide_eq_false_2; [|rw /ZIP64_SENTINEL; lia].
  do 2 f_equal. rw -app_assoc /seek. assert (length (entries ++ directory ++ record) = length archive) as -> by done.
  destruct (N.leb_spec (N.of_nat (length archive)) (N.of_nat (length entries))) as [Hle|_].
  - exfalso. rw El /e length_app /EOCD_MIN_SIZE in Hle. lia.
  - by rw Nat2N.id drop_app_length.
Qed.

(** ** Witnesses *)

(** An archive whose comment holds the signature of a record. *)
Definition sample_directory : file := [80; 75; 1; 2; 9; 9]%N.
Definition sample_fields : file := [0; 0; 0; 0; 1; 0; 1; 0; 6; 0; 0; 0]%N.
Definition sample_comment : file := EOCD_SIGNATURE ++ replicate 20 7%N.
Definition sample_archive : file :=
  [80; 75; 3; 4; 1]%N ++ sample_directory ++ eocd_record sample_fields 5 sample_comment.
Lemma sample_bytes : Forall is_byte sample_archive.
Proof. repeat constructor. Qed.

Lemma digest_is_as_specified_witness :
  apk_cd_digest sample_archive = Ret (57, sha256_hex (drop 5 sample_archive)) /\
  apk_cd_digest sample_archive = directory_digest sample_archive.
Proof. split; [vm_compute; reflexivity|]. apply (digest_is_as_specified sample_archive), sample_bytes. Defined.
Lemma digest_covers_the_directory_witness :
  apk_cd_digest sample_archive =
    Ret (57, sha256_hex (sample_directory ++ eocd_record sample_fields 5 sample_comment)).
Proof.
  apply (digest_covers_the_directory [80; 75; 3; 4; 1]%N sample_directory sample_fields sample_comment).
  - apply sample_bytes.
  - reflexivity.
  - rw /MAX_EOCD_COMMENT. simpl length. lia.
  - reflexivity.
  - intros i Hi Hl. assert (11 < i <= 35)%nat as [H1 H2] by (revert Hi Hl; rw /EOCD_MIN_SIZE; simpl length; lia).
    do 36 (destruct i as [|i]; [first [lia | vm_compute; reflexivity]|]). lia.
Defined.

(** An empty file, and one whose directory is said to be elsewhere. *)
Example no_record : apk_cd_digest [1; 2; 3]%N = Raise EocdNotFound.
Proof. vm_compute. reflexivity. Qed.
Example zip64_refused : apk_cd_digest (eocd_record sample_fields ZIP64_SENTINEL []) = Raise Zip64UnsupportedError.
Proof. vm_compute. reflexivity. Qed.
