(* ===== verification/Manifest.v ===== *)
(** * Directory manifests (integrity.py)

    [_iter_files] and [dir_manifest]: the files of a tree without the metadata of operating
    systems, sorted by the bytes of their paths, and the hash of the listing. *)

From S2P Require Import Prelude PyStr Text Json Sha256 Requests Fingerprint Paths Integrity.
Open Scope Z_scope.

(** ** Trees *)

(** What [os.walk] finds: regular files, symbolic links, directories in the order the
    system lists them. *)
Inductive node :=
  | Regular (content : file)
  | Symlink
  | Directory (entries : list (pystr * node)).

Definition file_entry (dir : list pystr) (e : pystr * node) : option (list pystr * file) :=
  match e.2 with Regular content => Some (dir ++ [e.1], content) | _ => None end.
(** The files of a directory, then those of its subdirectories; links are not followed. *)
Fixpoint walk (dir : list pystr) (n : node) : list (list pystr * file) :=
  match n with
  | Directory entries =>
      omap (file_entry dir) entries ++
      (fix below (l : list (pystr * node)) : list (list pystr * file) :=
         match l with
         | [] => []
         | (name, n) :: l' => walk (dir ++ [name]) n ++ below l'
         end) entries
  | _ => []
  end.

(** [_iter_files]: the files that count and the paths that were left out. *)
Definition relative (f : list pystr * file) : pystr * file := (join_with slash f.1, f.2).
Definition _iter_files (root : node) : list (pystr * file) * list pystr :=
  let files := relative <$> walk [] root in
  (filter (fun f => is_os_metadata f.1 = false) files,
   (filter (fun f => is_os_metadata f.1 = true) files).*1).

(** ** The manifest *)

Record manifest_entry := ManifestEntry { relative_path : pystr; size : Z; sha256 : pystr }.
Record manifest_result := ManifestResult {
  tree_hash : pystr;
  file_count : Z;
  total_size : Z;
  excluded_count : Z;
  manifest : option (list manifest_entry);
}.
Inductive walk_error := UnicodeEncodeError.

Definition entry_of (f : pystr * file) : manifest_entry :=
  ManifestEntry f.1 (Z.of_nat (length f.2)) (file_sha256 f.2).
(** [entries.sort(key=lambda e: e["relative_path"].encode("utf-8"))]: all keys first. *)
Definition byte_key (e : manifest_entry) : outcome walk_error (list N * manifest_entry) :=
  key ← outcome_of UnicodeEncodeError (utf8_encode (relative_path e)); mret (key, e).
Definition byte_le (a b : list N * manifest_entry) : Prop := str_le a.1 b.1.
#[export] Instance byte_le_dec : RelDecision byte_le := fun a b => str_le_dec a.1 b.1.
Definition sort_entries (entries : list manifest_entry) : outcome walk_error (list manifest_entry) :=
  keyed ← mapM byte_key entries; mret (merge_sort byte_le keyed).*2.

Definition line (e : manifest_entry) : pystr :=
  relative_path e ++ [10%N] ++ str_of_int (size e) ++ [10%N] ++ sha256 e ++ [10%N].
(** The bytes the hash is fed, line by line. *)
Fixpoint hash_lines (entries : list manifest_entry) (h : list N) : outcome walk_error (list N) :=
  match entries with
  | [] => mret h
  | e :: entries' =>
      bytes ← outcome_of UnicodeEncodeError (utf8_encode (line e)); hash_lines entries' (h ++ bytes)
  end.

Definition dir_manifest (root : node) (manifest_entry_cap : option Z) : outcome walk_error manifest_result :=
  let '(files, excluded) := _iter_files root in
  entries ← sort_entries (entry_of <$> files);
  h ← hash_lines entries [];
  let file_count := Z.of_nat (length entries) in
  let listed := match manifest_entry_cap with None => true | Some cap => file_count <=? cap end in
  mret (ManifestResult (sha256_hex h) file_count (sum_of (size <$> entries)) (Z.of_nat (length excluded))
          (if listed : bool then Some entries else None)).

(** ** The command line: [run_hash_cli] *)

Definition entry_json (e : manifest_entry) : json :=
  JObj [(u "relative_path", JStr (relative_path e)); (u "size", JInt (size e)); (u "sha256", JStr (sha256 e))].
Definition result_json (r : manifest_result) : json :=
  JObj ([(u "tree_hash", JStr (tree_hash r)); (u "file_count", JInt (file_count r));
         (u "total_size", JInt (total_size r)); (u "excluded_count", JInt (excluded_count r))] ++
        match manifest r with Some l => [(u "manifest", JArr (entry_json <$> l))] | None => [] end).

(** What the path is; the exit status, and what is printed on either stream. *)
Inductive hash_target := ADirectory (root : node) | AFile (content : file) | Nothing.
Record hash_exit := HashExit { status : Z; stdout : option json; stderr : option pystr }.
Definition run_hash_cli (path : pystr) (target : hash_target) (manifest_cap : option Z) : outcome walk_error hash_exit :=
  match target with
  | ADirectory root => r ← dir_manifest root manifest_cap; mret (HashExit 0 (Some (result_json r)) None)
  | AFile content =>
      mret match apk_cd_digest content with
           | Ret (size, cd_sha256) =>
               HashExit 0 (Some (JObj [(u "size", JInt size); (u "cd_sha256", JStr cd_sha256)])) None
           | Raise Zip64UnsupportedError => HashExit 1 None (Some (u "error: zip64 archives are not supported"))
           | Raise EocdNotFound => HashExit 1 None (Some (u "error: End Of Central Directory record not found"))
           end
  | Nothing => mret (HashExit 1 None (Some (u "error: no such file or directory: " ++ path)))
  end.

(** ** Trees as systems have them *)

(** A name of a directory entry: not empty, without a slash. *)
Definition entry_name (name : pystr) : Prop := name <> [] /\ slash ∉ name.
Inductive tidy : node -> Prop :=
  | tidy_file content : tidy (Regular content)
  | tidy_link : tidy Symlink
  | tidy_directory entries :
      NoDup entries.*1 -> (forall name n, (name, n) ∈ entries -> entry_name name) ->
      (forall name n, (name, n) ∈ entries -> tidy n) -> tidy (Directory entries).

(** The same tree, listed in another order. *)
Inductive relisted : node -> node -> Prop :=
  | relisted_refl n : relisted n n
  | relisted_trans n1 n2 n3 : relisted n1 n2 -> relisted n2 n3 -> relisted n1 n3
  | relisted_order entries entries' : entries ≡ₚ entries' -> relisted (Directory entries) (Directory entries')
  | relisted_inside before name n n' after :
      relisted n n' -> relisted (Directory (before ++ (name, n) :: after)) (Directory (before ++ (name, n') :: after)).

Lemma walk_directory dir entries :
  walk dir (Directory entries) = omap (file_entry dir) entries ++ (entries ≫= fun e => walk (dir ++ [e.1]) e.2).
Proof. cbn [walk]. f_equal. induction entries as [|[name n] entries IH]; [done|]. by rw IH. Qed.

Lemma file_entry_relisted dir name n n' : relisted n n' -> file_entry dir (name, n) = file_entry dir (name, n').
Proof. induction 1 as [| ? ? ? _ IH1 _ IH2| |]; [done|by rw IH1|done|done]. Qed.
Lemma walk_relisted n n' dir : relisted n n' -> walk dir n ≡ₚ walk dir n'.
Proof.
  intros Hr. revert dir. induction Hr as [n|n1 n2 n3 _ IH1 _ IH2|es es' Hp|before name n n' after Hn IH]; intros dir.
  - done.
  - by rw IH1.
  - rw !walk_directory. by rw Hp.
  - assert (forall m, omap (file_entry dir) ((name, m) :: after) =
      match file_entry dir (name, m) with Some y => [y] | None => [] end ++ omap (file_entry dir) after) as Hcons.
    { intros m. cbn [omap list_omap]. by destruct (file_entry dir (name, m)). }
    rw !walk_directory !omap_app !bind_app !bind_cons !Hcons /=. rw (file_entry_relisted dir name n n' Hn). by rw IH.
Qed.

(** ** Paths of a tidy tree *)

Lemma walk_below dir n path content :
  (path, content) ∈ walk dir n -> tidy n -> exists names, path = dir ++ names /\ names <> [] /\ Forall entry_name names.
Proof.
  intros Hin Ht. revert dir Hin. induction Ht as [c| |entries Hn Hnames _ IH]; intros dir; try by intros ?%elem_of_nil.
  rw walk_directory elem_of_app. intros [Hin|Hin].
  - apply list_elem_of_omap in Hin as ([name n] & Hin & Heq). destruct n as [c| |es]; [injection Heq as <- <-|done|done].
    exists [name]. split_and!; [done..|]. apply Forall_singleton. by eapply Hnames.
  - apply list_elem_of_bind in Hin as ([name n] & Hw & Hin). simpl in Hw.
    destruct (IH name n Hin (dir ++ [name]) Hw) as (names & -> & _ & Hall).
    exists (name :: names). split_and!; [by rw -app_assoc|done|]. constructor; [by eapply Hnames|done].
Qed.
Lemma file_paths dir entries p :
  p ∈ (omap (file_entry dir) entries).*1 -> exists name, name ∈ entries.*1 /\ p = dir ++ [name].
Proof.
  intros ([q c] & -> & ([name n] & Hin & Heq)%list_elem_of_omap)%list_elem_of_fmap.
  destruct n as [c'| |es]; [injection Heq as <- <-|done|done].
  exists name. split; [|done]. apply list_elem_of_fmap. by exists (name, Regular c').
Qed.
Lemma below_paths dir entries p :
  (forall name n, (name, n) ∈ entries -> tidy n) -> p ∈ (entries ≫= fun e => walk (dir ++ [e.1]) e.2).*1 ->
  exists name names, name ∈ entries.*1 /\ names <> [] /\ p = dir ++ name :: names.
Proof.
  intros Ht ([q c] & -> & ([name n] & Hw & Hin)%list_elem_of_bind)%list_elem_of_fmap.
  destruct (walk_below _ _ _ _ Hw (Ht _ _ Hin)) as (names & Hq & Hne & _). exists name, names.
  simpl in Hq. rw -app_assoc in Hq. split_and!; [|done|done]. apply list_elem_of_fmap. by exists (name, n).
Qed.
Lemma walk_unique dir n : tidy n -> NoDup (walk dir n).*1.
Proof.
  intros Ht. revert dir. induction Ht as [c| |entries Hn Hnames Ht IH]; intros dir; try by constructor.
  rw walk_directory fmap_app. apply NoDup_app. split_and!.
  - clear Hnames Ht IH. induction entries as [|[name n] entries IHe]; [constructor|].
    apply NoDup_cons in Hn as [Hname Hn]. cbn [omap list_omap].
    destruct n as [c| |es]; cbn; [|by apply IHe..]. constructor; [|by apply IHe].
    intros (name' & Hin & Heq)%file_paths. simplify_list_eq. by apply Hname.
  - intros p (name & _ & ->)%file_paths (name' & names & _ & Hne & Heq)%below_paths; [|done]. by simplify_list_eq.
  - induction entries as [|[name n] entries IHe]; [constructor|].
    apply NoDup_cons in Hn as [Hname Hn]. rw bind_cons fmap_app. apply NoDup_app. split_and!.
    + apply (IH name n). left.
    + intros p ([q c] & -> & Hw)%list_elem_of_fmap Hin.
      destruct (walk_below _ _ _ _ Hw) as (names & Hq & _); [eapply Ht; left|].
      apply below_paths in Hin as (name' & names' & Hin & _ & Heq); [|intros; eapply Ht; by right].
      simpl in Hq, Heq. rw Hq -app_assoc in Heq. simplify_list_eq. by apply Hname.
    + apply IHe; [done|..]; intros; [eapply Hnames|eapply Ht|eapply IH]; by right.
Qed.

(** ** Sorting *)

Definition key_of (e : manifest_entry) : list N := default [] (utf8_encode (relative_path e)).
Definition has_key (e : manifest_entry) : Prop := is_Some (utf8_encode (relative_path e)).
#[export] Instance has_key_dec e : Decision (has_key e).
Proof. unfold has_key. apply _. Defined.

Lemma byte_keys_spec entries :
  mapM byte_key entries =
  if decide (Forall has_key entries) then Ret ((fun e => (key_of e, e)) <$> entries) else Raise UnicodeEncodeError.
Proof.
  induction entries as [|e entries IH]; [by destruct (decide _) as [|[]]|]. cbn [mapM]. rw /byte_key /has_key /key_of in IH |- *.
  destruct (utf8_encode (relative_path e)) as [k|] eqn:E; cbn.
  - rw IH. destruct (decide (Forall _ entries)) as [Hf|Hf]; cbn.
    + rw decide_True; [by rw E|constructor; [by rw E|done]].
    + rw decide_False //. intros [_ ?]%Forall_cons_1. done.
  - rw decide_False //. intros [H _]%Forall_cons_1. rw E in H. by destruct H.
Qed.

#[export] Instance byte_le_total : Total byte_le.
Proof. intros a b. apply (total str_le). Qed.
#[export] Instance byte_le_trans : Transitive byte_le.
Proof. intros a b c. apply (transitivity (R := str_le)). Qed.

Lemma sort_entries_spec entries sorted :
  sort_entries entries = Ret sorted ->
  sorted ≡ₚ entries /\ StronglySorted (fun a b => str_le (key_of a) (key_of b)) sorted /\ Forall has_key entries.
Proof.
  rw /sort_entries byte_keys_spec. destruct (decide _) as [Hf|Hf]; [|done]. intros [= <-].
  set (keyed := merge_sort byte_le _). assert (keyed ≡ₚ (fun e => (key_of e, e)) <$> entries) as Hp
    by apply merge_sort_Permutation.
  split_and!; [|..|done].
  - rw Hp -list_fmap_compose. by rw list_fmap_id.
  - assert (Forall (fun ke => ke.1 = key_of ke.2) keyed) as Hk.
    { rw Hp. by apply Forall_fmap, Forall_forall. }
    assert (StronglySorted byte_le keyed) as Hs by (apply StronglySorted_merge_sort; apply _).
    clearbody keyed. clear Hp. induction Hs as [|ke keyed Hs IH Hle]; [constructor|].
    apply Forall_cons_1 in Hk as [Hk1 Hk]. constructor; [by apply IH|]. apply Forall_fmap.
    rw Forall_forall in Hle. rw Forall_forall in Hk. apply Forall_forall. intros x Hx. rw /= -Hk1 -(Hk x Hx). by apply Hle.
Qed.
Lemma sort_entries_fails entries e : sort_entries entries = Raise e -> ~ Forall has_key entries.
Proof. rw /sort_entries byte_keys_spec. by destruct (decide _). Qed.

(** Entries are sorted in one way only, when no path appears twice. *)
Lemma sort_entries_perm entries entries' :
  NoDup (relative_path <$> entries) -> entries ≡ₚ entries' -> sort_entries entries = sort_entries entries'.
Proof.
  intros Hn Hp. destruct (sort_entries entries) as [l|[]] eqn:E, (sort_entries entries') as [l'|[]] eqn:E'; [|..|done].
  - apply sort_entries_spec in E as (Hl & Hs & Hk), E' as (Hl' & Hs' & _). f_equal.
    apply (StronglySorted_unique_strong _ _ _) with (2 := Hs) (3 := Hs'); [|by rw Hl Hl'].
    intros x y Hx Hy Hxy Hyx. assert (key_of x = key_of y) as Ekey by by apply (anti_symm str_le).
    rw Hl in Hx. rw Hl' -Hp in Hy. rw Forall_forall in Hk. destruct (Hk x Hx) as [k Ek], (Hk y Hy) as [k' Ek'].
    rw /key_of Ek Ek' /= in Ekey. subst k'. pose proof (utf8_encode_inj _ _ _ Ek Ek') as Epath.
    apply list_elem_of_lookup in Hx as [i Hi], Hy as [j Hj].
    assert (i = j) as ->; [|congruence].
    apply (NoDup_lookup _ i j (relative_path x) Hn); rw list_lookup_fmap ?Hi ?Hj /= ?Epath //.
  - apply sort_entries_spec in E as (_ & _ & Hk). apply sort_entries_fails in E'. by rw Hp in Hk.
  - apply sort_entries_spec in E' as (_ & _ & Hk). apply sort_entries_fails in E. by rw -Hp in Hk.
Qed.

(** ** What the listing says *)

Lemma relpaths_unique root : tidy root -> NoDup (relative <$> walk [] root).*1.
Proof.
  intros Ht. assert ((relative <$> walk [] root).*1 = join_with slash <$> (walk [] root).*1) as ->
    by rw -!list_fmap_compose //.
  apply NoDup_fmap_2_strong; [|by apply walk_unique].
  assert (forall p, p ∈ (walk [] root).*1 -> p <> [] /\ Forall (fun s => slash ∉ s) p) as Hp.
  { intros p ([q c] & -> & Hw)%list_elem_of_fmap. destruct (walk_below _ _ _ _ Hw Ht) as (names & Hq & Hne & Hall).
    simpl in Hq |- *. rw Hq. split; [done|]. eapply Forall_impl; [exact Hall|]. by intros s [_ ?]. }
  intros p q [Hp1 Hp2]%Hp [Hq1 Hq2]%Hp Heq. by rw -(split_join slash p) // -(split_join slash q) // Heq.
Qed.
Lemma files_unique root : tidy root -> NoDup (relative_path <$> (entry_of <$> (_iter_files root).1)).
Proof.
  intros Ht. rw -list_fmap_compose. change (relative_path ∘ entry_of) with (fst : pystr * file -> pystr).
  eapply sublist_NoDup; [by apply relpaths_unique|]. apply fmap_sublist, sublist_filter.
Qed.
Lemma iter_files_count root :
  (length (_iter_files root).1 + length (_iter_files root).2 = length (walk [] root))%nat.
Proof.
  rw /_iter_files /= length_fmap -(length_fmap relative (walk [] root)).
  induction (relative <$> walk [] root) as [|f l IH]; [done|]. rw !filter_cons.
  destruct (is_os_metadata f.1); simpl; lia.
Qed.
Lemma iter_files_relisted root root' :
  relisted root root' ->
  (_iter_files root).1 ≡ₚ (_iter_files root').1 /\ (_iter_files root).2 ≡ₚ (_iter_files root').2.
Proof.
  intros Hr. pose proof (walk_relisted _ _ [] Hr) as Hw. rw /_iter_files /=. split; by rw Hw.
Qed.

(** The manifest of a tree does not depend on the order in which the system lists its
    directories. *)
Theorem manifest_ignores_listing_order root root' cap :
  tidy root -> relisted root root' -> dir_manifest root cap = dir_manifest root' cap.
Proof.
  intros Ht Hr. destruct (iter_files_relisted _ _ Hr) as [Hf He]. pose proof (files_unique root Ht) as Hn.
  rw /dir_manifest. destruct (_iter_files root) as [files excluded], (_iter_files root') as [files' excluded'].
  simpl in Hf, He, Hn. rw (sort_entries_perm _ (entry_of <$> files') Hn); [by rw (Permutation_length He)|by rw Hf].
Qed.

(** A manifest lists each regular file of the tree that is not metadata of an operating
    system once, with its size and digest, in the order of the bytes of the paths; the
    counts account for every regular file, and the listing is left out only above the
    cap. *)
Theorem manifest_lists_the_files root cap r :
  tidy root -> dir_manifest root cap = Ret r ->
  exists entries,
    entries ≡ₚ (entry_of <$> (_iter_files root).1) /\ NoDup (relative_path <$> entries) /\
    StronglySorted (fun a b => str_le (key_of a) (key_of b)) entries /\
    Forall (fun e => is_os_metadata (relative_path e) = false) entries /\
    file_count r = Z.of_nat (length entries) /\ total_size r = sum_of (size <$> entries) /\
    file_count r + excluded_count r = Z.of_nat (length (walk [] root)) /\
    manifest r = match cap with Some c => if c <? file_count r then None else Some entries | None => Some entries end.
Proof.
  intros Ht. pose proof (files_unique root Ht) as Hn. pose proof (iter_files_count root) as Hc.
  assert (Forall (fun f => is_os_metadata f.1 = false) (_iter_files root).1) as Hm.
  { apply Forall_forall. intros f [? _]%list_elem_of_filter. done. }
  rw /dir_manifest. destruct (_iter_files root) as [files excluded]. simpl in Hn, Hc, Hm |- *.
  destruct (sort_entries _) as [entries|] eqn:Es; [|done]. simpl. destruct (hash_lines _ _) as [h|]; [|done].
  intros [= <-]. apply sort_entries_spec in Es as (Hp & Hs & _). exists entries. simpl.
  split_and!; [done|by rw Hp|done| |done|done| |].
  - rw Hp. by apply Forall_fmap.
  - rw Hp length_fmap. lia.
  - destruct cap as [c|]; [|done]. destruct (Z.leb_spec (Z.of_nat (length entries)) c), (Z.ltb_spec c (Z.of_nat (length entries))); done || lia.
Qed.

(** ** What the tree hash identifies *)

Lemma utf8_encode_app s t :
  utf8_encode (s ++ t) =
  match utf8_encode s, utf8_encode t with Some a, Some b => Some (a ++ b) | _, _ => None end.
Proof.
  induction s as [|c s IH]; [by simpl; destruct (utf8_encode t)|]. cbn [app utf8_encode]. rw IH.
  destruct (utf8_cp c) as [a|]; [|done]. destruct (utf8_encode s) as [b|]; [|done].
  destruct (utf8_encode t); [by rw app_assoc|done].
Qed.
Definition listing_text (entries : list manifest_entry) : pystr := entries ≫= line.
Lemma hash_lines_spec entries h bytes :
  hash_lines entries h = Ret bytes -> exists b, utf8_encode (listing_text entries) = Some b /\ bytes = h ++ b.
Proof.
  revert h. induction entries as [|e entries IH]; intros h.
  - intros [= <-]. exists []. by rw app_nil_r.
  - cbn [hash_lines]. destruct (utf8_encode (line e)) as [b|] eqn:E; [|done].
    intros (b' & Eb & ->)%IH. exists (b ++ b'). rw /listing_text bind_cons utf8_encode_app E.
    rw /listing_text in Eb. rw Eb. by rw app_assoc.
Qed.

Lemma newline_end a b x y : (10%N ∉ a) -> (10%N ∉ b) -> a ++ 10%N :: x = b ++ 10%N :: y -> a = b /\ x = y.
Proof.
  revert b. induction a as [|c a IH]; intros [|d b]; simpl; intros Ha Hb.
  - by intros [= ->].
  - intros [= <- _]. exfalso. apply Hb. left.
  - intros [= -> _]. exfalso. apply Ha. left.
  - intros [= <- Heq]. destruct (IH b) as [-> ->]; [set_solver|set_solver|done|done].
Qed.
Lemma hex_chars w n c : c ∈ hex w n -> c <> 10%N.
Proof.
  assert (forall k, hex_digit k <> 10%N) as Hd by (intros k; rw /hex_digit; destruct (k <? 10)%N; lia).
  revert n. induction w as [|w IH]; intros n; cbn [hex]; [by intros ?%elem_of_nil|].
  intros [Hc|Hc]%elem_of_app; [by eapply IH|]. apply list_elem_of_singleton in Hc as ->. apply Hd.
Qed.
Lemma sha256_line m : 10%N ∉ sha256_hex m.
Proof. intros ([] & Hc & _)%list_elem_of_bind; by eapply hex_chars. Qed.
Lemma number_line n : 10%N ∉ str_of_int n.
Proof.
  intros Hin. pose proof (str_of_int_chars n) as Hc. rw Forall_forall in Hc.
  destruct (Hc _ Hin) as [?|[? ?]]; lia.
Qed.

(** An entry of a file whose path has no newline. *)
Definition plain_entry (e : manifest_entry) : Prop :=
  (10%N ∉ relative_path e) /\ exists content, sha256 e = sha256_hex content.
Lemma listing_inj es es' :
  Forall plain_entry es -> Forall plain_entry es' -> listing_text es = listing_text es' -> es = es'.
Proof.
  assert (forall e es, listing_text (e :: es) = line e ++ listing_text es) as Hcons by done.
  assert (forall e es, listing_text (e :: es) <> []) as Hne.
  { intros e l Heq. apply (f_equal length) in Heq. rw Hcons /line !length_app /= in Heq. lia. }
  revert es'. induction es as [|e es IH]; intros [|e' es'] Hes Hes' Heq; [done|by symmetry in Heq; apply Hne in Heq|by apply Hne in Heq|].
  apply Forall_cons_1 in Hes as [[Hp [c Hc]] Hes], Hes' as [[Hp' [c' Hc']] Hes'].
  rw !Hcons /line -!app_assoc in Heq. destruct e as [p n s], e' as [p' n' s'].
  cbn [relative_path size sha256 app] in *. subst s s'.
  apply newline_end in Heq as [-> Heq]; [|done..].
  apply newline_end in Heq as [->%str_of_int_inj Heq]; [|apply number_line..].
  apply newline_end in Heq as [-> Heq]; [|apply sha256_line..]. f_equal. by apply IH.
Qed.


(** A newline in a name lets two different trees have one tree hash. *)
Definition two_files : node := Directory [(u "a", Regular []); (u "b", Regular [])].
Definition one_file : node :=
  Directory [(u "a" ++ [10%N] ++ u "0" ++ [10%N] ++ sha256_hex [] ++ [10%N] ++ u "b", Regular [])].
Lemma newline_names_collide :
  exists r r', dir_manifest two_files None = Ret r /\ dir_manifest one_file None = Ret r' /\
    tree_hash r = tree_hash r' /\ manifest r <> manifest r'.
Proof.
  destruct (dir_manifest two_files None) as [r|] eqn:E; [|by vm_compute in E].
  destruct (dir_manifest one_file None) as [r'|] eqn:E'; [|by vm_compute in E'].
  exists r, r'. vm_compute in E, E'. injection E as <-. injection E' as <-. by split_and!.
Qed.
(** A name that is not UTF-8 is read with surrogates, which cannot be encoded. *)
Lemma foreign_names_fail : dir_manifest (Directory [([56480%N], Regular [])]) None = Raise UnicodeEncodeError.
Proof. vm_compute. reflexivity. Qed.

(** ** Witnesses *)

Definition sub_listing : list (pystr * node) := [(u "c", Regular [3%N]); (u ".DS_Store", Regular [])].
Definition sample_tree : node :=
  Directory [(u "sub", Directory sub_listing); (u "b", Regular [1; 2]%N); (u "link", Symlink)].
Definition sample_tree' : node :=
  Directory [(u "sub", Directory (reverse sub_listing)); (u "b", Regular [1; 2]%N); (u "link", Symlink)].
Lemma tidy_listing entries :
  bool_decide (NoDup entries.*1) && bool_decide (Forall (fun s => s <> [] /\ slash ∉ s) entries.*1) = true ->
  Forall (fun e => tidy e.2) entries -> tidy (Directory entries).
Proof.
  intros [Hn%bool_decide_eq_true_1 Hs%bool_decide_eq_true_1]%andb_prop Ht.
  rw Forall_forall in Hs. rw Forall_forall in Ht. constructor; [done|..].
  - intros name n Hin. apply Hs, list_elem_of_fmap. by exists (name, n).
  - intros name n Hin. exact (Ht _ Hin).
Qed.
(** A concrete tree is tidy. *)
Ltac tidy_tree :=
  first [apply tidy_file | apply tidy_link |
         apply tidy_listing; [vm_compute; reflexivity|]; repeat apply Forall_cons_2; try apply Forall_nil_2; simpl; tidy_tree].
Lemma sample_tidy : tidy sample_tree.
Proof.
  tidy_tree.
Qed.

Lemma manifest_ignores_listing_order_witness :
  walk [] sample_tree <> walk [] sample_tree' /\ dir_manifest sample_tree (Some 1) = dir_manifest sample_tree' (Some 1).
Proof.
  split; [discriminate|]. apply (manifest_ignores_listing_order sample_tree sample_tree' (Some 1)); [apply sample_tidy|].
  apply (relisted_inside [] (u "sub")), relisted_order. symmetry. apply reverse_Permutation.
Defined.
Lemma manifest_lists_the_files_witness :
  exists r, dir_manifest sample_tree (Some 1) = Ret r /\ file_count r = 2 /\ excluded_count r = 1 /\
    exists entries, entries ≡ₚ (entry_of <$> (_iter_files sample_tree).1) /\ file_count r = Z.of_nat (length entries).
Proof.
  destruct (dir_manifest sample_tree (Some 1)) as [r|] eqn:E; [|vm_compute in E; discriminate E].
  exists r. split; [reflexivity|].
  destruct (manifest_lists_the_files sample_tree (Some 1) r sample_tidy E) as (es & Hp & _ & _ & _ & Hc & _ & _).
  vm_compute in E. injection E as <-. split; [reflexivity|]. split; [reflexivity|]. by exists es.
Defined.

(** ** The command line *)

(** The command prints a result exactly when it exits with 0, and an error otherwise; only
    a tree with a name that has no UTF-8 makes it fail. *)
Lemma hash_cli_spec path target cap :
  match run_hash_cli path target cap with
  | Ret x => (status x = 0 /\ is_Some (stdout x) /\ stderr x = None) \/
             (status x = 1 /\ stdout x = None /\ is_Some (stderr x))
  | Raise _ => exists root, target = ADirectory root /\ dir_manifest root cap = Raise UnicodeEncodeError
  end.
Proof.
  destruct target as [root|content|]; cbn [run_hash_cli].
  - destruct (dir_manifest root cap) as [r|[]] eqn:E; [by left|]. by exists root.
  - destruct (apk_cd_digest content) as [[size d]|[]]; [by left|by right..].
  - by right.
Qed.
