(* ===== verification/Apks.v ===== *)
(** * Uploaded packages (server.py)

    The directory of uploaded APKs: names that are free, the newest client, the hashes an
    installation is verified against, the upload handler.  The same free names serve the
    directory of bundles.  Digits of versions are the ASCII digits, as in every name the
    upload handler makes. *)

From S2P Require Import Prelude PyStr Text Json Sha256 Fingerprint Integrity Paths.
From stdpp Require Import gmap.
Open Scope Z_scope.

Record stored := Stored { content : file; mtime_ns : Z }.
Abbreviation directory := (gmap pystr stored).

(** ** Free names *)

(** [f"{stem}-{timestamp}{suffix}"], then the candidates with a counter. *)
Definition stamped (stem suffix timestamp : pystr) : pystr := stem ++ u "-" ++ timestamp ++ suffix.
Definition numbered (stem suffix timestamp : pystr) (counter : Z) : pystr :=
  stem ++ u "-" ++ timestamp ++ u "-" ++ str_of_int counter ++ suffix.
(** [while candidate.exists(): ...]: [turns] candidates at most. *)
Fixpoint next_free (stem suffix timestamp : pystr) (turns : nat) (counter : Z) (candidate : pystr) (dir : directory)
    : option pystr :=
  match turns with
  | O => None
  | S k =>
      if bool_decide (is_Some (dir !! candidate))
      then next_free stem suffix timestamp k (counter + 1) (numbered stem suffix timestamp counter) dir
      else Some candidate
  end.
Definition unique_path (filename timestamp : pystr) (turns : nat) (dir : directory) : option pystr :=
  if bool_decide (is_Some (dir !! filename)) then
    let '(stem, suffix) := stem_suffix filename in
    next_free stem suffix timestamp turns 2 (stamped stem suffix timestamp) dir
  else Some filename.
(** Enough turns: one more than there are files ([unique_path_free]). *)
Definition unique_apk_path (filename timestamp : pystr) (dir : directory) : pystr :=
  default filename (unique_path filename timestamp (S (size dir)) dir).
Definition unique_bundle_path (filename timestamp : pystr) (dir : directory) : pystr :=
  default filename (unique_path filename timestamp (S (size dir)) dir).

(** ** The newest client *)

(** The further parts of a version, a dot and digits each. *)
Fixpoint dotted (fuel : nat) (s : pystr) : list pystr * pystr :=
  match fuel, s with
  | S k, c :: s' =>
      if (c =? 46)%N then
        match span_digits s' with
        | ([], _) => ([], s)
        | (d, r) => let '(ds, r') := dotted k r in (d :: ds, r')
        end
      else ([], s)
  | _, _ => ([], s)
  end.
(** The rest of the name: a suffix after a dash, without a newline, and .apk; [$] accepts
    one newline at the end. *)
Definition before_newline (r : pystr) : pystr := match rsplit_once 10 r with Some (p, []) => p | _ => r end.
Definition client_tail (r : pystr) : bool :=
  let r := before_newline r in
  streq r (u ".apk") ||
  (match r with c :: _ => (c =? 45)%N | [] => false end && endswith r (u ".apk") && (5 <=? length r)%nat &&
   negb (existsb (N.eqb 10) r)).
(** CLIENT_APK_RE and the groups that are read. *)
Definition CLIENT_PREFIX : pystr := u "styly-mdm-client_".
Definition skip_v (s : pystr) : pystr := match s with c :: s' => if (c =? 118)%N then s' else s | [] => s end.
Definition _client_apk_version (name : pystr) : option (pystr * list N) :=
  match Json.strip_prefix CLIENT_PREFIX name with
  | None => None
  | Some s =>
      let '(first, r) := span_digits (skip_v s) in
      let '(others, r) := dotted (length r) r in
      match first, others with
      | [], _ | _, [] => None
      | _, _ => if client_tail r then Some (join_with 46 (first :: others), digits_value <$> first :: others) else None
      end
  end.

(** [a > b] on tuples of integers, and on keys [(version, mtime)]. *)
Fixpoint version_gt (a b : list N) : bool :=
  match a, b with
  | [], _ => false
  | _ :: _, [] => true
  | x :: a', y :: b' => (y <? x)%N || ((x =? y)%N && version_gt a' b')
  end.
Definition key_gt (a b : list N * Z) : bool :=
  version_gt a.1 b.1 || (bool_decide (a.1 = b.1) && (b.2 <? a.2)).

Record client_apk := ClientApk { apk_key : list N * Z; apk_name : pystr; apk_version : pystr }.
(** One entry of the listing: its name, and its time unless [stat] fails. *)
Definition better (best : option client_apk) (entry : pystr * option Z) : option client_apk :=
  match _client_apk_version entry.1, entry.2 with
  | Some (ver_str, ver_tuple), Some mtime =>
      let key := (ver_tuple, mtime) in
      match best with
      | None => Some (ClientApk key entry.1 ver_str)
      | Some b => if key_gt key (apk_key b) then Some (ClientApk key entry.1 ver_str) else best
      end
  | _, _ => best
  end.
Definition latest_of (entries : list (pystr * option Z)) : option client_apk :=
  foldl better None (filter (fun e => endswith e.1 (u ".apk") = true) entries).
Definition client_apk_info_payload (entries : list (pystr * option Z)) : list (pystr * json) :=
  [(u "type", JStr (u "CLIENT_APK_INFO"));
   (u "apk", match latest_of entries with
             | Some b => JObj [(u "filename", JStr (apk_name b)); (u "url", JStr (u "/apks/" ++ apk_name b));
                               (u "version", JStr (apk_version b))]
             | None => JNull
             end)].

(** The listing of a directory: all its names, in some order. *)
Definition entries_of (names : list pystr) (dir : directory) : list (pystr * option Z) :=
  (fun n => (n, mtime_ns <$> dir !! n)) <$> names.

(** [seed_bundled_client_apk]: the bundled clients that are not there yet are copied, with
    their times; [copies] says which copies succeed. *)
Definition seed_one (copies : pystr -> bool) (dir : directory) (src : pystr * stored) : directory :=
  match _client_apk_version src.1 with
  | None => dir
  | Some _ => if bool_decide (is_Some (dir !! src.1)) || negb (copies src.1) then dir else <[src.1 := src.2]> dir
  end.
Definition seed_bundled_client_apk (copies : pystr -> bool) (bundled : list (pystr * stored)) (dir : directory) : directory :=
  foldl (seed_one copies) dir bundled.

(** ** Free names are found *)

Lemma numbered_inj stem suffix ts n m : numbered stem suffix ts n = numbered stem suffix ts m -> n = m.
Proof.
  rw /numbered. intros Heq. do 4 apply app_inv_head in Heq. apply app_inv_tail in Heq. by apply str_of_int_inj.
Qed.
Lemma next_free_spec stem suffix ts turns counter candidate dir p :
  next_free stem suffix ts turns counter candidate dir = Some p ->
  dir !! p = None /\ (p = candidate \/ exists k, counter <= k /\ p = numbered stem suffix ts k).
Proof.
  revert counter candidate. induction turns as [|turns IH]; intros counter candidate; [done|]. cbn [next_free].
  case_bool_decide as Hd.
  - intros [? [->|(k & ? & ->)]]%IH; (split; [done|right]); [by exists counter|exists k; split; [lia|done]].
  - intros [= <-]. split; [by apply eq_None_not_Some|by left].
Qed.
(** The counter goes past the names that are taken. *)
Lemma next_free_ends stem suffix ts turns counter candidate dir :
  next_free stem suffix ts turns counter candidate dir = None ->
  (forall k, counter <= k < counter + Z.of_nat turns - 1 -> is_Some (dir !! numbered stem suffix ts k)).
Proof.
  revert counter candidate. induction turns as [|turns IH]; intros counter candidate; [lia|]. cbn [next_free].
  case_bool_decide as Hd; [|done]. intros Hn k Hk. destruct (decide (k = counter)) as [->|Hne].
  - destruct turns as [|turns]; [lia|]. cbn [next_free] in Hn. by case_bool_decide.
  - apply (IH _ _ Hn). lia.
Qed.

Lemma rsplit_once_spec sep s p r : rsplit_once sep s = Some (p, r) -> s = p ++ sep :: r /\ sep ∉ r.
Proof.
  revert p r. induction s as [|c s IH]; intros p r; [done|]. cbn [rsplit_once].
  destruct (rsplit_once sep s) as [[p' r']|] eqn:E.
  - intros [= <- <-]. destruct (IH p' r' eq_refl) as [-> ?]. done.
  - destruct (N.eqb_spec c sep) as [->|]; [|done]. intros [= <- <-]. split; [done|].
    clear IH. revert E. induction s as [|c s IH]; [set_solver|]. cbn [rsplit_once].
    destruct (rsplit_once sep s) as [[? ?]|]; [done|]. destruct (N.eqb_spec c sep); [done|].
    intros _. specialize (IH eq_refl). set_solver.
Qed.
Lemma stem_suffix_spec name : name = (stem_suffix name).1 ++ (stem_suffix name).2.
Proof.
  rw /stem_suffix. destruct (rsplit_once 46 name) as [[p r]|] eqn:E; [|by rw app_nil_r].
  destruct (_ || _); [by rw app_nil_r|]. by apply rsplit_once_spec in E as [-> _].
Qed.

(** One candidate more than there are files is enough. *)
Lemma search_ends filename ts dir :
  let '(stem, suffix) := stem_suffix filename in
  is_Some (dir !! filename) -> is_Some (next_free stem suffix ts (S (size dir)) 2 (stamped stem suffix ts) dir).
Proof.
  pose proof (stem_suffix_spec filename) as Hf. destruct (stem_suffix filename) as [stem suffix]. simpl in Hf. intros Hd.
  apply not_eq_None_Some. intros Hn. pose proof (next_free_ends _ _ _ _ _ _ _ Hn) as Hall.
  set (taken := filename :: (numbered stem suffix ts <$> seqZ 2 (Z.of_nat (size dir)))).
  assert (NoDup taken) as Hnd.
  { apply NoDup_cons. split.
    - intros (k & Heq & _)%list_elem_of_fmap. apply (f_equal length) in Heq.
      rw Hf /numbered !length_app /= in Heq. lia.
    - apply NoDup_fmap_2_strong; [|apply NoDup_seqZ]. intros n m _ _. apply numbered_inj. }
  assert (list_to_set taken ⊆ (dom dir : gset pystr)) as Hsub.
  { intros n [->|(k & -> & Hk%elem_of_seqZ)%list_elem_of_fmap]%elem_of_list_to_set%elem_of_cons; apply elem_of_dom; [done|].
    apply Hall. lia. }
  apply subseteq_size in Hsub. rw (size_list_to_set taken Hnd) size_dom /taken /= length_fmap length_seqZ in Hsub. lia.
Qed.
Lemma unique_path_spec filename ts dir p :
  unique_path filename ts (S (size dir)) dir = Some p -> dir !! p = None.
Proof.
  rw /unique_path. case_bool_decide as Hd; [|by intros [= <-]; apply eq_None_not_Some].
  destruct (stem_suffix filename). by intros [? _]%next_free_spec.
Qed.
Lemma unique_path_total filename ts dir : is_Some (unique_path filename ts (S (size dir)) dir).
Proof.
  rw /unique_path. case_bool_decide as Hd; [|done]. pose proof (search_ends filename ts dir) as Hs.
  destruct (stem_suffix filename). by apply Hs.
Qed.
Lemma unique_apk_path_free filename ts dir : dir !! unique_apk_path filename ts dir = None.
Proof.
  rw /unique_apk_path. destruct (unique_path_total filename ts dir) as [p Hp]. rw Hp. by eapply unique_path_spec.
Qed.

(** The name an upload is stored under is free: the search ends within one candidate
    more than there are files, gives a name no file has, and keeps the name that was asked
    for when no file has it. *)
Theorem unique_path_free filename timestamp dir :
  exists p, unique_path filename timestamp (S (size dir)) dir = Some p /\ dir !! p = None /\
    (dir !! filename = None -> p = filename).
Proof.
  destruct (unique_path_total filename timestamp dir) as [p Hp]. exists p. split_and!; [done|by eapply unique_path_spec|].
  intros Hn. rw /unique_path Hn bool_decide_eq_false_2 in Hp; [by injection Hp|by intros []].
Qed.
Lemma unique_path_free_witness :
  let dir : directory := {[u "a.apk" := Stored [] 0; u "a-t.apk" := Stored [] 0; u "a-t-2.apk" := Stored [] 0]} in
  unique_apk_path (u "a.apk") (u "t") dir = u "a-t-3.apk" /\
  exists p, unique_path (u "a.apk") (u "t") (S (size dir)) dir = Some p /\ dir !! p = None.
Proof.
  intros dir. split; [vm_compute; reflexivity|].
  destruct (unique_path_free (u "a.apk") (u "t") dir) as (p & Hp & Hn & _).
  exact (ex_intro _ p (conj Hp Hn)).
Defined.

(** ** Versions in names *)

Lemma span_digits_spec s d r : span_digits s = (d, r) -> s = d ++ r /\
  forall c t, is_digit c = false -> span_digits (d ++ c :: t) = (d, c :: t).
Proof.
  revert d r. induction s as [|c s IH]; intros d r; cbn [span_digits].
  - intros [= <- <-]. split; [done|]. intros c t Hc. cbn [app span_digits]. by rw Hc.
  - destruct (is_digit c) eqn:Hc.
    + destruct (span_digits s) as [d' r'] eqn:E. intros [= <- <-]. destruct (IH d' r' eq_refl) as [-> Hall].
      split; [done|]. intros c' t Hc'. cbn [app span_digits]. by rw Hc Hall.
    + intros [= <- <-]. split; [done|]. intros c' t Hc'. cbn [app span_digits]. by rw Hc'.
Qed.
(** Another rest that begins with a dash leaves the parts as they are. *)
Lemma dotted_spec fuel s ds r : dotted fuel s = (ds, r) -> exists a, s = a ++ r /\
  (a = [] \/ head a = Some 46%N) /\
  forall t fuel', (length a <= fuel')%nat -> dotted fuel' (a ++ 45%N :: t) = (ds, 45%N :: t).
Proof.
  assert (forall s', exists a, s' = a ++ s' /\ (a = [] \/ head a = Some 46%N) /\
    forall t fuel', (length a <= fuel')%nat -> dotted fuel' (a ++ 45%N :: t) = ([], 45%N :: t)) as Hstop.
  { intros s'. exists []. split_and!; [done|by left|]. by intros t [|fuel']. }
  revert s ds r. induction fuel as [|fuel IH]; intros s ds r; [by intros [= <- <-]|].
  destruct s as [|c s]; cbn [dotted]; [by intros [= <- <-]|].
  destruct (N.eqb_spec c 46) as [->|Hc]; [|by intros [= <- <-]].
  destruct (span_digits s) as [d r1] eqn:E. destruct d as [|d0 d]; [by intros [= <- <-]|].
  apply span_digits_spec in E as [-> Hspan].
  destruct (dotted fuel r1) as [ds' r'] eqn:E'. intros [= <- <-].
  destruct (IH _ _ _ E') as (a & -> & Ha & Hall). exists (46%N :: (d0 :: d) ++ a).
  split_and!; [by rw /= -app_assoc|by right|]. intros t [|fuel'] Hl; [simpl in Hl; lia|].
  assert (exists c t', a ++ 45%N :: t = c :: t' /\ is_digit c = false) as (c & t' & Ect & Hcd).
  { destruct a as [|a0 a]; [by exists 45%N, t|]. exists a0, (a ++ 45%N :: t). split; [done|].
    destruct Ha as [?|[= ->]]; done. }
  change (dotted (S fuel') ((46%N :: (d0 :: d) ++ a) ++ 45%N :: t)) with
    (match span_digits (((d0 :: d) ++ a) ++ 45%N :: t) with
     | ([], _) => ([], (46%N :: (d0 :: d) ++ a) ++ 45%N :: t)
     | (d, r) => let '(ds, r') := dotted fuel' r in (d :: ds, r')
     end).
  rw -app_assoc Ect Hspan // -Ect Hall //. simpl in Hl. rw length_app in Hl. lia.
Qed.

Lemma before_newline_none r : (10%N ∉ r) -> before_newline r = r.
Proof.
  intros Hr. rw /before_newline. destruct (rsplit_once 10 r) as [[p t]|] eqn:E; [|done].
  apply rsplit_once_spec in E as [-> _]. set_solver.
Qed.
Lemma client_tail_end r : (10%N ∉ r) -> client_tail r = true -> exists r0, r = r0 ++ u ".apk" /\ (10%N ∉ r0) /\ (r0 = [] \/ head r0 = Some 45%N).
Proof.
  intros Hnone. rw /client_tail before_newline_none //. intros [->%bool_decide_eq_true_1|[[[Hd He]%andb_prop Hl]%andb_prop Hn]%andb_prop]%orb_prop.
  - exists []. split_and!; [done|set_solver|by left].
  - apply negb_true_iff in Hn. destruct r as [|c r]; [done|]. apply N.eqb_eq in Hd as ->.
    apply startswith_spec in He as [t Ht]. exists (reverse t).
    assert (45%N :: r = reverse t ++ u ".apk") as Er by (rw -(reverse_involutive (45%N :: r)) Ht reverse_app reverse_involutive //).
    split_and!; [done| |].
    + intros Hin. assert (existsb (N.eqb 10) (45%N :: r) = true) as Hx; [|by rw Hx in Hn].
      apply existsb_exists. exists 10%N. split; [|done]. rw Er. apply list_elem_of_In. set_solver.
    + destruct (reverse t) as [|x l]; [by left|right]. by injection Er as <- _.
Qed.
Lemma client_tail_dash m : 10%N ∉ m -> client_tail (45%N :: m ++ u ".apk") = true.
Proof.
  intros Hm. rw /client_tail before_newline_none; [|vm_compute in Hm |- *; set_solver]. apply orb_true_iff. right. rw !andb_true_iff. split_and!.
  - done.
  - apply startswith_spec. exists (reverse (45%N :: m)). by rw -reverse_app.
  - apply Nat.leb_le. rw /= length_app /=. lia.
  - apply negb_true_iff, not_true_iff_false. intros (c & Hc & <-%N.eqb_eq)%existsb_exists.
    apply list_elem_of_In in Hc. vm_compute in Hm. set_solver.
Qed.

Lemma rsplit_once_end sep p r : sep ∉ r -> rsplit_once sep (p ++ sep :: r) = Some (p, r).
Proof.
  intros Hr. assert (rsplit_once sep r = None) as En.
  { destruct (rsplit_once sep r) as [[a b]|] eqn:E; [|done]. apply rsplit_once_spec in E as [-> _]. set_solver. }
  induction p as [|c p IH]; cbn [app rsplit_once]; [by rw En N.eqb_refl|by rw IH].
Qed.
Lemma apk_stem base : base <> [] -> stem_suffix (base ++ u ".apk") = (base, u ".apk").
Proof.
  intros Hne. rw /stem_suffix. change (base ++ u ".apk") with (base ++ 46%N :: u "apk").
  rw rsplit_once_end; [|by apply (bool_decide_eq_true_1 _)]. rw bool_decide_eq_false_2 //.
Qed.

Lemma skip_v_spec s x w : skip_v s = x :: w -> exists v0, s = v0 ++ x :: w /\ forall t, skip_v (v0 ++ x :: t) = x :: t.
Proof.
  destruct s as [|c s]; [done|]. cbn [skip_v]. destruct (N.eqb_spec c 118) as [->|Hc].
  - intros ->. by exists [118%N].
  - intros [= <- <-]. exists []. split; [done|]. intros t. cbn. by destruct (N.eqb_spec c 118).
Qed.

(** A client's name with something after a dash before the suffix has the same version. *)
Lemma version_of_copy name v :
  (10%N ∉ name) -> _client_apk_version name = Some v ->
  exists base, name = base ++ u ".apk" /\ base <> [] /\
    forall m, 10%N ∉ m -> _client_apk_version (base ++ u "-" ++ m ++ u ".apk") = Some v.
Proof.
  intros Hnl. rw /_client_apk_version /Json.strip_prefix. destruct (startswith name CLIENT_PREFIX) eqn:Ep; [|done].
  apply startswith_spec in Ep as [s ->]. rw drop_app_length.
  destruct (span_digits (skip_v s)) as [first r] eqn:E. destruct (dotted (length r) r) as [others r1] eqn:E1.
  destruct first as [|f0 first]; [done|]. destruct others as [|o others]; [done|].
  destruct (client_tail r1) eqn:Et; [|done]. intros [= <-].
  apply span_digits_spec in E as [Ew Hspan]. apply dotted_spec in E1 as (a & -> & Ha & Hdot).
  apply skip_v_spec in Ew as (v0 & -> & Hv). apply client_tail_end in Et as (r0 & -> & Hn & Hr0); [|set_solver].
  exists (CLIENT_PREFIX ++ v0 ++ (f0 :: first) ++ a ++ r0).
  split_and!; [by simplify_list_eq|done|]. intros m Hm.
  assert (exists t, r0 ++ u "-" ++ m = 45%N :: t /\ (10%N ∉ t)) as (t & Et & Htn).
  { destruct r0 as [|c r0]; [by exists m|]. destruct Hr0 as [?|[= ->]]; [done|]. exists (r0 ++ u "-" ++ m).
    split; [done|]. rw !not_elem_of_app. split_and!; [set_solver|by apply (bool_decide_eq_true_1 _)|done]. }
  assert ((CLIENT_PREFIX ++ v0 ++ (f0 :: first) ++ a ++ r0) ++ u "-" ++ m ++ u ".apk" =
          CLIENT_PREFIX ++ v0 ++ f0 :: first ++ a ++ 45%N :: t ++ u ".apk") as ->.
  { change (45%N :: t ++ u ".apk") with ((45%N :: t) ++ u ".apk"). rw -Et. by simplify_list_eq. }
  assert (startswith (CLIENT_PREFIX ++ v0 ++ f0 :: first ++ a ++ 45%N :: t ++ u ".apk") CLIENT_PREFIX = true) as ->
    by (apply startswith_spec; by eexists).
  rw drop_app_length Hv.
  assert (exists c t', a ++ 45%N :: t ++ u ".apk" = c :: t' /\ is_digit c = false) as (c & t' & Ect & Hcd).
  { destruct a as [|a0 a]; [by exists 45%N, (t ++ u ".apk")|]. exists a0, (a ++ 45%N :: t ++ u ".apk"). split; [done|].
    destruct Ha as [?|[= ->]]; done. }
  rw Ect (app_comm_cons first (c :: t') f0) Hspan // -Ect Hdot; [|rw length_app; lia].
  by rw client_tail_dash.
Qed.

(** A client that is uploaded again is still recognised: the free name it is stored
    under has the version of the name it came with. *)
Theorem reupload_is_still_a_client name version timestamp dir p :
  _client_apk_version name = Some version -> (10%N ∉ name) -> (10%N ∉ timestamp) ->
  unique_path name timestamp (S (size dir)) dir = Some p -> _client_apk_version p = Some version.
Proof.
  intros Hv Hnl Hts. rw /unique_path. case_bool_decide as Hd; [|by intros [= <-]].
  destruct (version_of_copy _ _ Hnl Hv) as (base & -> & Hne & Hcopy). rw apk_stem //.
  intros [_ [->|(k & _ & ->)]]%next_free_spec.
  - by apply Hcopy.
  - assert (numbered base (u ".apk") timestamp k = base ++ u "-" ++ (timestamp ++ u "-" ++ str_of_int k) ++ u ".apk") as ->
      by rw /numbered -!app_assoc //.
    apply Hcopy. rw !not_elem_of_app. split_and!; [done|by apply (bool_decide_eq_true_1 _)|].
    intros Hin. pose proof (str_of_int_chars k) as Hc. rw Forall_forall in Hc. destruct (Hc _ Hin) as [?|[? ?]]; lia.
Qed.
Lemma reupload_is_still_a_client_witness :
  let dir : directory := {[u "styly-mdm-client_v0.3.0.apk" := Stored [1%N] 0]} in
  exists p, unique_path (u "styly-mdm-client_v0.3.0.apk") (u "20260712-200000") (S (size dir)) dir = Some p /\
    _client_apk_version p = Some (u "0.3.0", [0; 3; 0]%N).
Proof.
  intros dir. exists (u "styly-mdm-client_v0.3.0-20260712-200000.apk").
  assert (unique_path (u "styly-mdm-client_v0.3.0.apk") (u "20260712-200000") (S (size dir)) dir =
          Some (u "styly-mdm-client_v0.3.0-20260712-200000.apk")) as Hu by (vm_compute; reflexivity).
  refine (conj Hu (reupload_is_still_a_client _ _ _ dir _ _ _ _ Hu)).
  - vm_compute. reflexivity.
  - by apply (bool_decide_eq_true_1 _).
  - by apply (bool_decide_eq_true_1 _).
Defined.

(** ** The client that is offered *)

Lemma version_gt_trans a b c : version_gt a b = true -> version_gt b c = true -> version_gt a c = true.
Proof.
  revert b c. induction a as [|x a IH]; intros [|y b] [|z c]; [done..|]. cbn [version_gt].
  rw !orb_true_iff !andb_true_iff !N.ltb_lt !N.eqb_eq.
  intros [?|[-> ?]] [?|[-> ?]]; [left; lia|left; lia|left; lia|right; eauto].
Qed.
Lemma key_gt_trans a b c : key_gt a b = true -> key_gt b c = true -> key_gt a c = true.
Proof.
  rw /key_gt !orb_true_iff !andb_true_iff !bool_decide_eq_true !Z.ltb_lt.
  destruct a as [va ta], b as [vb tb], c as [vc tc]; simpl.
  intros [Hab|[-> ?]] [Hbc|[-> ?]]; [left; by eapply version_gt_trans|by left|by left|right; split; [done|lia]].
Qed.
Lemma key_gt_irrefl a : key_gt a a = false.
Proof.
  assert (forall v, version_gt v v = false) as Hv by (induction v; simpl; [done|by rw N.ltb_irrefl N.eqb_refl]).
  by rw /key_gt Hv Z.ltb_irrefl andb_false_r.
Qed.
(** What an entry of the listing offers. *)
Definition offer (entry : pystr * option Z) : option client_apk :=
  match _client_apk_version entry.1, entry.2 with
  | Some (ver_str, ver_tuple), Some mtime => Some (ClientApk (ver_tuple, mtime) entry.1 ver_str)
  | _, _ => None
  end.
Lemma better_cases best entry :
  better best entry =
    match offer entry with
    | None => best
    | Some c => match best with Some b => if key_gt (apk_key c) (apk_key b) then Some c else best | None => Some c end
    end.
Proof.
  rw /better /offer. destruct (_client_apk_version entry.1) as [[? ?]|]; [|done]. by destruct entry.2, best.
Qed.

(** The client the consoles are offered is an APK of the directory with a client's
    name, and no other has a higher version, or the same version and a later time; none is
    offered only when no APK there has a client's name and a time. *)
Theorem newest_client_is_offered entries :
  let clients := omap offer (filter (fun e => endswith e.1 (u ".apk") = true) entries) in
  match latest_of entries with
  | Some b => b ∈ clients /\ Forall (fun c => key_gt (apk_key c) (apk_key b) = false) clients
  | None => clients = []
  end.
Proof.
  rw /latest_of /=. generalize (filter (fun e : pystr * option Z => endswith e.1 (u ".apk") = true) entries) as l.
  induction l as [|e l IH] using rev_ind; [done|]. rw foldl_app omap_app /= better_cases.
  destruct (offer e) as [c|] eqn:E; [|by rw app_nil_r].
  destruct (foldl better None l) as [b|]; [destruct IH as [Hin Hall]|].
  - destruct (key_gt (apk_key c) (apk_key b)) eqn:Eg.
    + split; [set_solver|]. apply Forall_app. split.
      * eapply Forall_impl; [exact Hall|]. intros x Hx. apply not_true_iff_false. intros Hgt.
        pose proof (key_gt_trans _ _ _ Hgt Eg). simpl in *. congruence.
      * apply Forall_singleton, key_gt_irrefl.
    + split; [set_solver|]. apply Forall_app. split; [done|]. by apply Forall_singleton.
  - rw IH /=. split; [set_solver|]. apply Forall_singleton, key_gt_irrefl.
Qed.
