(* ===== verification/Storing.v ===== *)
(** * Storing uploaded APKs (server.py)

    [upload_apk_handler] reads a file part by part into the directory that is served,
    while other requests do the same: a step is what one handler does between two awaits.
    The hashes an installation is verified against are read from the same directory and
    cached ([apk_hashes_for]).  The bytes a handler writes are in the file at once;
    nothing else changes the directory while the server runs. *)

From S2P Require Import Prelude PyStr Json Sha256 Integrity Paths Apks.
From stdpp Require Import gmap relations.
Open Scope Z_scope.

Definition MAX_APK_SIZE : Z := 2 * 1024 * 1024 * 1024.

(** ** State *)

(** A handler that reads its part. *)
Record uploading := Uploading { destination : pystr; size_so_far : Z }.
Inductive apk_reply :=
  | ApkStored (apk_filename : pystr) (size : Z)
  | ApkRefused (status : Z) (error : pystr).

(** The directory, the handlers at work, what requests were answered, what the consoles
    were told, the files of handlers that were cancelled. *)
Record depot := Depot {
  apks : directory;
  active : gmap N uploading;
  answered : list (N * apk_reply);
  told : list (list (pystr * json));
  abandoned : list pystr;
}.
#[export] Instance eta_depot : Settable depot := fun s =>
  Depot (apks s) (active s) (answered s) (told s) (abandoned s).

(** ** The handler *)

Section Handler.
(** The order [glob] lists the names in. *)
Context (listing : directory -> list pystr).

Definition answer (id : N) (r : apk_reply) (s : depot) : depot :=
  s <| active := delete id (active s) |> <| answered := (id, r) :: answered s |>.
(** [destination.unlink(missing_ok=True)], then an error. *)
Definition refuse (id : N) (name : pystr) (status : Z) (error : pystr) (s : depot) : depot :=
  answer id (ApkRefused status error) (s <| apks := delete name (apks s) |>).
Definition failed_to_store (e : pystr) : pystr := u "Failed to store APK: " ++ e.

(** The request up to the first read: [multipart] is the first part with its name and
    file name, [opens] is how opening the new file ends. *)
Definition begin_upload (id : N) (multipart : outcome pystr (option (option pystr * option pystr)))
    (timestamp : pystr) (now : Z) (opens : outcome pystr unit) (s : depot) : depot :=
  match multipart with
  | Raise e => answer id (ApkRefused 400 (u "Invalid multipart request: " ++ e)) s
  | Ret field =>
      match field with
      | Some (Some name, filename) =>
          if streq name (u "apk") then
            match sanitize_apk_filename filename with
            | None => answer id (ApkRefused 400 (u "Uploaded file must have a .apk extension")) s
            | Some safe_name =>
                let destination := unique_apk_path safe_name timestamp (apks s) in
                match opens with
                | Raise e => refuse id destination 500 (failed_to_store e) s
                | Ret _ =>
                    s <| apks := <[destination := Stored [] now]> (apks s) |>
                      <| active := <[id := Uploading destination 0]> (active s) |>
                end
            end
          else answer id (ApkRefused 400 (u "multipart field 'apk' is required")) s
      | _ => answer id (ApkRefused 400 (u "multipart field 'apk' is required")) s
      end
  end.

(** What [read_chunk] gives: bytes, none at the end, and how writing them ends; an
    exception; the cancellation, which [except Exception] does not catch. *)
Inductive read := Chunk (bytes : file) (writes : outcome pystr unit) | ReadRaises (e : pystr) | ReadCancelled.

Definition append (name : pystr) (bytes : file) (now : Z) : directory -> directory :=
  alter (fun f => Stored (content f ++ bytes) now) name.

(** One read and what follows it, up to the next read or the reply. *)
Definition read_part (id : N) (up : uploading) (r : read) (now : Z) (s : depot) : depot :=
  match r with
  | ReadCancelled => s <| active := delete id (active s) |> <| abandoned := destination up :: abandoned s |>
  | ReadRaises e => refuse id (destination up) 500 (failed_to_store e) s
  | Chunk [] _ =>
      if size_so_far up =? 0 then refuse id (destination up) 400 (u "Uploaded APK is empty") s
      else
        answer id (ApkStored (destination up) (size_so_far up))
          (s <| told := client_apk_info_payload (entries_of (listing (apks s)) (apks s)) :: told s |>)
  | Chunk bytes writes =>
      let size := size_so_far up + Z.of_nat (length bytes) in
      if MAX_APK_SIZE <? size then refuse id (destination up) 413 (u "APK exceeds 2 GiB limit") s
      else
        match writes with
        | Raise e => refuse id (destination up) 500 (failed_to_store e) s
        | Ret _ =>
            s <| apks := append (destination up) bytes now (apks s) |>
              <| active := <[id := Uploading (destination up) size]> (active s) |>
        end
  end.

(** A new request begins, or a handler goes on. *)
Inductive step (s : depot) : depot -> Prop :=
  | begin_step id multipart timestamp now opens :
      active s !! id = None -> step s (begin_upload id multipart timestamp now opens s)
  | read_step id up r now : active s !! id = Some up -> step s (read_part id up r now s).
End Handler.

(** ** Hashes for an installation *)

Record apk_hashes := ApkHashes { full_sha256 : pystr; cd_sha256 : pystr }.
(** A path in the directory, a size, a time. *)
Abbreviation stat_key := (pystr * Z * Z)%type.
Abbreviation hash_cache := (gmap (pystr * Z * Z) apk_hashes).

Definition _compute_apk_hashes (f : file) : outcome zip_error apk_hashes :=
  let full := file_sha256 f in
  cd ← apk_cd_digest f;
  Ret (ApkHashes full cd.2).

Definition stat (name : pystr) (f : stored) : stat_key := (name, Z.of_nat (length (content f)), mtime_ns f).

(** [before] is the directory when the file is looked up, [later] when it is read. *)
Definition apk_hashes_for (apk_filename : pystr) (before later : directory) (_apk_hash_cache : hash_cache)
    : option apk_hashes * hash_cache :=
  match sanitize_apk_filename (Some apk_filename) with
  | None => (None, _apk_hash_cache)
  | Some safe =>
      match before !! safe with
      | None => (None, _apk_hash_cache)
      | Some st =>
          let key := stat safe st in
          match _apk_hash_cache !! key with
          | Some cached => (Some cached, _apk_hash_cache)
          | None =>
              match _compute_apk_hashes ∘ content <$> later !! safe with
              | None | Some (Raise _) => (None, _apk_hash_cache)
              | Some (Ret hashes) =>
                  (Some hashes,
                   <[key := hashes]> (if (16 <=? size _apk_hash_cache)%nat then ∅ else _apk_hash_cache))
              end
          end
      end
  end.

(** ** Whose file it is *)

(** A handler at work writes the file. *)
Definition written_to (s : depot) (n : pystr) : Prop :=
  exists id up, active s !! id = Some up /\ destination up = n.
Definition reported (s : depot) (n : pystr) (size : Z) : Prop := exists id, (id, ApkStored n size) ∈ answered s.

(** Every handler has a file of its own with what it has read; a file that was reported
    is whole and nobody writes it; every file has an origin. *)
Record depot_ok (start : directory) (s : depot) : Prop := DepotOk {
  receiving : forall id up, active s !! id = Some up ->
    start !! destination up = None /\ 0 <= size_so_far up <= MAX_APK_SIZE /\
    exists f, apks s !! destination up = Some f /\ Z.of_nat (length (content f)) = size_so_far up;
  apart : forall id id' up up', active s !! id = Some up -> active s !! id' = Some up' ->
    destination up = destination up' -> id = id';
  whole : forall n size, reported s n size ->
    start !! n = None /\ 0 < size <= MAX_APK_SIZE /\ ~ written_to s n /\
    exists f, apks s !! n = Some f /\ Z.of_nat (length (content f)) = size;
  kept : forall n f, start !! n = Some f -> apks s !! n = Some f;
  origin : forall n, is_Some (apks s !! n) ->
    is_Some (start !! n) \/ (exists size, reported s n size) \/ written_to s n \/ n ∈ abandoned s;
}.
Definition opened (dir : directory) : depot := Depot dir ∅ [] [] [].

Section Kept.
Context (listing : directory -> list pystr) (start : directory).
Local Abbreviation steps := (rtc (step listing)).

Lemma depot_opened : depot_ok start (opened start).
Proof.
  split; cbn.
  - by intros ? ? ?%lookup_empty_Some.
  - by intros ? ? ? ? ?%lookup_empty_Some.
  - intros n size [id Hin]. cbn in Hin. set_solver.
  - done.
  - by left.
Qed.

(** A handler ends and its file, if it has one, goes. *)
Lemma refuse_ok id n status e s :
  depot_ok start s -> start !! n = None -> (forall size, ~ reported s n size) ->
  (forall i up, active s !! i = Some up -> destination up = n -> i = id) ->
  (forall up, active s !! id = Some up -> destination up = n) ->
  depot_ok start (refuse id n status e s).
Proof.
  intros Hok Hst Hrep Hown Hid.
  assert (forall m sz, reported (refuse id n status e s) m sz -> reported s m sz) as Hr.
  { intros m sz [i Hin]. exists i. cbn in Hin. set_solver. }
  split; cbn.
  - intros i up [Hne Hup]%lookup_delete_Some. destruct (receiving _ _ Hok _ _ Hup) as (? & ? & f & ? & ?).
    do 2 (split; [done|]). exists f. split; [|done]. rw lookup_delete_ne //. intros Heq. by apply Hne, eq_sym, (Hown _ up).
  - intros i i' up up' [_ H1]%lookup_delete_Some [_ H2]%lookup_delete_Some. eapply apart; eauto.
  - intros m sz Hm%Hr. destruct (whole _ _ Hok _ _ Hm) as (? & ? & Hw & f & ? & ?). do 2 (split; [done|]). split.
    + intros (i & up & Hup & <-). cbn in Hup. apply lookup_delete_Some in Hup as [_ Hup]. apply Hw. by exists i, up.
    + exists f. split; [|done]. rw lookup_delete_ne //. intros ->. by apply (Hrep sz).
  - intros m f Hm. rw lookup_delete_ne; [by apply (kept _ _ Hok)|congruence].
  - intros m [f [Hne Hm]%lookup_delete_Some].
    destruct (origin _ _ Hok m) as [?|[(sz & i & Hi)|[(i & up & Hup & <-)|?]]]; [by eexists|by left| | |by do 3 right].
    + right; left. exists sz, i. cbn. set_solver.
    + right; right; left. exists i, up. split; [|done]. apply lookup_delete_Some. split; [|done].
      intros <-. by apply Hne, eq_sym, Hid.
Qed.

(** A new file under a free name. *)
Lemma open_ok id n now s :
  depot_ok start s -> active s !! id = None -> apks s !! n = None ->
  depot_ok start (s <| apks := <[n := Stored [] now]> (apks s) |> <| active := <[id := Uploading n 0]> (active s) |>).
Proof.
  intros Hok Hid Hn.
  assert (forall i up, active s !! i = Some up -> destination up <> n) as Hne.
  { intros i up Hup <-. destruct (receiving _ _ Hok _ _ Hup) as (_ & _ & f & ? & _). congruence. }
  split; cbn.
  - intros i up [[<- <-]|[_ Hup]]%lookup_insert_Some; cbn.
    + split_and!; [|lia|done|].
      * destruct (start !! n) as [f|] eqn:E; [|done]. pose proof (kept _ _ Hok _ _ E). congruence.
      * exists (Stored [] now). by rw lookup_insert_eq.
    + destruct (receiving _ _ Hok _ _ Hup) as (? & ? & f & ? & ?). do 2 (split; [done|]).
      exists f. by rw lookup_insert_ne //; apply not_eq_sym, (Hne i).
  - intros i i' up up' [[<- <-]|[_ H1]]%lookup_insert_Some [[<- <-]|[_ H2]]%lookup_insert_Some; cbn; [done| | |].
    + intros Heq. by destruct (Hne i' up').
    + intros Heq. by destruct (Hne i up).
    + by eapply apart.
  - intros m sz Hm. destruct (whole _ _ Hok _ _ Hm) as (? & ? & Hw & f & ? & ?). assert (m <> n) by congruence.
    do 2 (split; [done|]). split; [|exists f; by rw lookup_insert_ne].
    intros (i & up & Hup & Hd). cbn in Hup. apply lookup_insert_Some in Hup as [[<- <-]|[_ Hup]]; cbn in Hd; [done|]. apply Hw. by exists i, up.
  - intros m f Hm%(kept _ _ Hok). rw lookup_insert_ne //. congruence.
  - intros m. destruct (decide (m = n)) as [->|Hmn].
    + intros _. right; right; left. exists id, (Uploading n 0). by rw lookup_insert_eq.
    + rw lookup_insert_ne //. intros [?|[?|[(i & up & Hup & <-)|?]]]%(origin _ _ Hok); [by left|by right; left| |by do 3 right].
      right; right; left. exists i, up. split; [|done]. rw lookup_insert_ne //. congruence.
Qed.

(** The file grows by what was read. *)
Lemma append_ok id up bytes now s :
  depot_ok start s -> active s !! id = Some up -> size_so_far up + Z.of_nat (length bytes) <= MAX_APK_SIZE ->
  depot_ok start (s <| apks := append (destination up) bytes now (apks s) |>
    <| active := <[id := Uploading (destination up) (size_so_far up + Z.of_nat (length bytes))]> (active s) |>).
Proof.
  intros Hok Hup Hmax. destruct (receiving _ _ Hok _ _ Hup) as (Hst & Hsz & f & Hf & Hlen). rw /append.
  split; cbn.
  - intros i up' [[<- <-]|[Hne Hup']]%lookup_insert_Some; cbn.
    + split_and!; [done|lia|lia|]. rw lookup_alter_eq Hf. eexists. split; [done|]. cbn. rw length_app. lia.
    + destruct (receiving _ _ Hok _ _ Hup') as (? & ? & f' & ? & ?). do 2 (split; [done|]).
      exists f'. rw lookup_alter_ne //. intros Heq. by apply Hne, (apart _ _ Hok _ _ _ _ Hup Hup').
  - intros i i' u1 u2 [[<- <-]|[_ H1]]%lookup_insert_Some [[<- <-]|[_ H2]]%lookup_insert_Some; cbn; [done|..];
      by eapply apart.
  - intros m sz Hm. destruct (whole _ _ Hok _ _ Hm) as (? & ? & Hw & f' & ? & ?).
    assert (destination up <> m) by (intros <-; apply Hw; by exists id, up).
    do 2 (split; [done|]). split; [|exists f'; by rw lookup_alter_ne].
    intros (i & up' & Hup' & Hd). cbn in Hup'. apply lookup_insert_Some in Hup' as [[<- <-]|[_ Hup']]; cbn in Hd; [done|]. apply Hw. by exists i, up'.
  - intros m f' Hm. rw lookup_alter_ne; [by apply (kept _ _ Hok)|congruence].
  - intros m Hm. assert (is_Some (apks s !! m)) as Hs.
    { destruct Hm as [x Hx]. apply lookup_alter_Some in Hx as [(<- & y & ? & _)|[_ ?]]; by eexists. }
    apply (origin _ _ Hok) in Hs as [?|[?|[(i & up' & Hup' & <-)|?]]]; [by left|by right; left| |by do 3 right].
    right; right; left. destruct (decide (i = id)) as [->|Hne].
    + eexists id, _. rw lookup_insert_eq. split; [done|]. cbn. congruence.
    + exists i, up'. by rw lookup_insert_ne.
Qed.

(** A handler ends and its file stays: reported, or abandoned. *)
Lemma finish_ok id up s s' :
  depot_ok start s -> active s !! id = Some up -> apks s' = apks s -> active s' = delete id (active s) ->
  (forall m sz, reported s' m sz <-> reported s m sz \/ (m = destination up /\ sz = size_so_far up /\ 0 < sz /\ reported s' m sz)) ->
  (forall m, m ∈ abandoned s -> m ∈ abandoned s') ->
  (reported s' (destination up) (size_so_far up) \/ destination up ∈ abandoned s') ->
  depot_ok start s'.
Proof.
  intros Hok Hup Ha Hact Hrep Hab Hstay. destruct (receiving _ _ Hok _ _ Hup) as (Hst & Hsz & f & Hf & Hlen).
  split; rw ?Ha ?Hact.
  - intros i up' [_ Hup']%lookup_delete_Some. by apply (receiving _ _ Hok) in Hup'.
  - intros i i' u1 u2 [_ H1]%lookup_delete_Some [_ H2]%lookup_delete_Some. by eapply apart.
  - intros m sz [Hm|(-> & -> & Hpos & _)]%Hrep.
    + destruct (whole _ _ Hok _ _ Hm) as (? & ? & Hw & f' & ? & ?). do 2 (split; [done|]). split; [|by exists f'].
      intros (i & up' & Hup' & <-). rw Hact in Hup'. apply lookup_delete_Some in Hup' as [_ Hup']. apply Hw. by exists i, up'.
    + split_and!; [done|lia|lia| |by exists f]. intros (i & up' & Hup' & Hd). rw Hact in Hup'.
      apply lookup_delete_Some in Hup' as [Hne Hup']. by apply Hne, (apart _ _ Hok _ _ _ _ Hup Hup').
  - apply (kept _ _ Hok).
  - intros m [?|[[sz ?]|[(i & up' & Hup' & <-)|?]]]%(origin _ _ Hok); [by left| | |do 3 right; by apply Hab].
    + right; left. exists sz. apply Hrep. by left.
    + destruct (decide (i = id)) as [->|Hne].
      * simplify_eq. destruct Hstay as [?|?]; [right; left; by eexists|by do 3 right].
      * right; right; left. exists i, up'. rw Hact lookup_delete_ne //.
Qed.

(** A request refused before a file was opened. *)
Lemma answer_refused id status e s :
  active s !! id = None ->
  answer id (ApkRefused status e) s = refuse id (unique_apk_path [] [] (apks s)) status e s.
Proof. intros _. rw /refuse delete_id; [by destruct s|apply unique_apk_path_free]. Qed.
Lemma free_unreported s n : depot_ok start s -> apks s !! n = None -> forall sz, ~ reported s n sz.
Proof. intros Hok Hn sz (_ & _ & _ & f & ? & _)%(whole _ _ Hok). congruence. Qed.
Lemma unwritten s n : depot_ok start s -> apks s !! n = None -> ~ written_to s n.
Proof. intros Hok Hn (id & up & (_ & _ & f & ? & _)%(receiving _ _ Hok) & <-). congruence. Qed.
Lemma refuse_free id n status e s :
  depot_ok start s -> active s !! id = None -> apks s !! n = None -> depot_ok start (refuse id n status e s).
Proof.
  intros Hok Hid Hn. apply refuse_ok; [done| |by apply free_unreported| |congruence].
  - destruct (start !! n) as [f|] eqn:E; [|done]. apply (kept _ _ Hok) in E. congruence.
  - intros i up Hup Hd. exfalso. apply (unwritten s n Hok Hn). by exists i, up.
Qed.
Lemma refuse_own id up status e s :
  depot_ok start s -> active s !! id = Some up -> depot_ok start (refuse id (destination up) status e s).
Proof.
  intros Hok Hup. destruct (receiving _ _ Hok _ _ Hup) as (Hst & _ & _). apply refuse_ok; [done..| | |congruence].
  - intros sz (_ & _ & Hw & _)%(whole _ _ Hok). apply Hw. by exists id, up.
  - intros i up' Hup' Hd. by apply (apart _ _ Hok _ _ _ _ Hup' Hup).
Qed.

Lemma step_ok s s' : depot_ok start s -> step listing s s' -> depot_ok start s'.
Proof.
  intros Hok [id m ts now opens Hid|id up r now Hup].
  - assert (forall e, depot_ok start (answer id (ApkRefused 400 e) s)) as Hanswer.
    { intros e. rw answer_refused //. by apply refuse_free, unique_apk_path_free. }
    rw /begin_upload. destruct m as [[[[name|] filename]|]|e]; [|done..].
    destruct (streq name (u "apk")); [|done]. destruct (sanitize_apk_filename filename) as [safe|]; [|done].
    destruct opens as [_|e]; [apply open_ok|apply refuse_free]; auto using unique_apk_path_free.
  - destruct r as [[|b bytes] writes|e|]; cbn [read_part].
    + destruct (Z.eqb_spec (size_so_far up) 0) as [|Hne]; [by apply refuse_own|].
      destruct (receiving _ _ Hok _ _ Hup) as (_ & Hsz & _).
      eapply (finish_ok id up s); [done..| | |left; exists id; cbn; set_solver].
      * intros m sz. split.
        -- intros [i [[= -> -> ->]|Hin]%elem_of_cons]; [|by left; exists i].
           right. split_and!; [done|done|lia|]. exists id. cbn. set_solver.
        -- intros [[i Hin]|(_ & _ & _ & Hin)]; [|done]. exists i. cbn. set_solver.
      * done.
    + destruct (Z.ltb_spec MAX_APK_SIZE (size_so_far up + Z.of_nat (length (b :: bytes)))); [by apply refuse_own|].
      destruct writes as [_|e]; [by apply append_ok|by apply refuse_own].
    + by apply refuse_own.
    + eapply (finish_ok id up s); [done..| | |right; cbn; set_solver]; [|set_solver].
      intros m sz. split; [by left|]. by intros [?|(_ & _ & _ & ?)].
Qed.
Lemma steps_ok s s' : depot_ok start s -> steps s s' -> depot_ok start s'.
Proof. intros Hok Hs. revert Hok. induction Hs as [|? ? ? Hst _ IH]; [done|]. intros Hok. by eapply IH, step_ok. Qed.

(** A file nobody writes stays as it is. *)
Lemma step_keeps s s' n f :
  depot_ok start s -> step listing s s' -> apks s !! n = Some f -> ~ written_to s n -> apks s' !! n = Some f /\ ~ written_to s' n.
Proof.
  intros Hok Hs Hf Hw.
  assert (forall id m status e, m <> n -> apks (refuse id m status e s) !! n = Some f /\ ~ written_to (refuse id m status e s) n) as Hrefuse.
  { intros id m status e Hne. split; [by rw /= lookup_delete_ne|]. intros (i & up & Hup & Hd). cbn in Hup.
    apply lookup_delete_Some in Hup as [_ Hup]. apply Hw. by exists i, up. }
  assert (forall ts name, unique_apk_path name ts (apks s) <> n) as Hfresh.
  { intros ts name <-. rw unique_apk_path_free // in Hf. }
  destruct Hs as [id m ts now opens Hid|id up r now Hup].
  - assert (forall e, apks (answer id (ApkRefused 400 e) s) !! n = Some f /\ ~ written_to (answer id (ApkRefused 400 e) s) n) as Ha.
    { intros e. rw answer_refused //. by apply Hrefuse. }
    rw /begin_upload. destruct m as [[[[name|] filename]|]|e]; [|done..].
    destruct (streq name (u "apk")); [|done]. destruct (sanitize_apk_filename filename) as [safe|]; [|done].
    destruct opens as [_|e]; [|by apply Hrefuse]. split; cbn; [by rw lookup_insert_ne|].
    intros (i & up & Hup & Hd). cbn in Hup. apply lookup_insert_Some in Hup as [[<- <-]|[_ Hup]]; cbn in Hd.
    + by apply (Hfresh ts safe).
    + apply Hw. by exists i, up.
  - assert (destination up <> n) as Hne by (intros <-; apply Hw; by exists id, up).
    destruct r as [[|b bytes] writes|e|]; cbn [read_part]; [destruct (_ =? _)| |by apply Hrefuse|].
    + by apply Hrefuse.
    + split; [done|]. intros (i & up' & Hup' & Hd). cbn in Hup'. apply lookup_delete_Some in Hup' as [_ Hup'].
      apply Hw. by exists i, up'.
    + destruct (MAX_APK_SIZE <? _); [by apply Hrefuse|]. destruct writes as [_|e]; [|by apply Hrefuse].
      split; [by rw /= /append lookup_alter_ne|]. intros (i & up' & Hup' & Hd). cbn in Hup'.
      apply lookup_insert_Some in Hup' as [[<- <-]|[_ Hup']]; [done|]. apply Hw. by exists i, up'.
    + split; [done|]. intros (i & up' & Hup' & Hd). cbn in Hup'. apply lookup_delete_Some in Hup' as [_ Hup'].
      apply Hw. by exists i, up'.
Qed.
End Kept.

(** ** What uploads promise *)

(** C10: Whatever requests are served meanwhile, in any interleaving, an upload that was
    answered with success keeps its file: it is whole, as long as the answer said, not
    empty and within the limit, and no later upload changes a byte of it. *)
Theorem reported_apks_stay listing start s s' n size :
  rtc (step listing) (opened start) s -> rtc (step listing) s s' -> reported s n size ->
  0 < size <= MAX_APK_SIZE /\ start !! n = None /\
  exists f, apks s !! n = Some f /\ Z.of_nat (length (content f)) = size /\ apks s' !! n = Some f.
Proof.
  intros Hs Hs' Hrep. pose proof (steps_ok listing start _ _ (depot_opened start) Hs) as Hok.
  destruct (whole _ _ Hok _ _ Hrep) as (Hst & Hsz & Hw & f & Hf & Hlen). do 2 (split; [done|]). exists f. do 2 (split; [done|]).
  clear Hs Hrep Hlen. induction Hs' as [|s1 s2 s3 H12 _ IH]; [done|].
  destruct (step_keeps listing start _ _ _ _ Hok H12 Hf Hw) as [Hf2 Hw2]. apply IH; [by eapply step_ok|done..].
Qed.

(** Uploads leave the files that were there as they were, and leave no debris: a file
    in the directory was there before, was reported as stored, is being received, or is
    that of a request that was cancelled. *)
Theorem uploads_account_for_files listing start s :
  rtc (step listing) (opened start) s ->
  (forall n f, start !! n = Some f -> apks s !! n = Some f) /\
  (forall n, is_Some (apks s !! n) ->
     is_Some (start !! n) \/ (exists size, reported s n size) \/ written_to s n \/ n ∈ abandoned s).
Proof.
  intros Hs. pose proof (steps_ok listing start _ _ (depot_opened start) Hs) as Hok.
  split; [apply (kept _ _ Hok)|apply (origin _ _ Hok)].
Qed.

Section Uploads.
Local Abbreviation sorted_names := (fun dir : directory => (map_to_list dir).*1).
Local Abbreviation tool := (u "tool.apk").
Definition part_of (name : pystr) : outcome pystr (option (option pystr * option pystr)) :=
  Ret (Some (Some (u "apk"), Some name)).
Definition tools : directory := {[tool := Stored [9%N] 0]}.
(** Two uploads under the name of a file that is there, interleaved; one is given up. *)
Definition first_begins : depot := begin_upload 0 (part_of tool) (u "t") 1 (Ret tt) (opened tools).
Definition second_begins : depot := begin_upload 1 (part_of tool) (u "t") 2 (Ret tt) first_begins.
Definition first_reads : depot :=
  read_part sorted_names 0 (Uploading (u "tool-t.apk") 0) (Chunk [1; 2]%N (Ret tt)) 3 second_begins.
Definition after_first : depot :=
  read_part sorted_names 0 (Uploading (u "tool-t.apk") 2) (Chunk [] (Ret tt)) 4 first_reads.
Definition after_second : depot :=
  read_part sorted_names 1 (Uploading (u "tool-t-2.apk") 0) (ReadRaises (u "reset")) 5 after_first.

Lemma reach_first : rtc (step sorted_names) (opened tools) after_first.
Proof.
  assert (active first_begins !! 1%N = None) as H1 by (vm_compute; reflexivity).
  assert (active second_begins !! 0%N = Some (Uploading (u "tool-t.apk") 0)) as H2 by (vm_compute; reflexivity).
  assert (active first_reads !! 0%N = Some (Uploading (u "tool-t.apk") 2)) as H3 by (vm_compute; reflexivity).
  apply (rtc_l _ _ first_begins); [by apply begin_step|].
  apply (rtc_l _ _ second_begins); [exact (begin_step _ _ 1 _ _ _ _ H1)|].
  apply (rtc_l _ _ first_reads); [exact (read_step _ _ 0 _ _ _ H2)|].
  apply (rtc_l _ _ after_first); [exact (read_step _ _ 0 _ _ _ H3)|apply rtc_refl].
Qed.
Lemma reach_second : rtc (step sorted_names) after_first after_second.
Proof.
  assert (active after_first !! 1%N = Some (Uploading (u "tool-t-2.apk") 0)) as H by (vm_compute; reflexivity).
  apply (rtc_l _ _ after_second); [exact (read_step _ _ 1 _ _ _ H)|apply rtc_refl].
Qed.

Lemma reported_apks_stay_witness :
  reported after_first (u "tool-t.apk") 2 /\ apks after_second !! u "tool-t-2.apk" = None /\
  content <$> apks after_second !! u "tool-t.apk" = Some [1; 2]%N.
Proof.
  assert (reported after_first (u "tool-t.apk") 2) as Hrep by (exists 0%N; vm_compute; set_solver).
  split_and!; [exact Hrep|vm_compute; reflexivity|].
  destruct (reported_apks_stay _ tools _ _ _ _ reach_first reach_second Hrep) as (_ & _ & f & Hf & _ & Hf').
  rw Hf' -Hf. vm_compute. reflexivity.
Defined.
Lemma uploads_account_for_files_witness :
  apks after_first !! tool = Some (Stored [9%N] 0) /\ written_to after_first (u "tool-t-2.apk").
Proof.
  destruct (uploads_account_for_files _ tools _ reach_first) as [Hkept _]. split; [by apply Hkept|].
  exists 1%N, (Uploading (u "tool-t-2.apk") 0). split; vm_compute; reflexivity.
Defined.

(** A client that is being uploaded, or whose upload was cancelled, is what consoles are
    offered, however little of it has arrived. *)
Definition client_9 : depot := begin_upload 0 (part_of (u "styly-mdm-client_v9.0.0.apk")) (u "t") 1 (Ret tt) (opened ∅).
Lemma partial_client_is_offered :
  apk_name <$> latest_of (entries_of (sorted_names (apks client_9)) (apks client_9)) = Some (u "styly-mdm-client_v9.0.0.apk") /\
  content <$> apks client_9 !! u "styly-mdm-client_v9.0.0.apk" = Some [] /\ answered client_9 = [].
Proof. split_and!; vm_compute; reflexivity. Qed.
Lemma cancelled_upload_stays :
  let s := read_part sorted_names 0 (Uploading (u "styly-mdm-client_v9.0.0.apk") 0) ReadCancelled 2 client_9 in
  apks s = apks client_9 /\ active s = ∅ /\ answered s = [].
Proof. split_and!; vm_compute; reflexivity. Qed.
End Uploads.

(** ** Hashes are those of the file *)

(** When a path, a size and a time stand for one content, the hashes an installation is
    verified against are those of the file that is there, from the cache or not; there are
    none exactly when the name is not safe, no such file is there or it is no archive; the
    cache stays sound and within 16 entries. *)
Theorem hashes_are_those_of_the_file (history : stat_key -> file) (name : pystr) (dir : directory) (cache : hash_cache) :
  map_Forall (fun n f => history (stat n f) = content f) dir ->
  map_Forall (fun key h => _compute_apk_hashes (history key) = Ret h) cache -> (size cache <= 16)%nat ->
  let '(found, cache') := apk_hashes_for name dir dir cache in
  found =
    match sanitize_apk_filename (Some name) with
    | None => None
    | Some safe =>
        match dir !! safe with
        | None => None
        | Some f => match _compute_apk_hashes (content f) with Ret h => Some h | Raise _ => None end
        end
    end /\
  map_Forall (fun key h => _compute_apk_hashes (history key) = Ret h) cache' /\ (size cache' <= 16)%nat.
Proof.
  intros Hdir Hcache Hsize. rw /apk_hashes_for. destruct (sanitize_apk_filename (Some name)) as [safe|]; [|done].
  destruct (dir !! safe) as [f|] eqn:Hf; [|done]. pose proof (Hdir _ _ Hf) as Hh.
  destruct (cache !! stat safe f) as [h|] eqn:Hc.
  - pose proof (Hcache _ _ Hc) as Hok. rw Hh in Hok. by rw Hok.
  - cbn [fmap option_fmap option_map compose]. destruct (_compute_apk_hashes (content f)) as [h|e] eqn:Hk; [|done].
    split; [done|]. destruct (Nat.leb_spec 16 (size cache)).
    + split; [|rw insert_empty map_size_singleton; lia]. rw insert_empty map_Forall_singleton Hh //.
    + split; [apply map_Forall_insert_2; [by rw Hh|done]|]. by rw map_size_insert_None.
Qed.
Lemma hashes_are_those_of_the_file_witness :
  let dir : directory := {[u "a.apk" := Stored sample_archive 7]} in
  exists h, (apk_hashes_for (u "a.apk") dir dir ∅).1 = Some h /\ full_sha256 h = file_sha256 sample_archive.
Proof.
  intros dir. pose proof (hashes_are_those_of_the_file (fun _ => sample_archive) (u "a.apk") dir ∅) as Hall.
  destruct (apk_hashes_for (u "a.apk") dir dir ∅) as [found cache']. destruct Hall as [-> _].
  - by apply map_Forall_singleton.
  - apply map_Forall_empty.
  - rw map_size_empty. lia.
  - eexists. split; [vm_compute; reflexivity|]. vm_compute. reflexivity.
Defined.
