(* ===== verification/Bundles.v ===== *)
(** * The upload of a bundle (server.py)

    [upload_bundle_handler] writes the parts of a request below a directory of its own,
    archives them without the directory they share, and names the archive after it.  The
    request, failing files and a failing archive are the environment's.  No symbolic link
    is below the directory.  The Push/Sync jobs' own upload is Upload.v. *)

From S2P Require Import Prelude PyStr Text Json Sha256 Fingerprint Uuid Decode Integrity Paths Apks.
From S2P Require Api.
From stdpp Require Import gmap.
Open Scope Z_scope.

(** ** [urllib.parse.unquote] *)

(** [unquote_to_bytes] of a run of ASCII. *)
Fixpoint unquote_to_bytes (s : pystr) : file :=
  match s with
  | 37%N :: (a :: b :: s') as rest =>
      match digit16 a, digit16 b with
      | Some x, Some y => (x * 16 + y)%N :: unquote_to_bytes s'
      | _, _ => 37%N :: unquote_to_bytes rest
      end
  | c :: s' => c :: unquote_to_bytes s'
  | [] => []
  end.
Definition unquoted_run (run : pystr) : pystr :=
  let bytes := unquote_to_bytes run in decode_replace (length bytes) bytes.
(** The runs of ASCII are decoded, other characters stay; [run] is the run so far, reversed. *)
Fixpoint unquote_from (run s : pystr) : pystr :=
  match s with
  | [] => unquoted_run (reverse run)
  | c :: s' =>
      if (c <? 128)%N then unquote_from (c :: run) s'
      else unquoted_run (reverse run) ++ c :: unquote_from [] s'
  end.
Definition unquote (s : pystr) : pystr := unquote_from [] s.

Example unquotes : unquote (u "a%2Fb%e3%81%82%ff%zz%4") = u "a/b" ++ [12354; 65533]%N ++ u "%zz%4".
Proof. vm_compute. reflexivity. Qed.

(** ** The request *)

(** What is raised: an exception with its text, or the cancellation, which no clause
    catches. *)
Inductive mishap := Exn (text : pystr) | Cancelled.
(** A part: opening its file, and the chunks it gives. *)
Record part := Part {
  name : option pystr;
  filename : option pystr;
  opens : outcome mishap unit;
  chunks : list (outcome mishap file);
}.
Inductive bundle_reply :=
  | BundleBuilt (bundle_filename : pystr) (size entry_count skipped_count : Z)
  | BundleRefused (status : Z) (error : pystr).
Abbreviation bundles := (gmap pystr (list (pystr * file))).
(** How a pass over the parts stops early. *)
Inductive stop := Answer (status : Z) (error : pystr) | Failed (e : mishap).

(** The files below the request's directory, and the handler's variables. *)
Record staged := Staged {
  staging : gmap pystr file;
  total_size : Z;
  relpaths : list pystr;
  skipped : list pystr;
}.
#[export] Instance eta_staged : Settable staged := fun s =>
  Staged (staging s) (total_size s) (relpaths s) (skipped s).

Definition _is_within (root target : list pystr) : bool :=
  bool_decide (take (length (resolve root)) (resolve target) = resolve root).

(** A file is where a directory is wanted, or a directory where the file is. *)
Definition below (p q : pystr) : bool := startswith q (p ++ u "/").
Definition blocked (relpath : pystr) (files : gmap pystr file) : bool :=
  existsb (fun p => below p relpath || below relpath p) (map_to_list files).*1.

Section Handler.
(** The directory of the request as its segments, the archive's size, how archiving ends:
    opening it, and each entry; the texts of exceptions. *)
Context (root : list pystr) (zip_size : list (pystr * file) -> Z).
Context (zip_opens : option pystr) (zip_fault : nat -> option pystr) (quoted : pystr -> pystr).
Context (blocked_text encode_text : pystr).

(** [while True: chunk = await field.read_chunk(...)]: what was written, the total. *)
Fixpoint read_chunks (l : list (outcome mishap file)) (written : file) (total : Z) : outcome stop (file * Z) :=
  match l with
  | [] | Ret [] :: _ => Ret (written, total)
  | Raise e :: _ => Raise (Failed e)
  | Ret chunk :: rest =>
      let total := total + Z.of_nat (length chunk) in
      if Api.MAX_BUNDLE_SIZE <? total then Raise (Answer 413 (u "Bundle exceeds 2 GiB limit"))
      else read_chunks rest (written ++ chunk) total
  end.

(** What the names of a part say: nothing to do, an error, an entry. *)
Definition entry_path (p : part) : option (option pystr) :=
  if bool_decide (name p = Some (u "files")) then
    Some (sanitize_relpath (match filename p with Some (c :: f) => Some (unquote (c :: f)) | _ => None end))
  else None.

Definition receive_part (p : part) (st : staged) : outcome stop staged :=
  match entry_path p with
  | None => Ret st
  | Some None =>
      Raise (Answer 400
        (u "Invalid file path in upload: " ++ match filename p with Some f => quoted f | None => u "None" end))
  | Some (Some relpath) =>
      if is_os_metadata relpath then Ret (st <| skipped := skipped st ++ [relpath] |>)
      else if Api.MAX_BUNDLE_ENTRIES <=? Z.of_nat (length (relpaths st)) then
        Raise (Answer 413 (u "Bundle exceeds the " ++ str_of_int Api.MAX_BUNDLE_ENTRIES ++ u "-file limit"))
      else if negb (_is_within root (root ++ split_on slash relpath)) then
        Raise (Answer 400 (u "Invalid file path in upload"))
      else if blocked relpath (staging st) then Raise (Failed (Exn blocked_text))
      else
        match opens p with
        | Raise e => Raise (Failed e)
        | Ret _ =>
            '(written, total) ← read_chunks (chunks p) [] (total_size st);
            Ret (st <| staging := <[relpath := written]> (staging st) |> <| total_size := total |>
                    <| relpaths := relpaths st ++ [relpath] |>)
        end
  end.
Fixpoint receive (reader : list (outcome mishap part)) (st : staged) : outcome stop staged :=
  match reader with
  | [] => Ret st
  | Raise e :: _ => Raise (Failed e)
  | Ret p :: rest => st ← receive_part p st; receive rest st
  end.

(** ** The archive *)

(** Paths are ordered by their segments. *)
Fixpoint parts_leb (a b : list pystr) : bool :=
  match a, b with
  | [], _ => true
  | _ :: _, [] => false
  | x :: a', y :: b' => if streq x y then parts_leb a' b' else str_leb x y
  end.
Definition entry_le (a b : pystr * file) : Prop := parts_leb (split_on slash a.1) (split_on slash b.1) = true.
#[local] Instance entry_le_dec : RelDecision entry_le.
Proof. intros a b. unfold entry_le. apply _. Defined.

(** The path of a file below [content_root]. *)
Definition relative_to (content_root : option pystr) (p : pystr) : option pystr :=
  match content_root with None => Some p | Some r => Json.strip_prefix (r ++ u "/") p end.
Definition files_below (content_root : option pystr) (files : gmap pystr file) : list (pystr * file) :=
  merge_sort entry_le
    (omap (fun pf => (fun n => (n, pf.2)) <$> relative_to content_root pf.1) (map_to_list files)).

(** [zf.write] for each of them: the entries that are in the archive, and what was raised;
    a name that has no UTF-8 raises. *)
Fixpoint zip_entries (n : nat) (l : list (pystr * file)) : list (pystr * file) * option pystr :=
  match l with
  | [] => ([], None)
  | e :: rest =>
      match utf8_encode e.1, zip_fault n with
      | None, _ => ([], Some encode_text)
      | _, Some t => ([], Some t)
      | Some _, None => let '(done, r) := zip_entries (S n) rest in (e :: done, r)
      end
  end.
Definition zip_tree (content_root : option pystr) (files : gmap pystr file) (dest : pystr) (dir : bundles)
    : outcome pystr unit * bundles :=
  match zip_opens with
  | Some t => (Raise t, dir)
  | None =>
      let '(entries, r) := zip_entries 0 (files_below content_root files) in
      (match r with Some t => Raise t | None => Ret tt end, <[dest := entries]> dir)
  end.

(** ** The handler *)

(** A free name of [bundles]: the directory as [unique_bundle_path] sees it. *)
Definition names (dir : bundles) : directory := (fun _ => Stored [] 0) <$> dir.
Definition failed_to_build (e : pystr) : bundle_reply := BundleRefused 500 (u "Failed to build bundle: " ++ e).

Definition build_bundle (timestamp : pystr) (st : staged) (dir : bundles) : bundle_reply * bundles :=
  match relpaths st with
  | [] =>
      (BundleRefused 400
        (match skipped st with
         | [] => u "multipart field 'files' is required"
         | _ => u "Upload contained only OS metadata files; nothing to send"
         end), dir)
  | _ =>
      let content_root := (strip_common_root (relpaths st)).1 in
      let base := match content_root with Some r => bundle_basename [r] | None => bundle_basename (relpaths st) end in
      let bundle_path := unique_bundle_path (base ++ u ".zip") timestamp (names dir) in
      match zip_tree content_root (staging st) bundle_path dir with
      | (Raise t, dir) => (failed_to_build t, dir)
      | (Ret _, dir) =>
          (BundleBuilt bundle_path (zip_size (default [] (dir !! bundle_path)))
             (Z.of_nat (length (relpaths st))) (Z.of_nat (length (skipped st))), dir)
      end
  end.

(** No reply is made when the handler is cancelled; [dir] is the directory when the last
    part has been read. *)
Definition upload_bundle_handler (multipart : outcome pystr (list (outcome mishap part))) (timestamp : pystr)
    (dir : bundles) : option bundle_reply * bundles :=
  match multipart with
  | Raise e => (Some (BundleRefused 400 (u "Invalid multipart request: " ++ e)), dir)
  | Ret reader =>
      match receive reader (Staged ∅ 0 [] []) with
      | Raise (Answer status error) => (Some (BundleRefused status error), dir)
      | Raise (Failed (Exn e)) => (Some (failed_to_build e), dir)
      | Raise (Failed Cancelled) => (None, dir)
      | Ret st => let '(r, dir) := build_bundle timestamp st dir in (Some r, dir)
      end
  end.
End Handler.

(** ** What was sent *)

Fixpoint whole (l : list (outcome mishap file)) : file :=
  match l with Ret (b :: chunk) :: rest => (b :: chunk) ++ whole rest | _ => [] end.
(** The content files of a request, in order, a path possibly more than once. *)
Definition content_file (p : part) : option (pystr * file) :=
  match entry_path p with
  | Some (Some r) => if is_os_metadata r then None else Some (r, whole (chunks p))
  | _ => None
  end.
Definition content_files (reader : list (outcome mishap part)) : list (pystr * file) :=
  omap (fun r => match r with Ret p => content_file p | Raise _ => None end) reader.
(** A path that is sent again is the later file. *)
Definition tree_of (l : list (pystr * file)) : gmap pystr file :=
  foldl (fun m e => <[e.1 := e.2]> m) ∅ l.
Definition bytes_of (l : list (pystr * file)) : Z := foldr Z.add 0 ((fun e => Z.of_nat (length e.2)) <$> l).
Definition under (content_root : option pystr) (q : pystr) : pystr :=
  match content_root with None => q | Some r => r ++ u "/" ++ q end.

Section Facts.
Context (root : list pystr) (zip_size : list (pystr * file) -> Z).
Context (zip_opens : option pystr) (zip_fault : nat -> option pystr) (quoted : pystr -> pystr).
Context (blocked_text encode_text : pystr).
Local Abbreviation receive_part := (receive_part root quoted blocked_text).
Local Abbreviation receive := (receive root quoted blocked_text).
Local Abbreviation upload_bundle_handler :=
  (upload_bundle_handler root zip_size zip_opens zip_fault quoted blocked_text encode_text).

Lemma bytes_app a b : bytes_of (a ++ b) = bytes_of a + bytes_of b.
Proof. rw /bytes_of fmap_app. induction a as [|e a IH]; [done|]. cbn [fmap list_fmap foldr app] in *. rw IH. lia. Qed.

Lemma read_chunks_spec l w t w' t' :
  t <= Api.MAX_BUNDLE_SIZE -> read_chunks l w t = Ret (w', t') ->
  w' = w ++ whole l /\ t' = t + Z.of_nat (length (whole l)) /\ t' <= Api.MAX_BUNDLE_SIZE.
Proof.
  induction l as [|[[|b chunk]|e] l IH] in w, t |- *; cbn [read_chunks whole]; intros Ht.
  - intros [= <- <-]. rw app_nil_r /=. split_and!; [done|lia|lia].
  - intros [= <- <-]. rw app_nil_r /=. split_and!; [done|lia|lia].
  - destruct (Z.ltb_spec Api.MAX_BUNDLE_SIZE (t + Z.of_nat (length (b :: chunk)))); [done|].
    intros (-> & -> & ?)%IH; [|lia]. rw -app_assoc !length_app. split_and!; [done|lia|lia].
  - done.
Qed.

(** The variables agree with the files that were sent so far. *)
Definition staged_ok (l : list (pystr * file)) (st : staged) : Prop :=
  staging st = tree_of l /\ relpaths st = l.*1 /\ total_size st = bytes_of l /\
  total_size st <= Api.MAX_BUNDLE_SIZE /\ Z.of_nat (length l) <= Api.MAX_BUNDLE_ENTRIES.
Lemma receive_part_ok p l st st' :
  staged_ok l st -> receive_part p st = Ret st' ->
  staged_ok (l ++ match content_file p with Some e => [e] | None => [] end) st'.
Proof.
  intros (Hs & Hr & Ht & Hmax & Hn). rw /Bundles.receive_part /content_file.
  destruct (entry_path p) as [[r|]|]; [|done|by intros [= <-]; rw app_nil_r].
  destruct (is_os_metadata r); [by intros [= <-]; rw app_nil_r|].
  rw Hr length_fmap. destruct (Z.leb_spec Api.MAX_BUNDLE_ENTRIES (Z.of_nat (length l))) as [|Hlt]; [done|].
  destruct (negb _); [done|]. destruct (blocked _ _); [done|]. destruct (opens p); [|done].
  destruct (read_chunks (chunks p) [] (total_size st)) as [[w t]|e] eqn:E; [|done].
  apply read_chunks_spec in E as (-> & -> & Hle); [|done]. intros [= <-]. rw /staged_ok /=.
  rw /tree_of foldl_app -/(tree_of l) Hs fmap_app bytes_app length_app /bytes_of /= -/(bytes_of l) Ht.
  split_and!; [done..|lia| |lia]. by rw -Ht.
Qed.
Lemma receive_ok reader l st st' :
  staged_ok l st -> receive reader st = Ret st' -> staged_ok (l ++ content_files reader) st'.
Proof.
  induction reader as [|[p|e] reader IH] in l, st |- *; cbn [Bundles.receive]; intros Hst.
  - intros [= <-]. by rw app_nil_r.
  - destruct (receive_part p st) as [st1|e] eqn:E; [|done]. intros Hr.
    apply (receive_part_ok _ _ _ _ Hst) in E. apply (IH _ _ E) in Hr.
    rw /content_files /= -/(content_files reader). rw -app_assoc in Hr. by destruct (content_file p).
  - done.
Qed.

(** ** The archive holds the tree *)

Lemma split_once_spec sep s a o :
  split_once sep s = (a, o) -> match o with None => s = a /\ (sep ∉ s) | Some b => s = a ++ sep :: b end.
Proof.
  induction s as [|c s IH] in a, o |- *; cbn [split_once]; [intros [= <- <-]; set_solver|].
  destruct (N.eqb_spec c sep) as [->|Hc]; [by intros [= <- <-]|].
  destruct (split_once sep s) as [a' o'] eqn:E. intros [= <- <-]. specialize (IH _ _ eq_refl).
  destruct o' as [b|]; [by rw IH|]. destruct IH as [<- ?]. split; [done|set_solver].
Qed.
Lemma common_root_under l r rest p :
  strip_common_root l = (Some r, rest) -> p ∈ l -> exists q, p = under (Some r) q.
Proof.
  rw /strip_common_root. destruct (_ || _) eqn:E; [done|]. apply orb_false_iff in E as [_ Hall].
  destruct (remove_dups (first_segment <$> l)) as [|r' [|]] eqn:Er; [done| |done]. intros [= <- _] Hin.
  assert (first_segment p ∈ remove_dups (first_segment <$> l)) as Hf
    by by apply elem_of_remove_dups, list_elem_of_fmap_2.
  rw Er list_elem_of_singleton /first_segment in Hf. destruct (split_once slash p) as [a o] eqn:Es.
  simpl in Hf. subst a. apply split_once_spec in Es. destruct o as [b|]; [by exists b|]. destruct Es as [_ Hno].
  exfalso. apply not_true_iff_false in Hall. apply Hall, existsb_exists. exists p. split; [by apply list_elem_of_In|].
  by rw bool_decide_eq_false_2.
Qed.
Lemma relative_under content_root p q : relative_to content_root p = Some q <-> p = under content_root q.
Proof.
  destruct content_root as [r|]; cbn [relative_to under]; [|naive_solver]. rw /Json.strip_prefix app_assoc. split.
  - destruct (startswith p (r ++ u "/")) eqn:E; [|done]. apply startswith_spec in E as [t ->].
    rw drop_app_length. by intros [= ->].
  - intros ->. assert (startswith ((r ++ u "/") ++ q) (r ++ u "/") = true) as -> by (apply startswith_spec; by exists q).
    by rw drop_app_length.
Qed.
Lemma files_below_spec content_root files q b :
  (q, b) ∈ files_below content_root files <-> files !! under content_root q = Some b.
Proof.
  rw /files_below merge_sort_Permutation list_elem_of_omap. split.
  - intros ([p f] & Hin%elem_of_map_to_list & (q' & Hq%relative_under & [= <- <-])%fmap_Some). by rw -Hq.
  - intros Hf. exists (under content_root q, b). split; [by apply elem_of_map_to_list|].
    apply fmap_Some. exists q. split; [by apply relative_under|done].
Qed.
Lemma files_below_nodup content_root files : NoDup (files_below content_root files).*1.
Proof.
  rw /files_below merge_sort_Permutation. pose proof (NoDup_fst_map_to_list files) as Hnd. revert Hnd.
  generalize (map_to_list files). intros l. induction l as [|[p f] l IH]; [by rw /=; constructor|].
  cbn [fmap list_fmap fst omap list_omap]. intros [Hp Hl]%NoDup_cons.
  destruct (relative_to content_root p) as [q|] eqn:E; cbn; [|by apply IH]. constructor; [|by apply IH].
  intros ([q' f'] & Heq & ([p' g] & Hin & (q2 & Hq2 & [= -> ->])%fmap_Some)%list_elem_of_omap)%list_elem_of_fmap.
  simpl in Heq. subst q2. apply relative_under in E, Hq2. apply Hp, list_elem_of_fmap.
  exists (p', g). split; [simpl in *; congruence|done].
Qed.
Lemma zip_entries_all n l entries :
  zip_entries zip_fault encode_text n l = (entries, None) -> entries = l.
Proof.
  induction l as [|e l IH] in n, entries |- *; cbn [zip_entries]; [by intros [= <-]|].
  destruct (utf8_encode e.1); [|done]. destruct (zip_fault n); [done|].
  destruct (zip_entries zip_fault encode_text (S n) l) as [done r] eqn:E. intros [= <- ->]. f_equal. by eapply IH.
Qed.
Lemma tree_of_lookup l p b : tree_of l !! p = Some b -> p ∈ l.*1.
Proof.
  induction l as [|e l IH] using rev_ind; [done|]. rw /tree_of foldl_app -/(tree_of l) fmap_app /=.
  intros [[<- _]|[_ ?]]%lookup_insert_Some; set_solver.
Qed.

Lemma unique_bundle_path_free n ts (dir : bundles) : dir !! unique_bundle_path n ts (names dir) = None.
Proof.
  pose proof (unique_apk_path_free n ts (names dir)) as Hf. rw /names lookup_fmap in Hf.
  by destruct (dir !! unique_apk_path n ts _) eqn:E; rw /unique_bundle_path -/(unique_apk_path n ts (names dir)) ?E.
Qed.

(** C13: A bundle that is reported as built holds what was sent: its archive, under a name
    that was free, has one entry for every content file of the request and no other, with
    the bytes of that file (the last one, when a path was sent again), named by the path
    without the directory all of them share; it stays within 5000 files and 2 GiB, and
    the count that is reported is that of the files sent. *)
Theorem bundle_holds_the_upload reader timestamp dir bundle_name size count skipped_count dir' :
  upload_bundle_handler (Ret reader) timestamp dir = (Some (BundleBuilt bundle_name size count skipped_count), dir') ->
  let sent := content_files reader in
  exists entries shared,
    dir !! bundle_name = None /\ dir' = <[bundle_name := entries]> dir /\ size = zip_size entries /\
    NoDup entries.*1 /\ (forall q b, (q, b) ∈ entries <-> tree_of sent !! under shared q = Some b) /\
    (forall p, p ∈ sent.*1 -> exists q, p = under shared q) /\
    count = Z.of_nat (length sent) /\ 0 < count <= Api.MAX_BUNDLE_ENTRIES /\ bytes_of sent <= Api.MAX_BUNDLE_SIZE.
Proof.
  rw /Bundles.upload_bundle_handler. destruct (receive reader (Staged ∅ 0 [] [])) as [st|[|[|]]] eqn:Er; [|done..].
  assert (staged_ok [] (Staged ∅ 0 [] [])) as H0 by by split_and!.
  apply (receive_ok _ _ _ _ H0) in Er as (Hs & Hr & Ht & Hmax & Hn). simpl in Hs, Hr, Ht, Hn.
  rw /build_bundle Hr. destruct (content_files reader).*1 as [|p0 ps] eqn:Ep; [done|]. rw -Ep.
  destruct (strip_common_root (content_files reader).*1) as [shared rest] eqn:Ec. cbn [fst].
  rw /zip_tree.
  destruct zip_opens; [done|].
  destruct (zip_entries zip_fault encode_text 0 (files_below shared (staging st))) as [entries [t|]] eqn:Ez; [done|].
  apply zip_entries_all in Ez as ->. intros [= <- <- <- <- <-]. rw lookup_insert_eq Hs.
  exists (files_below shared (tree_of (content_files reader))), shared.
  split; [apply unique_bundle_path_free|]. do 2 (split; [done|]). split; [apply files_below_nodup|]. split; [intros q b; apply files_below_spec|].
  split; [|split; [by rw length_fmap|split; [|by rw -Ht]]].
  - intros p Hp. destruct shared as [r|]; [|by exists p]. by eapply common_root_under.
  - rw length_fmap. apply (f_equal length) in Ep. rw length_fmap /= in Ep. lia.
Qed.

(** A bundle that is not built leaves the directory of bundles as it was, unless it
    was the archiving that failed; that leaves one new file. *)
Theorem refused_bundle_leaves_nothing multipart timestamp dir r dir' :
  upload_bundle_handler multipart timestamp dir = (r, dir') ->
  (forall n size count skipped_count, r <> Some (BundleBuilt n size count skipped_count)) ->
  dir' = dir \/
  exists reader st shared t, multipart = Ret reader /\ receive reader (Staged ∅ 0 [] []) = Ret st /\
    (zip_entries zip_fault encode_text 0 (files_below shared (staging st))).2 = Some t /\ r = Some (failed_to_build t) /\
    exists n entries, dir !! n = None /\ dir' = <[n := entries]> dir.
Proof.
  rw /Bundles.upload_bundle_handler. destruct multipart as [reader|e]; [|intros [= <- <-] _; by left].
  destruct (receive reader (Staged ∅ 0 [] [])) as [st|[|[|]]] eqn:Er; [|by intros [= <- <-] _; left..].
  rw /build_bundle. destruct (relpaths st) as [|p0 ps]; [by intros [= <- <-] _; left|].
  destruct (strip_common_root (p0 :: ps)) as [shared rest]. cbn [fst]. rw /zip_tree.
  destruct zip_opens; [by intros [= <- <-] _; left|].
  destruct (zip_entries zip_fault encode_text 0 (files_below shared (staging st))) as [entries [t|]] eqn:Ez.
  - intros [= <- <-] _. right. exists reader, st, shared, t. rw Ez. do 4 (split; [done|]).
    do 2 eexists. split; [apply unique_bundle_path_free|done].
  - intros [= <- <-] Hno. by edestruct Hno.
Qed.
End Facts.

(** ** Examples *)

Section Examples.
Local Abbreviation place := [u "data"; u "bundles"; u "upload-x"].
Local Abbreviation no_fault := (fun _ : nat => None : option pystr).
Local Abbreviation entries_size := (fun l : list (pystr * file) => Z.of_nat (length l)).
Definition sends (f : string) (bytes : file) : outcome mishap part :=
  Ret (Part (Some (u "files")) (Some (u f)) (Ret tt) [Ret bytes; Ret []]).
Arguments sends f%_string.
Definition folder : list (outcome mishap part) :=
  [sends "show/a.txt" [1%N]; sends "show/.DS_Store" [2%N]; sends "show%2Fsub%2Fb.txt" [3; 4]%N; sends "show/a.txt" [5%N]].
Local Abbreviation upload := (upload_bundle_handler place entries_size None no_fault (fun s => s) (u "taken") (u "surrogates")).

Lemma bundle_holds_the_upload_witness :
  let dir : bundles := {[u "show.zip" := []]} in
  exists dir', upload (Ret folder) (u "t") dir = (Some (BundleBuilt (u "show-t.zip") 2 3 1), dir') /\
    exists entries, dir' !! u "show-t.zip" = Some entries /\ (u "a.txt", [5%N]) ∈ entries.
Proof.
  intros dir.
  assert (upload (Ret folder) (u "t") dir =
          (Some (BundleBuilt (u "show-t.zip") 2 3 1), (upload (Ret folder) (u "t") dir).2)) as Hu by (vm_compute; reflexivity).
  exists (upload (Ret folder) (u "t") dir).2. refine (conj Hu _).
  destruct (bundle_holds_the_upload place entries_size None no_fault (fun s => s) (u "taken") (u "surrogates")
              folder (u "t") dir _ _ _ _ _ Hu) as (entries & shared & _ & Hdir & _).
  exists [(u "a.txt", [5%N]); (u "sub/b.txt", [3; 4]%N)]. split; [vm_compute; reflexivity|apply elem_of_cons; left; reflexivity].
Defined.

(** A file name that has no UTF-8 is refused only after its archive has been begun, and
    the archive stays. *)
Definition undecodable : list (outcome mishap part) :=
  [sends "a.txt" [1%N]; Ret (Part (Some (u "files")) (Some [56575%N]) (Ret tt) [Ret [2%N]])].
Lemma failed_bundle_stays :
  upload (Ret undecodable) (u "t") ∅ =
    (Some (failed_to_build (u "surrogates")), {[u "bundle.zip" := [(u "a.txt", [1%N])]]}).
Proof. vm_compute. reflexivity. Qed.
Lemma refused_bundle_leaves_nothing_witness :
  (upload (Ret [sends "../a" [1%N]]) (u "t") ∅).2 = ∅ /\
  exists r, (upload (Ret [sends "../a" [1%N]]) (u "t") ∅).1 = Some (BundleRefused 400 r).
Proof.
  assert (upload (Ret [sends "../a" [1%N]]) (u "t") ∅ =
    (Some (BundleRefused 400 (u "Invalid file path in upload: ../a")), ∅)) as Hu by (vm_compute; reflexivity).
  destruct (refused_bundle_leaves_nothing place entries_size None no_fault (fun s => s) (u "taken") (u "surrogates")
    _ _ _ _ _ Hu) as [Hd|(reader & st & shared & t & _ & _ & _ & [=] & _)]; [congruence|].
  split; [by rw Hu|]. eexists. by rw Hu.
Defined.
End Examples.
