(* ===== verification/Intake.v ===== *)
(** * Install and push commands of the console (server.py)

    [handle_install_apk] and [handle_push_files] check a command, acknowledge it and start
    a job; the job is that of Install.v.  The other commands are in Commands.v, and
    [transfer_rest] is what [admin_frame] does with these two. *)

From S2P Require Import Prelude PyStr Text Json Policy Paths Transfers Install Integrity Apks Storing.
From S2P Require Import Fleet Registry Groups Membership Commands Commanding.
Open Scope Z_scope.

(** What [create_task] is given. *)
Inductive transfer_job :=
  | InstallJob (apk_url apk_filename : json) (target_ids : list json)
  | PushJob (bundle_url bundle_filename : json) (dest_path : pystr) (delete_extras : bool) (target_ids : list json).
Definition job_targets (j : transfer_job) : list json :=
  match j with InstallJob _ _ ids | PushJob _ _ _ _ ids => ids end.

Section Intake.
Context {H : host} (MAX_CONCURRENT_TRANSFERS : Z).

Definition resolve_for (allow_legacy : bool) (data : record) : Handler (list json) :=
  s ← look id;
  of_outcome (resolve_target_ids (target_devices data) allow_legacy s).

(** The targets, then the acknowledgement, then the job. *)
Definition accept (allow_legacy : bool) (data : record) (sent_type : string) (fields : record)
    (job : list json -> transfer_job) : Handler (option transfer_job) :=
  target_ids ← resolve_for allow_legacy data;
  match target_ids with
  | [] => error_reply no_match ;; mret None
  | _ =>
      send TheAdmin (typed sent_type (fields ++ [field "target_count" (JInt (Z.of_nat (length target_ids)));
                                                 field "max_concurrent" (JInt MAX_CONCURRENT_TRANSFERS)])) ;;
      mret (Some (job target_ids))
  end.

Definition handle_install_apk (data : record) : Handler (option transfer_job) :=
  let apk_url := field_or "apk_url" empty_text data in
  let apk_filename := field_or "apk_filename" empty_text data in
  if negb (truthy apk_url) then error_reply (u "apk_url is required") ;; mret None
  else
    accept true data "INSTALL_SENT" [field "apk_filename" apk_filename; field "apk_url" apk_url]
      (InstallJob apk_url apk_filename).

(** [(data.get("dest_path") or "").strip()]. *)
Definition dest_path_of (data : record) : Handler pystr :=
  match get (u "dest_path") data with
  | JStr s => mret (strip s)
  | v => if truthy v then raise AttributeError else mret []
  end.
Definition handle_push_files (data : record) : Handler (option transfer_job) :=
  let bundle_url := field_or "bundle_url" empty_text data in
  let bundle_filename := field_or "bundle_filename" empty_text data in
  dest_path ← dest_path_of data;
  let delete_extras := is_true (get (u "delete_extras") data) in
  if negb (truthy bundle_url) then error_reply (u "bundle_url is required") ;; mret None
  else
    match validate_dest_path (JStr dest_path) with
    | Some dest_error => error_reply dest_error ;; mret None
    | None =>
        accept false data "PUSH_FILES_SENT"
          [field "bundle_filename" bundle_filename; field "dest_path" (JStr dest_path);
           field "delete_extras" (JBool delete_extras)]
          (PushJob bundle_url bundle_filename dest_path delete_extras)
    end.

Definition transfer_command (data : record) : option (Handler (option transfer_job)) :=
  if eq_str (get (u "type") data) (u "INSTALL_APK") then Some (handle_install_apk data)
  else if eq_str (get (u "type") data) (u "PUSH_FILES") then Some (handle_push_files data)
  else None.
(** What is left of a console's message; an unknown one is ignored. *)
Definition transfer_rest (data : record) : Handler unit :=
  match transfer_command data with Some handler => handler ;; mret tt | None => mret tt end.

(** ** What a job sends *)

(** [_run_install_job] and [_run_push_job] before their dispatchers. *)
Definition execute_message (j : transfer_job) (hashes : option apk_hashes) : record :=
  match j with
  | InstallJob apk_url apk_filename _ =>
      typed "EXECUTE_INSTALL"
        ([field "apk_url" apk_url; field "apk_filename" apk_filename] ++
         match hashes with
         | Some h => [field "full_sha256" (JStr (full_sha256 h)); field "cd_sha256" (JStr (cd_sha256 h))]
         | None => []
         end)
  | PushJob bundle_url bundle_filename dest_path delete_extras _ =>
      typed "EXECUTE_PUSH_FILES"
        [field "bundle_url" bundle_url; field "bundle_filename" bundle_filename;
         field "dest_path" (JStr dest_path); field "delete_extras" (JBool delete_extras)]
  end.
Definition device_ids (j : transfer_job) : list pystr := omap as_str (job_targets j).
Definition job_of (j : transfer_job) : job :=
  new_job (match j with InstallJob _ _ _ => TInstall | PushJob _ _ _ _ _ => TPush end) (device_ids j).
Definition start (j : transfer_job) (h : hub) : hub := h <| jobs := jobs h ++ [job_of j] |>.

(** [broadcast_push_state]. *)
Definition broadcast_push_state (device_ids : list pystr) (state : string) (dest_path : pystr) (delete_extras : bool)
    (detail : pystr) : Handler unit :=
  match device_ids with
  | [] => mret tt
  | _ =>
      broadcast (JObj (typed "PUSH_DEVICE_STATE"
        [field "device_ids" (JArr (JStr <$> device_ids)); field "state" (JStr (u state)); field "dest_path" (JStr dest_path);
         field "delete_extras" (JBool delete_extras); field "detail" (JStr detail)]))
  end.
(** [broadcast_progress] of a job with the counts as they are. *)
Definition progress_message (j : transfer_job) (total : Z) (c : counters) (done : bool) : record :=
  match j with
  | InstallJob apk_url apk_filename _ =>
      typed "INSTALL_PROGRESS" [field "apk_filename" apk_filename; field "apk_url" apk_url]
  | PushJob _ bundle_filename dest_path delete_extras _ =>
      typed "PUSH_PROGRESS"
        [field "bundle_filename" bundle_filename; field "dest_path" (JStr dest_path); field "delete_extras" (JBool delete_extras)]
  end ++
  [field "total" (JInt total); field "queued" (JInt (queued c)); field "transferring" (JInt (transferring c));
   field "transferred" (JInt (transferred c)); field "failed" (JInt (failed c)); field "done" (JBool done)].
End Intake.

(** ** Targets *)

Lemma permitted_filter command targets s ids :
  permitted command targets s = Ret ids ->
  ids = filter (fun d => command_allowed (o_fields <$> device_of d s) command = true) targets.
Proof.
  induction targets as [|d targets IH] in ids |- *; cbn [permitted]; [by intros [= <-]|].
  destruct (negb (is_hashable d)); [done|]. destruct (permitted command targets s) as [rest|e]; [|done].
  intros [= <-]. rw filter_cons -(IH rest eq_refl).
  destruct (command_allowed _ command) eqn:E; by case_decide.
Qed.
(** What a target of a command is: a device that is connected and may receive it. *)
Definition reaches (command : option pystr) (s : fleet) (d : json) : Prop :=
  exists id entry, d = JStr id /\ lookup_by streq id (devices s) = Some entry /\
    command_allowed (Some (o_fields entry)) command = true.
Lemma permitted_reaches command targets s ids :
  permitted command targets s = Ret ids -> Forall (reaches command s) ids.
Proof.
  intros ->%permitted_filter. apply Forall_forall. intros d [Ha _]%list_elem_of_filter.
  destruct d as [| | | |id| |]; try done. cbn [device_of] in Ha.
  destruct (lookup_by streq id (devices s)) as [entry|] eqn:E; [|done]. by exists id, entry.
Qed.
Lemma resolved_reaches td legacy s ids :
  resolve_target_ids td legacy s = Ret ids ->
  Forall (reaches (if legacy then Some (u "EXECUTE_INSTALL") else None) s) ids.
Proof.
  rw /resolve_target_ids. destruct (everyone td); [by apply permitted_reaches|].
  destruct (iterate td); [by apply permitted_reaches|done].
Qed.
(** A device that may receive an unnamed command may receive all. *)
Lemma allowed_all fields command :
  command_allowed (Some fields) None = true -> command_allowed (Some fields) command = true.
Proof.
  rw /command_allowed. destruct (negb _); [done|]. destruct (eq_str _ (u "canonical")); [done|].
  destruct (eq_str _ (u "legacy")); [by rw bool_decide_eq_false_2|]. by destruct (eq_str _ (u "provisional")).
Qed.

Section Checked.
Context {H : host} (MAX_CONCURRENT_TRANSFERS : Z).

Definition error_frame (text : pystr) : peer * json :=
  (TheAdmin, JObj [field "type" (JStr (u "ERROR")); field "message" (JStr text)]).
Lemma refused_with text (s s' : desk) r :
  (error_reply text ;; mret (None : option transfer_job)) s = (Ret r, s') -> r = None /\ sent s' = sent s ++ [error_frame text].
Proof. by intros ([] & s1 & E%send_ret & [= <- <-])%bind_ret. Qed.
Lemma accepted legacy data sent_type fields job s r s' :
  accept MAX_CONCURRENT_TRANSFERS legacy data sent_type fields job s = (Ret r, s') ->
  exists ids, resolve_target_ids (target_devices data) legacy (memory s) = Ret ids /\
    ((ids = [] /\ r = None /\ sent s' = sent s ++ [error_frame no_match]) \/
     (ids <> [] /\ r = Some (job ids) /\
      sent s' = sent s ++ [(TheAdmin, JObj (typed sent_type
        (fields ++ [field "target_count" (JInt (Z.of_nat (length ids)));
                    field "max_concurrent" (JInt MAX_CONCURRENT_TRANSFERS)])))])).
Proof.
  intros (ids & s1 & E1 & E)%bind_ret. exists ids.
  assert (s1 = s /\ resolve_target_ids (target_devices data) legacy (memory s) = Ret ids) as [-> Hr].
  { rw /resolve_for look_does in E1. by injection E1. }
  split; [done|]. destruct ids as [|id ids].
  - apply refused_with in E as [-> E]. by left.
  - right. by apply bind_ret in E as ([] & s2 & E2%send_ret & [= <- <-]).
Qed.
Lemma target_count_told sent_type fields n :
  countless sent_type fields ->
  get (u "target_count") (typed sent_type (fields ++ [field "target_count" (JInt n);
    field "max_concurrent" (JInt MAX_CONCURRENT_TRANSFERS)])) = JInt n.
Proof. intros [_ Hc]. by rw /typed app_comm_cons -/(typed sent_type fields) /get assoc_get_app Hc. Qed.

(** What a job is, when it was checked. *)
Definition checked (data : record) (s : fleet) (job : transfer_job) : Prop :=
  match job with
  | InstallJob apk_url _ ids =>
      apk_url = field_or "apk_url" empty_text data /\ truthy apk_url = true /\
      Forall (reaches (Some (u "EXECUTE_INSTALL")) s) ids
  | PushJob bundle_url _ dest_path delete_extras ids =>
      bundle_url = field_or "bundle_url" empty_text data /\ truthy bundle_url = true /\
      validate_dest_path (JStr dest_path) = None /\
      (delete_extras = true <-> get (u "delete_extras") data = JBool true) /\
      Forall (fun d => forall command, reaches command s d) ids
  end.

Lemma install_checked data s r s' :
  handle_install_apk MAX_CONCURRENT_TRANSFERS data s = (Ret r, s') ->
  (r = None /\ exists text, sent s' = sent s ++ [error_frame text]) \/
  exists job reply, r = Some job /\ checked data (memory s) job /\ job_targets job <> [] /\
    sent s' = sent s ++ [(TheAdmin, JObj reply)] /\ get (u "target_count") reply = JInt (Z.of_nat (length (job_targets job))).
Proof.
  rw /handle_install_apk. destruct (truthy (field_or "apk_url" empty_text data)) eqn:Eu; cbn [negb].
  - intros (ids & Hr & [(-> & -> & E)|(Hne & -> & E)])%accepted; [left; eauto|right].
    do 2 eexists. split; [done|]. split; [split; [done|split; [done|by apply resolved_reaches in Hr]]|].
    split; [done|]. split; [exact E|]. by apply target_count_told.
  - intros [-> E]%refused_with. left; eauto.
Qed.
Lemma push_checked data s r s' :
  handle_push_files MAX_CONCURRENT_TRANSFERS data s = (Ret r, s') ->
  (r = None /\ exists text, sent s' = sent s ++ [error_frame text]) \/
  exists job reply, r = Some job /\ checked data (memory s) job /\ job_targets job <> [] /\
    sent s' = sent s ++ [(TheAdmin, JObj reply)] /\ get (u "target_count") reply = JInt (Z.of_nat (length (job_targets job))).
Proof.
  intros (dest & s1 & E1 & E)%bind_ret.
  assert (s1 = s) as -> by (rw /dest_path_of in E1; repeat case_match; by injection E1).
  clear E1. destruct (truthy (field_or "bundle_url" empty_text data)) eqn:Eu; cbn [negb] in E.
  - destruct (validate_dest_path (JStr dest)) as [text|] eqn:Ed; [apply refused_with in E as [-> E]; left; eauto|].
    apply accepted in E as (ids & Hr & [(-> & -> & E)|(Hne & -> & E)]); [left; eauto|right].
    do 2 eexists. split; [done|]. split; [split_and!|].
    + done.
    + done.
    + done.
    + by apply is_true_spec.
    + apply resolved_reaches in Hr. eapply Forall_impl; [exact Hr|]. intros d (id & entry & -> & Hl & Ha) command.
      exists id, entry. split_and!; [done|done|by apply allowed_all].
    + split; [done|]. split; [exact E|]. by apply target_count_told.
  - apply refused_with in E as [-> E]. left; eauto.
Qed.

(** The ids of a checked job are those of connected devices. *)
Lemma checked_ids data s job : checked data s job -> JStr <$> device_ids job = job_targets job.
Proof.
  assert (forall command ids, Forall (reaches command s) ids -> JStr <$> omap as_str ids = ids) as Hall.
  { intros command ids. induction 1 as [|d ids (id & entry & -> & _) _ IH]; [done|]. cbn. by f_equal. }
  rw /device_ids. destruct job as [? ? ids|? ? ? ? ids]; cbn; intros Hc.
  - destruct Hc as (_ & _ & Hc). by eapply Hall.
  - destruct Hc as (_ & _ & _ & _ & Hc). apply (Hall None). eapply Forall_impl; [exact Hc|]. auto.
Qed.

Lemma transfer_checked data m s r s' :
  transfer_command MAX_CONCURRENT_TRANSFERS data = Some m -> m s = (Ret r, s') ->
  (r = None /\ exists text, sent s' = sent s ++ [error_frame text]) \/
  exists job reply, r = Some job /\ checked data (memory s) job /\ job_targets job <> [] /\
    sent s' = sent s ++ [(TheAdmin, JObj reply)] /\ get (u "target_count") reply = JInt (Z.of_nat (length (job_targets job))).
Proof.
  rw /transfer_command. repeat case_match; intros [= <-]; [apply install_checked|apply push_checked].
Qed.
End Checked.

#[local] Opaque validate_dest_path.
Section Kept.
Context {H : host} (MAX_CONCURRENT_TRANSFERS : Z).
Context (I : fleet -> Prop) (Hothers : forall n s, I s -> I (others n s)).

Lemma keeps_refused text : keeps I (error_reply text ;; mret (None : option transfer_job)).
Proof. apply holds_bind; [by apply keeps_error|intros _; apply holds_ret]. Qed.
Lemma keeps_accept legacy data sent_type fields job :
  keeps I (accept MAX_CONCURRENT_TRANSFERS legacy data sent_type fields job).
Proof.
  rw /accept /resolve_for. apply holds_bind; [apply holds_bind; [apply holds_look|intros s; apply keeps_of_outcome]|].
  intros [|id ids]; [apply keeps_refused|]. apply holds_bind; [by apply fleet_send|intros _; apply holds_ret].
Qed.
(** The transfer commands keep what the other tasks keep. *)
Lemma keeps_transfer data m : transfer_command MAX_CONCURRENT_TRANSFERS data = Some m -> keeps I m.
Proof.
  rw /transfer_command /handle_install_apk /handle_push_files.
  destruct (eq_str _ (u "INSTALL_APK")); [intros [= <-]|destruct (eq_str _ (u "PUSH_FILES")); [intros [= <-]|done]].
  - destruct (negb _); [apply keeps_refused|apply keeps_accept].
  - apply holds_bind; [rw /dest_path_of; repeat case_match; apply holds_ret || apply holds_raise|intros dest].
    destruct (truthy (field_or "bundle_url" empty_text data)); [|apply keeps_refused]. destruct (validate_dest_path (JStr dest)); [apply keeps_refused|apply keeps_accept].
Qed.
Lemma keeps_transfer_rest data : keeps I (transfer_rest MAX_CONCURRENT_TRANSFERS data).
Proof.
  rw /transfer_rest. destruct (transfer_command _ data) as [m|] eqn:E; [|apply holds_ret].
  apply holds_bind; [by apply (keeps_transfer data)|intros _; apply holds_ret].
Qed.
End Kept.

Section Promises.
Context {H : host} (MAX_CONCURRENT_TRANSFERS : Z).

(** A transfer that is started has been checked: it has a URL and at least one target;
    an installation goes only to connected devices that may receive it, a push only to
    connected devices that may receive every command, to a destination that is allowed,
    and mirrors only when the field is [true] itself; the console has been told the number
    of targets; the job is one the transfer system accepts. *)
Theorem started_transfers_are_checked data m job s s' :
  transfer_command MAX_CONCURRENT_TRANSFERS data = Some m -> m s = (Ret (Some job), s') ->
  checked data (memory s) job /\
  (exists reply, sent s' = sent s ++ [(TheAdmin, JObj reply)] /\
    get (u "target_count") reply = JInt (Z.of_nat (length (job_targets job)))) /\
  total (job_of job) = Z.of_nat (length (job_targets job)) /\ forall h, other_step h (start job h).
Proof.
  intros Hm Hr. destruct (transfer_checked _ _ _ _ _ _ Hm Hr) as [[? _]|(j & reply & [= <-] & Hc & Hne & Hs & Ht)]; [done|].
  pose proof (checked_ids _ _ _ Hc) as Hids. split; [done|]. split; [by exists reply|].
  assert (device_ids job <> []) as Hdev by (intros Hn; by rw Hn in Hids).
  split; [by rw /= -Hids length_fmap|intros h; by apply start_step].
Qed.

(** A transfer that is not started is refused with one ERROR, nothing else is sent, and
    the dictionaries stay as the other tasks leave them. *)
Theorem refused_transfers_start_nothing data m s s' :
  alone H -> transfer_command MAX_CONCURRENT_TRANSFERS data = Some m -> m s = (Ret None, s') ->
  (exists text, sent s' = sent s ++ [error_frame text]) /\ memory s' = memory s.
Proof.
  intros Halone Hm Hr. split.
  - by destruct (transfer_checked _ _ _ _ _ _ Hm Hr) as [[_ ?]|(j & reply & [=] & _)].
  - assert (keeps (fun f => f = memory s) m) as Hkeep.
    { apply (keeps_transfer MAX_CONCURRENT_TRANSFERS (fun f => f = memory s)) with data; [|done]. intros n f ->. apply Halone. }
    specialize (Hkeep s eq_refl). by rw Hr in Hkeep.
Qed.
End Promises.

(** ** Examples *)

Section Examples.
Definition headset : online :=
  Online 3 [field "registration_ready" (JBool true); field "identity_kind" (JStr (u "canonical"))].
Definition old_headset : online :=
  Online 4 [field "registration_ready" (JBool true); field "identity_kind" (JStr (u "legacy"))].
Definition two_headsets : desk :=
  Desk (empty_fleet <| devices := [(u "PA1", headset); (u "PA2", old_headset)] |>) 0 [].
Definition mirror (dest : string) : record :=
  [field "type" (JStr (u "PUSH_FILES")); field "bundle_url" (JStr (u "http://h/bundles/b.zip"));
   field "dest_path" (JStr (u dest)); field "delete_extras" (JBool true)].
Arguments mirror dest%_string.

Lemma started_transfers_are_checked_witness :
  let job := PushJob (JStr (u "http://h/bundles/b.zip")) empty_text (u "/sdcard/media") true [JStr (u "PA1")] in
  checked (mirror "/sdcard/media ") (memory two_headsets) job /\ total (job_of job) = 1.
Proof.
  intros job.
  assert (exists s', handle_push_files (H := quiet_host) 5 (mirror "/sdcard/media ") two_headsets = (Ret (Some job), s')) as [s' Hr]
    by (eexists; vm_compute; reflexivity).
  destruct (started_transfers_are_checked (H := quiet_host) 5 (mirror "/sdcard/media ")
              (handle_push_files (H := quiet_host) 5 (mirror "/sdcard/media ")) job two_headsets s' eq_refl Hr)
    as (Hc & _ & Ht & _).
  split; [exact Hc|exact Ht].
Defined.
Lemma refused_transfers_start_nothing_witness :
  let s' := (handle_push_files (H := quiet_host) 5 (mirror "/sdcard/Download") two_headsets).2 in
  sent s' = [error_frame (u "Destination must not be inside the protected 'Download' directory")] /\
  memory s' = memory two_headsets.
Proof.
  intros s'. split; [vm_compute; reflexivity|].
  assert (handle_push_files (H := quiet_host) 5 (mirror "/sdcard/Download") two_headsets = (Ret None, s')) as Hr
    by (vm_compute; reflexivity).
  apply (refused_transfers_start_nothing (H := quiet_host) 5 (mirror "/sdcard/Download")
    (handle_push_files (H := quiet_host) 5 (mirror "/sdcard/Download")) two_headsets s' (fun _ _ => eq_refl) eq_refl Hr).
Defined.

(** A legacy device is installed on, and not pushed to. *)
Example legacy_installs :
  (handle_install_apk (H := quiet_host) 5
     [field "type" (JStr (u "INSTALL_APK")); field "apk_url" (JStr (u "http://h/apks/a.apk"))] two_headsets).1 =
  Ret (Some (InstallJob (JStr (u "http://h/apks/a.apk")) empty_text [JStr (u "PA1"); JStr (u "PA2")])).
Proof. vm_compute. reflexivity. Qed.
End Examples.
