(* ===== verification/Artifacts.v ===== *)
(** * Artifact files (push_artifacts.py)

    [ArtifactStore]: an archive is published under an immutable name, served, and removed
    when no job refers to it.  A directory is what a process sees of it and what a crash
    may leave of it: the states it had since it was last flushed.  The names of artifacts
    are those of fresh UUIDs, so that no other task writes them. *)

From S2P Require Import Prelude PyStr Text Json Sha256 Uuid Identity Integrity Paths Db Store Manager.
From stdpp Require Import gmap.
Open Scope Z_scope.

(** ** The disk *)

Record inode := Inode { bytes : file; flushed : bool }.
(** A directory: its entries, and what it was since it was last flushed. *)
Record folder := Folder { entries : gmap pystr N; older : list (gmap pystr N) }.
Record disk := Disk { inodes : gmap N inode; work : folder; published : folder }.
#[export] Instance eta_disk : Settable disk := fun d => Disk (inodes d) (work d) (published d).

Definition enter (n : pystr) (i : N) (f : folder) : folder := Folder (<[n := i]> (entries f)) (entries f :: older f).
Definition leave (n : pystr) (f : folder) : folder := Folder (delete n (entries f)) (entries f :: older f).
Definition flush (f : folder) : folder := Folder (entries f) [].
Definition file_at (f : folder) (n : pystr) (d : disk) : option file := bytes <$> (entries f !! n ≫= fun i => inodes d !! i).

(** What a power failure leaves: each directory as it was at one of these moments, and the
    bytes of every file that was flushed. *)
Definition crashed (d d' : disk) : Prop :=
  entries (work d') ∈ entries (work d) :: older (work d) /\
  entries (published d') ∈ entries (published d) :: older (published d) /\
  forall i x, inodes d !! i = Some x -> exists y, inodes d' !! i = Some y /\ (flushed x = true -> bytes y = bytes x).

(** ** [ArtifactStore] *)

Inductive file_error := FileNotFound | FileExists | BadValue (text : pystr) | OsError.

Section Artifacts.
(** The operations that fail, and every state of the disk so far. *)
Record machine := Machine { store : disk; moments : list disk }.
Context (fault : nat -> option file_error).

(** The [n]-th operation of a method, and its effect on the disk when it succeeds. *)
Definition act (n : nat) (f : disk -> disk) : M machine file_error unit :=
  match fault n with
  | Some e => raise e
  | None => modify (fun m => Machine (f (store m)) (f (store m) :: moments m))
  end.

Definition _uuid_key (value : pystr) : outcome file_error pystr :=
  match uuid_parse value with
  | None => Raise (BadValue (u "badly formed hexadecimal UUID string"))
  | Some n => if is_v4 n then Ret (uuid_str n) else Raise (BadValue (u "path identity must be UUIDv4"))
  end.

(** [_identity], [os.fsync], [os.replace]. *)
Definition _identity (f : file) : Z * pystr := (Z.of_nat (length f), hash_stream f).
Definition fsync (i : N) (d : disk) : disk := d <| inodes := alter (fun x => Inode (bytes x) true) i (inodes d) |>.
Definition replace (part : pystr) (i : N) (name : pystr) (d : disk) : disk :=
  d <| work := leave part (work d) |> <| published := enter name i (published d) |>.
Definition _fsync_dir (d : disk) : disk := d <| published := flush (published d) |>.

(** [part_path] is a name below the work directory; [new_id] is the text of [uuid4()]. *)
Definition publish (new_id job_id part_path display_filename : pystr) (entry_count : Z) : M machine file_error artifact :=
  match _uuid_key job_id with
  | Raise e => raise e
  | Ret _ =>
      d ← gets store;
      match entries (work d) !! part_path ≫= (fun i => pair i <$> inodes d !! i) with
      | None => raise FileNotFound
      | Some (i, part) =>
          let storage_name := new_id ++ u ".zip" in
          if bool_decide (is_Some (entries (published d) !! storage_name)) then raise FileExists
          else
            let '(byte_size, sha256) := _identity (bytes part) in
            act 0 id ;;
            act 1 (fsync i) ;;
            act 2 (replace part_path i storage_name) ;;
            act 3 _fsync_dir ;;
            mret (Artifact new_id storage_name display_filename byte_size sha256 entry_count)
      end
  end.

(** The artifact directory as its segments; a name of one path segment. *)
Context (artifact_root : list pystr).
Definition path_for_record (storage_name : pystr) : outcome file_error (list pystr) :=
  if negb (streq (path_name storage_name) storage_name) then Raise (BadValue (u "invalid artifact storage name"))
  else
    let resolved := resolve (artifact_root ++ [storage_name]) in
    if bool_decide (removelast resolved = resolve artifact_root) then Ret resolved
    else Raise (BadValue (u "artifact path escapes the artifact root")).
(** [path.parent] of a path that is not resolved is the root. *)
Definition remove_orphan (storage_name : pystr) (d : disk) : outcome file_error disk :=
  if negb (streq (path_name storage_name) storage_name) then Raise (BadValue (u "invalid artifact storage name"))
  else Ret (d <| published := if bool_decide (is_Some (entries (published d) !! storage_name))
                              then leave storage_name (published d) else published d |>).
End Artifacts.

(** ** Downloads: [PushRuntime.artifact_handler] *)

Record response := Response { status : Z; headers : list (pystr * pystr); body : list file }.
(** [while True: chunk = handle.read(...)]. *)
Fixpoint chunks_of (size turns : nat) (rest : file) : list file :=
  match turns with
  | O => []
  | S k => match take size rest with [] => [] | chunk => chunk :: chunks_of size k (drop size rest) end
  end.
Definition artifact_handler (artifact_root : list pystr) (record : option artifact_row) (is_head : bool) (d : disk) : response :=
  match record with
  | None => Response 404 [] []
  | Some r =>
      match path_for_record artifact_root (a_storage_name r) with
      | Raise _ => Response 404 [] []
      | Ret path =>
          match file_at (published d) (List.last path []) d with
          | None => Response 404 [] []
          | Some f =>
              Response 200
                [(u "ETag", [34%N] ++ a_sha256 r ++ [34%N]); (u "Content-Encoding", u "identity");
                 (u "Cache-Control", u "private, immutable"); (u "Content-Type", u "application/zip");
                 (u "Content-Length", str_of_int (a_byte_size r))]
                (if is_head then [] else chunks_of _CHUNK (S (length f)) f)
          end
      end
  end.

(** ** Names stay in the directory *)

Lemma removelast_fixed {A} (l : list A) : removelast l = l -> l = [].
Proof.
  destruct l as [|x l _] using rev_ind; [done|]. rw removelast_last. intros Heq%(f_equal length).
  rw length_app /= in Heq. lia.
Qed.
Lemma removelast_twice {A} (l : list A) : removelast (removelast l) = l -> l = [].
Proof.
  intros Heq. destruct l as [|x l _] using rev_ind; [done|]. rw removelast_last in Heq.
  destruct l as [|y l _] using rev_ind; [by simpl in Heq|]. rw removelast_last in Heq.
  apply (f_equal length) in Heq. rw !length_app /= in Heq. lia.
Qed.
Lemma resolve_snoc segs s :
  resolve (segs ++ [s]) = if streq s [] || streq s dot then resolve segs
                          else if streq s dotdot then removelast (resolve segs) else resolve segs ++ [s].
Proof. by rw /resolve foldl_app. Qed.
Lemma path_name_piece s : slash ∉ path_name s.
Proof.
  rw /path_name. destruct (last (filter kept (split_on slash s))) as [p|] eqn:E; [|set_solver].
  apply last_Some_elem_of, list_elem_of_filter in E as [_ Hin]. pose proof (split_on_pieces slash s) as Hp.
  rw Forall_forall in Hp. by apply Hp.
Qed.

(** Whatever name a record has, the file that is served for it is an entry of the
    artifact directory itself: a name that is empty, a dot, two dots or that holds a slash
    is refused. *)
Theorem served_paths_stay_inside root name path :
  resolve root <> [] -> path_for_record root name = Ret path ->
  path = resolve root ++ [name] /\ (slash ∉ name) /\ (name ∉ [[]; dot; dotdot]).
Proof.
  intros Hroot. rw /path_for_record. destruct (streq (path_name name) name) eqn:Ep; [|done].
  apply streq_spec in Ep. cbn [negb]. case_bool_decide as Hp; [|done]. intros [= <-].
  assert (slash ∉ name) as Hs by (rw -Ep; apply path_name_piece). rw resolve_snoc in Hp. rw resolve_snoc.
  destruct (streq name []) eqn:E1; cbn [orb] in *; [by apply removelast_fixed in Hp|].
  destruct (streq name dot) eqn:E2; cbn [orb] in *; [by apply removelast_fixed in Hp|].
  destruct (streq name dotdot) eqn:E3; [by apply removelast_twice in Hp|].
  split_and!; [done|done|]. apply bool_decide_eq_false_1 in E1, E2, E3. set_solver.
Qed.
Lemma served_paths_stay_inside_witness :
  path_for_record [u "data"; u "artifacts"] (u "a.zip") = Ret [u "data"; u "artifacts"; u "a.zip"] /\
  (slash ∉ u "a.zip") /\ path_for_record [u "data"; u "artifacts"] dotdot = Raise (BadValue (u "artifact path escapes the artifact root")).
Proof.
  assert (path_for_record [u "data"; u "artifacts"] (u "a.zip") = Ret [u "data"; u "artifacts"; u "a.zip"]) as Hp
    by (vm_compute; reflexivity).
  refine (conj Hp (conj _ _)); [|vm_compute; reflexivity].
  apply (served_paths_stay_inside [u "data"; u "artifacts"] (u "a.zip") _ ltac:(done) Hp).
Defined.

(** ** Power failures *)

Section Crash.
Context (n : pystr) (i : N) (content : file).

(** Wherever the name is, it names the whole file; the file is on the disk by then. *)
Definition whole_or_absent (d : disk) : Prop :=
  Forall (fun es => es !! n = None \/
    (es !! n = Some i /\ exists x, inodes d !! i = Some x /\ flushed x = true /\ bytes x = content))
    (entries (published d) :: older (published d)).
Definition durable (d : disk) : Prop :=
  entries (published d) !! n = Some i /\ older (published d) = [] /\
  exists x, inodes d !! i = Some x /\ flushed x = true /\ bytes x = content.

Lemma crash_whole d d' :
  whole_or_absent d -> crashed d d' ->
  entries (published d') !! n = None \/ file_at (published d') n d' = Some content.
Proof.
  intros Hd (_ & Hin & Hbytes). rw /whole_or_absent Forall_forall in Hd.
  destruct (Hd _ Hin) as [?|(Hn & x & Hx & Hf & <-)]; [by left|right].
  destruct (Hbytes _ _ Hx) as (y & Hy & Hsame). by rw /file_at Hn /= Hy /= Hsame.
Qed.
Lemma crash_durable d d' : durable d -> crashed d d' -> file_at (published d') n d' = Some content.
Proof.
  intros (Hn & Ho & x & Hx & Hf & <-) (_ & Hin & Hbytes). rw Ho list_elem_of_singleton in Hin.
  destruct (Hbytes _ _ Hx) as (y & Hy & Hsame). by rw /file_at Hin Hn /= Hy /= Hsame.
Qed.
End Crash.

(** What every moment of a publication is: the name is safe and no other entry changes. *)
Record sound_moment (n : pystr) (i : N) (content : file) (start seen : disk) : Prop := SoundMoment {
  name_safe : whole_or_absent n i content seen;
  others_kept : forall n', n' <> n -> entries (published seen) !! n' = entries (published start) !! n';
}.
Definition fresh_in (f : folder) (n : pystr) : Prop := Forall (fun es => es !! n = None) (entries f :: older f).

Lemma publish_moments fault new_id job_id part_path display_filename entry_count d i part :
  entries (work d) !! part_path = Some i -> inodes d !! i = Some part -> fresh_in (published d) (new_id ++ u ".zip") ->
  let '(r, m) := publish fault new_id job_id part_path display_filename entry_count (Machine d [d]) in
  Forall (sound_moment (new_id ++ u ".zip") i (bytes part) d) (moments m) /\
  forall a, r = Ret a ->
    durable (new_id ++ u ".zip") i (bytes part) (store m) /\
    a = Artifact new_id (new_id ++ u ".zip") display_filename (Z.of_nat (length (bytes part))) (sha256_hex (bytes part)) entry_count.
Proof.
  intros Hi Hpart Hfresh. set (name := new_id ++ u ".zip") in *.
  set (d1 := fsync i d). set (d2 := replace part_path i name d1). set (d3 := _fsync_dir d2).
  assert (forall d', published d' = published d -> sound_moment name i (bytes part) d d') as Hsame.
  { intros d' E. split; [|by rw E]. rw /whole_or_absent E. eapply Forall_impl; [exact Hfresh|]. by left. }
  assert (inodes d1 !! i = Some (Inode (bytes part) true)) as Hflushed by (rw /= lookup_alter_eq Hpart //).
  assert (forall n, n <> name -> <[name := i]> (entries (published d)) !! n = entries (published d) !! n) as Hother
    by (intros n Hn; by rw lookup_insert_ne).
  assert (durable name i (bytes part) d3) as Hdurable by (split_and!; [by rw /= lookup_insert_eq|done|by eexists]).
  assert (sound_moment name i (bytes part) d d2) as H2.
  { split; [|done]. apply Forall_cons. split; [right; rw /= lookup_insert_eq; split; [done|by eexists]|].
    eapply Forall_impl; [exact Hfresh|]. by left. }
  assert (sound_moment name i (bytes part) d d3) as H3.
  { split; [|done]. destruct Hdurable as (Hn & Ho & Hx). rw /whole_or_absent Ho Forall_singleton. by right. }
  assert (sound_moment name i (bytes part) d d) as H0 by by apply Hsame.
  assert (sound_moment name i (bytes part) d d1) as H1 by by apply Hsame.
  rw /publish. destruct (_uuid_key job_id) as [key|e]; [|by split; [apply Forall_singleton|]].
  assert (entries (published d) !! name = None) as Hnone by (by apply Forall_cons_1 in Hfresh as [? _]).
  rw /mbind /M_bind /gets /= Hi /= Hpart /= bool_decide_eq_false_2; [|rw Hnone; by intros []].
  rw /act. destruct (fault 0%nat); [|destruct (fault 1%nat); [|destruct (fault 2%nat); [|destruct (fault 3%nat)]]];
    cbn [modify raise mret M_ret store moments id]; rw !Forall_cons Forall_nil; (split; [by auto|]); try done.
  intros a [= <-]. split; [exact Hdurable|]. by rw hash_stream_spec.
Qed.


(** ** Downloads *)

Lemma chunks_concat size turns rest :
  (0 < size)%nat -> (length rest < turns)%nat -> concat (chunks_of size turns rest) = rest.
Proof.
  intros Hs. induction turns as [|k IH] in rest |- *; [lia|]. cbn [chunks_of]. intros Hl.
  destruct rest as [|b rest]; [by rw take_nil|]. destruct size as [|size]; [lia|]. cbn [take concat drop].
  rw IH; [|rw length_drop; simpl in Hl; lia]. by rw /= take_drop.
Qed.
Lemma uuid_no_slash s : uuid_v4 s = Some s -> slash ∉ s.
Proof.
  rw /uuid_v4. destruct (uuid_parse s) as [n|]; [|done]. destruct (is_v4 n); [|done]. intros [= <-].
  intros [?|(p & Hp & Hin)]%join_chars; [done|]. destruct (hex_text_hex 32 n) as [Ht _].
  eapply hex_text_not, Hin; [done|]. by eapply uuid_groups_hex.
Qed.
(** The name of a published archive is served from the artifact directory. *)
Lemma published_name_served root new_id :
  uuid_v4 new_id = Some new_id ->
  path_for_record root (new_id ++ u ".zip") = Ret (resolve root ++ [new_id ++ u ".zip"]).
Proof.
  intros Hu%uuid_no_slash. set (name := new_id ++ u ".zip").
  assert (slash ∉ name) as Hs by (rw /name not_elem_of_app; split; [done|by apply (bool_decide_eq_true_1 _)]).
  assert (forall t, (length t < 4)%nat -> streq name t = false) as Hne.
  { intros t Ht. apply bool_decide_eq_false_2. intros Heq. apply (f_equal length) in Heq.
    rw /name length_app in Heq. change (length (u ".zip")) with 4%nat in Heq. lia. }
  rw /path_for_record. assert (path_name name = name) as ->.
  { rw /path_name split_on_plain // filter_cons_True; [done|]. rw /kept.
    pose proof (Hne [] ltac:(simpl; lia)) as H1%bool_decide_eq_false_1. pose proof (Hne dot ltac:(simpl; lia)) as H2%bool_decide_eq_false_1.
    done. }
  rw (proj2 (streq_spec name name) eq_refl) resolve_snoc !Hne; [|simpl; lia..]. cbn [negb orb].
  by rw removelast_last bool_decide_eq_true_2.
Qed.


Section Examples.
Local Abbreviation an_id := (u "0f8fad5b-d9cb-469f-a165-70867728950e").
Definition packaged : disk :=
  Disk {[7%N := Inode [1; 2]%N false]} (Folder {[u "job/bundle.part" := 7%N]} []) (Folder ∅ []).
Local Abbreviation publishing fault := (publish fault an_id an_id (u "job/bundle.part") (u "b.zip") 1 (Machine packaged [packaged])).

End Examples.
