(* ===== verification/Boot.v ===== *)
(** * Starting the runtime (push_runtime.py: [PushRuntime.__init__], [on_startup])

    What happens to the tables and to the files before the server serves: recovery, the
    jobs whose archives are gone, the archives that no job owns.  [startup_succeeds] shows
    that the server starts on whatever tables and files it finds, and what it has then.

    The operations on the database are those of [Store] and [Manager]; that they return is
    shown in the logic of [Returns]. *)

From S2P Require Import Prelude PyStr Text Json Uuid PushJobs Domain Db Store Tx Manager Protocol Safety Steps.
From S2P Require Import Lifecycle Queue Outcomes Returns Paths Artifacts.
From stdpp Require Import relations.
Open Scope Z_scope.

(** ** The program *)

(** [artifact_root.iterdir()]: the directory holds regular files only. *)
Definition listing (k : disk) : list (pystr * bool) := (fun ni => (ni.1, true)) <$> map_to_list (entries (published k)).
Definition is_file (k : disk) (storage_name : pystr) : bool := bool_decide (is_Some (entries (published k) !! storage_name)).

Definition __init__ (accept_timeout_ms reconciliation_timeout_ms now now' : Z) (k : disk)
    : Op (list snapshot * list pystr * list pystr) :=
  recovered ← recover_startup_sync accept_timeout_ms reconciliation_timeout_ms now;
  missing ← reconcile_missing_artifacts_sync (is_file k) now';
  startup_orphan_artifacts ← orphan_artifacts_sync (listing k);
  mret (recovered.1 ++ missing, recovered.2, startup_orphan_artifacts).

(** [cleanup_work]: [shutil.rmtree] of the job's directory; it raises when an entry cannot
    be removed, and may have removed others. *)
Definition of_job (key name : pystr) : bool := bool_decide (key ++ [slash] `prefix_of` name).
Definition remove_entries (p : pystr -> bool) (f : folder) : folder :=
  Folder (filter (fun ni => p ni.1 = false) (entries f)) (entries f :: older f).
Definition cleanup_work (stuck : pystr -> bool) (job_id : pystr) (k : disk) : outcome file_error unit * disk :=
  match _uuid_key job_id with
  | Raise e => (Raise e, k)
  | Ret key =>
      let names := filter (fun n => of_job key n = true) ((map_to_list (entries (work k))).*1) in
      if bool_decide (names = []) then (Raise FileNotFound, k)
      else (if existsb stuck names then Raise OsError else Ret tt,
            k <| work := remove_entries (fun n => of_job key n && negb (stuck n)) (work k) |>)
  end.
(** [cleanup_work_best_effort]: its exceptions are [OSError]s and [ValueError]s. *)
Definition cleanup_work_best_effort (stuck : pystr -> bool) (k : disk) (job_id : pystr) : disk :=
  (cleanup_work stuck job_id k).2.
(** [remove_orphan] and the loop's [except (OSError, ValueError)]. *)
Definition try_remove_orphan (stuck : pystr -> bool) (k : disk) (storage_name : pystr) : disk :=
  if stuck storage_name then k
  else match remove_orphan storage_name k with Ret k' => k' | Raise _ => k end.

(** The files as [on_startup] leaves them. *)
Definition on_startup (stuck : pystr -> bool) (startup_cleanup startup_orphan_artifacts : list pystr) (k : disk) : disk :=
  foldl (try_remove_orphan stuck) (foldl (cleanup_work_best_effort stuck) k startup_cleanup) startup_orphan_artifacts.

(** ** Jobs without their archive *)

(** The devices of a job that still have to get the archive. *)
Definition to_serve (s : device_state) : Prop := s ∈ [QUEUED; WAITING_TRANSFER; DISPATCHING; DOWNLOADING].
(** The job hands its archive to nobody. *)
Definition stopped (d : db) (id : pystr) : Prop := forall j, jobs d !! id = Some j ->
  j_state j <> J_READY /\
  (j_state j = J_RUNNING \/ j_state j = J_RECONCILING -> forall v r, assignments d !! (id, v) = Some r -> ~ to_serve (d_state r)).
(** Nothing but the job [id] and its devices has changed. *)
Record elsewhere (id : pystr) (d d' : db) : Prop := {
  e_artifacts : artifacts d' = artifacts d;
  e_jobs : forall i, i <> id -> jobs d' !! i = jobs d !! i;
  e_rows : forall i v, i <> id -> assignments d' !! (i, v) = assignments d !! (i, v);
}.
Lemma elsewhere_refl id d : elsewhere id d d.
Proof. by split. Qed.
Lemma elsewhere_trans id d1 d2 d3 : elsewhere id d1 d2 -> elsewhere id d2 d3 -> elsewhere id d1 d3.
Proof.
  intros [A1 J1 R1] [A2 J2 R2]. split; [congruence| |].
  - intros i Hi. by rw J2 // J1.
  - intros i v Hi. by rw R2 // R1.
Qed.
Lemma elsewhere_set_job id f d : elsewhere id d (set_job id f d).
Proof. split; [done| |done]. intros i Hi. by rw set_job_other. Qed.
Lemma elsewhere_rederive id now d : elsewhere id d (rederive_db id now d).
Proof. rw /rederive_db. repeat case_match; first [apply elsewhere_refl | apply elsewhere_set_job]. Qed.

(** The rows [fail_missing] leaves. *)
Definition given_up (now : Z) (detail : pystr) (r : device_row) : device_row :=
  r <| d_state := FAILED |> <| d_terminal_at := Some now |> <| d_failure_code := Some (u "artifact_missing") |>
    <| d_failure_detail := Some detail |> <| d_updated_at := now |>.
Definition rows_given_up (id : pystr) (now : Z) (detail : pystr) (d : db) : db :=
  d <| assignments := map_imap (fun k r => Some (
    if bool_decide (k.1 = id) && bool_decide (to_serve (d_state r)) then given_up now detail r else r)) (assignments d) |>.
Lemma lookup_given_up id now detail d k : assignments (rows_given_up id now detail d) !! k =
  (fun r => if bool_decide (k.1 = id) && bool_decide (to_serve (d_state r)) then given_up now detail r else r) <$> assignments d !! k.
Proof. rw /= map_lookup_imap. by destruct (assignments d !! k). Qed.
Lemma constraints_given_up id now detail d : constraints d -> constraints (rows_given_up id now detail d).
Proof.
  apply constraints_rows. intros k r'. change (map_imap _ _) with (assignments (rows_given_up id now detail d)).
  rw lookup_given_up. intros (r & -> & ->)%fmap_Some. exists r. destruct (_ && _); [|done].
  split_and!; [done..|]. by intros ?%(bool_decide_pack _).
Qed.
Lemma manned_given_up d0 id now detail d : manned d0 d -> manned d0 (rows_given_up id now detail d).
Proof.
  intros [Hj Hd]. split; [done|]. intros i Hi. destruct (Hd i Hi) as (t & v & r & Hr & _).
  pose proof (lookup_given_up id now detail d (i, v)) as E. rw Hr in E. eexists _, v, _. split; [exact E|done].
Qed.
Lemma elsewhere_given_up id now detail d : elsewhere id d (rows_given_up id now detail d).
Proof.
  split; [done|done|]. intros i v Hi. rw lookup_given_up bool_decide_eq_false_2 //. by destruct (assignments d !! (i, v)).
Qed.

Lemma fail_missing_returns d0 now id state name d j :
  manned d0 d -> jobs d !! id = Some j -> j_state j = state -> state ∈ [J_READY; J_RUNNING; J_RECONCILING] ->
  succeeds (fail_missing now (id, state, name)) (fun _ d' => manned d0 d' /\ elsewhere id d d' /\ stopped d' id) d.
Proof.
  intros Hm Hj Hs Hin. rw /fail_missing. set (detail := u "referenced immutable artifact " ++ _).
  case_bool_decide as Hr.
  - apply succeeds_update_job; [done|]. split_and!; [by apply manned_set_job|apply elsewhere_set_job|].
    intros j'. rw lookup_set_job decide_True // Hj. intros [= <-]. split; [done|]. by intros [|].
  - set (d1 := rows_given_up id now detail d). set (d2 := set_job id (bump_job now) d1).
    apply succeeds_bind, succeeds_write; [by apply constraints_given_up|]. change (succeeds (_increment_revision id now ;; _rederive_job id now)
      (fun _ d' => manned d0 d' /\ elsewhere id d d' /\ stopped d' id) d1).
    apply succeeds_bind, succeeds_update_job; [done|]. change (set_job id _ d1) with d2.
    assert (manned d0 d2) as Hm2 by by apply manned_set_job, manned_given_up.
    assert (jobs d2 !! id = Some (bump_job now j)) as Hj2 by rw /d2 lookup_set_job decide_True // Hj //.
    eapply succeeds_rederive; [exact Hm2|by rw Hj2|]. split_and!; [by apply manned_rederive| |].
    + apply (elsewhere_trans _ _ d1); [apply elsewhere_given_up|].
      apply (elsewhere_trans _ _ d2); [apply elsewhere_set_job|apply elsewhere_rederive].
    + intros j' Hj'. split.
      * rw /rederive_db Hj2 in Hj'. destruct (derive_dispatched_job_state _) as [t|] eqn:Ht.
        { apply derived_states in Ht. destruct (decide _); [by rw Hj2 in Hj'; injection Hj' as <-; rw /= Hs|].
          rw lookup_set_job decide_True // Hj2 in Hj'. injection Hj' as <-. simpl. by intros ->; apply (bool_decide_pack _) in Ht. }
        rw Hj2 in Hj'. injection Hj' as <-. by rw /= Hs.
      * intros _ v r Hr'. rw assignments_rederive in Hr'. change (assignments d2) with (assignments d1) in Hr'. rw lookup_given_up in Hr'.
        apply fmap_Some in Hr' as (r0 & _ & ->). rw bool_decide_eq_true_2 //=. case_bool_decide; [|done].
        by intros ?%(bool_decide_pack _).
Qed.

(** ** The missing archives *)

(** A job that may still hand out its archive has it. *)
Definition served (has_file : pystr -> bool) (d : db) : Prop := forall id j a row,
  jobs d !! id = Some j -> j_artifact_id j = Some a -> artifacts d !! a = Some row ->
  has_file (a_storage_name row) = false -> stopped d id.

Lemma missing_iff d has_file id s name : (id, s, name) ∈ missing_artifacts d has_file <->
  exists j a row, jobs d !! id = Some j /\ j_artifact_id j = Some a /\ artifacts d !! a = Some row /\
    j_state j = s /\ s ∈ [J_READY; J_RUNNING; J_RECONCILING] /\ a_storage_name row = name /\ has_file name = false.
Proof.
  rw /missing_artifacts list_elem_of_omap. split.
  - intros ([i j] & Hj%elem_of_map_to_list & Hx). cbn [fst snd] in Hx.
    destruct (j_artifact_id j) as [a|] eqn:Ea; [|done]. simpl in Hx.
    destruct (artifacts d !! a) as [row|] eqn:Er; [|done]. simpl in Hx.
    destruct (bool_decide _ && _) eqn:Eb; [|done]. injection Hx as <- <- <-.
    apply andb_prop in Eb as [Hs%bool_decide_eq_true_1 Hf%negb_true_iff]. by exists j, a, row.
  - intros (j & a & row & Hj & Ha & Hr & <- & Hs & <- & Hf). exists (id, j). split; [by apply elem_of_map_to_list|].
    simpl. rw Ha /= Hr /= Hf bool_decide_eq_true_2 //.
Qed.
Lemma missing_nodup d has_file : NoDup ((fun m => m.1.1) <$> missing_artifacts d has_file).
Proof.
  rw /missing_artifacts. pose proof (NoDup_fst_map_to_list (jobs d)) as Hn. induction (map_to_list (jobs d)) as [|[i j] l IH]; [constructor|].
  apply NoDup_cons in Hn as [Hi Hn]. csimpl.
  assert (forall x, x ∈ (fun m : pystr * job_state * pystr => m.1.1) <$> omap (fun jr : pystr * job_row =>
     a ← j_artifact_id jr.2; row ← artifacts d !! a;
     if bool_decide (j_state jr.2 ∈ [J_READY; J_RUNNING; J_RECONCILING]) && negb (has_file (a_storage_name row))
     then Some (jr.1, j_state jr.2, a_storage_name row) else None) l -> x ∈ l.*1) as Hsub.
  { intros x ([[? ?] ?] & -> & ([i' j'] & Hin & Hx)%list_elem_of_omap)%list_elem_of_fmap. apply list_elem_of_fmap. exists (i', j'). split; [|done].
    simpl in Hx. destruct (j_artifact_id j'); [|done]. simpl in Hx. destruct (artifacts d !! _); [|done]. simpl in Hx.
    by destruct (_ && _); [injection Hx as <- <- <-|]. }
  destruct (j_artifact_id j); [|by apply IH]. simpl. destruct (artifacts d !! _); [|by apply IH]. simpl.
  destruct (_ && _); [|by apply IH]. csimpl. apply NoDup_cons. split; [by intros ?%Hsub|by apply IH].
Qed.

Lemma reconcile_missing_returns has_file now d : constraints d -> manned d d ->
  exists snaps d', reconcile_missing_artifacts_sync has_file now (Conn d None) = (Ret snaps, Conn d' None) /\
    constraints d' /\ artifacts d' = artifacts d /\ served has_file d'.
Proof.
  intros Hc Hm. set (missing := missing_artifacts d has_file).
  assert (forall d', artifacts d' = artifacts d ->
    (forall m, m ∈ missing -> stopped d' m.1.1) ->
    (forall id, id ∉ (fun m => m.1.1) <$> missing -> jobs d' !! id = jobs d !! id) -> served has_file d') as Hserved.
  { intros d' EA Hin Hout id j a row Hj Ha Hrow Hf. rw EA in Hrow.
    destruct (decide (id ∈ (fun m => m.1.1) <$> missing)) as [Hid|Hid].
    - apply list_elem_of_fmap in Hid as (m & -> & Hm'). by apply Hin.
    - rw Hout // in Hj. intros j' Hj'. rw Hout // Hj in Hj'. injection Hj' as <-.
      assert (j_state j ∉ [J_READY; J_RUNNING; J_RECONCILING]) as Hs.
      { intros Hs. apply Hid, list_elem_of_fmap. exists (id, j_state j, a_storage_name row). split; [done|].
        apply missing_iff. by exists j, a, row. }
      split; [intros E; apply Hs; rw E; left|]. intros [E|E]; exfalso; apply Hs; rw E; [right; left|right; right; left]. }
  rw /reconcile_missing_artifacts_sync. erewrite eval_bind; [|apply select_eval]. cbv beta. fold missing.
  case_bool_decide as Hlen.
  { apply nil_length_inv in Hlen. exists [], d. split_and!; [done..|]. apply Hserved; [done| |done].
    intros m. rw Hlen. by intros ?%elem_of_nil. }
  apply transaction_returns; [|done]. apply closes_bind.
  pose proof (missing_nodup d has_file) as Hnd. fold missing in Hnd.
  apply (succeeds_for_each _ (fun done d' => manned d d' /\ artifacts d' = artifacts d /\
    (forall m, m ∈ done -> stopped d' m.1.1) /\
    (forall id, id ∉ (fun m => m.1.1) <$> done -> jobs d' !! id = jobs d !! id)) missing).
  - intros done [[id s] name] rest d1 Hl _ (Hm1 & HA & Hdone & Hrest).
    assert ((id, s, name) ∈ missing) as (j & a & row & Hj & Ha & Hrow & Hs & Hin & _)%missing_iff by (rw Hl elem_of_app; right; left).
    assert (id ∉ (fun m => m.1.1) <$> done) as Hid.
    { rw Hl fmap_app in Hnd. apply NoDup_app in Hnd as (_ & Hx & _). intros Hd. apply (Hx _ Hd). csimpl. left. }
    eapply succeeds_mono; [apply (fail_missing_returns d now id s name d1 j); [done|by rw Hrest|done|done]|].
    intros [] d2 _ (Hm2 & [EA EJ ER] & Hst). split_and!; [done|congruence| |].
    + intros m [Hin'| ->%list_elem_of_singleton]%elem_of_app; simpl.
      * assert (m.1.1 <> id) as Hne by (intros <-; apply Hid, list_elem_of_fmap; by exists m).
        pose proof (Hdone m Hin') as Hst1. intros j'. rw EJ //. intros Hj'. destruct (Hst1 j' Hj') as [? Hrun]. split; [done|]. intros Hr v r. rw ER //. by apply Hrun.
      * done.
    + intros i. rw fmap_app not_elem_of_app. intros [Hi Hi2]. rw EJ; [by apply Hrest|]. intros ->. apply Hi2. left.
  - split_and!; [done|done| |done]. by intros m ?%elem_of_nil.
  - intros d1 _ (Hm1 & HA & Hdone & Hrest). apply closes_bind.
    apply (succeeds_map_each _ (fun _ _ => True) (fun _ d' => d' = d1) missing); [|done|].
    + intros done [[id s] name] rest d2 Hl _ ->. apply succeeds_snapshot; [|done]. apply (m_jobs _ _ Hm1).
      assert ((id, s, name) ∈ missing) as (j & _ & _ & Hj & _)%missing_iff by (rw Hl elem_of_app; right; left). by eexists.
    + intros snaps d2 _ _ ->. apply closes_commit. split; [done|]. by apply Hserved.
Qed.

(** ** The files *)

(** The names of a directory's entries are single segments. *)
Definition plain_names (k : disk) : Prop := forall n, is_file k n = true -> path_name n = n.
(** The names the lifecycle gives to archives. *)
Definition archive_name (n : pystr) : Prop := lower (stem_suffix n).2 = u ".zip" /\ is_Some (uuid_v4 (stem_suffix n).1).

Lemma orphans_spec d k n : n ∈ orphan_artifacts d (listing k) <->
  is_file k n = true /\ archive_name n /\ forall a row, artifacts d !! a = Some row -> a_storage_name row <> n.
Proof.
  rw /orphan_artifacts /sorted_strs merge_sort_Permutation list_elem_of_fmap /is_file. split.
  - intros ([n' b] & -> & [(_ & Hz & Hu & Hn) Hin]%list_elem_of_filter). cbn [fst snd] in *.
    apply list_elem_of_fmap in Hin as ([n2 i] & [= -> ->] & Hi%elem_of_map_to_list). cbn [fst] in *. split_and!; [|done|].
    + apply bool_decide_eq_true_2. by eexists.
    + intros a row Ha E. apply Hn, list_elem_of_fmap. exists (a, row). split; [done|]. by apply elem_of_map_to_list.
  - intros ([i Hi]%bool_decide_eq_true_1 & [Hz Hu] & Hn). exists (n, true). split; [done|]. apply list_elem_of_filter. cbn [fst snd]. split_and!; try done.
    + intros ([a row] & E & Ha%elem_of_map_to_list)%list_elem_of_fmap. by apply (Hn a row).
    + apply list_elem_of_fmap. exists (n, i). split; [done|]. by apply elem_of_map_to_list.
Qed.

Lemma cleanup_published stuck ids k : published (foldl (cleanup_work_best_effort stuck) k ids) = published k.
Proof.
  induction ids as [|id ids IH] in k |- *; [done|]. rw /= IH /cleanup_work_best_effort /cleanup_work.
  destruct (_uuid_key id); [|done]. by case_bool_decide.
Qed.
Lemma remove_one stuck n k : path_name n = n -> entries (published (try_remove_orphan stuck k n)) =
  if stuck n then entries (published k) else delete n (entries (published k)).
Proof.
  intros Hn. rw /try_remove_orphan. destruct (stuck n); [done|]. rw /remove_orphan Hn (proj2 (streq_spec n n) eq_refl) /=.
  case_bool_decide as Hi; [done|]. rw delete_id //. by apply eq_None_not_Some.
Qed.
Lemma orphans_removed stuck ns k n : Forall (fun n => path_name n = n) ns ->
  entries (published (foldl (try_remove_orphan stuck) k ns)) !! n =
  if bool_decide (n ∈ ns) && negb (stuck n) then None else entries (published k) !! n.
Proof.
  intros Hns. induction Hns as [|x ns Hx _ IH] in k |- *; [by rw bool_decide_eq_false_2; [|by intros ?%elem_of_nil]|].
  rw /= IH remove_one //. destruct (decide (n = x)) as [->|Hne].
  - rw (bool_decide_eq_true_2 (x ∈ x :: ns)); [|left]. simpl.
    destruct (stuck x); simpl; [by rw andb_false_r|]. rw andb_true_r lookup_delete_eq. by case_bool_decide.
  - rw (bool_decide_ext (n ∈ x :: ns) (n ∈ ns)); [|rw elem_of_cons; tauto].
    destruct (stuck x); [done|]. by rw lookup_delete_ne.
Qed.

(** C27: The server starts on any tables a run can leave and any files: the recovery
    operations return, whatever archives are missing; afterwards no job can hand out an
    archive that is not there; an archive that a job owns is never touched, one that no
    job owns is gone unless the system does not let it be removed, and any other file stays. *)
Theorem startup_succeeds t1 t2 now now' d k : reachable d -> plain_names k ->
  exists snaps cleanup orphans d',
    __init__ t1 t2 now now' k (Conn d None) = (Ret (snaps, cleanup, orphans), Conn d' None) /\ rtc step d d' /\
    (forall n, n ∈ orphans <-> is_file k n = true /\ archive_name n /\
       forall a row, artifacts d' !! a = Some row -> a_storage_name row <> n) /\
    forall stuck, let k' := on_startup stuck cleanup orphans k in
      served (is_file k') d' /\
      forall n, entries (published k') !! n =
        if bool_decide (n ∈ orphans) && negb (stuck n) then None else entries (published k) !! n.
Proof.
  intros [Hc Hw]%reachable_invariant Hk.
  destruct (recover_startup_returns t1 t2 now d Hw Hc) as (r & d1 & E1 & Hc1 & Hm1).
  destruct (reconcile_missing_returns (is_file k) now' d1 Hc1) as (missing & d2 & E2 & Hc2 & HA2 & Hserved).
  { destruct Hm1 as [Hj Hd]. by split. }
  exists (r.1 ++ missing), r.2, (orphan_artifacts d2 (listing k)), d2.
  pose proof (orphans_spec d2 k) as Ho. split_and!; [| |exact Ho|].
  - rw /__init__ (eval_bind _ _ _ _ _ E1) (eval_bind _ _ _ _ _ E2). done.
  - eapply rtc_l; [|eapply rtc_l; [|constructor]].
    + exists (RecoverStartup t1 t2 now), (Ret tt). split; [done|]. by rw /= /run (eval_bind _ _ _ _ _ E1).
    + exists (ReconcileMissingArtifacts (is_file k) now'), (Ret tt). split; [done|]. by rw /= /run (eval_bind _ _ _ _ _ E2).
  - intros stuck k'.
    assert (forall n, entries (published k') !! n =
      if bool_decide (n ∈ orphan_artifacts d2 (listing k)) && negb (stuck n) then None else entries (published k) !! n) as Hn.
    { intros n. rw /k' /on_startup orphans_removed ?cleanup_published //. apply Forall_forall. intros x (Hx & _)%Ho. by apply Hk. }
    split; [|done]. intros id j a row Hj Ha Hrow Hf. apply (Hserved id j a row Hj Ha Hrow).
    assert (a_storage_name row ∉ orphan_artifacts d2 (listing k)) as Hno by (intros (_ & _ & Hx)%Ho; by apply (Hx a row)).
    revert Hf. by rw /is_file Hn (bool_decide_eq_false_2 _ Hno).
Qed.

(** A disk with an archive that no job owns, another file, and no archive of the job. *)
Definition left_disk : disk :=
  Disk {[1%N := Inode [] true]}
    (Folder ∅ []) (Folder {[u "0f8fad5b-d9cb-469f-a165-70867728950e.zip" := 1%N; u "notes.txt" := 1%N]} []).
Lemma plain_left : plain_names left_disk.
Proof.
  intros n [i Hi]%bool_decide_eq_true_1. cbn [published left_disk entries] in Hi.
  apply lookup_insert_Some in Hi as [[<- _]|[_ Hi]]; [by vm_compute|]. apply lookup_singleton_Some in Hi as [<- _]. by vm_compute.
Qed.
Lemma startup_succeeds_witness :
  exists snaps cleanup orphans d', __init__ 5 60 120 120 left_disk (Conn claimed_db None) = (Ret (snaps, cleanup, orphans), Conn d' None) /\
    orphans = [u "0f8fad5b-d9cb-469f-a165-70867728950e.zip"] /\
    (entries (published (on_startup (fun _ => false) cleanup orphans left_disk)) !! u "notes.txt" = Some 1%N) /\
    entries (published (on_startup (fun _ => false) cleanup orphans left_disk)) !! u "0f8fad5b-d9cb-469f-a165-70867728950e.zip" = None.
Proof.
  destruct (startup_succeeds 5 60 120 120 claimed_db left_disk reachable_claimed plain_left) as (snaps & cleanup & orphans & d' & E & _ & Ho & Hk).
  exists snaps, cleanup, orphans, d'. split; [exact E|].
  assert (orphans = [u "0f8fad5b-d9cb-469f-a165-70867728950e.zip"]) as Hor.
  { apply (f_equal (fun x => match x.1 with Ret r => r.2 | Raise _ => [] end)) in E. cbn [fst snd] in E. rw -E. vm_compute. reflexivity. }
  split; [exact Hor|]. destruct (Hk (fun _ => false)) as [_ Hn]. subst orphans. split; rw Hn; vm_compute; reflexivity.
Defined.
