(* ===== verification/Sessions.v ===== *)
(** * A console's socket (server.py, [admin_ws_handler])

    The whole handler: what a console is told when it connects, and its frames one after
    the other until the stream or an exception ends them.  Whether the console is still
    among [admin_connections] at the end is part of the result; Consoles.v says what that
    means for broadcasts. *)

From S2P Require Import Prelude PyStr Text Json PushJobs Policy Paths Fleet Registry Groups Membership.
From S2P Require Import Commands Commanding Devices Retiring Listing Apks Sockets.
Open Scope Z_scope.

(** ** The handler *)

Section Session.
Context {H : host} (rest : record -> Handler unit) (__version__ : pystr).
(** The APK directory's names and times when the n-th await begins. *)
Context (apk_dir : nat -> list (pystr * option Z)).

Definition server_info : record := [field "type" (JStr (u "SERVER_INFO")); field "version" (JStr __version__)].
Definition send_message (message : json) : Handler unit :=
  match message with JObj payload => send TheAdmin payload | _ => mret tt end.
(** The frames before the receive loop; a list is made when it is sent. *)
Definition greeting : Handler unit :=
  send TheAdmin server_info ;;
  n ← gets turns;
  send TheAdmin (client_apk_info_payload (apk_dir n)) ;;
  s ← look id;
  message ← of_outcome (build_device_list_msg s);
  send_message message ;;
  message ← look build_provisional_connection_list_msg;
  send_message message ;;
  message ← look build_group_list_msg;
  send_message message.

(** [async for raw_msg in ws]; an exception of a frame's handler ends the loop. *)
Fixpoint admin_loop (frames : list ws_message) : Handler unit :=
  pause ;;
  match frames with
  | [] => mret tt
  | OtherFrame :: frames => admin_loop frames
  | TextFrame raw :: frames => admin_frame rest raw ;; admin_loop frames
  end.

(** The result says whether the console stays in [admin_connections]: an exception other
    than a lost connection leaves the greeting before the [try] whose [finally] discards. *)
Definition admin_ws_handler (frames : list ws_message) (s : desk) : (outcome fault unit * bool) * desk :=
  match greeting s with
  | (Raise ConnectionReset, s) => ((Ret tt, false), s)
  | (Raise e, s) => ((Raise e, true), s)
  | (Ret _, s) => let '(ended, s) := admin_loop frames s in ((ended, false), s)
  end.

(** ** What a session keeps *)

(** A whole session keeps what the other tasks and the transfer commands keep. *)
Lemma session_kept frames s :
  (forall n s, fleet_ok s -> fleet_ok (others n s)) -> (forall data, keeps fleet_ok (rest data)) ->
  fleet_ok (memory s) -> fleet_ok (memory (admin_ws_handler frames s).2).
Proof.
  intros Ho Hr Hs.
  assert (keeps fleet_ok greeting) as Hg.
  { assert (forall m, keeps fleet_ok (send_message m)) as Hm by (intros m; destruct m; apply holds_ret || by apply fleet_send).
    rw /greeting. apply holds_bind; [by apply fleet_send|intros _]. apply holds_bind; [apply holds_gets|intros n].
    apply holds_bind; [by apply fleet_send|intros _]. apply holds_bind; [apply holds_look|intros f].
    apply holds_bind; [apply keeps_of_outcome|intros devices]. apply holds_bind; [apply Hm|intros _].
    apply holds_bind; [apply holds_look|intros provisional]. apply holds_bind; [apply Hm|intros _].
    apply holds_bind; [apply holds_look|intros groups]. apply Hm. }
  assert (forall frames, keeps fleet_ok (admin_loop frames)) as Hl.
  { intros fs. induction fs as [|[raw|] fs IH]; simpl; apply holds_bind; try (by apply fleet_pause); intros _; [apply holds_ret| |done].
    apply holds_bind; [by apply admin_frame_kept|done]. }
  specialize (Hg s Hs). rw /admin_ws_handler. destruct (greeting s) as [[[]|e] s1]; simpl in Hg.
  - specialize (Hl frames s1 Hg). by destruct (admin_loop frames s1).
  - by destruct e.
Qed.

(** ** What a console learns *)

Lemma send_moves to payload s s' : send to payload s = (Ret tt, s') ->
  sent s' = sent s ++ [(to, JObj payload)] /\ memory s' = others (turns s) (memory s).
Proof.
  rw /send gets_does. destruct (lost (turns s)); [by intros (a & s1 & E & [=])%bind_ret|].
  intros (a & s1 & [= <- <-] & E)%bind_ret. rw /pause /= in E. by destruct (cancelled _); [done|injection E as <-].
Qed.
(** A send fails with the connection or because its task is cancelled. *)
Definition connection_fails (e : fault) : Prop := (e = Cancelled /\ exists n, cancelled n = true) \/ exists n, lost n = Some e.
Lemma pause_fails s e s' : pause s = (Raise e, s') -> connection_fails e.
Proof. rw /pause. destruct (cancelled (turns s)) eqn:E; [|done]. intros [= <- _]. left. split; [done|by eexists]. Qed.
Lemma send_fails to payload s e s' : send to payload s = (Raise e, s') -> connection_fails e.
Proof.
  rw /send gets_does. destruct (lost (turns s)) as [e'|] eqn:El.
  - rw /mbind /M_bind. destruct (pause s) as [[[]|e2] s2] eqn:E; [|intros [= <- _]; by eapply pause_fails].
    intros [= <- _]. right. by eexists.
  - apply pause_fails.
Qed.

Definition type_of (frame : peer * json) : json := frame_field "type" frame.

(** A console that connects is sent five frames in this order: the server's version, the
    client APK, the devices, the connections without identity, the groups.  The list of
    devices names every device that is known when it is sent exactly once.  Nothing but
    the connection or a cancellation keeps a console from this. *)
Theorem consoles_are_greeted s :
  (forall n f, listable f -> listable (others n f)) -> listable (memory s) ->
  match greeting s with
  | (Ret _, s') => exists frames rows seen,
      sent s' = sent s ++ frames /\ Forall (fun f => f.1 = TheAdmin) frames /\
      map type_of frames = [JStr (u "SERVER_INFO"); JStr (u "CLIENT_APK_INFO"); JStr (u "DEVICE_LIST");
                            JStr (u "PROVISIONAL_CONNECTION_LIST"); JStr (u "GROUP_LIST")] /\
      frames !! 2%nat = Some (TheAdmin, JObj [field "type" (JStr (u "DEVICE_LIST")); field "devices" (JArr (JObj <$> rows))]) /\
      listable seen /\ NoDup (map row_id rows) /\ forall k, k ∈ map row_id rows <-> k ∈ known_devices seen
  | (Raise e, _) => connection_fails e
  end.
Proof.
  intros Ho Hs. rw /greeting {1}/mbind /M_bind.
  destruct (send TheAdmin server_info s) as [[[]|e] s1] eqn:E1; [|by eapply send_fails].
  apply send_moves in E1 as [E1 M1]. rw gets_does {1}/mbind /M_bind.
  destruct (send TheAdmin (client_apk_info_payload _) s1) as [[[]|e] s2] eqn:E2; [|by eapply send_fails].
  apply send_moves in E2 as [E2 M2]. rw look_does.
  assert (listable (memory s2)) as Hs2 by (rw M2 M1; by apply Ho, Ho).
  destruct (devices_listed_once (memory s2) Hs2) as (rows & Er & _ & Hn & Hk & _). rw /id Er {1}/mbind /M_bind.
  change (of_outcome (Ret _) s2) with (Ret (E := fault) (JObj [field "type" (JStr (u "DEVICE_LIST")); field "devices" (JArr (JObj <$> rows))]), s2).
  cbv beta iota. rw {1}/mbind /M_bind. cbn [send_message].
  destruct (send TheAdmin _ s2) as [[[]|e] s3] eqn:E3; [|by eapply send_fails].
  apply send_moves in E3 as [E3 M3]. rw look_does {1}/mbind /M_bind. cbn [send_message build_provisional_connection_list_msg].
  destruct (send TheAdmin _ s3) as [[[]|e] s4] eqn:E4; [|by eapply send_fails].
  apply send_moves in E4 as [E4 M4]. rw look_does. cbn [send_message build_group_list_msg].
  destruct (send TheAdmin _ s4) as [[[]|e] s5] eqn:E5; [|by eapply send_fails].
  apply send_moves in E5 as [E5 M5]. eexists [_; _; _; _; _], rows, (memory s2). split.
  { by rw E5 E4 E3 E2 E1 -!app_assoc. }
  split_and!; [by repeat constructor|done|done|done|done|done].
Qed.
End Session.

Lemma consoles_are_greeted_witness :
  exists rows, NoDup (map row_id rows) /\
    (greeting (H := quiet_host) (u "1.0") (fun _ => []) (Desk listed_fleet 0 [])).1 = Ret tt /\
    (sent (greeting (H := quiet_host) (u "1.0") (fun _ => []) (Desk listed_fleet 0 [])).2) !! 2%nat =
      Some (TheAdmin, JObj [field "type" (JStr (u "DEVICE_LIST")); field "devices" (JArr (JObj <$> rows))]).
Proof.
  pose proof (consoles_are_greeted (H := quiet_host) (u "1.0") (fun _ => []) (Desk listed_fleet 0 [])) as Hg.
  destruct (greeting _ _ _) as [[[]|e] s'] eqn:E.
  - destruct Hg as (frames & rows & seen & Hs & _ & _ & Hf & _ & Hn & _); [done|apply listed_fleet_ok|].
    exists rows. split; [exact Hn|]. split; [reflexivity|]. cbn [fst snd]. by rw Hs.
  - exfalso. apply (f_equal (fun x => match x.1 with Ret _ => true | Raise _ => false end)) in E. vm_compute in E. discriminate E.
Defined.
