(* ===== verification/Frames.v ===== *)
(** * The runtime's web sockets ([RuntimeWebSocketResponse])

    Which frames the Push runtime takes out of the stream a handler of server.py reads
    ([__anext__]), how a connection becomes a device's owner and how it ends, what a
    console is told when it connects ([send_initial_snapshot]) and the JSON of a job's
    snapshot, and the end of the runtime ([on_cleanup]).

    The handlers of server.py run between two frames: they are among the other tasks of
    Live.v. *)

From S2P Require Import Prelude PyStr Json PushJobs Domain Db Store Tx Manager Protocol Safety Steps Lifecycle.
From S2P Require Import Transfers Live Scheduler Runtime Api Discipline Serving Uploads.
From stdpp Require Import relations.
Open Scope Z_scope.

(** ** The JSON of a snapshot *)

Definition int_or_null (v : option Z) : json := match v with Some n => JInt n | None => JNull end.
Definition failure_json (v : option Db.failure) : json :=
  match v with
  | Some f => JObj [(u "code", json_or_null (failure_code f)); (u "detail", json_or_null (failure_detail f))]
  | None => JNull
  end.
Definition fence_json (v : option fence_payload) : json :=
  match v with
  | Some f =>
      JObj [(u "blocking_job_id", json_or_null (fp_blocking_job_id f));
            (u "blocking_opaque_identity", json_or_null (fp_blocking_opaque_identity f));
            (u "blocking_attempt", int_or_null (fp_blocking_attempt f));
            (u "protocol_mode", JStr (protocol_value (fp_protocol_mode f)));
            (u "reason", JStr (fp_reason f)); (u "created_at", JInt (fp_created_at f));
            (u "updated_at", JInt (fp_updated_at f))]
  | None => JNull
  end.
Definition device_json (d : device_snapshot) : json :=
  JObj [(u "state", JStr (device_state_value (ds_state d))); (u "queue_reason", json_or_null (ds_queue_reason d));
        (u "protocol_mode", JStr (protocol_value (ds_protocol_mode d))); (u "attempt", JInt (ds_attempt d));
        (u "enqueue_seq", JInt (ds_enqueue_seq d)); (u "validated_offset", JInt (ds_validated_offset d));
        (u "accepted_at", int_or_null (ds_accepted_at d)); (u "failure", failure_json (ds_failure d));
        (u "result", match ds_result d with
                     | Some (n_added, n_updated, n_deleted) =>
                         JObj [(u "added", int_or_null n_added); (u "updated", int_or_null n_updated);
                               (u "deleted", int_or_null n_deleted)]
                     | None => JNull
                     end);
        (u "reconciliation_reason", json_or_null (ds_reconciliation_reason d));
        (u "reconciliation_deadline", int_or_null (ds_reconciliation_deadline d));
        (u "device_fence", fence_json (ds_device_fence d))].
Definition artifact_json (v : option artifact_snapshot) : json :=
  match v with
  | Some a =>
      JObj [(u "artifact_id", JStr (as_artifact_id a)); (u "url", JStr (as_url a));
            (u "display_filename", json_or_null (a_display_filename <$> as_row a));
            (u "byte_size", int_or_null (a_byte_size <$> as_row a)); (u "sha256", json_or_null (a_sha256 <$> as_row a));
            (u "entry_count", int_or_null (a_entry_count <$> as_row a));
            (u "created_at", int_or_null (a_created_at <$> as_row a))]
  | None => JNull
  end.
Definition aggregate_json (a : list (device_state * Z) * Z) : json :=
  JObj (((fun sn => (device_state_value sn.1, JInt sn.2)) <$> a.1) ++ [(u "total", JInt a.2)]).
Definition snapshot_json (s : snapshot) : json :=
  JObj [(u "job_id", JStr (s_job_id s)); (u "client_request_id", JStr (s_client_request_id s));
        (u "revision", JInt (s_revision s)); (u "state", JStr (job_state_value (s_state s)));
        (u "dispatch_enabled", JBool (s_dispatch_enabled s));
        (u "dispatch_paused_reason", json_or_null (s_dispatch_paused_reason s)); (u "mode", JStr (mode_value (s_mode s)));
        (u "dest_path", JStr (s_dest_path s)); (u "source_label", JStr (s_source_label s));
        (u "declared_file_count", JInt (s_declared_file_count s));
        (u "declared_total_bytes", JInt (s_declared_total_bytes s));
        (u "actual_file_count", int_or_null (s_actual_file_count s));
        (u "actual_total_bytes", int_or_null (s_actual_total_bytes s)); (u "created_at", JInt (s_created_at s));
        (u "create_expires_at", JInt (s_create_expires_at s)); (u "updated_at", JInt (s_updated_at s));
        (u "terminal_at", int_or_null (s_terminal_at s)); (u "failure", failure_json (s_failure s));
        (u "artifact", artifact_json (s_artifact s)); (u "aggregate", aggregate_json (s_aggregate s));
        (u "devices", JObj ((fun vd => (vd.1, device_json vd.2)) <$> s_devices s))].

(** The event of [_publication_loop], and the frame a console starts with. *)
Definition publication_event (s : snapshot) : payload_t :=
  [(u "type", JStr (u "PUSH_JOB_UPDATED")); (u "job_id", JStr (s_job_id s)); (u "revision", JInt (s_revision s));
   (u "job", snapshot_json s)].
Definition initial_frame (snapshots : list snapshot) : payload_t :=
  [(u "type", JStr (u "PUSH_JOBS_SNAPSHOT")); (u "jobs", JArr (snapshot_json <$> snapshots))].

(** ** The sockets *)

(** A message of the stream: a text frame, or another kind. *)
Inductive ws_message := Text (data : pystr) | Other.
Inductive ws_path := DevicePath | AdminPath | OtherPath.

(** What a socket keeps besides the entry in [sockets]. *)
Record response_state := ResponseState {
  _push_path : ws_path;
  _push_runtime : bool;
  _push_http_base : pystr;
  _push_disconnect_notified : bool;
  _push_admin_snapshot_sent : bool;
}.
#[export] Instance eta_response_state : Settable response_state := fun r =>
  ResponseState (_push_path r) (_push_runtime r) (_push_http_base r) (_push_disconnect_notified r)
    (_push_admin_snapshot_sent r).

(** [prepare] of a request for this path; the runtime serves two of them. *)
Definition path_kind (path : pystr) : ws_path :=
  if streq path (u "/ws/device") then DevicePath else if streq path (u "/ws/admin") then AdminPath else OtherPath.
Definition prepare (secure : bool) (host path : pystr) : response_state :=
  let kind := path_kind path in
  ResponseState kind (match kind with OtherPath => false | _ => true end)
    ((if secure then u "https" else u "http") ++ u "://" ++ host) false false.

Section Frames.
Context {W : world} (max_concurrent : Z) (recent_limit recent_days : Z).

(** The socket's own closing handshake is an await. *)
Definition send_initial_snapshot (ws : N) : Task unit :=
  except_on is_exception
    (now ← now_ms;
     snapshots ← call (fun _ => list_snapshots recent_limit (now - recent_days * 86400000));
     send ws (initial_frame snapshots))
    (fun snapshot_error => except_on is_exception pause (fun _ => raise snapshot_error)).

(** A frame of the stream, and whether the runtime consumed it. *)
Definition consumes (ws : N) (r : response_state) (message : ws_message) : Task bool :=
  match message with
  | Text data =>
      if negb (_push_runtime r) then mret false
      else
        match loads data with
        | Some (JObj payload) =>
            match _push_path r with
            | DevicePath =>
                if message_type payload "REGISTER" then mret false
                else
                  device_id ← look (fun m => sockets m !! ws ≫= so_device_id);
                  handle_device_message ws device_id payload
            | AdminPath => handle_admin_message max_concurrent ws payload
            | OtherPath => mret false
            end
        | _ => mret false
        end
  | Other => mret false
  end.

(** The loop of [__anext__] over the frames the peer sends; [None] at their end. *)
Fixpoint next_frame (ws : N) (r : response_state) (incoming : list ws_message) : Task (option (ws_message * list ws_message)) :=
  pause ;;
  match incoming with
  | [] => mret None
  | message :: rest =>
      consumed ← consumes ws r message;
      if (consumed : bool) then next_frame ws r rest else mret (Some (message, rest))
  end.
Definition __anext__ (ws : N) (r : response_state) (incoming : list ws_message)
    : Task (response_state * option (ws_message * list ws_message)) :=
  match _push_path r, _push_admin_snapshot_sent r, _push_runtime r with
  | AdminPath, false, true =>
      send_initial_snapshot ws ;;
      next ← next_frame ws r incoming;
      mret (r <| _push_admin_snapshot_sent := true |>, next)
  | _, _, _ => next ← next_frame ws r incoming; mret (r, next)
  end.

(** [async for message in ws]: the frames the handler gets; each turn takes at least one
    frame, so that one turn more than there are frames is enough. *)
Fixpoint handler_frames (turns : nat) (ws : N) (r : response_state) (incoming : list ws_message) : Task (list ws_message) :=
  match turns with
  | O => mret []
  | S turns =>
      next ← __anext__ ws r incoming;
      match next with
      | (r, Some (message, rest)) => frames ← handler_frames turns ws r rest; mret (message :: frames)
      | (_, None) => mret []
      end
  end.

Definition register_canonical_owner (session_id : pystr) (ws : N) (r : response_state) (device_id : pystr)
    (payload : payload_t) (idempotent : bool) : Task unit :=
  if negb (_push_runtime r) then send ws [(u "type", JStr (u "REGISTERED"))]
  else if idempotent then acknowledge_registration ws device_id
  else
    change (fun m => m <| sockets :=
      alter (fun so => Socket (Some device_id) (so_provisional so)) ws (sockets m) |>) ;;
    note_registration_candidate ws device_id ;;
    register_device session_id ws payload (_push_http_base r) (Some device_id).

(** [close]: the runtime is told once; the handshake is an await. *)
Definition close_socket (ws : N) (r : response_state) : Task response_state :=
  match _push_path r, _push_disconnect_notified r, _push_runtime r with
  | DevicePath, false, true =>
      device_id ← look (fun m => sockets m !! ws ≫= so_device_id);
      disconnect_device device_id ws ;;
      pause ;;
      mret (r <| _push_disconnect_notified := true |>)
  | _, _, _ => pause ;; mret r
  end.

(** The inner loop of [_publication_loop], which a change of a job wakes and the end of the
    runtime ends when it finds nothing to send. *)
Fixpoint publish_pending (turns : nat) : Task (list snapshot) :=
  match turns with
  | O => mret []
  | S turns =>
      next ← publish_next;
      match next with
      | None => mret []
      | Some snap => snaps ← publish_pending turns; mret (snap :: snaps)
      end
  end.
Definition drained (turns : nat) : Task (bool * list snapshot) :=
  snaps ← publish_pending turns;
  pending ← look pending_publications;
  mret (bool_decide (pending = []), snaps).

(** [on_cleanup]: the deadline tasks end, the scheduler stops, the publications go out,
    and everything that waits for a device is released. *)
Definition release_device (device_id : pystr) (t : transfers) : transfers :=
  (release_all_for_device t device_id (u "shutdown")).2.
Definition on_cleanup : Task unit :=
  pause ;;
  present ← look has_scheduler;
  (if present : bool then stop else mret tt) ;;
  pause ;;
  change (fun m => m <| transfer_registry := foldr release_device (transfer_registry m) (map_to_list (sessions m)).*1 |>
                     <| sessions := ∅ |> <| registration_candidates := ∅ |>).
End Frames.

(** ** Who gets a frame *)

Definition says (payload : payload_t) (names : list string) : bool := existsb (message_type payload) names.
(** The frames the runtime leaves to the handler of the path whatever its state is. *)
Definition for_handler (path : ws_path) (message : ws_message) : bool :=
  match message with
  | Text data =>
      match loads data with
      | Some (JObj payload) =>
          match path with
          | DevicePath =>
              message_type payload "REGISTER" ||
              hashable (get (u "type") payload) &&
              negb (says payload (job_v1_types ++ ["DOWNLOAD_COMPLETE"; "PUSH_FILES_RESULT"]%string))
          | AdminPath =>
              match assoc_get (u "target_connections") payload with
              | None => true
              | Some _ => says payload ["REBOOT_DEVICE"; "POWER_OFF_DEVICE"]%string
              end && negb (says payload ["PUSH_FILES"; "RECONCILE_PUSH_DEVICE"]%string)
          | OtherPath => true
          end
      | _ => true
      end
  | Other => true
  end.

Section Routing.
Context {W : world} (max_concurrent : Z) (recent_limit recent_days : Z).

Lemma device_frame_left ws device_id payload s :
  hashable (get (u "type") payload) = true ->
  says payload (job_v1_types ++ ["DOWNLOAD_COMPLETE"; "PUSH_FILES_RESULT"]%string) = false ->
  handle_device_message ws device_id payload s = (Ret false, s).
Proof.
  intros Hh Hs. rw /says existsb_app in Hs. apply orb_false_iff in Hs as [H1 H2]. cbn in H2.
  apply orb_false_iff in H2 as [H2 [H3 _]%orb_false_iff].
  rw /handle_device_message. destruct device_id as [[|c id]|]; [done| |done].
  rw /in_set Hh. cbn [negb]. rw ret_then. rw (H1 : existsb (fun s => eq_str _ (u s)) job_v1_types = false) H2 H3. done.
Qed.

Lemma eq_str_unhashable v name : hashable v = false -> eq_str v name = false.
Proof. by destruct v. Qed.
Lemma admin_frame_left ws payload s :
  match assoc_get (u "target_connections") payload with
  | None => true
  | Some _ => says payload ["REBOOT_DEVICE"; "POWER_OFF_DEVICE"]%string
  end = true -> says payload ["PUSH_FILES"; "RECONCILE_PUSH_DEVICE"]%string = false ->
  handle_admin_message max_concurrent ws payload s = (Ret false, s).
Proof.
  intros Ht Hs. rw /says /= in Hs. apply orb_false_iff in Hs as [H1 [H2 _]%orb_false_iff].
  assert (reconcile_push_device payload s = (Ret false, s)) as Hr by by rw /reconcile_push_device H2.
  rw /handle_admin_message. cbv zeta. destruct (assoc_get (u "target_connections") payload) as [v|].
  - rw /in_set. destruct (hashable (get (u "type") payload)) eqn:Eh.
    + cbn [negb]. rw (Ht : existsb (fun s => eq_str _ (u s)) _ = true). rw !ret_then. cbn [negb].
      rw H1. by destruct (str_field payload "job_id").
    + by rw /says /= /message_type !(eq_str_unhashable _ _ Eh) in Ht.
  - rw ret_then H1. by destruct (str_field payload "job_id").
Qed.

Lemma consumes_left ws r message s : for_handler (_push_path r) message = true ->
  consumes max_concurrent ws r message s = (Ret false, s).
Proof.
  destruct message as [data|]; [|done]. cbn. destruct (_push_runtime r); cbn; [|done].
  destruct (loads data) as [[| | | | | |payload]|]; try done. destruct (_push_path r); [| |done].
  - intros [H|[Hh Hs%negb_true_iff]%andb_prop]%orb_prop; [by rw H|].
    destruct (message_type payload "REGISTER"); [done|]. rw look_then. by apply device_frame_left.
  - intros [Ht Hs%negb_true_iff]%andb_prop. by apply admin_frame_left.
Qed.

Lemma next_frame_spec ws r incoming s next s' :
  next_frame max_concurrent ws r incoming s = (Ret next, s') ->
  match next with
  | Some (message, rest) =>
      exists taken, incoming = taken ++ message :: rest /\ Forall (fun m => for_handler (_push_path r) m = false) taken
  | None => Forall (fun m => for_handler (_push_path r) m = false) incoming
  end.
Proof.
  induction incoming as [|message incoming IH] in s |- *; cbn [next_frame]; rw pause_then;
    destruct (cancelled_at (awaits s)); try done; [by intros [= <- _]|].
  intros (consumed & s1 & Hc & H)%task_bind_ret. destruct consumed.
  - assert (for_handler (_push_path r) message = false) as Hm.
    { destruct (for_handler _ _) eqn:Ef; [|done]. by rw (consumes_left _ _ _ _ Ef) in Hc. }
    specialize (IH _ H). destruct next as [[m rest]|]; [|by constructor].
    destruct IH as (taken & -> & Ht). exists (message :: taken). split; [done|by constructor].
  - injection H as <- _. by exists [].
Qed.
Lemma anext_spec ws r incoming s r' next s' :
  __anext__ max_concurrent recent_limit recent_days ws r incoming s = (Ret (r', next), s') ->
  _push_path r' = _push_path r /\ exists s1, next_frame max_concurrent ws r incoming s1 = (Ret next, s').
Proof.
  rw /__anext__. destruct (_push_path r) eqn:Ep, (_push_admin_snapshot_sent r), (_push_runtime r).
  all: try (intros (x & s1 & Hx & [= <- <- <-])%task_bind_ret; by eauto).
  intros ([] & s1 & _ & H)%task_bind_ret. apply task_bind_ret in H as (x & s2 & Hx & [= <- <- <-]). by eauto.
Qed.

Lemma filter_taken path taken : Forall (fun m => for_handler path m = false) taken ->
  filter (fun m => for_handler path m = true) taken = [].
Proof. induction 1 as [|m l Hm _ IH]; [done|]. rw filter_cons_False; [done|congruence]. Qed.

End Routing.

(** A headset's stream: what its battery says, the phase of its execution, its
    registration again. *)
Definition sample_stream : list ws_message :=
  [Text (dumps_default (JObj [(u "type", JStr (u "BATTERY_UPDATE")); (u "level", JInt 80)]));
   Text (dumps_default (JObj [(u "type", JStr (u "PUSH_PHASE")); (u "job_id", JStr (u "job-1")); (u "phase", JStr (u "applying"))]));
   Other; Text (u "no json");
   Text (dumps_default (JObj [(u "type", JStr (u "REGISTER")); (u "device_id", JStr (u "headset-1"))]))].
Definition sample_response : response_state := prepare false (u "mdm") (u "/ws/device").
Abbreviation sample_frames := (@handler_frames quiet_world 4 100 30 6 7 sample_response sample_stream sample_live).
(** The runtime takes the phase. *)
Example sample_frames_are : sample_frames.1 = Ret (take 1 sample_stream ++ drop 2 sample_stream).
Proof. vm_compute. reflexivity. Qed.

(** ** What a console starts with *)

Lemma keep_first_elem l seen x : x ∈ keep_first seen l <-> x ∈ l /\ (x ∉ seen).
Proof.
  induction l as [|y l IH] in seen |- *; cbn; [split; [intros []%not_elem_of_nil|intros [[]%not_elem_of_nil _]]|].
  case_bool_decide as Hy; rw ?elem_of_cons IH.
  - split; [naive_solver|]. intros [[->|Hx] Hn]; naive_solver.
  - split; [intros [->|[Hx Hn%not_elem_of_cons]]; naive_solver|]. intros [Hx Hn].
    destruct (decide (x = y)) as [->|]; [by left|right]. split; [naive_solver|by apply not_elem_of_cons].
Qed.
Lemma keep_first_nodup l seen : NoDup (keep_first seen l).
Proof.
  induction l as [|y l IH] in seen |- *; cbn; [constructor|]. case_bool_decide; [done|]. constructor; [|done].
  intros [_ Hn]%keep_first_elem. apply Hn. by left.
Qed.
Lemma order_by_elem {A} (key : A -> Z) l x : x ∈ order_by key l <-> x ∈ l.
Proof. by rw /order_by merge_sort_Permutation. Qed.
Lemma jobs_by_update_elem d p id : id ∈ jobs_by_update d p <-> exists j, jobs d !! id = Some j /\ p j = true.
Proof.
  rw /jobs_by_update list_elem_of_fmap. split.
  - intros ([id' j] & -> & Hin). apply order_by_elem, list_elem_of_filter in Hin as [Hp Hj%elem_of_map_to_list]. by exists j.
  - intros (j & Hj & Hp). exists (id, j). split; [done|].
    by apply order_by_elem, list_elem_of_filter; split; [|apply elem_of_map_to_list].
Qed.
Lemma latest_job_exists d v id : latest_job d v = Some id -> is_Some (jobs d !! id).
Proof.
  rw /latest_job. intros ([[id' v'] r] & H & ->)%fmap_Some. apply last_Some in H as [l Hl].
  assert ((id', v', r) ∈ order_by (fun kr => d_enqueue_seq kr.2)
    (filter (fun kr => kr.1.2 = v /\ is_Some (jobs d !! kr.1.1)) (assignment_rows d))) as Hin
    by (rw Hl; apply elem_of_app; right; by left).
  by apply order_by_elem, list_elem_of_filter in Hin as [[_ ?] _].
Qed.

Lemma list_ids_exist d limit cutoff : constraints d -> Forall (fun id => is_Some (jobs d !! id)) (list_ids d limit cutoff).
Proof.
  intros Hc. apply Forall_forall. intros id [Hin _]%keep_first_elem. rw !elem_of_app in Hin.
  destruct Hin as [Hin|[Hin%subseteq_take|[Hin|Hin]]].
  1,2: apply jobs_by_update_elem in Hin as (j & -> & _); by eexists.
  - apply elem_of_remove_dups, list_elem_of_omap in Hin as ([v f] & Hf%elem_of_map_to_list & Hid).
    pose proof (c_fence_job _ Hc _ _ Hf) as Hr. cbn in Hid, Hr. by rw Hid in Hr.
  - apply list_elem_of_omap in Hin as ([v f] & _ & Hid). cbn in Hid.
    destruct (f_blocking_job_id f); [done|]. by apply latest_job_exists in Hid.
Qed.

Lemma all_snapshots d c ids : Forall (fun id => is_Some (jobs d !! id)) ids ->
  exists snaps, map_each _snapshot ids (Conn d c) = (Ret snaps, Conn d c) /\
    Forall2 (fun id s => s_job_id s = id /\ snapshot_of d id = Some s) ids snaps.
Proof.
  induction 1 as [|id ids [j Hj] _ (snaps & Hm & Hs)]; [by exists []|].
  assert (exists s, snapshot_of d id = Some s /\ s_job_id s = id) as (s & Hs1 & Hid) by (rw /snapshot_of Hj; by eexists).
  exists (s :: snaps). split; [|by constructor].
  cbn [map_each]. by rw /mbind /M_bind (snapshot_eval _ _ _ c Hs1) Hm.
Qed.

(** The snapshots a console needs: each job once, as it is now; every job that is not
    finished, and every job that holds a device's fence; the latest changes first. *)
Record tells (d : db) (snaps : list snapshot) : Prop := Tells {
  t_once : NoDup (s_job_id <$> snaps);
  t_current : Forall (fun s => snapshot_of d (s_job_id s) = Some s) snaps;
  t_order : Sorted (key_order (fun s => - s_updated_at s)) snaps;
  t_unfinished : forall id j, jobs d !! id = Some j -> j_state j ∈ NON_TERMINAL_JOB_VALUES -> id ∈ s_job_id <$> snaps;
  t_fences : forall v f id, fences d !! v = Some f ->
    f_blocking_job_id f = Some id \/ f_blocking_job_id f = None /\ latest_job d v = Some id -> id ∈ s_job_id <$> snaps;
}.
Lemma list_snapshots_tells d c limit cutoff : constraints d ->
  exists snaps, list_snapshots limit cutoff (Conn d c) = (Ret snaps, Conn d c) /\ tells d snaps.
Proof.
  intros Hc. destruct (all_snapshots d c _ (list_ids_exist d limit cutoff Hc)) as (snaps & Hm & Hs).
  exists (order_by (fun s => - s_updated_at s) snaps).
  split; [by rw /list_snapshots /mbind /M_bind /select /= Hm|].
  assert (s_job_id <$> snaps = list_ids d limit cutoff) as Hids.
  { clear Hm. revert Hs. generalize (list_ids d limit cutoff) as ids. intros ids Hs.
    induction Hs as [|id s ids snaps [<- _] _ IH]; [done|]. by rw fmap_cons IH. }
  assert (s_job_id <$> order_by (fun s => - s_updated_at s) snaps ≡ₚ list_ids d limit cutoff) as Hperm
    by by rw -Hids /order_by merge_sort_Permutation.
  split.
  - rw Hperm. apply keep_first_nodup.
  - apply Forall_forall. intros s Hin%order_by_elem.
    apply list_elem_of_lookup in Hin as [i Hi]. destruct (Forall2_lookup_r _ _ _ _ _ Hs Hi) as (id & _ & <- & H). done.
  - apply Sorted_merge_sort. intros a b. rw /key_order. lia.
  - intros id j Hj Hst. rw Hperm. apply keep_first_elem. split; [|apply not_elem_of_nil].
    apply elem_of_app. left. apply jobs_by_update_elem. exists j. split; [done|]. by apply bool_decide_eq_true_2.
  - intros v f id Hf Hid. rw Hperm. apply keep_first_elem. split; [|apply not_elem_of_nil]. rw !elem_of_app.
    right. right. destruct Hid as [Hid|[Hnone Hid]]; [left|right].
    + apply elem_of_remove_dups, list_elem_of_omap. exists (v, f). by split; [apply elem_of_map_to_list|].
    + apply list_elem_of_omap. exists (v, f). split; [by apply elem_of_map_to_list|]. cbn. by rw Hnone.
Qed.

(** Other tasks take steps of the lifecycle, nothing is cancelled or lost, frames that
    left are not taken back, and the console is no device's socket. *)
Record undisturbed (W : world) (ws : N) : Prop := Undisturbed {
  u_steps : others_step W;
  u_cancelled : forall n, cancelled_at n = None;
  u_lost : forall n, lost_send n = None;
  u_sockets : forall n r, sockets (others_memory n r) !! ws = sockets r !! ws;
  u_outbox : forall n r frame, frame ∈ outbox r -> frame ∈ outbox (others_memory n r);
}.

Lemma now_ms_then {W : world} {B} (f : Z -> Task B) s :
  (now_ms ≫= f) s = f (clock (reads s)) (s <| reads := S (reads s) |>).
Proof. done. Qed.
Lemma call_undisturbed {W : world} ws {A} (op : Z -> Op A) s a : undisturbed W ws ->
  (forall n, op n (canon (others s)) = (Ret a, canon (others s))) ->
  call op s = (Ret a, others (others s <| reads := S (reads s) |>)).
Proof. intros Hw H. rw /call (u_cancelled _ _ Hw) H. done. Qed.
Lemma send_undisturbed {W : world} ws payload s : undisturbed W ws -> sockets (memory s) !! ws = None ->
  exists s', send ws payload s = (Ret tt, s') /\ (ws, JObj payload) ∈ outbox (memory s').
Proof.
  intros Hw Hs. rw /send pause_then (u_cancelled _ _ Hw) look_then. rw /may_send /= (u_sockets _ _ Hw) Hs /=.
  rw gets_then (u_lost _ _ Hw) change_then /pause (u_cancelled _ _ Hw).
  eexists. split; [done|]. cbn. apply (u_outbox _ _ Hw). apply elem_of_app. right. by left.
Qed.

Lemma quiet_undisturbed ws : undisturbed quiet_world ws.
Proof. split; try done. apply quiet_steps. Qed.

(** ** The end of the runtime *)

Lemma release_device_spec v t : t_waiters (release_device v t) = t_waiters t /\
  (forall f, future_done (future_state t f) = true -> future_done (future_state (release_device v t) f) = true) /\
  (forall k f, (k, f) ∈ t_waiters t -> k_device_id k = v -> future_done (future_state (release_device v t) f) = true).
Proof.
  pose proof (release_all_is_exact t v (u "shutdown")) as H. rw /release_device.
  destruct (release_all_for_device t v (u "shutdown")) as [released t']. destruct H as (Hw & Hf & _). cbn.
  split_and!; [done|intros f Hd; by rw Hf Hd andb_false_r|].
  intros k f Hin Hk. rw Hf. destruct (future_done (future_state t f)) eqn:Hd; [by rw andb_false_r|].
  rw bool_decide_eq_true_2; [|apply Exists_exists; by exists (k, f)]. done.
Qed.
Lemma release_devices_spec vs t : t_waiters (foldr release_device t vs) = t_waiters t /\
  forall v k f, v ∈ vs -> (k, f) ∈ t_waiters t -> k_device_id k = v ->
    future_done (future_state (foldr release_device t vs) f) = true.
Proof.
  induction vs as [|v vs [Hw IH]]; cbn; [split; [done|intros ? ? ? []%not_elem_of_nil]|].
  destruct (release_device_spec v (foldr release_device t vs)) as (Hw' & Hkeep & Hrel).
  split; [by rw Hw'|]. intros v' k f [->|Hv]%elem_of_cons Hin Hk; [|by eapply Hkeep, IH].
  apply (Hrel k); [by rw Hw|done].
Qed.

(** Once [on_cleanup] returns there is no session and no candidate, and whatever waited
    for a transfer of a connected device is woken. *)
Lemma cleanup_releases_everything (W : world) s s' : on_cleanup s = (Ret tt, s') ->
  sessions (memory s') = ∅ /\ registration_candidates (memory s') = ∅ /\
  exists r, t_waiters (transfer_registry (memory s')) = t_waiters (transfer_registry r) /\
    forall v k f, is_Some (sessions r !! v) -> (k, f) ∈ t_waiters (transfer_registry r) -> k_device_id k = v ->
      future_done (future_state (transfer_registry (memory s')) f) = true.
Proof.
  rw /on_cleanup. intros ([] & s1 & _ & H)%task_bind_ret. rw look_then in H.
  apply task_bind_ret in H as ([] & s2 & _ & H). apply task_bind_ret in H as ([] & s3 & _ & [= <-]).
  split_and!; [done..|]. exists (memory s3).
  destruct (release_devices_spec (map_to_list (sessions (memory s3))).*1 (transfer_registry (memory s3))) as [Hw Hd].
  split; [done|]. intros v k f [x Hx] Hin Hk. apply (Hd v k f); [|done..].
  apply list_elem_of_fmap. exists (v, x). split; [done|by apply elem_of_map_to_list].
Qed.

(** ** Everything pending goes out *)

Lemma dict_del_absent {V} (k : pystr) (m : list (pystr * V)) : k ∉ m.*1 -> dict_del k m = m.
Proof.
  induction m as [|[k2 v] m IH]; [done|]. rw fmap_cons not_elem_of_cons. intros [Hk Hm].
  rw /dict_del filter_cons decide_True; [|simpl in *; congruence]. f_equal. by apply IH.
Qed.

(** One turn more than there are pending snapshots is enough when nothing is added: all of
    them are sent, the newest entry first, and the loop of a runtime that ends is over. *)
Lemma pending_goes_out (W : world) s :
  (forall n, cancelled_at n = None) -> (forall n r, pending_publications (others_memory n r) = pending_publications r) ->
  NoDup (pending_publications (memory s)).*1 ->
  exists s', drained (S (length (pending_publications (memory s)))) s = (Ret (true, reverse (pending_publications (memory s)).*2), s').
Proof.
  intros Hc Ho Hn.
  assert (forall turns s, NoDup (pending_publications (memory s)).*1 -> (length (pending_publications (memory s)) < turns)%nat ->
    exists s', publish_pending turns s = (Ret (reverse (pending_publications (memory s)).*2), s') /\
      pending_publications (memory s') = []) as Hp.
  { clear s Hn. intros turns. induction turns as [|turns IH]; intros s Hn Hl; [lia|]. simpl.
    destruct (pending_publications (memory s)) as [|[id snap] l _] eqn:E using rev_ind.
    { assert (publish_next s = (Ret None, s)) as E0 by by rw /publish_next look_then E.
      exists s. by rw /mbind /M_bind E0. }
    rw fmap_app in Hn. apply NoDup_app in Hn as (Hn & Hid & _).
    assert (dict_del id (l ++ [(id, snap)]) = l) as Hd.
    { rw /dict_del filter_app filter_cons /= decide_False; [|by intros []]. rw app_nil_r.
      apply dict_del_absent. intros Hin. apply (Hid id Hin). left. }
    set (s1 := others (s <| memory := (memory s) <| pending_publications := l |> |>)).
    assert (publish_next s = (Ret (Some snap), s1)) as E1.
    { rw /publish_next look_then E last_snoc change_then pause_then /= Hc E Hd. done. }
    assert (pending_publications (memory s1) = l) as El by by rw /s1 /= Ho.
    destruct (IH s1) as (s' & E2 & Hs'); [by rw El|rw El; rw length_app /= in Hl; lia|].
    exists s'. rw /mbind /M_bind E1 E2 El fmap_app reverse_app /=. done. }
  destruct (Hp _ s Hn (Nat.lt_succ_diag_r _)) as (s' & E & Hs'). exists s'. rw /drained /mbind /M_bind E /look /gets Hs'. done.
Qed.
