(* ===== verification/Seeding.v ===== *)
(** * The seeding script (scripts/seed_dummy_devices.py)

    The script that adds and removes dummy devices on a running server: finding the
    server's port, numbering the dummies after those that are listed, the frames it sends,
    and which devices it asks the server to forget.  What the server sends is a list of
    arrivals; a time-out ends a wait.  Decimal digits outside ASCII, which [int] reads too,
    are not modelled. *)

From S2P Require Import Prelude PyStr Text Json Sha256 Fingerprint Reading Decode Discovery.
Open Scope Z_scope.

(** ** Texts and numbers *)

(** [int(s)]: blanks around, a sign, digits with single underscores between them. *)
Fixpoint read_digits (after_digit : bool) (acc : N) (s : pystr) : option N :=
  match s with
  | [] => if after_digit then Some acc else None
  | c :: s' =>
      if is_digit c then read_digits true (acc * 10 + (c - 48))%N s'
      else if (c =? 95)%N && after_digit then read_digits false acc s'
      else None
  end.
Definition int_of_text (s : pystr) : option Z :=
  match strip s with
  | [] => None
  | c :: ds =>
      if (c =? 45)%N then (fun n => - Z.of_N n) <$> read_digits false 0 ds
      else if (c =? 43)%N then Z.of_N <$> read_digits false 0 ds
      else Z.of_N <$> read_digits false 0 (c :: ds)
  end.
(** [f"{i:0{width}d}"]: zeros after the sign. *)
Definition zero_pad (width : nat) (i : Z) : pystr :=
  let digits := str_of_N (Z.to_N (Z.abs i)) in
  let sign := if i <? 0 then [45%N] else [] in
  sign ++ replicate (width - length sign - length digits) 48%N ++ digits.

(** ** The server's port *)

Inductive script_error := AttributeError | IndexError | ValueError | JSONDecodeError | TypeError | KeyError | UsageError (text : pystr).

(** [int(obj["ws_url"].split(":")[2].split("/")[0])]. *)
Definition port_of_url (url : json) : outcome script_error Z :=
  match url with
  | JStr s =>
      match split_on 58 s !! 2%nat with
      | Some part => outcome_of ValueError (int_of_text (default [] (split_on slash part !! 0%nat)))
      | None => Raise IndexError
      end
  | _ => Raise AttributeError
  end.
Definition truthy_value (v : json) : bool :=
  match v with
  | JNull | JBool false | JInt 0 | JStr [] | JArr [] | JObj [] => false
  | JFloat (PFin q) => negb (QArith_base.Qeq_bool q (QArith_base.inject_Z 0))
  | _ => true
  end.
(** The loop over the packets; no more packets is a time-out, an [OSError] ends it. *)
Fixpoint replies (arrivals : list received) : outcome script_error (option Z) :=
  match arrivals with
  | [] | TimedOut :: _ | SocketError :: _ => Ret None
  | Packet data _ :: rest =>
      match decode data ≫= loads with
      | None => replies rest
      | Some (JObj obj) =>
          if eq_str (get (u "service") obj) (u "stylymdm") && truthy_value (get (u "ws_url") obj)
          then port ← port_of_url (get (u "ws_url") obj); mret (Some port)
          else replies rest
      | Some _ => Raise AttributeError
      end
  end.
Definition discover_ws_port (opened : bool) (arrivals : list received) : outcome script_error (option Z) :=
  if opened then replies arrivals else Ret None.
Definition resolve_port (port : option Z) (no_discover : bool) (discovered : outcome script_error (option Z))
    (mdm_ws_port : option pystr) : outcome script_error Z :=
  match port with
  | Some p => Ret p
  | None =>
      found ← (if no_discover then Ret None else discovered);
      match found with
      | Some p => Ret p
      | None => outcome_of ValueError (int_of_text (default (u "7070") mdm_ws_port))
      end
  end.

(** ** Listing *)

(** What arrives on a console's socket. *)
Inductive arrival := Frame (text : pystr) | OtherMessage | NothingInTime.
Definition device_list (obj : list (pystr * json)) : option (list json) :=
  if eq_str (get (u "type") obj) (u "DEVICE_LIST")
  then Some match get (u "devices") obj with JArr l => l | _ => [] end else None.
(** [fetch_device_list]: the first list among eight messages; a text that is no JSON object
    raises.  The server's lists are arrays. *)
Fixpoint fetch_device_list (turns : nat) (arrivals : list arrival) : outcome script_error (list json) :=
  match turns, arrivals with
  | O, _ | _, [] | _, NothingInTime :: _ => Ret []
  | S k, OtherMessage :: rest => fetch_device_list k rest
  | S k, Frame text :: rest =>
      match loads text with
      | None => Raise JSONDecodeError
      | Some (JObj obj) => match device_list obj with Some l => Ret l | None => fetch_device_list k rest end
      | Some _ => Raise AttributeError
      end
  end.
(** [latest_device_list]: the last one before the deadline. *)
Fixpoint latest_device_list (devices : list json) (arrivals : list arrival) : outcome script_error (list json) :=
  match arrivals with
  | [] | NothingInTime :: _ => Ret devices
  | OtherMessage :: rest => latest_device_list devices rest
  | Frame text :: rest =>
      match loads text with
      | None => Raise JSONDecodeError
      | Some (JObj obj) => latest_device_list (default devices (device_list obj)) rest
      | Some _ => Raise AttributeError
      end
  end.
(** [d.get("device_id", "")] and its [startswith]. *)
Definition device_id_of (d : json) : outcome script_error pystr :=
  match d with
  | JObj o => match assoc_get (u "device_id") o with
              | Some (JStr s) => Ret s
              | Some _ => Raise AttributeError
              | None => Ret []
              end
  | _ => Raise AttributeError
  end.

(** ** Adding *)

Definition MAX_LABEL_LEN : nat := 64.
Definition MODELS : list pystr := [u "A94U0"; u "PICO 4"; u "PICO 4 Ultra"; u "PICO 4 Enterprise"].
Definition serial_glob (prefix : pystr) : pystr := prefix ++ u "-TEST-".
Definition serial_for (prefix : pystr) (i : Z) : pystr := serial_glob prefix ++ zero_pad 4 i.

Record spec := Spec { device_id : pystr; label : pystr; model : pystr; ip : pystr; level : Z; charging : bool }.
(** The numbers of the dummies that are listed; what is no number is skipped. *)
Definition number_of (prefix id : pystr) : option Z :=
  if startswith id (serial_glob prefix) then int_of_text (drop (length (serial_glob prefix)) id) else None.
Definition start_of (used : list Z) : Z :=
  match used with [] => 1 | n :: rest => foldl Z.max n rest + 1 end.
Definition spec_for (prefix : pystr) (i : Z) : spec :=
  Spec (serial_for prefix i) (take MAX_LABEL_LEN (prefix ++ u "-" ++ zero_pad 2 i))
    (default [] (MODELS !! Z.to_nat (i mod 4))) (u "192.168.128." ++ str_of_int (100 + i mod 150))
    (5 + (i * 7) mod 95) (bool_decide (i mod 4 = 0)).
Definition specs_for (prefix : pystr) (existing : list json) (count : nat) : outcome script_error (list spec) :=
  ids ← mapM device_id_of existing;
  let start := start_of (omap (number_of prefix) ids) in
  mret ((fun n => spec_for prefix (start + Z.of_nat n)) <$> seq 0 count).

(** The frames of a dummy's socket, and of the console that labels it. *)
Definition device_frames (s : spec) : list json :=
  [JObj [(u "type", JStr (u "REGISTER")); (u "device_id", JStr (device_id s)); (u "model", JStr (model s));
         (u "ip", JStr (ip s))];
   JObj [(u "type", JStr (u "BATTERY_UPDATE")); (u "level", JInt (level s)); (u "charging", JBool (charging s))]].
Definition label_frame (s : spec) : json :=
  JObj [(u "type", JStr (u "SET_DEVICE_LABEL")); (u "device_id", JStr (device_id s)); (u "label", JStr (label s))].
(** [add_devices]: the exit status, from the list the server sends at the end. *)
Definition listed_id (d : json) : outcome script_error (option pystr) :=
  match d with
  | JObj o => match assoc_get (u "device_id") o with
              | Some (JStr s) => Ret (Some s)
              | Some (JArr _) | Some (JObj _) => Raise TypeError
              | Some _ => Ret None
              | None => Raise KeyError
              end
  | _ => Raise TypeError
  end.
Definition added_status (specs : list spec) (listed : list json) : outcome script_error Z :=
  ids ← mapM listed_id listed;
  let present := filter (fun id => id ∈ (device_id <$> specs)) (remove_dups (omap id ids)) in
  mret (if (length present =? length specs)%nat then 0 else 1).

(** ** Removing *)

Definition is_online (d : json) : bool := match d with JObj o => eq_str (get (u "status") o) (u "online") | _ => false end.
Definition dummies (prefix : pystr) (ids : list pystr) : list pystr :=
  filter (fun id => startswith id (serial_glob prefix) = true) ids.
Definition forget_frame (serial : pystr) : json :=
  JObj [(u "type", JStr (u "FORGET_DEVICE")); (u "device_id", JStr serial)].
(** The frames that are sent, and the status from the list that comes last. *)
Definition remove_devices (prefix : pystr) (listed : list json) (remaining : list json)
    : outcome script_error (list json * Z) :=
  ids ← mapM device_id_of listed;
  let targets := dummies prefix ids in
  if bool_decide (targets = []) then mret ([], 0)
  else
    let online := omap (fun id_d => if bool_decide (id_d.1 ∈ targets) && is_online id_d.2 then Some id_d.1 else None)
                    (zip ids listed) in
    left_ids ← mapM device_id_of remaining;
    let left := dummies prefix left_ids in
    mret (forget_frame <$> filter (fun serial => serial ∉ online) targets,
          if bool_decide (left ⊆ online) then 0 else 1).

(** [main] before the connection: the count, the port, the address. *)
Definition target (remove : bool) (count : Z) (host : pystr) (port : outcome script_error Z) : outcome script_error pystr :=
  if negb remove && (count <=? 0) then Raise (UsageError (u "count must be a positive integer"))
  else p ← port; mret (u "ws://" ++ host ++ u ":" ++ str_of_int p).

(** ** Numbers are read back *)

Lemma read_digits_all ds b acc : Forall (fun c => is_digit c = true) ds -> b = true \/ ds <> [] ->
  read_digits b acc ds = Some (foldl (fun acc d => (acc * 10 + (d - 48))%N) acc ds).
Proof.
  intros Hd. induction Hd as [|c ds Hc _ IH] in b, acc |- *; cbn; [by intros [->|]|]. intros _. rw Hc. apply IH. by left.
Qed.
Lemma zeros_value n ds : foldl (fun acc d => (acc * 10 + (d - 48))%N) 0%N (replicate n 48%N ++ ds) = digits_value ds.
Proof. induction n as [|n IH]; [done|]. exact IH. Qed.

Lemma digit_cases c : is_digit c = true -> (48 <= c <= 57)%N.
Proof. rw /is_digit andb_true_iff !N.leb_le. lia. Qed.
Lemma digit_not_space c : is_digit c = true -> isspace c = false.
Proof.
  intros Hc%digit_cases. apply bool_decide_eq_false_2. intros Hin.
  assert (Forall (fun w => (w < 48 \/ 57 < w)%N) whitespace) as Hw by (apply (bool_decide_eq_true_1 _); by vm_compute).
  rw Forall_forall in Hw. destruct (Hw c Hin); lia.
Qed.
Lemma no_space_strip s : Forall (fun c => isspace c = false) s -> strip s = s.
Proof.
  intros Hs. apply strip_by_id.
  - intros c Hc. by destruct Hs; cbn in Hc; [|injection Hc as <-].
  - intros c [l ->]%last_Some. rw Forall_app in Hs. by destruct Hs as [_ [? _]%Forall_cons].
Qed.
Lemma int_of_digits ds : Forall (fun c => is_digit c = true) ds -> ds <> [] ->
  int_of_text ds = Some (Z.of_N (foldl (fun acc d => (acc * 10 + (d - 48))%N) 0%N ds)) /\
  int_of_text (45%N :: ds) = Some (- Z.of_N (foldl (fun acc d => (acc * 10 + (d - 48))%N) 0%N ds)).
Proof.
  intros Hd Hne. assert (Forall (fun c => isspace c = false) ds) as Hs
    by (eapply Forall_impl; [exact Hd|]; intros c; apply digit_not_space).
  pose proof (read_digits_all ds false 0 Hd (or_intror Hne)) as Hr.
  rw /int_of_text !no_space_strip //; [|by constructor]. split.
  - destruct ds as [|c ds]; [done|]. apply Forall_cons in Hd as [Hc%digit_cases _].
    destruct (N.eqb_spec c 45); [lia|]. destruct (N.eqb_spec c 43); [lia|]. by rw Hr.
  - by rw /= Hr.
Qed.
Lemma int_of_zero_pad w i : int_of_text (zero_pad w i) = Some i.
Proof.
  rw /zero_pad. set (n := (w - _ - _)%nat). set (digits := str_of_N _).
  assert (Forall (fun c => is_digit c = true) (replicate n 48%N ++ digits)) as Hd
    by (apply Forall_app; split; [by apply Forall_replicate|apply str_of_N_digits]).
  assert (replicate n 48%N ++ digits <> []) as Hne.
  { destruct (str_of_N_head (Z.to_N (Z.abs i))) as (c & t & Ht & _). rw /digits Ht. by destruct n. }
  destruct (int_of_digits _ Hd Hne) as [H1 H2]. rw zeros_value digits_value_str in H1, H2.
  destruct (Z.ltb_spec i 0); cbn [app]; [rw H2|rw H1]; f_equal; lia.
Qed.
Lemma int_of_str i : int_of_text (str_of_int i) = Some i.
Proof.
  assert (str_of_int i = zero_pad 0 i) as ->; [|apply int_of_zero_pad]. rw /str_of_int /zero_pad.
  destruct (Z.ltb_spec i 0); [rw Z.abs_neq; [done|lia]|rw Z.abs_eq; [done|lia]].
Qed.

(** ** The server's port is found *)

Lemma str_of_int_plain c i : is_digit c = false -> c <> 45%N -> c ∉ str_of_int i.
Proof.
  intros Hc Hm. assert (forall n, c ∉ str_of_N n) as Hn.
  { intros n Hin. pose proof (str_of_N_digits n) as Hd. rw Forall_forall in Hd. specialize (Hd c Hin). congruence. }
  rw /str_of_int. case_match; [|done]. by rw not_elem_of_cons.
Qed.
Lemma url_names_port ip ws_port : 58%N ∉ ip ->
  port_of_url (JStr (u "ws://" ++ ip ++ u ":" ++ str_of_int ws_port ++ u "/ws/device")) = Ret ws_port.
Proof.
  intros Hcolon. rw /port_of_url.
  assert (u "ws://" ++ ip ++ u ":" ++ str_of_int ws_port ++ u "/ws/device" =
    u "ws" ++ 58%N :: (u "//" ++ ip) ++ 58%N :: (str_of_int ws_port ++ slash :: u "ws/device")) as ->
    by by rw -!app_assoc.
  rw !split_on_sep; [| |by apply (bool_decide_eq_true_1 _)].
  2:{ apply not_elem_of_app. split; [by apply (bool_decide_eq_true_1 _)|done]. }
  rw split_on_plain.
  2:{ apply not_elem_of_app. split; [by apply str_of_int_plain|by apply (bool_decide_eq_true_1 _)]. }
  cbn [lookup list_lookup]. rw split_on_sep; [|by apply str_of_int_plain]. cbn [lookup list_lookup default].
  by rw /= int_of_str.
Qed.

(** What a server answers on the discovery port names its port to the script. *)
Lemma script_finds_port getsockname ip_addresses ws_port request peer addr rest :
  strip_by byte_ws request = DISCOVERY_REQUEST ->
  Forall (fun c => (c < 128)%N) (server_ip getsockname ip_addresses peer) ->
  58%N ∉ server_ip getsockname ip_addresses peer ->
  exists reply, datagram_received getsockname ws_port ip_addresses request peer = Some (Some reply) /\
    discover_ws_port true (Packet reply addr :: rest) = Ret (Some ws_port).
Proof.
  intros Hreq Hip Hcolon. rw /datagram_received bool_decide_eq_true_2 //.
  set (ip := server_ip _ _ _) in *. pose proof (reply_printable ip ws_port Hip) as Hv.
  assert (Forall (fun c => (c < 128)%N) (dumps_default (reply_value ip ws_port))) as Hascii
    by (apply dumps_ascii; [by repeat constructor..|done]).
  exists (dumps_default (reply_value ip ws_port)). split; [by rw encode_ascii|].
  rw /discover_ws_port /replies decode_ascii //. cbn [mbind option_bind]. rw loads_dumps_default //.
  transitivity (port ← port_of_url (JStr (u "ws://" ++ ip ++ u ":" ++ str_of_int ws_port ++ u "/ws/device"));
                mret (Some port) : outcome script_error (option Z)); [reflexivity|].
  by rw url_names_port.
Qed.

(** ** Dummies are new, and only dummies go *)

Lemma starts_app p s : startswith (p ++ s) p = true.
Proof. induction p as [|c p IH]; cbn; [done|]. by rw N.eqb_refl. Qed.
Lemma number_of_serial prefix i : number_of prefix (serial_for prefix i) = Some i.
Proof. by rw /number_of /serial_for starts_app drop_app_length int_of_zero_pad. Qed.

Lemma max_from n l x : x ∈ n :: l -> x <= foldl Z.max n l.
Proof.
  induction l as [|y l IH] in n, x |- *; cbn; [by intros ->%list_elem_of_singleton|].
  assert (forall m, m <= foldl Z.max m l) as Hm by (intros m; apply IH; by left).
  intros [->|[->|Hx]%elem_of_cons]%elem_of_cons.
  - etrans; [apply (Z.le_max_l n y)|apply Hm].
  - etrans; [apply (Z.le_max_r n y)|apply Hm].
  - apply IH. by right.
Qed.
Lemma below_start used n : n ∈ used -> n < start_of used.
Proof. destruct used as [|m used]; [by intros ?%not_elem_of_nil|]. intros ?%max_from. cbn. lia. Qed.

Lemma mapM_outcome_elem {A B} (f : A -> outcome script_error B) l k x : mapM f l = Ret k -> x ∈ l ->
  exists y, f x = Ret y /\ y ∈ k.
Proof.
  induction l as [|a l IH] in k |- *; [by intros _ ?%not_elem_of_nil|]. cbn.
  destruct (f a) as [b|] eqn:Ea; [|done]. cbn. destruct (mapM f l) as [k'|] eqn:El; [|done]. intros [= <-].
  intros [->|Hx]%elem_of_cons; [exists b; split; [done|by left]|].
  destruct (IH k' eq_refl Hx) as (y & Hy & Hin). exists y. split; [done|by right].
Qed.

Lemma list_filter_kept {A} (P : A -> Prop) `{!forall x, Decision (P x)} l : Forall P l -> filter P l = l.
Proof. induction 1 as [|x l Hx _ IH]; [done|]. by rw filter_cons_True // IH. Qed.

(** The dummies that are added have serials of their own: no two are the same, none is
    that of a device the server listed, whatever it listed; and each is one that a removal
    with the same prefix recognises. *)
Lemma dummies_are_new prefix existing count specs : specs_for prefix existing count = Ret specs ->
  length specs = count /\ NoDup (device_id <$> specs) /\
  (forall s d, s ∈ specs -> d ∈ existing -> device_id_of d <> Ret (device_id s)) /\
  dummies prefix (device_id <$> specs) = device_id <$> specs.
Proof.
  rw /specs_for. destruct (mapM device_id_of existing) as [ids|] eqn:Eids; [|done]. cbn. set (start := start_of _).
  intros [= <-].
  split_and!.
  - by rw length_fmap length_seq.
  - rw -list_fmap_compose. apply NoDup_fmap_2; [|apply NoDup_seq]. intros n m H.
    change (serial_for prefix (start + Z.of_nat n) = serial_for prefix (start + Z.of_nat m)) in H.
    apply (f_equal (number_of prefix)) in H. rw !number_of_serial in H. injection H as H. lia.
  - intros s d (n & -> & _)%list_elem_of_fmap Hd He.
    destruct (mapM_outcome_elem _ _ _ _ Eids Hd) as (id & Hid' & Hin). rw He in Hid'. injection Hid' as <-.
    assert (start + Z.of_nat n ∈ omap (number_of prefix) ids) as Hused
      by (apply list_elem_of_omap; exists (serial_for prefix (start + Z.of_nat n)); split; [done|apply number_of_serial]).
    apply below_start in Hused. fold start in Hused. lia.
  - apply list_filter_kept, Forall_forall. intros id (s & -> & (n & -> & _)%list_elem_of_fmap)%list_elem_of_fmap.
    apply starts_app.
Qed.

Lemma mapM_outcome_zip {A B} (f : A -> outcome script_error B) l k : mapM f l = Ret k ->
  Forall2 (fun x y => f x = Ret y) l k.
Proof.
  induction l as [|a l IH] in k |- *; cbn; [by intros [= <-]|]. destruct (f a) as [b|] eqn:Ea; [|done]. cbn.
  destruct (mapM f l) as [k'|]; [|done]. intros [= <-]. constructor; [done|by apply IH].
Qed.

(** A removal asks the server to forget listed devices with the prefix only, and each of
    those that is not online. *)
Lemma only_dummies_go prefix listed remaining frames status :
  remove_devices prefix listed remaining = Ret (frames, status) ->
  (forall v, v ∈ frames -> exists serial d, v = forget_frame serial /\ d ∈ listed /\ device_id_of d = Ret serial /\
     startswith serial (serial_glob prefix) = true) /\
  (forall d serial, d ∈ listed -> device_id_of d = Ret serial -> startswith serial (serial_glob prefix) = true ->
     (forget_frame serial ∈ frames <-> forall d', d' ∈ listed -> device_id_of d' = Ret serial -> is_online d' = false)).
Proof.
  rw /remove_devices. destruct (mapM device_id_of listed) as [ids|] eqn:Eids; [|done]. cbn.
  pose proof (mapM_outcome_zip _ _ _ Eids) as Hz.
  assert (forall serial, serial ∈ dummies prefix ids -> exists d, d ∈ listed /\ device_id_of d = Ret serial /\
    startswith serial (serial_glob prefix) = true) as Htarget.
  { intros serial [Hs [i Hi]%list_elem_of_lookup]%list_elem_of_filter.
    destruct (Forall2_lookup_r _ _ _ _ _ Hz Hi) as (d & Hd & Hid). exists d. split; [by eapply list_elem_of_lookup_2|done]. }
  assert (forall d serial, d ∈ listed -> device_id_of d = Ret serial -> startswith serial (serial_glob prefix) = true ->
    serial ∈ dummies prefix ids) as Hdummy.
  { intros d serial Hd Hid Hs. apply list_elem_of_filter. split; [done|].
    destruct (mapM_outcome_elem _ _ _ _ Eids Hd) as (id & Hid' & Hin). congruence. }
  case_bool_decide as Hnone.
  - intros [= <- <-]. split; [by intros v ?%not_elem_of_nil|]. intros d serial Hd Hid Hs.
    specialize (Hdummy d serial Hd Hid Hs). rw Hnone in Hdummy. by apply not_elem_of_nil in Hdummy.
  - destruct (mapM device_id_of remaining) as [left_ids|]; [|done]. cbn. set (online := omap _ _). intros [= <- _].
    assert (forall serial, serial ∈ dummies prefix ids ->
      serial ∈ online <-> exists d', d' ∈ listed /\ device_id_of d' = Ret serial /\ is_online d' = true) as Honline.
    { intros serial Hin. rw /online list_elem_of_omap. split.
      - intros ([id d'] & [i Hi]%list_elem_of_lookup & Hsome). cbn in Hsome.
        apply lookup_zip_Some in Hi as [Hid Hd']. destruct (bool_decide _ && is_online d') eqn:Eb; [|done].
        injection Hsome as ->. apply andb_prop in Eb as [_ Hon].
        destruct (Forall2_lookup_r _ _ _ _ _ Hz Hid) as (d2 & Hd2 & Hf). assert (d2 = d') as -> by congruence.
        exists d'. split; [by eapply list_elem_of_lookup_2|done].
      - intros (d' & [i Hd']%list_elem_of_lookup & Hid & Hon).
        destruct (Forall2_lookup_l _ _ _ _ _ Hz Hd') as (id & Hi & Hf). assert (id = serial) as -> by congruence.
        exists (serial, d'). split; [|cbn; by rw (bool_decide_eq_true_2 _ Hin) Hon].
        apply (list_elem_of_lookup_2 _ i), lookup_zip_Some. done. }
    split.
    + intros v (serial & -> & [_ Hin]%list_elem_of_filter)%list_elem_of_fmap.
      destruct (Htarget serial Hin) as (d & Hd & Hid & Hs). by exists serial, d.
    + intros d serial Hd Hid Hs. specialize (Hdummy d serial Hd Hid Hs). rw list_elem_of_fmap. split.
      * intros (serial' & [= <-] & [Hoff _]%list_elem_of_filter) d' Hd' Hid'.
        destruct (is_online d') eqn:Eon; [|done]. destruct Hoff. apply Honline; [done|by exists d'].
      * intros Hall. exists serial. split; [done|]. apply list_elem_of_filter. split; [|done].
        intros (d' & Hd' & Hid' & Hon)%Honline; [|done]. by rw (Hall d' Hd' Hid') in Hon.
Qed.

(** ** What goes wrong *)

(** "Labels never collide": labels are cut to 64 characters, and those of a long prefix are
    the same, which the server refuses for every dummy but the first. *)
Lemma long_prefixes_collide i j : label (spec_for (replicate 64 68%N) i) = label (spec_for (replicate 64 68%N) j).
Proof. cbn [label spec_for]. by rw !take_app_le. Qed.
(** A packet on the port that is a JSON text but no object ends the script, where the
    server's own probe goes on. *)
Lemma stray_packet_ends_script rest : discover_ws_port true (Packet (u "[]") (u "192.168.1.7") :: rest) = Raise AttributeError.
Proof. reflexivity. Qed.
