(* ===== verification/Startup.v ===== *)
(** * Start-up (server.py: [main], [_apply_data_dir], [run_server])

    What the command line and the environment decide before the server serves: the command
    that is run, the directories, the number of transfer slots, the port, and whether
    another server of the network keeps this one from starting.  argparse has read the
    arguments. *)

From S2P Require Import Prelude PyStr Text Json Paths Sha256 Integrity Manifest.
From S2P Require Import Fingerprint Reading Decode Discovery Seeding.
Open Scope Z_scope.

(** Directories as the segments of their absolute paths. *)
Record locations := Locations {
  DATA_DIR : list pystr;
  APK_DIR : list pystr;
  BUNDLE_DIR : list pystr;
  REGISTRY_PATH : list pystr;
}.
Definition locate (root : list pystr) : locations :=
  Locations root (root ++ [u "apks"]) (root ++ [u "bundles"]) (root ++ [u "device_registry.json"]).
(** [Path(path).resolve()] in the working directory [cwd], without links. *)
Definition absolute (cwd : list pystr) (path : pystr) : list pystr :=
  resolve ((if startswith path [slash] then [] else cwd) ++ split_on slash path).
Definition initial_locations (cwd : list pystr) (mdm_data_dir : option pystr) : locations :=
  locate (absolute cwd (default (u ".") mdm_data_dir)).
Definition _apply_data_dir (cwd : list pystr) (path : pystr) : locations := locate (absolute cwd path).

(** [MAX_CONCURRENT_TRANSFERS] when the module is loaded. *)
Definition initial_transfers (mdm_max : option pystr) : option Z := Z.max 1 <$> int_of_text (default (u "5") mdm_max).

Record arguments := Arguments {
  a_hash : option (pystr * option Z);
  a_data_dir : option pystr;
  a_max_concurrent_transfers : option Z;
  a_port : option Z;
}.
Record environ := Environ {
  MDM_DATA_DIR : option pystr;
  MDM_MAX_CONCURRENT_TRANSFERS : option pystr;
  MDM_WS_PORT : option pystr;
}.
Record configuration := Configuration { places : locations; max_transfers : Z; ws_port : Z }.
Inductive startup :=
  | Exits (status : Z) (stdout : option json) (stderr : option pystr)
  | BadNumber (text : pystr)
  | BadName
  | Serves (c : configuration).

(** [run_server]'s port. *)
Definition server_port (port : option Z) (mdm_ws_port : option pystr) : option Z :=
  match port with Some p => Some p | None => int_of_text (default (u "7070") mdm_ws_port) end.

Section Main.
(** What is at a path, and the other server the probe reports. *)
Context (target_of : pystr -> hash_target) (cwd : list pystr) (env : environ).

Definition main (args : arguments) (existing_ip : option pystr) : startup :=
  match initial_transfers (MDM_MAX_CONCURRENT_TRANSFERS env) with
  | None => BadNumber (default [] (MDM_MAX_CONCURRENT_TRANSFERS env))
  | Some transfers =>
      match a_hash args with
      | Some (path, manifest_cap) =>
          match run_hash_cli path (target_of path) manifest_cap with
          | Ret result => Exits (status result) (stdout result) (stderr result)
          | Raise UnicodeEncodeError => BadName
          end
      | None =>
          let places := match a_data_dir args with
                        | Some path => _apply_data_dir cwd path
                        | None => initial_locations cwd (MDM_DATA_DIR env)
                        end in
          let transfers := match a_max_concurrent_transfers args with Some n => Z.max 1 n | None => transfers end in
          match existing_ip with
          | Some _ => Exits 1 None None
          | None =>
              match server_port (a_port args) (MDM_WS_PORT env) with
              | Some port => Serves (Configuration places transfers port)
              | None => BadNumber (default [] (MDM_WS_PORT env))
              end
          end
      end
  end.

(** ** Who starts *)

Lemma listen_none deadline arrivals : listen deadline arrivals = None ->
  forall before now data addr after, arrivals = before ++ (now, Packet data addr) :: after ->
  Forall (fun tr => tr.1 < deadline /\ exists d a, tr.2 = Packet d a) before -> now < deadline ->
  is_reply (take 1024 data) = false.
Proof.
  induction arrivals as [|[t r] arrivals IH]; intros Hl before now data addr after Heq Hb Hnow; [by destruct before|].
  cbn [listen] in Hl. destruct before as [|tr before]; cbn in Heq; injection Heq as Htr Ha; subst.
  - destruct (Z.leb_spec (deadline - now) 0); [lia|]. by destruct (is_reply _).
  - apply Forall_cons in Hb as [(Ht & d & a & Hr) Hb]. cbn in Ht, Hr. subst r.
    destruct (Z.leb_spec (deadline - t) 0); [lia|]. destruct (is_reply (take 1024 d)); [done|].
    by eapply IH.
Qed.

(** A server that starts heard no other one before the probe's deadline, has at least one
    transfer slot, and keeps everything it writes in its data directory. *)
Lemma a_server_starts_alone args opened start timeout arrivals c :
  main args (probe_existing_server opened start timeout arrivals) = Serves c ->
  (opened = true -> forall before now data addr after, arrivals = before ++ (now, Packet data addr) :: after ->
     Forall (fun tr => tr.1 < start + timeout /\ exists d a, tr.2 = Packet d a) before -> now < start + timeout ->
     is_reply (take 1024 data) = false) /\
  1 <= max_transfers c /\ places c = locate (DATA_DIR (places c)).
Proof.
  rw /main /initial_transfers. destruct (int_of_text _) as [n|]; [|done]. cbn [fmap option_fmap option_map].
  destruct (a_hash args) as [[path cap]|]; [by destruct (run_hash_cli _ _ _) as [|[]]|].
  destruct (probe_existing_server _ _ _ _) as [ip|] eqn:Ep; [done|]. destruct (server_port _ _) as [p|]; [|done].
  intros [= <-]. split_and!.
  - intros ->. intros before now data addr after. by eapply listen_none.
  - cbn. destruct (a_max_concurrent_transfers args); lia.
  - by destruct (a_data_dir args).
Qed.

(** A server of the network that answers in time keeps another one from starting,
    whatever its options are. *)
Lemma a_second_server_refuses args strays now data addr rest start timeout :
  a_hash args = None -> initial_transfers (MDM_MAX_CONCURRENT_TRANSFERS env) <> None ->
  Forall (fun tr => tr.1 < start + timeout /\ exists d a, tr.2 = Packet d a /\ is_reply (take 1024 d) = false) strays ->
  now < start + timeout -> is_reply (take 1024 data) = true ->
  main args (probe_existing_server true start timeout (strays ++ (now, Packet data addr) :: rest)) = Exits 1 None None.
Proof.
  intros Hh Ht Hs Hnow Hd. rw /main Hh /probe_existing_server (listen_finds _ _ _ _ _ _ Hs Hnow Hd).
  by destruct (initial_transfers _).
Qed.
End Main.
